(* ===== verification/_CoqProject ===== *)
-Q . S2P
Prelude.v
Rc.v
Pod.v
StoreTypes.v
OrdMap.v
BlockFormat.v
MacroBlock.v
KvCache.v
MvccRow.v
QueryEngine.v
MvccEngine.v
Posix.v
SSTable.v
Slog.v
Schema.v
LogEntry.v
LogStorage.v
Palf.v
LogIOWorker.v
LogService.v
LogRecovery.v
Ddl.v
Memtable.v
NetBuffer.v
SqlValue.v
PlanRewrite.v
MysqlProtocol.v
TableStore.v
RecordScanner.v
Compaction.v
Recovery.v
