(* ===== verification/Prelude.v ===== *)
(** * Verification of the mystorage LSM storage engine

    The repository is a small SQL server whose storage engine
    ([src/src/storage]), schema service ([src/src/share/schema]) and DDL
    service ([src/src/rootserver]) are written in C++ after OceanBase.  This
    library models that engine, and of the server around it the values, the
    plan rewriter and the MySQL protocol, and states what they do and do not
    promise.

    ** The parts of the program and the files that model them

    Reading and writing rows.
    - [StoreTypes]: [ob_define.h], [ob_i_store], [ob_i_table.h],
      [memtable/ob_memtable_key], [memtable/ob_memtable_data.h].  Row keys
      with their order and murmur hash, rows, contexts, keys of the memtable.
    - [MvccRow]: [memtable/mvcc/ob_mvcc_row].  A row is a doubly linked chain
      of versions; the nodes are in a store and the links are pointers.
    - [QueryEngine]: [memtable/mvcc/ob_query_engine], [ob_mt_hash.h].  The hash
      table and the ordered index over shared rows, scans and the iterator.
      [OrdMap] is the [std::map] it uses.
    - [MvccEngine]: [memtable/mvcc/ob_mvcc_engine].  Writes, undo, reads and
      scans of versions over the query engine.
    - [Memtable]: [memtable/ob_memtable].  [set], [multi_set], [get], [scan],
      [replay], freezing and the chunk allocator, over the MVCC engine and a log.
    - [TableStore]: [ls/ob_memtable_mgr], [ls/ob_freezer],
      [tablet/ob_tablet_table_store], [tablet/ob_tablet], [ls/ob_ls].  The
      objects above the memtable, with the manager's mutex.
    - [RecordScanner]: [ob_record_scanner].  The scan that SQL operators use.

    Files of rows.
    - [BlockFormat]: [blocksstable/ob_block_header.h], [ob_data_store_desc.h],
      [ob_micro_block_writer].  Headers byte by byte, micro blocks, and a
      reference decoder of the format.
    - [MacroBlock]: [blocksstable/ob_macro_block], [ob_macro_block_writer].
    - [SSTable]: [blocksstable/ob_sstable_meta], [ob_sstable],
      [ob_sstable_builder].
    - [Compaction]: [compaction/ob_compaction].  The mini merge and the merges
      of SSTables.
    - [KvCache]: [cache/ob_kv_cache.h], [ob_block_cache.h].

    The log.
    - [LogEntry]: [logservice/palf/log_entry], [log_meta], [log_meta_entry],
      [lsn.h], [log_define.h], [logservice/ob_log_base_header.h].
    - [LogStorage]: [logservice/palf/log_storage], [log_io_adapter].  The block
      files of a log.
    - [Palf]: [logservice/palf/palf_handle_impl], [palf_handle],
      [palf_env_impl], [log_cache.h].  Appending, reading, the recovery scan.
    - [LogIOWorker]: [logservice/palf/log_io_worker], as a transition system;
      the log environment owns one and does not start it.
    - [LogService]: [logservice/ob_log_handler], [ob_log_service].  Typed
      records, replay handlers, log streams.
    - [LogRecovery]: theorems on [Palf] and [LogService] across restarts.
    - [Slog]: [slog/ob_storage_logger], the log of metadata.

    Schemas.
    - [Schema]: [share/schema].  Columns, tables, databases, the service.
    - [Ddl]: [rootserver/ob_ddl_operator], [ob_ddl_service], and
      [init_global_objects] of [observer/common/init.cpp].

    The server around it ([src/src/observer]).
    - [Rc]: [common/sys/rc], the return codes.
    - [NetBuffer]: [net/ring_buffer], [net/buffered_writer].  The ring of bytes
      and the writer that sends it, over a socket that takes part of a [write].
    - [SqlValue]: [common/value], [common/type], [common/lang/comparator].
      Values with their union and the ownership of character buffers,
      comparison, printing and parsing.
    - [PlanRewrite]: [sql/expr/expression], [sql/optimizer].  The logical plan
      of a statement, the rewrite rules and the loop of the optimize stage.
    - [MysqlProtocol]: [net/mysql_communicator], over [NetBuffer] and
      [SqlValue].  Packets, requests, result sets, and a reference client.

    [Recovery] composes the memtable, the log and its replay.  [Posix] is the
    operating system the code calls, [Pod] the structures it moves with
    [memcpy], and this file has the outcomes, memory, integers and tactics that
    all of them share.

    ** How the code is translated

    A member function is a Definition named [Class_method] on a Record with the
    members of the class; what it changes is returned.  Integers are [Z] with
    the wrap-around of their width written out ([u32], [i64], ...) where the code
    converts or can overflow.  A buffer is a list of bytes; reading or writing
    outside it is [UB], as is a null or dangling pointer or an index outside a
    vector (and an exception nobody catches).  Objects that several pointers
    share are in a heap.  A [std::mutex] that one thread locks twice is a
    [Deadlock]; mutexes that no modelled code can lock twice are left out, and
    except in [LogIOWorker] the code is run by one thread.  The order of an
    [unordered_map] is one unspecified order, that of [map_to_list].

    The clients of a log are proved against the interface [AppendLog] and
    [DurableLog] of [LogService], which the log handler implements; the
    handlers of a log are the class [ReplaySubHandlers], which the memtable
    ([Recovery]) and the DDL service ([Ddl]) implement.

    ** Loops and fuel

    Loops whose end depends on data take an iteration bound; running out of it is
    [OutOfFuel], never a result.  Theorems that a call returns give a bound that
    is enough: one more than the number of entries for the scans and replays of a log
    (a single entry takes an iteration), the number of nodes for walks along
    a version chain, the bytes and socket answers for the writer, the nodes of a
    plan and one for the rewriter; [palf_init_total] and [slog_replay_terminates] show that the
    recovery scans end on any disk contents.

    ** What the theorems show

    - Refinement: the version chain, the MVCC engine, the memtable, the tablet
      (table store and freezer), the store and the cache behave, for every
      sequence of calls, as a version list, a map of version lists, a versioned
      map, one memtable, a directory and an LRU list.
    - Durability: rows written through the log are what a restarted process reads
      ([wal_recovery]); CREATE DATABASE is not affected by restarts
      ([ddl_restarts_invisible]); log streams, typed replay, the storage log,
      SSTables and the mini merge give back what was put in.  The log theorems
      are for logs within the first block file of 64 MB, less one read buffer.
    - Formats: headers, micro blocks, log entries and schemas survive
      serialization.
    - Server: the ring is a byte queue and the writer a stream; a result set is
      read back by a MySQL client; values compare in a total order and print and
      parse back; the rewriter ends, keeps plans typed and keeps the meaning of
      conditions.
    - Concurrency: the I/O thread handles tasks in order in every interleaving,
      and [destroy] can hang.
    - Errors: what the code does where it fails its purpose (torn writes,
      refused writes, dropped databases, long names, damaged logs, lost micro
      blocks, freezing, lost WHERE clauses, failing queries, long messages and short
      packets) is stated and proved as well.

    ** Not modelled

    The parser (a generated grammar), statements and executors, the evaluation of
    expressions, physical operators and the cost-based optimizer (most are stubs
    over storage types that do not exist yet); the plain and command line
    protocols, sessions and threads; float arithmetic and the parsing of floats;
    the other utilities of [src/src/common], the client, tests
    and benchmarks; the second, unused copy of the schema service in
    [storage/schema]; declarations without code ([log_writer_utils.h],
    [palf_options.h], [log_io_context.h], [storage/ddl]).  Making directories and
    writing the server's log messages have no effect in the model; a missing
    directory is a failing [open].  Destructors that only free memory are left
    out. *)

From stdpp Require Export base tactics gmap list strings fin_maps numbers list_numbers pretty sorting.
From Stdlib Require Export ZArith Lia.

#[global] Open Scope Z_scope.
#[global] Unset Printing Records.

(** ** Tactics and hint databases *)

Create HintDb mystorage.
Create Rewrite HintDb mystorage.
Create Rewrite HintDb blen.
#[export] Hint Extern 2 (_ <= _)%Z => lia : mystorage.
#[export] Hint Extern 2 (_ < _)%Z => lia : mystorage.
#[export] Hint Extern 2 (_ <= _)%nat => lia : mystorage.
#[export] Hint Extern 2 (_ < _)%nat => lia : mystorage.

(** Split every boolean test or option match of the goal. *)
Ltac split_match :=
  repeat match goal with
  | |- context [match ?x with _ => _ end] => destruct x eqn:?
  end.


(** Turn boolean comparisons of the context and of the goal into
    propositions and call [lia]. *)
Ltac zb :=
  repeat match goal with
  | H : (_ <? _) = true |- _ => apply Z.ltb_lt in H
  | H : (_ <? _) = false |- _ => apply Z.ltb_ge in H
  | H : (_ <=? _) = true |- _ => apply Z.leb_le in H
  | H : (_ <=? _) = false |- _ => apply Z.leb_gt in H
  | H : (_ =? _) = true |- _ => apply Z.eqb_eq in H
  | H : (_ =? _) = false |- _ => apply Z.eqb_neq in H
  end.

(** Evaluate lookups in updated maps. *)
Ltac lk :=
  repeat first
    [ rewrite lookup_alter_eq | rewrite lookup_alter_ne by done
    | rewrite lookup_insert_eq | rewrite lookup_insert_ne by done
    | rewrite lookup_delete_eq | rewrite lookup_delete_ne by done ].

(** ** Outcomes of C++ code

    [Done a]: the call returns.  [UB]: undefined behaviour (a null or dangling
    dereference, a read or write outside an object).  [Deadlock]: a
    non-recursive mutex is locked again by the thread that holds it.
    [OutOfFuel]: a loop did not finish within the iterations it was given;
    the components prove that this never happens with the fuel they use. *)
Inductive outcome (A : Type) : Type :=
  | Done (a : A)
  | UB
  | Deadlock
  | OutOfFuel.
Arguments Done {A} a.
Arguments UB {A}.
Arguments Deadlock {A}.
Arguments OutOfFuel {A}.

#[export] Instance outcome_ret : MRet outcome := fun A a => Done a.
#[export] Instance outcome_bind : MBind outcome := fun A B f o =>
  match o with
  | Done a => f a
  | UB => UB
  | Deadlock => Deadlock
  | OutOfFuel => OutOfFuel
  end.
#[export] Instance outcome_fmap : FMap outcome := fun A B f o => o ≫= (Done ∘ f).

(** A pointer that must not be null, a lookup that must succeed. *)
Definition deref {A} (o : option A) : outcome A :=
  match o with Some a => Done a | None => UB end.

Lemma outcome_bind_done {A B} (a : A) (f : A → outcome B) : (Done a ≫= f) = f a.
Proof. done. Qed.

Lemma outcome_bind_assoc {A B C} (o : outcome A) (f : A → outcome B) (g : B → outcome C) :
  ((o ≫= f) ≫= g) = (o ≫= λ a, f a ≫= g).
Proof. by destruct o. Qed.

Lemma outcome_bind_inv {A B} (o : outcome A) (f : A → outcome B) b :
  (o ≫= f) = Done b → ∃ a, o = Done a ∧ f a = Done b.
Proof. destruct o; simpl; intros H; try discriminate. eauto. Qed.

Lemma deref_inv {A} (o : option A) a : deref o = Done a → o = Some a.
Proof. destruct o; simpl; congruence. Qed.

#[export] Hint Rewrite @outcome_bind_done : mystorage.

(** Decompose a hypothesis that says a computation returned. *)
Ltac inv_done :=
  repeat match goal with
  | H : Done _ = Done _ |- _ => injection H as H
  | H : mret _ = Done _ |- _ => unfold mret, outcome_ret in H
  | H : (_ ≫= _) = Done _ |- _ => apply outcome_bind_inv in H as (? & ? & ?)
  | H : deref _ = Done _ |- _ => apply deref_inv in H
  | H : (_, _) = (_, _) |- _ => injection H as H
  end; subst; simpl in *.

(** ** Loops

    [loop body fuel s] runs [body] until it answers [inr r]. *)
Section Loop.
Context {S R : Type} (body : S → outcome (S + R)).

Fixpoint loop (fuel : nat) (s : S) : outcome R :=
  match fuel with
  | O => OutOfFuel
  | Datatypes.S fuel' =>
      x ← body s;
      match x with
      | inl s' => loop fuel' s'
      | inr r => Done r
      end
  end.

Lemma loop_step fuel s :
  loop (Datatypes.S fuel) s
  = (x ← body s; match x with inl s' => loop fuel s' | inr r => Done r end).
Proof. done. Qed.

(** More fuel does not change the result of a loop that finished. *)
Lemma loop_mono fuel fuel' s r :
  loop fuel s = Done r → (fuel ≤ fuel')%nat → loop fuel' s = Done r.
Proof.
  revert fuel' s. induction fuel as [|fuel IH]; intros fuel' s H Hle; [done|].
  destruct fuel' as [|fuel']; [lia|]. simpl in *.
  destruct (body s) as [[s'|r']| | |]; simpl in *; try done.
  apply IH; [done|lia].
Qed.

(** A measure that drops at every iteration bounds the fuel needed. *)
Lemma loop_terminates (m : S → nat) (P : S → Prop) fuel s :
  (∀ s, P s → body s ≠ OutOfFuel) →
  (∀ s s', P s → body s = Done (inl s') → P s' ∧ (m s' < m s)%nat) →
  P s → (m s < fuel)%nat → loop fuel s ≠ OutOfFuel.
Proof.
  intros Hb Hdec. revert s. induction fuel as [|fuel IH]; intros s HP Hm; [lia|].
  simpl. specialize (Hb s HP). destruct (body s) as [[s'|r]| | |] eqn:Hs; simpl; try done.
  destruct (Hdec s s' HP Hs). apply IH; [done|lia].
Qed.

(** If moreover no iteration goes wrong, the loop has a result. *)
Lemma loop_total (m : S → nat) (P : S → Prop) fuel s :
  (∀ s, P s → ∃ x, body s = Done x ∧ ∀ s', x = inl s' → P s' ∧ (m s' < m s)%nat) →
  P s → (m s < fuel)%nat → ∃ r, loop fuel s = Done r.
Proof.
  intros Hb. revert s. induction fuel as [|fuel IH]; intros s HP Hm; [lia|].
  simpl. destruct (Hb s HP) as ([s'|r] & -> & Hs); simpl; [|by eauto].
  destruct (Hs s' eq_refl). apply IH; [done|lia].
Qed.
End Loop.

(** ** Lists *)

Lemma filter_all {A} (P : A → Prop) `{!∀ x, Decision (P x)} (l : list A) :
  Forall P l → filter P l = l.
Proof. induction 1; [done|]. rewrite filter_cons, decide_True; congruence. Qed.

Lemma filter_none {A} (P : A → Prop) `{!∀ x, Decision (P x)} (l : list A) :
  Forall (λ x, ¬ P x) l → filter P l = [].
Proof. induction 1; [done|]. by rewrite filter_cons, decide_False. Qed.

Lemma list_alter_ge {A} (f : A → A) i (l : list A) : (length l ≤ i)%nat → alter f i l = l.
Proof. revert i. induction l as [|x l IH]; intros [|i] Hi; cbn in *; try lia; [done|done|]. f_equal. apply IH. lia. Qed.

(** ** Machine integers *)

Definition u8 (z : Z) : Z := z mod 2 ^ 8.
Definition u16 (z : Z) : Z := z mod 2 ^ 16.
Definition u32 (z : Z) : Z := z mod 2 ^ 32.
Definition u64 (z : Z) : Z := z mod 2 ^ 64.

(** Two's complement reading of the low [w] bits. *)
Definition sint (w z : Z) : Z :=
  let m := z mod 2 ^ w in if m <? 2 ^ (w - 1) then m else m - 2 ^ w.
Definition i16 (z : Z) : Z := sint 16 z.
Definition i32 (z : Z) : Z := sint 32 z.
Definition i64 (z : Z) : Z := sint 64 z.

Definition UINT64_MAX : Z := 2 ^ 64 - 1.
Definition INT64_MAX : Z := 2 ^ 63 - 1.
Definition INT32_MAX : Z := 2 ^ 31 - 1.

Lemma sint_small w z : 0 < w → - 2 ^ (w - 1) ≤ z < 2 ^ (w - 1) → sint w z = z.
Proof.
  intros Hw Hz. unfold sint.
  assert (2 ^ w = 2 * 2 ^ (w - 1)) as Hp.
  { rewrite <-Z.pow_succ_r by lia. f_equal; lia. }
  destruct (Z_lt_ge_dec z 0).
  - rewrite <-(Z.mod_unique z (2 ^ w) (-1) (z + 2 ^ w)) by lia.
    destruct (Z.ltb_spec (z + 2 ^ w) (2 ^ (w - 1))); lia.
  - rewrite Z.mod_small by lia.
    destruct (Z.ltb_spec z (2 ^ (w - 1))); lia.
Qed.

Lemma sint_mod w z : 0 < w → sint w (z mod 2 ^ w) = sint w z.
Proof. intros. unfold sint. by rewrite Z.mod_mod by lia. Qed.

Lemma sint_range w z : 0 < w → - 2 ^ (w - 1) ≤ sint w z < 2 ^ (w - 1).
Proof.
  intros Hw. unfold sint.
  assert (2 ^ w = 2 * 2 ^ (w - 1)) as Hp.
  { rewrite <-Z.pow_succ_r by lia. f_equal; lia. }
  pose proof (Z.mod_pos_bound z (2 ^ w) ltac:(lia)).
  destruct (Z.ltb_spec (z mod 2 ^ w) (2 ^ (w - 1))); lia.
Qed.

Lemma u64_small z : 0 ≤ z < 2 ^ 64 → u64 z = z.
Proof. apply Z.mod_small. Qed.
Lemma u32_small z : 0 ≤ z < 2 ^ 32 → u32 z = z.
Proof. apply Z.mod_small. Qed.
Lemma u64_range z : 0 ≤ u64 z < 2 ^ 64.
Proof. apply Z.mod_pos_bound. lia. Qed.
Lemma u32_range z : 0 ≤ u32 z < 2 ^ 32.
Proof. apply Z.mod_pos_bound. lia. Qed.
#[export] Hint Resolve u64_range u32_range : mystorage.

(** ** Bytes *)

Abbreviation bytes := (list Z) (only parsing).

Definition is_byte (b : Z) : Prop := 0 ≤ b < 256.
Abbreviation is_bytes := (Forall is_byte).

(** Little-endian encoding of the low [n] bytes of [z] and its inverse: the
    object representation of the integers on the x86-64 and AArch64 targets
    the repository builds for. *)
Fixpoint le_enc (n : nat) (z : Z) : bytes :=
  match n with
  | O => []
  | S n' => z mod 256 :: le_enc n' (z / 256)
  end.

Fixpoint le_dec (bs : bytes) : Z :=
  match bs with
  | [] => 0
  | b :: bs' => b + 256 * le_dec bs'
  end.

Lemma length_le_enc n z : length (le_enc n z) = n.
Proof. revert z; induction n; intros; simpl; auto. Qed.
#[export] Hint Rewrite length_le_enc : mystorage.

Lemma le_enc_bytes n z : is_bytes (le_enc n z).
Proof.
  revert z; induction n; intros; simpl; constructor; auto.
  apply Z.mod_pos_bound; lia.
Qed.
#[export] Hint Resolve le_enc_bytes : mystorage.

Lemma le_dec_enc n z : le_dec (le_enc n z) = z mod 2 ^ (8 * Z.of_nat n).
Proof.
  revert z; induction n as [|n IH]; intros z; [by rewrite Z.mod_1_r|].
  cbn [le_enc le_dec]. rewrite IH.
  replace (8 * Z.of_nat (S n)) with (8 + 8 * Z.of_nat n) by lia.
  rewrite Z.pow_add_r by lia. change (2 ^ 8) with 256.
  rewrite Z.rem_mul_r by lia. lia.
Qed.

Lemma le_dec_enc_small n z : 0 ≤ z < 2 ^ (8 * Z.of_nat n) → le_dec (le_enc n z) = z.
Proof. intros. rewrite le_dec_enc. by apply Z.mod_small. Qed.

Lemma le_dec_bound bs : is_bytes bs → 0 ≤ le_dec bs < 2 ^ (8 * Z.of_nat (length bs)).
Proof.
  induction 1 as [|b bs Hb Hbs IH]; [done|]. cbn [le_dec length].
  replace (8 * Z.of_nat (S (length bs))) with (8 + 8 * Z.of_nat (length bs)) by lia.
  rewrite Z.pow_add_r by lia. unfold is_byte in Hb. lia.
Qed.

Lemma le_enc_dec bs : is_bytes bs → le_enc (length bs) (le_dec bs) = bs.
Proof.
  induction 1 as [|b bs Hb Hbs IH]; [done|]. cbn [le_dec le_enc length].
  unfold is_byte in Hb. f_equal.
  - rewrite Z.mul_comm, Z.mod_add by lia. by apply Z.mod_small.
  - rewrite Z.mul_comm, Z.div_add by lia. rewrite Z.div_small by lia. simpl. done.
Qed.

Lemma le_enc_app n m z : le_enc (n + m) z = le_enc n z ++ le_enc m (z / 2 ^ (8 * Z.of_nat n)).
Proof.
  revert z. induction n as [|n IH]; intros z; cbn [Nat.add le_enc app].
  - by rewrite Z.div_1_r.
  - rewrite IH. do 3 f_equal. rewrite Z.div_div by lia. f_equal.
    replace (8 * Z.of_nat (S n)) with (8 + 8 * Z.of_nat n) by lia. by rewrite Z.pow_add_r by lia.
Qed.

Lemma le_dec_app a b : le_dec (a ++ b) = le_dec a + 2 ^ (8 * Z.of_nat (length a)) * le_dec b.
Proof.
  induction a as [|x a IH]; cbn [app le_dec length]; [change (8 * Z.of_nat 0) with 0; lia|].
  rewrite IH. replace (8 * Z.of_nat (S (length a))) with (8 + 8 * Z.of_nat (length a)) by lia.
  rewrite Z.pow_add_r by lia. lia.
Qed.

Lemma le_dec_zeros n : le_dec (replicate n 0) = 0.
Proof. induction n as [|n IH]; [done|]. cbn [replicate le_dec]. rewrite IH. lia. Qed.

(** Signed fields. *)
Lemma sint_le_dec_enc n z : (0 < n)%nat →
  - 2 ^ (8 * Z.of_nat n - 1) ≤ z < 2 ^ (8 * Z.of_nat n - 1) →
  sint (8 * Z.of_nat n) (le_dec (le_enc n z)) = z.
Proof. intros Hn Hz. rewrite le_dec_enc, sint_mod, sint_small; auto; lia. Qed.

(** Length of a buffer as the [int64_t] the code works with. *)
Definition blen {A} (l : list A) : Z := Z.of_nat (length l).

Lemma blen_nonneg {A} (l : list A) : 0 ≤ blen l.
Proof. unfold blen; lia. Qed.
Lemma blen_app {A} (l k : list A) : blen (l ++ k) = blen l + blen k.
Proof. unfold blen. rewrite length_app. lia. Qed.
Lemma blen_nil {A} : blen (A:=A) [] = 0.
Proof. done. Qed.
Lemma blen_cons {A} (a : A) l : blen (a :: l) = 1 + blen l.
Proof. unfold blen. cbn [length]. lia. Qed.
Lemma blen_le_enc n z : blen (le_enc n z) = Z.of_nat n.
Proof. unfold blen. by rewrite length_le_enc. Qed.
Lemma blen_replicate {A} n (a : A) : blen (replicate n a) = Z.of_nat n.
Proof. unfold blen. by rewrite length_replicate. Qed.
#[export] Hint Resolve blen_nonneg : mystorage.
#[export] Hint Rewrite @blen_app @blen_nil @blen_cons blen_le_enc @blen_replicate : blen.

(** [sub off len b] is the slice [b[off, off+len)], cut at the end of [b]. *)
Definition sub {A} (off len : Z) (b : list A) : list A :=
  take (Z.to_nat len) (drop (Z.to_nat off) b).

Lemma sub_app_l {A} (a b : list A) : sub 0 (blen a) (a ++ b) = a.
Proof. unfold sub, blen. rewrite Nat2Z.id, drop_0, take_app_length. done. Qed.

Lemma sub_app_r {A} (a b : list A) n off : off = blen a + n → 0 ≤ n →
  ∀ len, sub off len (a ++ b) = sub n len b.
Proof.
  intros -> Hn len. unfold sub, blen. rewrite drop_app_ge by lia.
  do 2 f_equal. lia.
Qed.

Lemma sub_all {A} (b : list A) : sub 0 (blen b) b = b.
Proof. unfold sub, blen. rewrite Nat2Z.id, drop_0, firstn_all. done. Qed.

Lemma blen_sub {A} off len (b : list A) : 0 ≤ off → 0 ≤ len → off + len ≤ blen b →
  blen (sub off len b) = len.
Proof. unfold sub, blen. intros. rewrite length_take, length_drop. lia. Qed.

(** A checked read of an object of [blen b] bytes: reading outside is
    undefined behaviour. *)
Definition mem_read {A} (off len : Z) (b : list A) : outcome (list A) :=
  if (0 <=? off) && (0 <=? len) && (off + len <=? blen b)
  then Done (sub off len b) else UB.

Lemma mem_read_ok {A} off len (b : list A) : 0 ≤ off → 0 ≤ len → off + len ≤ blen b →
  mem_read off len b = Done (sub off len b).
Proof.
  intros. unfold mem_read. by rewrite !(proj2 (Z.leb_le _ _)) by lia.
Qed.

Lemma mem_read_oob {A} off len (b : list A) : blen b < off + len → mem_read off len b = UB.
Proof.
  intros. unfold mem_read. rewrite (proj2 (Z.leb_gt (off + len) (blen b))) by lia.
  by rewrite andb_false_r.
Qed.

Lemma mem_read_app {A} off len (a b c : list A) : off = blen a → len = blen b →
  mem_read off len (a ++ b ++ c) = Done b.
Proof.
  intros -> ->. rewrite mem_read_ok; autorewrite with blen; auto with mystorage.
  - rewrite (sub_app_r a (b ++ c) 0) by lia. by rewrite sub_app_l.
  - pose proof (blen_nonneg c). lia.
Qed.

(** [splice off src b] is [b] with the bytes at [off] replaced by [src], and
    [mem_write] the checked overwrite. *)
Definition splice {A} (off : Z) (src b : list A) : list A :=
  sub 0 off b ++ src ++ sub (off + blen src) (blen b) b.
Definition mem_write {A} (off : Z) (src b : list A) : outcome (list A) :=
  if (0 <=? off) && (off + blen src <=? blen b) then Done (splice off src b) else UB.

(** A run of adjacent fields. *)
Fixpoint write_fields {A} (off : Z) (fs : list (list A)) (b : list A) : outcome (list A) :=
  match fs with
  | [] => Done b
  | f :: fs' => b ← mem_write off f b; write_fields (off + blen f) fs' b
  end.

Lemma mem_write_ok {A} off (src b : list A) : 0 ≤ off → off + blen src ≤ blen b →
  mem_write off src b = Done (splice off src b).
Proof. intros. unfold mem_write. by rewrite !(proj2 (Z.leb_le _ _)) by lia. Qed.

Lemma mem_write_oob {A} off (src b : list A) : blen b < off + blen src → mem_write off src b = UB.
Proof.
  intros. unfold mem_write. rewrite (proj2 (Z.leb_gt (off + blen src) (blen b))) by lia.
  by rewrite andb_false_r.
Qed.

(** Cut a list around [off, off + n). *)
Lemma split3 {A} (b : list A) off n : 0 ≤ off → 0 ≤ n → off + n ≤ blen b →
  ∃ a o c, b = a ++ o ++ c ∧ blen a = off ∧ blen o = n.
Proof.
  intros. exists (take (Z.to_nat off) b), (take (Z.to_nat n) (drop (Z.to_nat off) b)),
    (drop (Z.to_nat n) (drop (Z.to_nat off) b)).
  rewrite !take_drop. unfold blen in *. rewrite !length_take, length_drop. split_and!; [done|lia..].
Qed.

Lemma splice_eq {A} (a o c s : list A) off : off = blen a → blen o = blen s →
  splice off s (a ++ o ++ c) = a ++ s ++ c.
Proof.
  intros -> Ho. unfold splice. rewrite sub_app_l. f_equal. f_equal.
  rewrite <-Ho, (sub_app_r a (o ++ c) (blen o)) by auto with mystorage.
  rewrite (sub_app_r o c 0) by lia. unfold sub, blen. rewrite drop_0, take_ge; [done|].
  rewrite !length_app. lia.
Qed.

Lemma splice_all {A} (s b : list A) : blen b = blen s → splice 0 s b = s.
Proof.
  intros H. pose proof (splice_eq [] b [] s 0 eq_refl H) as E. cbn [app] in E.
  by rewrite !app_nil_r in E.
Qed.

Lemma blen_splice {A} off (s b : list A) : 0 ≤ off → off + blen s ≤ blen b →
  blen (splice off s b) = blen b.
Proof.
  intros H1 H2. destruct (split3 b off (blen s) H1 (blen_nonneg _) H2) as (a & o & c & -> & <- & Ho).
  rewrite splice_eq by done. rewrite !blen_app. lia.
Qed.

(** Writing after, and inside, what was just written. *)
Lemma splice_next {A} off (s1 s2 b : list A) : 0 ≤ off → off + blen s1 + blen s2 ≤ blen b →
  splice (off + blen s1) s2 (splice off s1 b) = splice off (s1 ++ s2) b.
Proof.
  intros H1 H2. pose proof (blen_nonneg s1). pose proof (blen_nonneg s2).
  destruct (split3 b off (blen s1 + blen s2)) as (a & o & c & -> & <- & Ho); [lia..|].
  destruct (split3 o (blen s1) (blen s2)) as (o1 & o2 & o3 & -> & Ho1 & Ho2); [lia..|].
  rewrite !blen_app in Ho. assert (o3 = []) as ->.
  { destruct o3; [done|]. rewrite blen_cons in Ho. pose proof (blen_nonneg o3). lia. }
  rewrite app_nil_r, (splice_eq a (o1 ++ o2) c (s1 ++ s2)) by (rewrite ?blen_app; done || lia).
  rewrite <-!app_assoc, (splice_eq a o1 (o2 ++ c) s1) by done.
  rewrite (app_assoc a), splice_eq by (rewrite ?blen_app; done || lia). by rewrite <-!app_assoc.
Qed.

Lemma splice_in {A} off k (s1 s2 b : list A) : 0 ≤ off → 0 ≤ k → off + blen s1 ≤ blen b →
  k + blen s2 ≤ blen s1 →
  splice (off + k) s2 (splice off s1 b) = splice off (splice k s2 s1) b.
Proof.
  intros H1 Hk H2 H3. pose proof (blen_nonneg s1). pose proof (blen_nonneg s2).
  destruct (split3 b off (blen s1)) as (a & o & c & -> & <- & Ho); [lia..|].
  destruct (split3 s1 k (blen s2)) as (x & y & z & -> & <- & Hy); [lia..|].
  rewrite (splice_eq x) by done.
  rewrite (splice_eq a o c (x ++ y ++ z)), (splice_eq a o c (x ++ s2 ++ z))
    by (rewrite ?blen_app in *; done || lia).
  rewrite <-!app_assoc, (app_assoc a x (y ++ z ++ c)), splice_eq by (rewrite ?blen_app; done || lia).
  by rewrite <-!app_assoc.
Qed.

Lemma mem_read_splice {A} off k n (s b : list A) : 0 ≤ off → 0 ≤ k → 0 ≤ n → k + n ≤ blen s →
  off + blen s ≤ blen b → mem_read (off + k) n (splice off s b) = mem_read k n s.
Proof.
  intros. pose proof (blen_nonneg s).
  destruct (split3 b off (blen s)) as (a & o & c & -> & <- & Ho); [lia..|].
  rewrite splice_eq by done. destruct (split3 s k n) as (x & y & z & -> & <- & <-); [lia..|].
  rewrite (mem_read_app _ _ x y z) by done. rewrite <-!app_assoc, (app_assoc a).
  apply mem_read_app; [by rewrite blen_app|done].
Qed.

Lemma write_fields_spec {A} off (fs : list (list A)) b : 0 ≤ off → off + blen (concat fs) ≤ blen b →
  write_fields off fs b = Done (splice off (concat fs) b).
Proof.
  revert off b. induction fs as [|f fs IH]; intros off b H1 H2; cbn [write_fields concat] in *.
  - f_equal. destruct (split3 b off 0) as (a & o & c & -> & <- & Ho); [rewrite blen_nil in *; lia..|].
    by rewrite (splice_eq a o c []), (nil_length_inv o) by (unfold blen in *; done || lia).
  - rewrite blen_app in H2. pose proof (blen_nonneg f). pose proof (blen_nonneg (concat fs)).
    rewrite mem_write_ok by lia. cbn [mbind outcome_bind].
    rewrite IH by (rewrite ?blen_splice; lia). by rewrite splice_next by lia.
Qed.

(** ** Strings *)

Lemma string_app_assoc (a b c : string) : ((a +:+ b) +:+ c = a +:+ (b +:+ c))%string.
Proof. induction a as [|x a IH]; [done|]. exact (f_equal (String x) IH). Qed.

(** ** [memcmp]

    Only the sign of the result of [memcmp] is specified; the code uses only
    the sign. *)
Fixpoint memcmp (a b : bytes) : Z :=
  match a, b with
  | x :: a', y :: b' => if x <? y then -1 else if y <? x then 1 else memcmp a' b'
  | _, _ => 0
  end.

Lemma memcmp_refl a : memcmp a a = 0.
Proof. induction a as [|x a IH]; [done|]. simpl. by rewrite Z.ltb_irrefl. Qed.

Lemma memcmp_eq a b : length a = length b → memcmp a b = 0 → a = b.
Proof.
  revert b; induction a as [|x a IH]; intros [|y b] Hl H; simpl in *; try done.
  destruct (Z.ltb_spec x y); [done|]. destruct (Z.ltb_spec y x); [done|].
  f_equal; [lia|]. apply IH; [lia|done].
Qed.

Lemma memcmp_antisym a b : memcmp b a = - memcmp a b.
Proof.
  revert b; induction a as [|x a IH]; intros [|y b]; simpl; try done.
  destruct (Z.ltb_spec x y), (Z.ltb_spec y x); try done; try lia.
Qed.

Lemma memcmp_trans a b c : length a = length b → length b = length c →
  memcmp a b < 0 → memcmp b c < 0 → memcmp a c < 0.
Proof.
  revert b c; induction a as [|x a IH]; intros [|y b] [|z c] H1 H2; simpl in *; try lia.
  destruct (Z.ltb_spec x y), (Z.ltb_spec y x), (Z.ltb_spec y z), (Z.ltb_spec z y),
    (Z.ltb_spec x z), (Z.ltb_spec z x); try lia.
  intros. apply (IH b); lia.
Qed.
