(* ===== verification/Rc.v ===== *)
(** * Return codes

    Models [src/src/common/sys/rc.h/.cpp], the codes of the server code above
    the storage engine. *)

From S2P Require Import Prelude.

Inductive RC :=
  | SUCCESS | INVALID_ARGUMENT | UNIMPLEMENTED | SQL_SYNTAX | INTERNAL | NOMEM | NOTFOUND | EMPTY | FULL
  | EXIST | NOT_EXIST | BUFFERPOOL_OPEN | BUFFERPOOL_NOBUF | BUFFERPOOL_INVALID_PAGE_NUM | RECORD_OPENNED
  | RECORD_INVALID_RID | RECORD_INVALID_KEY | RECORD_DUPLICATE_KEY | RECORD_NOMEM | RECORD_EOF
  | RECORD_NOT_EXIST | RECORD_INVISIBLE | SCHEMA_DB_EXIST | SCHEMA_DB_NOT_EXIST | SCHEMA_DB_NOT_OPENED
  | SCHEMA_DB_IS_SYS | SCHEMA_TABLE_NOT_EXIST | SCHEMA_TABLE_EXIST | SCHEMA_FIELD_NOT_EXIST
  | SCHEMA_FIELD_MISSING | SCHEMA_FIELD_TYPE_MISMATCH | SCHEMA_INDEX_NAME_REPEAT | IOERR_READ | IOERR_WRITE
  | IOERR_ACCESS | IOERR_OPEN | IOERR_CLOSE | IOERR_SEEK | IOERR_TOO_LONG | IOERR_SYNC | LOCKED_UNLOCK
  | LOCKED_NEED_WAIT | LOCKED_CONCURRENCY_CONFLICT | FILE_EXIST | FILE_NOT_EXIST | FILE_NAME | FILE_BOUND
  | FILE_CREATE | FILE_OPEN | FILE_NOT_OPENED | FILE_CLOSE | FILE_REMOVE | VARIABLE_NOT_EXISTS
  | VARIABLE_NOT_VALID | LOGBUF_FULL | LOG_FILE_FULL | LOG_ENTRY_INVALID | JSON_PARSE_FAILED
  | JSON_MEMBER_MISSING | RANGE_ERROR | WAL_INVALID_FILENAME | INPUT_EOF | INVALID_TOKEN
  | UNEXPECTED_END_OF_STRING | SYNTAX_ERROR | UNSUPPORTED.
#[export] Instance RC_eq_dec : EqDecision RC.
Proof. solve_decision. Defined.

Definition OB_SUCC (rc : RC) : bool := bool_decide (rc = SUCCESS).
Definition OB_FAIL (rc : RC) : bool := bool_decide (rc ≠ SUCCESS).

(** The codes in the order of [DEFINE_RCS] with their names: [strrc] gives the
    name of a code and a cast to [int] its place. *)
Definition DEFINE_RCS : list (RC * string) :=
  [
   (SUCCESS, "SUCCESS"); (INVALID_ARGUMENT, "INVALID_ARGUMENT"); (UNIMPLEMENTED, "UNIMPLEMENTED");
   (SQL_SYNTAX, "SQL_SYNTAX"); (INTERNAL, "INTERNAL"); (NOMEM, "NOMEM");
   (NOTFOUND, "NOTFOUND"); (EMPTY, "EMPTY"); (FULL, "FULL");
   (EXIST, "EXIST"); (NOT_EXIST, "NOT_EXIST"); (BUFFERPOOL_OPEN, "BUFFERPOOL_OPEN");
   (BUFFERPOOL_NOBUF, "BUFFERPOOL_NOBUF"); (BUFFERPOOL_INVALID_PAGE_NUM, "BUFFERPOOL_INVALID_PAGE_NUM"); (RECORD_OPENNED, "RECORD_OPENNED");
   (RECORD_INVALID_RID, "RECORD_INVALID_RID"); (RECORD_INVALID_KEY, "RECORD_INVALID_KEY"); (RECORD_DUPLICATE_KEY, "RECORD_DUPLICATE_KEY");
   (RECORD_NOMEM, "RECORD_NOMEM"); (RECORD_EOF, "RECORD_EOF"); (RECORD_NOT_EXIST, "RECORD_NOT_EXIST");
   (RECORD_INVISIBLE, "RECORD_INVISIBLE"); (SCHEMA_DB_EXIST, "SCHEMA_DB_EXIST"); (SCHEMA_DB_NOT_EXIST, "SCHEMA_DB_NOT_EXIST");
   (SCHEMA_DB_NOT_OPENED, "SCHEMA_DB_NOT_OPENED"); (SCHEMA_DB_IS_SYS, "SCHEMA_DB_IS_SYS"); (SCHEMA_TABLE_NOT_EXIST, "SCHEMA_TABLE_NOT_EXIST");
   (SCHEMA_TABLE_EXIST, "SCHEMA_TABLE_EXIST"); (SCHEMA_FIELD_NOT_EXIST, "SCHEMA_FIELD_NOT_EXIST"); (SCHEMA_FIELD_MISSING, "SCHEMA_FIELD_MISSING");
   (SCHEMA_FIELD_TYPE_MISMATCH, "SCHEMA_FIELD_TYPE_MISMATCH"); (SCHEMA_INDEX_NAME_REPEAT, "SCHEMA_INDEX_NAME_REPEAT"); (IOERR_READ, "IOERR_READ");
   (IOERR_WRITE, "IOERR_WRITE"); (IOERR_ACCESS, "IOERR_ACCESS"); (IOERR_OPEN, "IOERR_OPEN");
   (IOERR_CLOSE, "IOERR_CLOSE"); (IOERR_SEEK, "IOERR_SEEK"); (IOERR_TOO_LONG, "IOERR_TOO_LONG");
   (IOERR_SYNC, "IOERR_SYNC"); (LOCKED_UNLOCK, "LOCKED_UNLOCK"); (LOCKED_NEED_WAIT, "LOCKED_NEED_WAIT");
   (LOCKED_CONCURRENCY_CONFLICT, "LOCKED_CONCURRENCY_CONFLICT"); (FILE_EXIST, "FILE_EXIST"); (FILE_NOT_EXIST, "FILE_NOT_EXIST");
   (FILE_NAME, "FILE_NAME"); (FILE_BOUND, "FILE_BOUND"); (FILE_CREATE, "FILE_CREATE");
   (FILE_OPEN, "FILE_OPEN"); (FILE_NOT_OPENED, "FILE_NOT_OPENED"); (FILE_CLOSE, "FILE_CLOSE");
   (FILE_REMOVE, "FILE_REMOVE"); (VARIABLE_NOT_EXISTS, "VARIABLE_NOT_EXISTS"); (VARIABLE_NOT_VALID, "VARIABLE_NOT_VALID");
   (LOGBUF_FULL, "LOGBUF_FULL"); (LOG_FILE_FULL, "LOG_FILE_FULL"); (LOG_ENTRY_INVALID, "LOG_ENTRY_INVALID");
   (JSON_PARSE_FAILED, "JSON_PARSE_FAILED"); (JSON_MEMBER_MISSING, "JSON_MEMBER_MISSING"); (RANGE_ERROR, "RANGE_ERROR");
   (WAL_INVALID_FILENAME, "WAL_INVALID_FILENAME"); (INPUT_EOF, "INPUT_EOF"); (INVALID_TOKEN, "INVALID_TOKEN");
   (UNEXPECTED_END_OF_STRING, "UNEXPECTED_END_OF_STRING"); (SYNTAX_ERROR, "SYNTAX_ERROR"); (UNSUPPORTED, "UNSUPPORTED")].

(** The characters of a string literal. *)
Definition chars (s : string) : bytes := map (λ a, Z.of_nat (Ascii.nat_of_ascii a)) (String.list_ascii_of_string s).
Definition strrc (rc : RC) : bytes :=
  match list_find (λ x, x.1 = rc) DEFINE_RCS with Some (_, (_, name)) => chars name | None => chars "unknown" end.
Definition RC_code (rc : RC) : Z :=
  match list_find (λ x, x.1 = rc) DEFINE_RCS with Some (i, _) => Z.of_nat i | None => 0 end.
