(* ===== verification/Pod.v ===== *)
(** * Structures moved with memcpy

    The serializers of the log and block headers copy the object
    representation of a structure.  [Pod A] is that representation with its
    round-trip law; the generic serializer and deserializer and their lemmas
    are shared by all the header types. *)

From S2P Require Import Prelude.

(** [Pod A]: the object representation of a C++ structure that the code moves
    with [memcpy], and the promise that reading it back gives the structure. *)
Class Pod (A : Type) := {
  pod_size : Z;
  pod_enc : A → bytes;
  pod_dec : bytes → A;
  pod_wf : A → Prop;
  pod_len : ∀ a, blen (pod_enc a) = pod_size;
  pod_dec_enc : ∀ a, pod_wf a → pod_dec (pod_enc a) = a }.

Section Pod.
Context {A : Type} `{!Pod A}.

Definition pod_serialize (a : A) (buf : bytes) (buf_len pos : Z) : outcome (Z * bytes * Z) :=
  if buf_len - pos <? pod_size then Done (-1, buf, pos)
  else buf ← mem_write pos (pod_enc a) buf; Done (0, buf, pos + pod_size).

Definition pod_deserialize (a : A) (buf : bytes) (data_len pos : Z) : outcome (Z * A * Z) :=
  if data_len - pos <? pod_size then Done (-1, a, pos)
  else s ← mem_read pos pod_size buf; Done (0, pod_dec s, pos + pod_size).

Lemma pod_size_nonneg (a : A) : 0 ≤ pod_size.
Proof. rewrite <-(pod_len a). apply blen_nonneg. Qed.

Lemma pod_serialize_ok a buf buf_len pos : 0 ≤ pos → pos + pod_size ≤ buf_len → buf_len ≤ blen buf →
  pod_serialize a buf buf_len pos = Done (0, splice pos (pod_enc a) buf, pos + pod_size).
Proof.
  intros. unfold pod_serialize. destruct (Z.ltb_spec (buf_len - pos) pod_size); [lia|].
  by rewrite mem_write_ok by (rewrite ?pod_len; lia).
Qed.

Lemma pod_serialize_short a buf buf_len pos : buf_len - pos < pod_size →
  pod_serialize a buf buf_len pos = Done (-1, buf, pos).
Proof. intros. unfold pod_serialize. by destruct (Z.ltb_spec (buf_len - pos) pod_size); [|lia]. Qed.

(** Reading a structure at its place in a larger buffer. *)
Lemma pod_deserialize_app a a0 pre post data_len : pod_wf a → blen pre + pod_size ≤ data_len →
  pod_deserialize a0 (pre ++ pod_enc a ++ post) data_len (blen pre)
  = Done (0, a, blen pre + pod_size).
Proof.
  intros. unfold pod_deserialize. destruct (Z.ltb_spec (data_len - blen pre) pod_size); [lia|].
  rewrite (mem_read_app _ _ pre) by (rewrite ?pod_len; done). cbn. by rewrite pod_dec_enc.
Qed.

Lemma pod_roundtrip a a0 buf pos : pod_wf a → 0 ≤ pos → pos + pod_size ≤ blen buf →
  ∃ buf', pod_serialize a buf (blen buf) pos = Done (0, buf', pos + pod_size)
    ∧ blen buf' = blen buf
    ∧ pod_deserialize a0 buf' (blen buf') pos = Done (0, a, pos + pod_size).
Proof.
  intros Hwf Hp Hl. pose proof (pod_size_nonneg a). rewrite pod_serialize_ok by lia.
  destruct (split3 buf pos pod_size) as (x & o & y & -> & <- & Ho); [lia..|].
  rewrite splice_eq by (rewrite ?pod_len; done). eexists. split; [done|].
  rewrite !blen_app in *. rewrite pod_len. split; [lia|].
  apply pod_deserialize_app; [done|]. pose proof (blen_nonneg y). lia.
Qed.
End Pod.

(** A little-endian unsigned field at [off]. *)
Definition field (off n : Z) (b : bytes) : Z := le_dec (sub off n b).

(** Signed fields. *)
Definition i32_range (z : Z) : Prop := - 2 ^ 31 ≤ z < 2 ^ 31.
Definition i64_range (z : Z) : Prop := - 2 ^ 63 ≤ z < 2 ^ 63.

Lemma i32_enc z : i32_range z → i32 (le_dec (le_enc 4 z)) = z.
Proof. intros Hz. exact (sint_le_dec_enc 4 z ltac:(lia) Hz). Qed.
Lemma i64_enc z : i64_range z → i64 (le_dec (le_enc 8 z)) = z.
Proof. intros Hz. exact (sint_le_dec_enc 8 z ltac:(lia) Hz). Qed.
Lemma i32_small z : i32_range z → i32 z = z.
Proof. intros Hz. apply sint_small; [lia|]. exact Hz. Qed.
