(* ===== verification/StoreTypes.v ===== *)
(** * Row keys, rows, contexts and memtable keys

    Models [src/src/storage/ob_define.h], [ob_i_store.h/.cpp], [ob_i_table.h]
    and, from [src/src/storage/memtable], [ob_memtable_key.h/.cpp] and
    [ob_memtable_data.h].  A C++ [A::b] is written [A_b]. *)

From S2P Require Import Prelude.

(** ** ob_define.h *)

(** [enum class ObDmlFlag : int32_t].  The log replay casts an arbitrary byte
    to this type, so a flag is its underlying integer. *)
Abbreviation ObDmlFlag := Z (only parsing).
Definition DF_NOT_SET : ObDmlFlag := 0.
Definition DF_INSERT : ObDmlFlag := 1.
Definition DF_UPDATE : ObDmlFlag := 2.
Definition DF_DELETE : ObDmlFlag := 3.
Definition DF_LOCK : ObDmlFlag := 4.
Definition DF_MAX : ObDmlFlag := 5.

Definition OB_SUCCESS : Z := 0.
Definition OB_ENTRY_EXIST : Z := -1.
Definition OB_ENTRY_NOT_EXIST : Z := -1.
Definition OB_ITER_END : Z := -1.

Definition DEFAULT_MACRO_BLOCK_SIZE : Z := 2 * 1024 * 1024.
Definition DEFAULT_MICRO_BLOCK_SIZE : Z := 256 * 1024.
Definition DEFAULT_MEMTABLE_SIZE : Z := 64 * 1024 * 1024.

Definition OB_INVALID_TRANS_ID : Z := -1.
Definition OB_INVALID_VERSION : Z := INT64_MAX.

Inductive ObTableType :=
  | DATA_MEMTABLE
  | TX_DATA_MEMTABLE
  | MAJOR_SSTABLE
  | MINOR_SSTABLE
  | MINI_SSTABLE
  | MAX_TABLE_TYPE.
#[export] Instance ObTableType_eq_dec : EqDecision ObTableType.
Proof. solve_decision. Defined.

(** The numbers of the enumerators. *)
Definition ObTableType_code (t : ObTableType) : Z :=
  match t with
  | DATA_MEMTABLE => 0
  | TX_DATA_MEMTABLE => 1
  | MINI_SSTABLE => 12
  | MINOR_SSTABLE => 11
  | MAJOR_SSTABLE => 10
  | MAX_TABLE_TYPE => 13
  end.

(** ** ObITable: classification by table type *)

Definition ObITable_is_memtable (t : ObTableType) : bool :=
  bool_decide (t = DATA_MEMTABLE) || bool_decide (t = TX_DATA_MEMTABLE).
Definition ObITable_is_sstable (t : ObTableType) : bool :=
  bool_decide (t = MINI_SSTABLE) || bool_decide (t = MINOR_SSTABLE)
  || bool_decide (t = MAJOR_SSTABLE).
Definition ObITable_is_major_sstable (t : ObTableType) : bool := bool_decide (t = MAJOR_SSTABLE).
Definition ObITable_is_mini_sstable (t : ObTableType) : bool := bool_decide (t = MINI_SSTABLE).
Definition ObITable_is_minor_sstable (t : ObTableType) : bool := bool_decide (t = MINOR_SSTABLE).

(** ** MurmurHash64A

    The body that [ObStoreRowkey::murmurhash] and [ObMemtableKey::murmurhash_]
    repeat.  [murmur_blocks] is the [while (data != end)] loop over the 8-byte
    words (it also returns what [data] points to afterwards) and [murmur_tail]
    the fall-through [switch (length & 7)]. *)
Definition murmur_m : Z := 0xc6a4a7935bd1e995.
Definition murmur_r : Z := 47.

Fixpoint murmur_blocks (n : nat) (h : Z) (data : bytes) : Z * bytes :=
  match n with
  | O => (h, data)
  | S n' =>
      let k := le_dec (take 8 data) in
      let k := u64 (k * murmur_m) in
      let k := Z.lxor k (Z.shiftr k murmur_r) in
      let k := u64 (k * murmur_m) in
      let h := Z.lxor h k in
      let h := u64 (h * murmur_m) in
      murmur_blocks n' h (drop 8 data)
  end.

Definition murmur_tail (t : Z) (h : Z) (d : bytes) : Z :=
  let byte i := nth i d 0 in
  let h := if 7 <=? t then Z.lxor h (Z.shiftl (byte 6%nat) 48) else h in
  let h := if 6 <=? t then Z.lxor h (Z.shiftl (byte 5%nat) 40) else h in
  let h := if 5 <=? t then Z.lxor h (Z.shiftl (byte 4%nat) 32) else h in
  let h := if 4 <=? t then Z.lxor h (Z.shiftl (byte 3%nat) 24) else h in
  let h := if 3 <=? t then Z.lxor h (Z.shiftl (byte 2%nat) 16) else h in
  let h := if 2 <=? t then Z.lxor h (Z.shiftl (byte 1%nat) 8) else h in
  if 1 <=? t then u64 (Z.lxor h (byte 0%nat) * murmur_m) else h.

Definition murmur_body (seed length : Z) (data : bytes) : Z :=
  let h := Z.lxor seed (u64 (length * murmur_m)) in
  let '(h, data2) := murmur_blocks (Z.to_nat (length / 8)) h data in
  let h := murmur_tail (Z.land length 7) h data2 in
  let h := Z.lxor h (Z.shiftr h murmur_r) in
  let h := u64 (h * murmur_m) in
  Z.lxor h (Z.shiftr h murmur_r).

(** ** ObStoreRowkey *)

Record ObStoreRowkey := mkRowkey { rk_buf_ : bytes; rk_length_ : Z }.
#[export] Instance ObStoreRowkey_eq_dec : EqDecision ObStoreRowkey.
Proof. solve_decision. Defined.

(** The default constructor and the constructor from a pointer (null is
    [None]) and a length.  Reading [length] bytes from a shorter object is
    undefined, so a caller passes exactly the bytes it points to. *)
Definition ObStoreRowkey_default : ObStoreRowkey := mkRowkey [] 0.
Definition ObStoreRowkey_new (data : option bytes) (length : Z) : ObStoreRowkey :=
  match data with
  | Some d => if 0 <? length then mkRowkey (take (Z.to_nat length) d) length else mkRowkey [] length
  | None => mkRowkey [] length
  end.
Definition ObStoreRowkey_reset (_ : ObStoreRowkey) : ObStoreRowkey := mkRowkey [] 0.
Definition ObStoreRowkey_get_data (k : ObStoreRowkey) : option bytes :=
  if 0 <? rk_length_ k then Some (rk_buf_ k) else None.
Definition ObStoreRowkey_get_length (k : ObStoreRowkey) : Z := rk_length_ k.
Definition ObStoreRowkey_is_valid (k : ObStoreRowkey) : bool :=
  (0 <? rk_length_ k) && negb (bool_decide (rk_buf_ k = [])).
Definition ObStoreRowkey_compare (a b : ObStoreRowkey) : Z :=
  if rk_length_ a <? rk_length_ b then -1
  else if rk_length_ b <? rk_length_ a then 1
  else if rk_length_ a =? 0 then 0
  else memcmp (rk_buf_ a) (rk_buf_ b).
Definition ObStoreRowkey_equal (a b : ObStoreRowkey) : bool :=
  if negb (rk_length_ a =? rk_length_ b) then false
  else if rk_length_ a =? 0 then true
  else memcmp (rk_buf_ a) (rk_buf_ b) =? 0.
Definition ObStoreRowkey_murmurhash (k : ObStoreRowkey) (seed : Z) : Z :=
  match ObStoreRowkey_get_data k with
  | None => seed
  | Some ptr => if rk_length_ k =? 0 then seed else murmur_body seed (rk_length_ k) ptr
  end.

(** The invariant of a row key: [length_] is the size of [buf_] and [buf_]
    holds bytes. *)
Definition rowkey_wf (k : ObStoreRowkey) : Prop :=
  rk_length_ k = blen (rk_buf_ k) ∧ is_bytes (rk_buf_ k).

(** A key made of the given bytes. *)
Definition rowkey_of (b : bytes) : ObStoreRowkey := mkRowkey b (blen b).

(** ** ObStoreRow, ObStoreCtx *)

Record ObStoreRow := mkRow {
  dml_flag_ : ObDmlFlag;
  trans_version_ : Z;
  trans_id_ : Z;
  rowkey_ : ObStoreRowkey;
  row_value_ : bytes;
  is_deleted_ : bool }.
#[export] Instance ObStoreRow_eq_dec : EqDecision ObStoreRow.
Proof. solve_decision. Defined.

Definition ObStoreRow_default : ObStoreRow :=
  mkRow DF_MAX 0 OB_INVALID_TRANS_ID ObStoreRowkey_default [] false.
Definition ObStoreRow_reset (r : ObStoreRow) : ObStoreRow :=
  mkRow DF_MAX 0 OB_INVALID_TRANS_ID (ObStoreRowkey_reset (rowkey_ r)) [] false.

Record ObStoreCtx := mkCtx { tx_id_ : Z; snapshot_version_ : Z; timeout_ : Z }.
Definition ObStoreCtx_default : ObStoreCtx := mkCtx OB_INVALID_TRANS_ID OB_INVALID_VERSION 0.
Definition ObStoreCtx_reset (_ : ObStoreCtx) : ObStoreCtx := mkCtx OB_INVALID_TRANS_ID 0 0.
Definition ObStoreCtx_is_valid (c : ObStoreCtx) : bool := 0 <=? tx_id_ c.

(** ** ObMemtableKey *)

Record ObMemtableKey := mkMemtableKey {
  key_data_ : option bytes;
  key_len_ : Z;
  hash_val_ : Z;
  mk_rowkey_ : option ObStoreRowkey }.

Definition ObMemtableKey_default : ObMemtableKey := mkMemtableKey None 0 0 None.

Definition ObMemtableKey_murmurhash_ (data : option bytes) (len seed : Z) : Z :=
  match data with
  | None => seed
  | Some d => if len =? 0 then seed else murmur_body seed len d
  end.

Definition ObMemtableKey_new (data : option bytes) (len : Z) : ObMemtableKey :=
  mkMemtableKey data len
    (match data with
     | Some _ => if 0 <? len then ObMemtableKey_murmurhash_ data len 0 else 0
     | None => 0
     end) None.

(** [encode]: on a null or invalid row key the key is left as it was. *)
Definition ObMemtableKey_encode (k : ObMemtableKey) (rowkey : option ObStoreRowkey)
    : Z * ObMemtableKey :=
  match rowkey with
  | None => (-1, k)
  | Some rk =>
      if negb (ObStoreRowkey_is_valid rk) then (-1, k)
      else
        let data := ObStoreRowkey_get_data rk in
        let len := ObStoreRowkey_get_length rk in
        (0, mkMemtableKey data len (ObMemtableKey_murmurhash_ data len 0) (Some rk))
  end.

Definition ObMemtableKey_compare (a b : ObMemtableKey) : Z :=
  if key_len_ a <? key_len_ b then -1
  else if key_len_ b <? key_len_ a then 1
  else if key_len_ a =? 0 then 0
  else memcmp (default [] (key_data_ a)) (default [] (key_data_ b)).

Definition ObMemtableKey_equal (a b : ObMemtableKey) : bool :=
  if negb (hash_val_ a =? 0) && negb (hash_val_ b =? 0) && negb (hash_val_ a =? hash_val_ b)
  then false
  else if negb (key_len_ a =? key_len_ b) then false
  else if key_len_ a =? 0 then true
  else memcmp (default [] (key_data_ a)) (default [] (key_data_ b)) =? 0.

Definition ObMemtableKey_hash (k : ObMemtableKey) : Z := hash_val_ k.

(** [dup]: a deep copy, or null for an empty key; the copy keeps the cached
    hash and has no row key. *)
Definition ObMemtableKey_dup (k : ObMemtableKey) : Z * option ObMemtableKey :=
  match key_data_ k with
  | None => (0, None)
  | Some d =>
      if key_len_ k =? 0 then (0, None)
      else (0, Some (mkMemtableKey (Some (take (Z.to_nat (key_len_ k)) d)) (key_len_ k)
                                   (hash_val_ k) None))
  end.

(** ** ObStoreRowkeyWrapper *)

Record ObStoreRowkeyWrapper := mkWrapper { wr_rowkey_ : option ObStoreRowkey }.

Definition ObStoreRowkeyWrapper_compare (a b : ObStoreRowkeyWrapper) : Z :=
  match wr_rowkey_ a, wr_rowkey_ b with
  | Some x, Some y => ObStoreRowkey_compare x y
  | _, _ => -1
  end.
Definition ObStoreRowkeyWrapper_equal (a b : ObStoreRowkeyWrapper) : bool :=
  match wr_rowkey_ a, wr_rowkey_ b with
  | Some x, Some y => ObStoreRowkey_equal x y
  | _, _ => false
  end.
Definition ObStoreRowkeyWrapper_hash (w : ObStoreRowkeyWrapper) : Z :=
  match wr_rowkey_ w with
  | None => 0
  | Some rk => ObStoreRowkey_murmurhash rk 0
  end.

(** [ObMemtableKeyGenerator::generate_memtable_key]. *)
Definition generate_memtable_key (row : ObStoreRow) (key : ObMemtableKey) : Z * ObMemtableKey :=
  if negb (ObStoreRowkey_is_valid (rowkey_ row)) then (-1, key)
  else ObMemtableKey_encode key (Some (rowkey_ row)).

(** ** ObMemtableDataHeader, ObMemtableData *)

Record ObMemtableDataHeader := mkDataHeader {
  hdr_dml_flag_ : ObDmlFlag;
  hdr_buf_len_ : Z;
  hdr_buf_ : bytes }.

(** [sizeof(ObMemtableDataHeader)]: an [int32_t], 4 bytes of padding, an
    [int64_t]; [buf_] is a zero-length array. *)
Definition sizeof_ObMemtableDataHeader : Z := 16.

(** [build]: returns the code and what was constructed at [new_data]; with no
    data nothing is constructed and the target keeps its old contents. *)
Definition ObMemtableDataHeader_build (dml_flag : ObDmlFlag) (buf_len : Z) (buf : option bytes)
    : Z * option ObMemtableDataHeader :=
  if buf_len <? 0 then (-1, None)
  else match buf with
       | None => (0, None)
       | Some b =>
           if buf_len =? 0 then (0, None)
           else (0, Some (mkDataHeader dml_flag buf_len (take (Z.to_nat buf_len) b)))
       end.

Record ObMemtableData := mkMemtableData {
  md_dml_flag_ : ObDmlFlag;
  md_buf_len_ : Z;
  md_buf_ : option bytes }.
Definition ObMemtableData_default : ObMemtableData := mkMemtableData DF_MAX 0 None.
Definition ObMemtableData_reset (_ : ObMemtableData) : ObMemtableData := mkMemtableData DF_MAX 0 None.
Definition ObMemtableData_set (_ : ObMemtableData) (dml_flag : ObDmlFlag) (data_len : Z)
    (buf : option bytes) : ObMemtableData :=
  mkMemtableData dml_flag data_len buf.
Definition ObMemtableData_size (d : ObMemtableData) : Z :=
  sizeof_ObMemtableDataHeader + md_buf_len_ d.

(** ** Lemmas *)

Lemma rowkey_of_wf b : is_bytes b → rowkey_wf (rowkey_of b).
Proof. done. Qed.
#[export] Hint Resolve rowkey_of_wf : mystorage.

Lemma rowkey_wf_valid k : rowkey_wf k → ObStoreRowkey_is_valid k = true ↔ rk_buf_ k ≠ [].
Proof.
  intros [Hl _]. unfold ObStoreRowkey_is_valid. rewrite Hl.
  destruct (rk_buf_ k) as [|b l]; [done|]. split; [done|]. intros _.
  pose proof (blen_nonneg l). rewrite blen_cons.
  by destruct (Z.ltb_spec 0 (1 + blen l)); [|lia].
Qed.

Lemma rowkey_wf_eq a b : rowkey_wf a → rowkey_wf b → rk_buf_ a = rk_buf_ b → a = b.
Proof. intros [Ha _] [Hb _] H. destruct a, b; simpl in *. congruence. Qed.

Lemma ObStoreRowkey_compare_refl a : ObStoreRowkey_compare a a = 0.
Proof.
  unfold ObStoreRowkey_compare. rewrite Z.ltb_irrefl, memcmp_refl. by destruct (_ =? _).
Qed.

Lemma ObStoreRowkey_compare_antisym a b :
  ObStoreRowkey_compare b a = - ObStoreRowkey_compare a b.
Proof.
  unfold ObStoreRowkey_compare. rewrite (memcmp_antisym (rk_buf_ a) (rk_buf_ b)).
  destruct (Z.ltb_spec (rk_length_ a) (rk_length_ b)),
    (Z.ltb_spec (rk_length_ b) (rk_length_ a)); try lia.
  assert (rk_length_ a = rk_length_ b) as -> by lia. by destruct (_ =? _).
Qed.

Lemma ObStoreRowkey_compare_eq a b : rowkey_wf a → rowkey_wf b →
  ObStoreRowkey_compare a b = 0 → a = b.
Proof.
  intros Ha Hb. unfold ObStoreRowkey_compare.
  destruct (Z.ltb_spec (rk_length_ a) (rk_length_ b)); [done|].
  destruct (Z.ltb_spec (rk_length_ b) (rk_length_ a)); [done|]. intros H1.
  pose proof (proj1 Ha) as Ea. pose proof (proj1 Hb) as Eb. unfold blen in *.
  apply rowkey_wf_eq; [done..|]. destruct (Z.eqb_spec (rk_length_ a) 0).
  - destruct (rk_buf_ a), (rk_buf_ b); simpl in *; try lia; done.
  - apply memcmp_eq; [lia|done].
Qed.

Lemma ObStoreRowkey_compare_trans a b c : rowkey_wf a → rowkey_wf b → rowkey_wf c →
  ObStoreRowkey_compare a b < 0 → ObStoreRowkey_compare b c < 0 → ObStoreRowkey_compare a c < 0.
Proof.
  intros [Ha _] [Hb _] [Hc _]. unfold ObStoreRowkey_compare, blen in *.
  destruct (Z.ltb_spec (rk_length_ a) (rk_length_ b)), (Z.ltb_spec (rk_length_ b) (rk_length_ a)),
    (Z.ltb_spec (rk_length_ b) (rk_length_ c)), (Z.ltb_spec (rk_length_ c) (rk_length_ b)),
    (Z.ltb_spec (rk_length_ a) (rk_length_ c)), (Z.ltb_spec (rk_length_ c) (rk_length_ a));
    intros; try lia.
  destruct (Z.eqb_spec (rk_length_ a) 0), (Z.eqb_spec (rk_length_ b) 0); try lia.
  eapply (memcmp_trans _ (rk_buf_ b)); eauto; lia.
Qed.

Lemma ObStoreRowkey_equal_compare a b :
  ObStoreRowkey_equal a b = (ObStoreRowkey_compare a b =? 0).
Proof.
  unfold ObStoreRowkey_equal, ObStoreRowkey_compare.
  destruct (Z.ltb_spec (rk_length_ a) (rk_length_ b)), (Z.ltb_spec (rk_length_ b) (rk_length_ a)),
    (Z.eqb_spec (rk_length_ a) (rk_length_ b)); try lia; try done; simpl.
  by destruct (_ =? 0).
Qed.

(** *** The flat row format *)

Definition row_wf (row : ObStoreRow) : Prop := rowkey_wf (rowkey_ row).

(** The bytes of a row in the flat format that the log records and the micro
    blocks share: [dml 1B][key_len 4B][key][val_len 4B][value]. *)
Definition record_of (row : ObStoreRow) : bytes :=
  [u8 (dml_flag_ row)] ++ le_enc 4 (rk_length_ (rowkey_ row)) ++ rk_buf_ (rowkey_ row)
  ++ le_enc 4 (blen (row_value_ row)) ++ row_value_ row.

Lemma blen_record_of row : row_wf row →
  blen (record_of row) = 9 + rk_length_ (rowkey_ row) + blen (row_value_ row).
Proof. intros [Hl _]. unfold record_of. rewrite !blen_app, !blen_le_enc, Hl, blen_cons, blen_nil. lia. Qed.

Lemma record_of_bytes row : row_wf row → is_bytes (row_value_ row) → is_bytes (record_of row).
Proof.
  intros [_ Hk] Hv. unfold record_of. repeat apply Forall_app_2; auto with mystorage.
  constructor; [|done]. unfold is_byte, u8. pose proof (Z.mod_pos_bound (dml_flag_ row) (2 ^ 8)). lia.
Qed.

(** *** Range of the hash *)

Lemma lxor_range a b n : 0 ≤ n → 0 ≤ a < 2 ^ n → 0 ≤ b < 2 ^ n → 0 ≤ Z.lxor a b < 2 ^ n.
Proof.
  intros Hn Ha Hb. split; [by apply Z.lxor_nonneg; lia|].
  destruct (Z.eq_dec (Z.lxor a b) 0) as [->|Hne]; [lia|].
  apply Z.log2_lt_pow2.
  - assert (0 ≤ Z.lxor a b) by (apply Z.lxor_nonneg; lia). lia.
  - assert (∀ x, 0 ≤ x < 2 ^ n → x ≠ 0 → Z.log2 x < n) as Hlog.
    { intros x Hx Hx0. apply Z.log2_lt_pow2; lia. }
    pose proof (Z.log2_lxor a b ltac:(lia) ltac:(lia)) as Hle.
    destruct (Z.eq_dec a 0) as [->|Ha0]; [rewrite Z.lxor_0_l in *; apply Hlog; lia|].
    destruct (Z.eq_dec b 0) as [->|Hb0]; [rewrite Z.lxor_0_r in *; apply Hlog; lia|].
    pose proof (Hlog a Ha Ha0). pose proof (Hlog b Hb Hb0). lia.
Qed.

Lemma murmur_body_range seed length data : 0 ≤ murmur_body seed length data < 2 ^ 64.
Proof.
  unfold murmur_body. destruct (murmur_blocks _ _ _) as [h d].
  match goal with |- context [u64 (?x * murmur_m)] => set (k := x) end.
  pose proof (u64_range (k * murmur_m)) as Hk. apply lxor_range; [lia|done|].
  rewrite Z.shiftr_div_pow2 by (unfold murmur_r; lia). unfold murmur_r.
  split; [apply Z.div_pos; lia|].
  apply Z.div_lt_upper_bound; lia.
Qed.

Lemma ObStoreRowkeyWrapper_hash_range w : 0 ≤ ObStoreRowkeyWrapper_hash w < 2 ^ 64.
Proof.
  unfold ObStoreRowkeyWrapper_hash, ObStoreRowkey_murmurhash.
  destruct (wr_rowkey_ w) as [k|]; [|lia]. destruct (ObStoreRowkey_get_data k); [|lia].
  destruct (_ =? _); [lia|]. apply murmur_body_range.
Qed.

(** *** The two hash functions agree *)

Lemma ObMemtableKey_encode_ok k rk : ObStoreRowkey_is_valid rk = true →
  ObMemtableKey_encode k (Some rk)
  = (0, mkMemtableKey (Some (rk_buf_ rk)) (rk_length_ rk) (ObStoreRowkey_murmurhash rk 0) (Some rk)).
Proof.
  unfold ObMemtableKey_encode. intros Hv. rewrite Hv. simpl.
  unfold ObStoreRowkey_murmurhash, ObStoreRowkey_get_length, ObStoreRowkey_get_data.
  apply andb_prop in Hv as [Hl _]. by rewrite Hl.
Qed.

Lemma ObMemtableKey_encode_bad k rk : ObStoreRowkey_is_valid rk = false →
  ObMemtableKey_encode k (Some rk) = (-1, k).
Proof. unfold ObMemtableKey_encode. by intros ->. Qed.

(** C22: row keys are totally ordered.  On well-formed keys [compare] is
    antisymmetric and transitive (it orders by length first, then by bytes),
    compares equal only to itself, [equal] is equality, and equal keys have the
    same hash, both as row keys and as the memtable keys encoded from them. *)
Theorem rowkey_total_order a b c : rowkey_wf a → rowkey_wf b → rowkey_wf c →
  ObStoreRowkey_compare b a = - ObStoreRowkey_compare a b
  ∧ (ObStoreRowkey_compare a b < 0 → ObStoreRowkey_compare b c < 0 → ObStoreRowkey_compare a c < 0)
  ∧ (ObStoreRowkey_compare a b = 0 ↔ a = b) ∧ (ObStoreRowkey_equal a b = true ↔ a = b)
  ∧ (rk_length_ a < rk_length_ b → ObStoreRowkey_compare a b < 0)
  ∧ (ObStoreRowkey_equal a b = true → ObStoreRowkey_is_valid a = true →
     ObMemtableKey_hash (ObMemtableKey_encode ObMemtableKey_default (Some a)).2
     = ObStoreRowkeyWrapper_hash (mkWrapper (Some b))).
Proof.
  intros Ha Hb Hc.
  assert (ObStoreRowkey_compare a b = 0 ↔ a = b) as Heq.
  { split; [by apply ObStoreRowkey_compare_eq|intros ->; apply ObStoreRowkey_compare_refl]. }
  assert (ObStoreRowkey_equal a b = true ↔ a = b) as Heq'.
  { rewrite ObStoreRowkey_equal_compare, Z.eqb_eq. exact Heq. }
  split_and!; [apply ObStoreRowkey_compare_antisym|by apply ObStoreRowkey_compare_trans|done..| |].
  - intros Hl. unfold ObStoreRowkey_compare. rewrite (proj2 (Z.ltb_lt _ _)) by done. done.
  - intros <-%Heq' Hv. by rewrite ObMemtableKey_encode_ok.
Qed.

Lemma rowkey_total_order_witness :
  let a := rowkey_of [2] in let b := rowkey_of [1; 0] in let c := rowkey_of [1; 5] in
  ObStoreRowkey_compare a b < 0 ∧ ObStoreRowkey_compare b c < 0 ∧ ObStoreRowkey_compare a c < 0
  ∧ ObStoreRowkey_compare b a = - ObStoreRowkey_compare a b.
Proof.
  assert (∀ x y, is_byte x → is_byte y → rowkey_wf (rowkey_of [x; y])) as Hw2.
  { intros x y Hx Hy. apply rowkey_of_wf. by repeat (constructor; try assumption). }
  assert (rowkey_wf (rowkey_of [2])) as Hw1 by (apply rowkey_of_wf; repeat constructor; unfold is_byte; lia).
  destruct (rowkey_total_order (rowkey_of [2]) (rowkey_of [1; 0]) (rowkey_of [1; 5]) Hw1
              ltac:(apply Hw2; unfold is_byte; lia) ltac:(apply Hw2; unfold is_byte; lia)) as (H1 & H2 & _).
  split_and!; [reflexivity|reflexivity|apply H2; reflexivity|exact H1].
Defined.
