(* ===== verification/OrdMap.v ===== *)
(** * std::map with integer keys

    A [std::map<uint64_t, T>] as a strictly sorted association list: the
    iteration order, [lower_bound] and the suffix an iterator points to are
    all visible.  [om_map] relates it to a finite map. *)

From S2P Require Import Prelude.

Section OrdMap.
Context {V : Type}.
Implicit Types m : list (Z * V).

(** [map[k] = v]. *)
Fixpoint om_insert (k : Z) (v : V) m : list (Z * V) :=
  match m with
  | [] => [(k, v)]
  | (k', v') :: m' =>
      if k <? k' then (k, v) :: m
      else if k =? k' then (k, v) :: m'
      else (k', v') :: om_insert k v m'
  end.

(** [map.find(k)]. *)
Fixpoint om_lookup (k : Z) m : option V :=
  match m with
  | [] => None
  | (k', v') :: m' => if k =? k' then Some v' else om_lookup k m'
  end.

(** [map.lower_bound(k)]: the entries from the first key not below [k]. *)
Fixpoint om_lower_bound (k : Z) m : list (Z * V) :=
  match m with
  | [] => []
  | (k', v') :: m' => if k' <? k then om_lower_bound k m' else m
  end.

Definition om_sorted m : Prop := StronglySorted Z.lt (m.*1).
Definition om_map m : gmap Z V := list_to_map m.

Lemma om_insert_keys k v m x : x ∈ (om_insert k v m).*1 ↔ x = k ∨ x ∈ m.*1.
Proof.
  induction m as [|[k' v'] m IH]; cbn; [set_solver|].
  destruct (k <? k'); [set_solver|]. destruct (Z.eqb_spec k k') as [->|].
  - set_solver.
  - cbn. rewrite !elem_of_cons, IH. naive_solver.
Qed.

Lemma om_insert_sorted k v m : om_sorted m → om_sorted (om_insert k v m).
Proof.
  unfold om_sorted. induction m as [|[k' v'] m IH]; cbn; [repeat constructor|].
  intros Hs. apply StronglySorted_inv in Hs as [Hs Hall].
  destruct (Z.ltb_spec k k').
  - cbn. constructor; [by constructor|]. constructor; [done|].
    eapply Forall_impl; [done|]. simpl; lia.
  - destruct (Z.eqb_spec k k') as [->|]; cbn; constructor; auto.
    apply Forall_forall. intros x. rewrite om_insert_keys. intros [->|Hx]; [lia|].
    rewrite Forall_forall in Hall. auto.
Qed.

Lemma om_sorted_NoDup m : om_sorted m → NoDup (m.*1).
Proof.
  unfold om_sorted. induction (m.*1) as [|k l IH]; intros Hs; [constructor|].
  apply StronglySorted_inv in Hs as [Hs Hall]. constructor; [|auto].
  intros Hk. rewrite Forall_forall in Hall. specialize (Hall k Hk). lia.
Qed.

Lemma om_sorted_tail e m : om_sorted (e :: m) → om_sorted m.
Proof. unfold om_sorted. cbn. intros Hs. by apply StronglySorted_inv in Hs as []. Qed.

Lemma om_filter_sorted (P : Z * V → Prop) `{!∀ e, Decision (P e)} m :
  om_sorted m → om_sorted (filter P m).
Proof.
  unfold om_sorted. induction m as [|e m IH]; intros Hs; [done|].
  cbn in Hs. apply StronglySorted_inv in Hs as [Hs Hall]. rewrite filter_cons.
  case_decide; [|auto]. cbn. constructor; [auto|]. rewrite Forall_forall in *.
  intros k (e' & -> & [_ He]%list_elem_of_filter)%list_elem_of_fmap.
  apply Hall, list_elem_of_fmap. eauto.
Qed.

Lemma om_lookup_map k m : om_lookup k m = om_map m !! k.
Proof.
  unfold om_map. induction m as [|[k' v'] m IH]; cbn; [done|].
  destruct (Z.eqb_spec k k') as [->|]; [by rewrite lookup_insert_eq|].
  by rewrite lookup_insert_ne.
Qed.

Lemma om_insert_map k v m : om_sorted m → om_map (om_insert k v m) = <[k:=v]> (om_map m).
Proof.
  unfold om_map. induction m as [|[k' v'] m IH]; intros Hs; cbn; [done|].
  destruct (Z.ltb_spec k k'); [done|]. destruct (Z.eqb_spec k k') as [->|Hne].
  - cbn. by rewrite insert_insert_eq.
  - cbn. rewrite IH; [by rewrite insert_insert_ne|]. unfold om_sorted in *. cbn in Hs.
    by apply StronglySorted_inv in Hs as [].
Qed.

Lemma om_elem_lookup m k v : om_sorted m → (k, v) ∈ m ↔ om_map m !! k = Some v.
Proof.
  intros Hs. unfold om_map. apply elem_of_list_to_map. by apply om_sorted_NoDup.
Qed.

(** [lower_bound] is the filter by [k <=]. *)
Lemma om_lower_bound_filter k m : om_sorted m →
  om_lower_bound k m = filter (λ e, k ≤ e.1) m.
Proof.
  unfold om_sorted. induction m as [|[k' v'] m IH]; intros Hs; [done|]. cbn in Hs.
  apply StronglySorted_inv in Hs as [Hs Hall]. cbn [om_lower_bound]. rewrite filter_cons. cbn.
  destruct (Z.ltb_spec k' k).
  - rewrite decide_False by lia. auto.
  - rewrite decide_True by lia. f_equal. symmetry. apply filter_all.
    apply Forall_forall. intros e He. rewrite Forall_forall in Hall.
    enough (k' < e.1) by lia. apply Hall. apply list_elem_of_fmap. eauto.
Qed.

Lemma om_lower_bound_sorted k m : om_sorted m → om_sorted (om_lower_bound k m).
Proof.
  unfold om_sorted. induction m as [|[k' v'] m IH]; intros Hs; [done|]. cbn.
  destruct (k' <? k); [|done]. apply IH. cbn in Hs. by apply StronglySorted_inv in Hs as [].
Qed.
End OrdMap.
