(* ===== verification/BlockFormat.v ===== *)
(** * SSTable block headers and the micro block writer

    Models, under [src/src/storage/blocksstable]: [ob_block_header.h],
    [ob_data_store_desc.h] and [ob_micro_block_writer.h/.cpp].  The headers are
    [Pod] structures; bit fields are packed from the least significant bit.
    The repository has no reader of micro blocks, so the format is specified by
    the reference decoder [micro_block_rows], and what the writer builds is
    shown to decode to the rows appended. *)

From S2P Require Import Prelude Pod StoreTypes.

(** ** ObMacroBlockCommonHeader *)

Definition MacroBlockType_None : Z := 0.
Definition MacroBlockType_SSTableData : Z := 1.
Definition MacroBlockType_SSTableIndex : Z := 6.
Definition MacroBlockType_SSTableMacroMeta : Z := 7.

Definition MACRO_BLOCK_COMMON_HEADER_VERSION : Z := 1.
Definition MACRO_BLOCK_COMMON_HEADER_MAGIC : Z := 1001.

Record ObMacroBlockCommonHeader := mkCommonHeader {
  ch_header_size_ : Z;
  ch_version_ : Z;
  ch_magic_ : Z;
  ch_attr_ : Z;
  ch_payload_size_ : Z;
  ch_payload_checksum_ : Z }.

Definition ObMacroBlockCommonHeader_default : ObMacroBlockCommonHeader :=
  mkCommonHeader 0 1 1001 MacroBlockType_SSTableData 0 0.
Definition ObMacroBlockCommonHeader_reset (_ : ObMacroBlockCommonHeader) : ObMacroBlockCommonHeader :=
  mkCommonHeader 0 1 1001 MacroBlockType_SSTableData 0 0.
Definition ObMacroBlockCommonHeader_is_valid (h : ObMacroBlockCommonHeader) : bool :=
  ch_magic_ h =? MACRO_BLOCK_COMMON_HEADER_MAGIC.
Definition ObMacroBlockCommonHeader_is_sstable_data_block (h : ObMacroBlockCommonHeader) : bool :=
  ch_attr_ h =? MacroBlockType_SSTableData.
Definition ObMacroBlockCommonHeader_is_sstable_index_block (h : ObMacroBlockCommonHeader) : bool :=
  ch_attr_ h =? MacroBlockType_SSTableIndex.

Definition common_header_bytes (h : ObMacroBlockCommonHeader) : bytes :=
  le_enc 4 (ch_header_size_ h) ++ le_enc 4 (ch_version_ h) ++ le_enc 4 (ch_magic_ h)
  ++ le_enc 4 (ch_attr_ h) ++ le_enc 4 (ch_payload_size_ h) ++ le_enc 4 (ch_payload_checksum_ h).
Definition common_header_wf (h : ObMacroBlockCommonHeader) : Prop :=
  i32_range (ch_header_size_ h) ∧ i32_range (ch_version_ h) ∧ i32_range (ch_magic_ h)
  ∧ i32_range (ch_attr_ h) ∧ i32_range (ch_payload_size_ h) ∧ i32_range (ch_payload_checksum_ h).

#[export] Program Instance common_header_pod : Pod ObMacroBlockCommonHeader := {|
  pod_size := 24;
  pod_enc := common_header_bytes;
  pod_dec b := mkCommonHeader (i32 (field 0 4 b)) (i32 (field 4 4 b)) (i32 (field 8 4 b))
                 (i32 (field 12 4 b)) (i32 (field 16 4 b)) (i32 (field 20 4 b));
  pod_wf := common_header_wf |}.
Next Obligation. done. Qed.
Next Obligation.
  intros [a b c d e f] (Ha & Hb & Hc & Hd & He & Hf). cbn in *.
  f_equal; [exact (i32_enc a Ha)|exact (i32_enc b Hb)|exact (i32_enc c Hc)|exact (i32_enc d Hd)
           |exact (i32_enc e He)|exact (i32_enc f Hf)].
Qed.

Definition ObMacroBlockCommonHeader_get_serialize_size : Z := 24.
Definition ObMacroBlockCommonHeader_serialize (h : ObMacroBlockCommonHeader) := pod_serialize h.
Definition ObMacroBlockCommonHeader_deserialize (h : ObMacroBlockCommonHeader) := pod_deserialize h.

(** ** ObSSTableMacroBlockHeader: its FixedHeader

    The pointers to column arrays are never set and never serialized. *)

Definition SSTABLE_MACRO_BLOCK_HEADER_MAGIC : Z := 1007.
Definition SSTABLE_MACRO_BLOCK_HEADER_VERSION_V2 : Z := 2.

Record FixedHeader := mkFixedHeader {
  fh_header_size_ : Z;
  fh_version_ : Z;
  fh_magic_ : Z;
  fh_tablet_id_ : Z;
  fh_logical_version_ : Z;
  fh_data_seq_ : Z;
  fh_column_count_ : Z;
  fh_rowkey_column_count_ : Z;
  fh_row_store_type_ : Z;
  fh_row_count_ : Z;
  fh_occupy_size_ : Z;
  fh_micro_block_count_ : Z;
  fh_micro_block_data_offset_ : Z;
  fh_micro_block_data_size_ : Z;
  fh_idx_block_offset_ : Z;
  fh_idx_block_size_ : Z;
  fh_meta_block_offset_ : Z;
  fh_meta_block_size_ : Z;
  fh_data_checksum_ : Z }.

Definition FixedHeader_default : FixedHeader :=
  mkFixedHeader 0 0 0 0 0 0 0 0 0 0 0 0 0 0 0 0 0 0 0.
Definition FixedHeader_is_valid (h : FixedHeader) : bool := fh_magic_ h =? SSTABLE_MACRO_BLOCK_HEADER_MAGIC.

Definition fixed_header_bytes (h : FixedHeader) : bytes :=
  le_enc 4 (fh_header_size_ h) ++ le_enc 2 (fh_version_ h) ++ le_enc 2 (fh_magic_ h)
  ++ le_enc 8 (fh_tablet_id_ h) ++ le_enc 8 (fh_logical_version_ h) ++ le_enc 8 (fh_data_seq_ h)
  ++ le_enc 4 (fh_column_count_ h) ++ le_enc 4 (fh_rowkey_column_count_ h)
  ++ le_enc 4 (fh_row_store_type_ h) ++ le_enc 4 (fh_row_count_ h) ++ le_enc 4 (fh_occupy_size_ h)
  ++ le_enc 4 (fh_micro_block_count_ h) ++ le_enc 4 (fh_micro_block_data_offset_ h)
  ++ le_enc 4 (fh_micro_block_data_size_ h) ++ le_enc 4 (fh_idx_block_offset_ h)
  ++ le_enc 4 (fh_idx_block_size_ h) ++ le_enc 4 (fh_meta_block_offset_ h)
  ++ le_enc 4 (fh_meta_block_size_ h) ++ le_enc 8 (fh_data_checksum_ h).
Definition fixed_header_wf (h : FixedHeader) : Prop :=
  0 ≤ fh_header_size_ h < 2 ^ 32 ∧ 0 ≤ fh_version_ h < 2 ^ 16 ∧ 0 ≤ fh_magic_ h < 2 ^ 16
  ∧ 0 ≤ fh_tablet_id_ h < 2 ^ 64 ∧ i64_range (fh_logical_version_ h) ∧ i64_range (fh_data_seq_ h)
  ∧ i32_range (fh_column_count_ h) ∧ i32_range (fh_rowkey_column_count_ h)
  ∧ i32_range (fh_row_store_type_ h) ∧ i32_range (fh_row_count_ h) ∧ i32_range (fh_occupy_size_ h)
  ∧ i32_range (fh_micro_block_count_ h) ∧ i32_range (fh_micro_block_data_offset_ h)
  ∧ i32_range (fh_micro_block_data_size_ h) ∧ i32_range (fh_idx_block_offset_ h)
  ∧ i32_range (fh_idx_block_size_ h) ∧ i32_range (fh_meta_block_offset_ h)
  ∧ i32_range (fh_meta_block_size_ h) ∧ i64_range (fh_data_checksum_ h).

#[export] Program Instance fixed_header_pod : Pod FixedHeader := {|
  pod_size := 88;
  pod_enc := fixed_header_bytes;
  pod_dec b := mkFixedHeader (field 0 4 b) (field 4 2 b) (field 6 2 b) (field 8 8 b)
    (i64 (field 16 8 b)) (i64 (field 24 8 b)) (i32 (field 32 4 b)) (i32 (field 36 4 b))
    (i32 (field 40 4 b)) (i32 (field 44 4 b)) (i32 (field 48 4 b)) (i32 (field 52 4 b))
    (i32 (field 56 4 b)) (i32 (field 60 4 b)) (i32 (field 64 4 b)) (i32 (field 68 4 b))
    (i32 (field 72 4 b)) (i32 (field 76 4 b)) (i64 (field 80 8 b));
  pod_wf := fixed_header_wf |}.
Next Obligation. done. Qed.
Next Obligation.
  intros [] (H1 & H2 & H3 & H4 & H5 & H6 & H7 & H8 & H9 & H10 & H11 & H12 & H13 & H14 & H15 & H16 & H17
             & H18 & H19). cbn in *.
  f_equal; [exact (le_dec_enc_small 4 _ H1)|exact (le_dec_enc_small 2 _ H2)|exact (le_dec_enc_small 2 _ H3)
    |exact (le_dec_enc_small 8 _ H4)|exact (i64_enc _ H5)|exact (i64_enc _ H6)|exact (i32_enc _ H7)
    |exact (i32_enc _ H8)|exact (i32_enc _ H9)|exact (i32_enc _ H10)|exact (i32_enc _ H11)
    |exact (i32_enc _ H12)|exact (i32_enc _ H13)|exact (i32_enc _ H14)|exact (i32_enc _ H15)
    |exact (i32_enc _ H16)|exact (i32_enc _ H17)|exact (i32_enc _ H18)|exact (i64_enc _ H19)].
Qed.

Record ObSSTableMacroBlockHeader := mkMacroHeader { fixed_header_ : FixedHeader }.
Definition ObSSTableMacroBlockHeader_default : ObSSTableMacroBlockHeader :=
  mkMacroHeader FixedHeader_default.
Definition ObSSTableMacroBlockHeader_is_valid (h : ObSSTableMacroBlockHeader) : bool :=
  FixedHeader_is_valid (fixed_header_ h).
Definition ObSSTableMacroBlockHeader_get_serialize_size : Z := 88.
Definition ObSSTableMacroBlockHeader_serialize (h : ObSSTableMacroBlockHeader) :=
  pod_serialize (fixed_header_ h).
Definition ObSSTableMacroBlockHeader_deserialize (h : ObSSTableMacroBlockHeader) (buf : bytes)
    (data_len pos : Z) : outcome (Z * ObSSTableMacroBlockHeader * Z) :=
  x ← pod_deserialize (fixed_header_ h) buf data_len pos;
  let '(ret, fh, pos) := x : Z * FixedHeader * Z in Done (ret, mkMacroHeader fh, pos).

(** ** ObMicroBlockHeader *)

Definition MICRO_BLOCK_HEADER_MAGIC : Z := 1005.

(** The two groups of bit fields. *)
Record micro_flags := mkMicroFlags {
  has_column_checksum_ : Z;
  has_string_out_row_ : Z;
  all_lob_in_row_ : Z;
  contains_hash_index_ : Z;
  hash_index_offset_ : Z;
  reserved_ : Z }.
Record flat_flags := mkFlatFlags {
  single_version_rows_ : Z;
  contain_uncommitted_rows_ : Z;
  is_last_row_last_flag_ : Z;
  is_first_row_first_flag_ : Z;
  flat_reserved_ : Z }.

Record ObMicroBlockHeader := mkMicroHeader {
  mh_magic_ : Z;
  mh_version_ : Z;
  mh_header_size_ : Z;
  mh_header_checksum_ : Z;
  mh_column_count_ : Z;
  mh_rowkey_column_count_ : Z;
  mh_flags : micro_flags;
  mh_row_count_ : Z;
  mh_row_store_type_ : Z;
  mh_flat : flat_flags;
  mh_compressor_type_ : Z;
  mh_cs_reserved_ : Z;
  mh_row_index_offset_ : Z;
  mh_original_length_ : Z;
  mh_max_merged_trans_version_ : Z;
  mh_data_length_ : Z;
  mh_data_zlength_ : Z;
  mh_data_checksum_ : Z }.

Definition micro_flags_zero : micro_flags := mkMicroFlags 0 0 0 0 0 0.
Definition flat_flags_zero : flat_flags := mkFlatFlags 0 0 0 0 0.
Definition ObMicroBlockHeader_default : ObMicroBlockHeader :=
  mkMicroHeader MICRO_BLOCK_HEADER_MAGIC 1 0 0 0 0 micro_flags_zero 0 0 flat_flags_zero 0 0 0 0 0 0 0 0.
Definition ObMicroBlockHeader_reset (_ : ObMicroBlockHeader) : ObMicroBlockHeader :=
  ObMicroBlockHeader_default.
Definition ObMicroBlockHeader_is_valid (h : ObMicroBlockHeader) : bool :=
  mh_magic_ h =? MICRO_BLOCK_HEADER_MAGIC.

(** [bits off n z]: the [n]-bit field of [z] at bit [off]. *)
Definition bits (off n z : Z) : Z := (z / 2 ^ off) mod 2 ^ n.

Definition micro_flags_enc (f : micro_flags) : Z :=
  has_column_checksum_ f + 2 * has_string_out_row_ f + 4 * all_lob_in_row_ f
  + 8 * contains_hash_index_ f + 16 * hash_index_offset_ f + 2 ^ 14 * reserved_ f.
Definition micro_flags_dec (z : Z) : micro_flags :=
  mkMicroFlags (bits 0 1 z) (bits 1 1 z) (bits 2 1 z) (bits 3 1 z) (bits 4 10 z) (bits 14 2 z).
Definition micro_flags_wf (f : micro_flags) : Prop :=
  0 ≤ has_column_checksum_ f < 2 ∧ 0 ≤ has_string_out_row_ f < 2 ∧ 0 ≤ all_lob_in_row_ f < 2
  ∧ 0 ≤ contains_hash_index_ f < 2 ∧ 0 ≤ hash_index_offset_ f < 1024 ∧ 0 ≤ reserved_ f < 4.
Definition flat_flags_enc (f : flat_flags) : Z :=
  single_version_rows_ f + 2 * contain_uncommitted_rows_ f + 4 * is_last_row_last_flag_ f
  + 8 * is_first_row_first_flag_ f + 16 * flat_reserved_ f.
Definition flat_flags_dec (z : Z) : flat_flags :=
  mkFlatFlags (bits 0 1 z) (bits 1 1 z) (bits 2 1 z) (bits 3 1 z) (bits 4 4 z).
Definition flat_flags_wf (f : flat_flags) : Prop :=
  0 ≤ single_version_rows_ f < 2 ∧ 0 ≤ contain_uncommitted_rows_ f < 2
  ∧ 0 ≤ is_last_row_last_flag_ f < 2 ∧ 0 ≤ is_first_row_first_flag_ f < 2 ∧ 0 ≤ flat_reserved_ f < 16.

Lemma micro_flags_dec_enc f : micro_flags_wf f →
  micro_flags_dec (le_dec (le_enc 2 (micro_flags_enc f))) = f.
Proof.
  destruct f as [a b c d e g]. intros (Ha & Hb & Hc & Hd & He & Hg). cbn in * |-.
  rewrite le_dec_enc_small by (unfold micro_flags_enc; cbn; lia).
  unfold micro_flags_dec, bits, micro_flags_enc. cbn -[Z.div Z.modulo].
  f_equal; Z.to_euclidean_division_equations; lia.
Qed.

Lemma flat_flags_dec_enc f : flat_flags_wf f →
  flat_flags_dec (le_dec (le_enc 1 (flat_flags_enc f))) = f.
Proof.
  destruct f as [a b c d e]. intros (Ha & Hb & Hc & Hd & He). cbn in * |-.
  rewrite le_dec_enc_small by (unfold flat_flags_enc; cbn; lia).
  unfold flat_flags_dec, bits, flat_flags_enc. cbn -[Z.div Z.modulo].
  f_equal; Z.to_euclidean_division_equations; lia.
Qed.

Definition micro_header_bytes (h : ObMicroBlockHeader) : bytes :=
  le_enc 2 (mh_magic_ h) ++ le_enc 2 (mh_version_ h) ++ le_enc 4 (mh_header_size_ h)
  ++ le_enc 2 (mh_header_checksum_ h) ++ le_enc 2 (mh_column_count_ h)
  ++ le_enc 2 (mh_rowkey_column_count_ h) ++ le_enc 2 (micro_flags_enc (mh_flags h))
  ++ le_enc 4 (mh_row_count_ h) ++ le_enc 1 (mh_row_store_type_ h)
  ++ le_enc 1 (flat_flags_enc (mh_flat h)) ++ le_enc 1 (mh_compressor_type_ h)
  ++ le_enc 1 (mh_cs_reserved_ h) ++ le_enc 4 (mh_row_index_offset_ h)
  ++ le_enc 4 (mh_original_length_ h) ++ le_enc 8 (mh_max_merged_trans_version_ h)
  ++ le_enc 4 (mh_data_length_ h) ++ le_enc 4 (mh_data_zlength_ h) ++ le_enc 8 (mh_data_checksum_ h).
Definition micro_header_wf (h : ObMicroBlockHeader) : Prop :=
  - 2 ^ 15 ≤ mh_magic_ h < 2 ^ 15 ∧ - 2 ^ 15 ≤ mh_version_ h < 2 ^ 15
  ∧ 0 ≤ mh_header_size_ h < 2 ^ 32 ∧ - 2 ^ 15 ≤ mh_header_checksum_ h < 2 ^ 15
  ∧ 0 ≤ mh_column_count_ h < 2 ^ 16 ∧ 0 ≤ mh_rowkey_column_count_ h < 2 ^ 16
  ∧ micro_flags_wf (mh_flags h) ∧ 0 ≤ mh_row_count_ h < 2 ^ 32 ∧ 0 ≤ mh_row_store_type_ h < 2 ^ 8
  ∧ flat_flags_wf (mh_flat h) ∧ 0 ≤ mh_compressor_type_ h < 2 ^ 8 ∧ 0 ≤ mh_cs_reserved_ h < 2 ^ 8
  ∧ 0 ≤ mh_row_index_offset_ h < 2 ^ 32 ∧ i32_range (mh_original_length_ h)
  ∧ i64_range (mh_max_merged_trans_version_ h) ∧ i32_range (mh_data_length_ h)
  ∧ i32_range (mh_data_zlength_ h) ∧ i64_range (mh_data_checksum_ h).

#[export] Program Instance micro_header_pod : Pod ObMicroBlockHeader := {|
  pod_size := 56;
  pod_enc := micro_header_bytes;
  pod_dec b := mkMicroHeader (i16 (field 0 2 b)) (i16 (field 2 2 b)) (field 4 4 b) (i16 (field 8 2 b))
    (field 10 2 b) (field 12 2 b) (micro_flags_dec (field 14 2 b)) (field 16 4 b) (field 20 1 b)
    (flat_flags_dec (field 21 1 b)) (field 22 1 b) (field 23 1 b) (field 24 4 b) (i32 (field 28 4 b))
    (i64 (field 32 8 b)) (i32 (field 40 4 b)) (i32 (field 44 4 b)) (i64 (field 48 8 b));
  pod_wf := micro_header_wf |}.
Next Obligation. done. Qed.
Next Obligation.
  intros [] (H1 & H2 & H3 & H4 & H5 & H6 & H7 & H8 & H9 & H10 & H11 & H12 & H13 & H14 & H15 & H16 & H17
             & H18). cbn in *.
  f_equal; [exact (sint_le_dec_enc 2 _ ltac:(lia) H1)|exact (sint_le_dec_enc 2 _ ltac:(lia) H2)
    |exact (le_dec_enc_small 4 _ H3)|exact (sint_le_dec_enc 2 _ ltac:(lia) H4)
    |exact (le_dec_enc_small 2 _ H5)|exact (le_dec_enc_small 2 _ H6)|exact (micro_flags_dec_enc _ H7)
    |exact (le_dec_enc_small 4 _ H8)|exact (le_dec_enc_small 1 _ H9)|exact (flat_flags_dec_enc _ H10)
    |exact (le_dec_enc_small 1 _ H11)|exact (le_dec_enc_small 1 _ H12)|exact (le_dec_enc_small 4 _ H13)
    |exact (i32_enc _ H14)|exact (i64_enc _ H15)|exact (i32_enc _ H16)|exact (i32_enc _ H17)
    |exact (i64_enc _ H18)].
Qed.

(** [offsetof(data_checksum_) + sizeof(data_checksum_)]. *)
Definition ObMicroBlockHeader_get_serialize_size : Z := 56.
Definition ObMicroBlockHeader_serialize (h : ObMicroBlockHeader) := pod_serialize h.
Definition ObMicroBlockHeader_deserialize (h : ObMicroBlockHeader) := pod_deserialize h.

(** ** ObDataStoreDesc *)

Definition FLAT_ROW_STORE : Z := 0.
Inductive ObMergeType := MINI_MERGE | MINOR_MERGE | MAJOR_MERGE | NOT_INIT.

Record ObDataStoreDesc := mkDesc {
  d_tablet_id_ : Z;
  d_column_count_ : Z;
  d_rowkey_column_count_ : Z;
  d_macro_block_size_ : Z;
  d_micro_block_size_ : Z;
  d_schema_version_ : Z;
  d_snapshot_version_ : Z;
  d_row_store_type_ : Z;
  d_merge_type_ : ObMergeType }.
Definition ObDataStoreDesc_default : ObDataStoreDesc :=
  mkDesc 0 0 0 DEFAULT_MACRO_BLOCK_SIZE DEFAULT_MICRO_BLOCK_SIZE 0 0 FLAT_ROW_STORE MINI_MERGE.

(** ** ObMicroBlockWriter *)

Record ObMicroBlockWriter := mkMicroWriter {
  mw_desc_ : option ObDataStoreDesc;
  mw_data_buf_ : bytes;
  mw_row_offsets_ : list Z;
  mw_micro_block_size_ : Z;
  mw_current_size_ : Z;
  mw_row_count_ : Z;
  mw_header_ : ObMicroBlockHeader;
  mw_last_rowkey_ : ObStoreRowkey }.

Definition ObMicroBlockWriter_new : ObMicroBlockWriter :=
  mkMicroWriter None [] [] 0 0 0 ObMicroBlockHeader_default ObStoreRowkey_default.

(** [reset] dereferences [desc_]. *)
Definition ObMicroBlockWriter_reset (w : ObMicroBlockWriter) : outcome ObMicroBlockWriter :=
  desc ← deref (mw_desc_ w);
  let h := ObMicroBlockHeader_reset (mw_header_ w) in
  let header := mkMicroHeader MICRO_BLOCK_HEADER_MAGIC 1 (mh_header_size_ h) (mh_header_checksum_ h)
    (u16 (d_column_count_ desc)) (u16 (d_rowkey_column_count_ desc)) (mh_flags h) (mh_row_count_ h)
    FLAT_ROW_STORE (mkFlatFlags 1 0 0 0 (flat_reserved_ (mh_flat h))) (mh_compressor_type_ h)
    (mh_cs_reserved_ h) (mh_row_index_offset_ h) (mh_original_length_ h)
    (mh_max_merged_trans_version_ h) (mh_data_length_ h) (mh_data_zlength_ h) (mh_data_checksum_ h) in
  let header_size := ObMicroBlockHeader_get_serialize_size in
  Done (mkMicroWriter (Some desc) (replicate (Z.to_nat header_size) 0) [] (mw_micro_block_size_ w)
          header_size 0 header (ObStoreRowkey_reset (mw_last_rowkey_ w))).

Definition ObMicroBlockWriter_init (desc : ObDataStoreDesc) (w : ObMicroBlockWriter)
    : outcome (Z * ObMicroBlockWriter) :=
  w ← ObMicroBlockWriter_reset
        (mkMicroWriter (Some desc) (mw_data_buf_ w) (mw_row_offsets_ w) (d_micro_block_size_ desc)
           (mw_current_size_ w) (mw_row_count_ w) (mw_header_ w) (mw_last_rowkey_ w));
  Done (0, w).

(** [std::string::append(ptr, n)] of a key or a value; a negative [n] becomes a
    size no string can have and [append] throws. *)
Definition string_append (buf : bytes) (src : option bytes) (n : Z) : outcome bytes :=
  d ← mem_read 0 n (default [] src); Done (buf ++ d).

Definition ObMicroBlockWriter_append_row (row : ObStoreRow) (w : ObMicroBlockWriter)
    : outcome (Z * ObMicroBlockWriter) :=
  match mw_desc_ w with
  | None => Done (-1, w)
  | Some _ =>
      let row_start := blen (mw_data_buf_ w) in
      let dml := u8 (dml_flag_ row) in
      let key_len := i32 (ObStoreRowkey_get_length (rowkey_ row)) in
      let val_len := i32 (blen (row_value_ row)) in
      let buf := mw_data_buf_ w ++ [dml] ++ le_enc 4 key_len in
      buf ← string_append buf (ObStoreRowkey_get_data (rowkey_ row)) key_len;
      let buf := buf ++ le_enc 4 val_len in
      buf ← (if 0 <? val_len then string_append buf (Some (row_value_ row)) val_len else Done buf);
      Done (0, mkMicroWriter (mw_desc_ w) buf (mw_row_offsets_ w ++ [i32 row_start])
                 (mw_micro_block_size_ w) (blen buf) (mw_row_count_ w + 1) (mw_header_ w) (rowkey_ row))
  end.

Definition ObMicroBlockWriter_is_block_full (w : ObMicroBlockWriter) : bool :=
  mw_micro_block_size_ w - 4096 <=? mw_current_size_ w.
Definition ObMicroBlockWriter_get_row_count (w : ObMicroBlockWriter) : Z := mw_row_count_ w.
Definition ObMicroBlockWriter_get_last_rowkey (w : ObMicroBlockWriter) : ObStoreRowkey := mw_last_rowkey_ w.

(** The header [build_block] writes, for a buffer of [size] bytes whose row
    index starts at [row_index_start]. *)
Definition built_header (h : ObMicroBlockHeader) (row_count row_index_start size : Z)
    : ObMicroBlockHeader :=
  mkMicroHeader (mh_magic_ h) (mh_version_ h) (mh_header_size_ h) (mh_header_checksum_ h)
    (mh_column_count_ h) (mh_rowkey_column_count_ h) (mh_flags h) (u32 row_count)
    (mh_row_store_type_ h) (mh_flat h) (mh_compressor_type_ h) (mh_cs_reserved_ h)
    (u32 row_index_start) (i32 size) 0 (i32 size) (i32 size) 0.

(** [build_block]: code, [out_block_data], writer.  The code of the header's
    [serialize] is ignored. *)
Definition ObMicroBlockWriter_build_block (w : ObMicroBlockWriter)
    : outcome (Z * bytes * ObMicroBlockWriter) :=
  if mw_row_count_ w =? 0 then Done (0, [], w)
  else
    let row_index_start := i32 (blen (mw_data_buf_ w)) in
    let data_buf := mw_data_buf_ w ++ concat (le_enc 4 <$> mw_row_offsets_ w) in
    let header := built_header (mw_header_ w) (mw_row_count_ w) row_index_start (blen data_buf) in
    x ← ObMicroBlockHeader_serialize header data_buf (blen data_buf) 0;
    let '(_, data_buf, _) := x : Z * bytes * Z in
    w ← ObMicroBlockWriter_reset
          (mkMicroWriter (mw_desc_ w) data_buf (mw_row_offsets_ w) (mw_micro_block_size_ w)
             (mw_current_size_ w) (mw_row_count_ w) header (mw_last_rowkey_ w));
    Done (0, data_buf, w).

(** ** The format, as a reference decoder *)

(** A row as it is stored: flag byte, key, value. *)
Abbreviation stored_row := (Z * bytes * bytes)%type (only parsing).
Definition row_image (row : ObStoreRow) : stored_row :=
  (u8 (dml_flag_ row), rk_buf_ (rowkey_ row), row_value_ row).

Definition flat_row_at (off : Z) (b : bytes) : outcome stored_row :=
  d ← mem_read off 1 b;
  k ← mem_read (off + 1) 4 b;
  let key_len := i32 (le_dec k) in
  key ← mem_read (off + 5) key_len b;
  v ← mem_read (off + 5 + key_len) 4 b;
  let val_len := i32 (le_dec v) in
  value ← mem_read (off + 9 + key_len) val_len b;
  Done (le_dec d, key, value).

(** The rows named by the [n] index entries from [idx] on. *)
Fixpoint index_rows (n : nat) (idx : Z) (b : bytes) : outcome (list stored_row) :=
  match n with
  | O => Done []
  | S n' =>
      o ← mem_read idx 4 b;
      row ← flat_row_at (i32 (le_dec o)) b;
      rest ← index_rows n' (idx + 4) b;
      Done (row :: rest)
  end.

Definition micro_block_rows (b : bytes) : outcome (Z * list stored_row) :=
  x ← ObMicroBlockHeader_deserialize ObMicroBlockHeader_default b (blen b) 0;
  let '(ret, h, _) := x : Z * ObMicroBlockHeader * Z in
  if negb (ret =? 0) || negb (ObMicroBlockHeader_is_valid h) then Done (-1, [])
  else
    rows ← index_rows (Z.to_nat (mh_row_count_ h)) (mh_row_index_offset_ h) b;
    Done (0, rows).

(** ** The writer's states *)

(** Rows the writer stores without truncation. *)
Definition row_storable (row : ObStoreRow) : Prop :=
  row_wf row ∧ rk_length_ (rowkey_ row) < 2 ^ 31 ∧ blen (row_value_ row) < 2 ^ 31.

Definition rows_bytes (rows : list ObStoreRow) : bytes := concat (record_of <$> rows).

(** Offsets of the rows when the first is at [off]. *)
Fixpoint row_starts (off : Z) (rows : list ObStoreRow) : list Z :=
  match rows with
  | [] => []
  | row :: rows' => off :: row_starts (off + blen (record_of row)) rows'
  end.

Definition empty_header (desc : ObDataStoreDesc) : ObMicroBlockHeader :=
  mkMicroHeader MICRO_BLOCK_HEADER_MAGIC 1 0 0 (u16 (d_column_count_ desc))
    (u16 (d_rowkey_column_count_ desc)) micro_flags_zero 0 FLAT_ROW_STORE (mkFlatFlags 1 0 0 0 0)
    0 0 0 0 0 0 0 0.

(** The writer after [rows] have been appended to an empty block. *)
Definition writer_with (desc : ObDataStoreDesc) (rows : list ObStoreRow) : ObMicroBlockWriter :=
  mkMicroWriter (Some desc) (replicate 56 0 ++ rows_bytes rows) (row_starts 56 rows)
    (d_micro_block_size_ desc) (56 + blen (rows_bytes rows)) (blen rows) (empty_header desc)
    (default ObStoreRowkey_default (rowkey_ <$> last rows)).

(** Size of the block built from [rows], and the block. *)
Definition micro_size (rows : list ObStoreRow) : Z := 56 + blen (rows_bytes rows) + 4 * blen rows.
Definition micro_block_of (desc : ObDataStoreDesc) (rows : list ObStoreRow) : bytes :=
  micro_header_bytes
    (built_header (empty_header desc) (blen rows) (56 + blen (rows_bytes rows)) (micro_size rows))
  ++ rows_bytes rows ++ concat (le_enc 4 <$> row_starts 56 rows).

Lemma rows_bytes_snoc rows row : rows_bytes (rows ++ [row]) = rows_bytes rows ++ record_of row.
Proof. unfold rows_bytes. rewrite fmap_app, concat_app. cbn. by rewrite app_nil_r. Qed.

Lemma row_starts_snoc off rows row :
  row_starts off (rows ++ [row]) = row_starts off rows ++ [off + blen (rows_bytes rows)].
Proof.
  revert off. induction rows as [|r rows IH]; intros off; cbn [app row_starts].
  - unfold rows_bytes. cbn. by rewrite Z.add_0_r.
  - rewrite IH. cbn [app]. do 3 f_equal. unfold rows_bytes. rewrite fmap_cons. cbn [concat].
    rewrite blen_app. lia.
Qed.

Lemma length_row_starts off rows : length (row_starts off rows) = length rows.
Proof. revert off. induction rows; intros off; cbn; auto. Qed.

Lemma blen_offsets os : blen (concat (le_enc 4 <$> os)) = 4 * blen os.
Proof.
  induction os as [|o os IH]; [done|]. rewrite fmap_cons. cbn [concat].
  rewrite blen_app, blen_le_enc, IH, blen_cons. lia.
Qed.


Lemma micro_init_spec desc w : ObMicroBlockWriter_init desc w = Done (0, writer_with desc []).
Proof. done. Qed.

Lemma string_append_all buf src d : default [] src = d →
  string_append buf src (blen d) = Done (buf ++ d).
Proof. intros Hd. unfold string_append. rewrite Hd, mem_read_ok, sub_all by auto with mystorage. done. Qed.

(** The test for an empty value makes no difference. *)
Lemma string_append_nonempty (buf v : bytes) :
  (if 0 <? blen v then Done (buf ++ v) else Done buf) = Done (buf ++ v).
Proof.
  destruct (Z.ltb_spec 0 (blen v)); [done|]. destruct v as [|x v]; [by rewrite app_nil_r|].
  rewrite blen_cons in *. pose proof (blen_nonneg v). lia.
Qed.

Lemma micro_append_spec desc rows row : row_storable row → 56 + blen (rows_bytes rows) < 2 ^ 31 →
  ObMicroBlockWriter_append_row row (writer_with desc rows) = Done (0, writer_with desc (rows ++ [row])).
Proof.
  intros (Hwf & Hk & Hv) Hsz. pose proof Hwf as [Hl _]. unfold ObMicroBlockWriter_append_row.
  cbn [mw_desc_ writer_with mw_data_buf_ mw_row_offsets_ mw_micro_block_size_ mw_row_count_ mw_header_].
  unfold ObStoreRowkey_get_length. set (rk := rowkey_ row) in *.
  pose proof (blen_nonneg (rk_buf_ rk)). pose proof (blen_nonneg (row_value_ row)).
  pose proof (blen_nonneg (rows_bytes rows)).
  rewrite (i32_small (rk_length_ rk)), (i32_small (blen (row_value_ row))) by (unfold i32_range; lia).
  assert (default [] (ObStoreRowkey_get_data rk) = rk_buf_ rk) as Hd.
  { unfold ObStoreRowkey_get_data. destruct (Z.ltb_spec 0 (rk_length_ rk)); [done|]. cbn.
    destruct (rk_buf_ rk); [done|]. rewrite blen_cons in *. pose proof (blen_nonneg l). lia. }
  rewrite Hl, (string_append_all _ _ _ Hd). cbn [mbind outcome_bind].
  rewrite (string_append_all _ (Some (row_value_ row)) _ eq_refl), string_append_nonempty.
  cbn [mbind outcome_bind].
  match goal with |- context [mkMicroWriter _ ?b] => assert (b = replicate 56 0 ++ rows_bytes (rows ++ [row])) as -> end.
  { rewrite rows_bytes_snoc. unfold record_of. fold rk. by rewrite Hl, <-!app_assoc. }
  do 2 f_equal. unfold writer_with. f_equal.
  - rewrite row_starts_snoc. do 2 f_equal. rewrite blen_app, blen_replicate. apply i32_small.
    unfold i32_range. lia.
  - by rewrite blen_app, blen_replicate.
  - rewrite blen_app. done.
  - by rewrite last_snoc.
Qed.

Lemma micro_build_spec desc rows : rows ≠ [] → micro_size rows < 2 ^ 31 →
  ObMicroBlockWriter_build_block (writer_with desc rows)
  = Done (0, micro_block_of desc rows, writer_with desc []).
Proof.
  intros Hne Hsz. unfold ObMicroBlockWriter_build_block.
  cbn [mw_row_count_ writer_with mw_data_buf_ mw_row_offsets_ mw_header_ mw_desc_ mw_micro_block_size_].
  assert (0 < blen rows) as Hpos.
  { destruct rows; [done|]. rewrite blen_cons. pose proof (blen_nonneg rows). lia. }
  pose proof (blen_nonneg (rows_bytes rows)). unfold micro_size in Hsz.
  rewrite (proj2 (Z.eqb_neq _ _)) by lia.
  set (idx := concat (le_enc 4 <$> row_starts 56 rows)).
  assert (blen idx = 4 * blen rows) as Hidx.
  { unfold idx. rewrite blen_offsets. unfold blen. by rewrite length_row_starts. }
  assert (blen ((replicate 56 0 ++ rows_bytes rows) ++ idx) = micro_size rows) as Hlen.
  { unfold micro_size. rewrite !blen_app, blen_replicate. lia. }
  rewrite (blen_app (replicate 56 0) (rows_bytes rows)), blen_replicate, Hlen. change (Z.of_nat 56) with 56.
  rewrite (i32_small (56 + blen (rows_bytes rows))) by (unfold i32_range; lia).
  unfold ObMicroBlockHeader_serialize. rewrite pod_serialize_ok; [|lia|change pod_size with 56; unfold micro_size; lia|rewrite Hlen; lia].
  rewrite <-app_assoc.
  match goal with |- context [pod_enc ?h] =>
    pose proof (splice_eq [] (replicate 56 0) (rows_bytes rows ++ idx) (pod_enc h) 0 eq_refl eq_refl) as E end.
  cbn [app] in E. rewrite E. done.
Qed.

Lemma micro_build_empty desc :
  ObMicroBlockWriter_build_block (writer_with desc []) = Done (0, [], writer_with desc []).
Proof. done. Qed.

Lemma blen_micro_block desc rows : blen (micro_block_of desc rows) = micro_size rows.
Proof.
  unfold micro_block_of, micro_size. rewrite !blen_app, blen_offsets.
  change (blen (micro_header_bytes _)) with 56. unfold blen at 2. rewrite length_row_starts.
  unfold blen. lia.
Qed.

(** ** Decoding *)

Lemma flat_row_at_app pre row post : row_storable row →
  flat_row_at (blen pre) (pre ++ record_of row ++ post) = Done (row_image row).
Proof.
  intros (Hwf & Hk & Hv). pose proof Hwf as [Hl _]. unfold flat_row_at, record_of, row_image.
  set (rk := rowkey_ row) in *. pose proof (blen_nonneg (rk_buf_ rk)). pose proof (blen_nonneg (row_value_ row)).
  rewrite Hl in *. rewrite <-!app_assoc. rewrite (mem_read_app (blen pre) 1 pre [u8 (dml_flag_ row)]) by done.
  cbn [mbind outcome_bind]. rewrite (app_assoc pre).
  rewrite (mem_read_app (blen pre + 1) 4 (pre ++ _) (le_enc 4 (blen (rk_buf_ rk)))) by (by autorewrite with blen).
  cbn [mbind outcome_bind]. rewrite (i32_enc (blen (rk_buf_ rk))) by (unfold i32_range; lia).
  rewrite (app_assoc (pre ++ _)).
  rewrite (mem_read_app (blen pre + 5) _ ((pre ++ _) ++ _) (rk_buf_ rk)) by (autorewrite with blen; lia).
  cbn [mbind outcome_bind]. rewrite (app_assoc ((pre ++ _) ++ _)).
  rewrite (mem_read_app _ 4 (((pre ++ _) ++ _) ++ _) (le_enc 4 (blen (row_value_ row))))
    by (autorewrite with blen; lia).
  cbn [mbind outcome_bind]. rewrite (i32_enc (blen (row_value_ row))) by (unfold i32_range; lia).
  rewrite (app_assoc (((pre ++ _) ++ _) ++ _)).
  rewrite (mem_read_app _ _ ((((pre ++ _) ++ _) ++ _) ++ _) (row_value_ row)) by (autorewrite with blen; lia).
  cbn [mbind outcome_bind le_dec]. do 4 f_equal. unfold u8. lia.
Qed.

Lemma index_rows_spec rows b p q m r : Forall row_storable rows →
  b = p ++ rows_bytes rows ++ m → b = q ++ concat (le_enc 4 <$> row_starts (blen p) rows) ++ r →
  blen b < 2 ^ 31 → index_rows (length rows) (blen q) b = Done (row_image <$> rows).
Proof.
  revert p q. induction rows as [|row rows IH]; intros p q Hok Hp Hq Hb; [done|].
  apply Forall_cons in Hok as [Hrow Hok]. cbn [index_rows length].
  unfold rows_bytes in Hp. rewrite fmap_cons in Hp. cbn [row_starts] in Hq. rewrite fmap_cons in Hq.
  cbn [concat] in Hp, Hq. rewrite <-app_assoc in Hp, Hq. rewrite Hq at 1.
  rewrite (mem_read_app _ _ q (le_enc 4 (blen p))) by done. cbn [mbind outcome_bind].
  rewrite i32_enc.
  2:{ unfold i32_range. rewrite Hp, blen_app in Hb. pose proof (blen_nonneg p).
      pose proof (blen_nonneg (record_of row ++ concat (record_of <$> rows) ++ m)). lia. }
  rewrite Hp at 1. rewrite flat_row_at_app by done. cbn [mbind outcome_bind].
  replace (blen q + 4) with (blen (q ++ le_enc 4 (blen p))) by (by rewrite blen_app, blen_le_enc).
  rewrite (IH (p ++ record_of row) (q ++ le_enc 4 (blen p))); [done|done| | |done].
  - by rewrite <-app_assoc.
  - by rewrite blen_app, <-app_assoc.
Qed.

Lemma empty_header_built_wf desc n i sz : micro_header_wf (built_header (empty_header desc) n i sz).
Proof.
  pose proof (sint_range 32 sz ltac:(lia)). pose proof (u32_range n). pose proof (u32_range i).
  pose proof (Z.mod_pos_bound (d_column_count_ desc) (2 ^ 16) ltac:(lia)).
  pose proof (Z.mod_pos_bound (d_rowkey_column_count_ desc) (2 ^ 16) ltac:(lia)).
  unfold micro_header_wf, micro_flags_wf, flat_flags_wf, i32_range, i64_range.
  cbn [built_header empty_header mh_magic_ mh_version_ mh_header_size_ mh_header_checksum_ mh_column_count_
    mh_rowkey_column_count_ mh_flags mh_row_count_ mh_row_store_type_ mh_flat mh_compressor_type_
    mh_cs_reserved_ mh_row_index_offset_ mh_original_length_ mh_max_merged_trans_version_ mh_data_length_
    mh_data_zlength_ mh_data_checksum_ micro_flags_zero has_column_checksum_ has_string_out_row_
    all_lob_in_row_ contains_hash_index_ hash_index_offset_ reserved_ single_version_rows_
    contain_uncommitted_rows_ is_last_row_last_flag_ is_first_row_first_flag_ flat_reserved_].
  unfold u16, i32, MICRO_BLOCK_HEADER_MAGIC, FLAT_ROW_STORE in *. split_and!; lia.
Qed.

(** What the writer builds is the block of the rows it was given. *)
Lemma micro_block_decode desc rows : Forall row_storable rows → micro_size rows < 2 ^ 31 →
  micro_block_rows (micro_block_of desc rows) = Done (0, row_image <$> rows).
Proof.
  intros Hok Hsz. unfold micro_block_rows, ObMicroBlockHeader_deserialize.
  pose proof (blen_nonneg (rows_bytes rows)). pose proof (blen_nonneg rows).
  pose proof (blen_micro_block desc rows) as Hlen. unfold micro_size in Hsz.
  set (h := built_header (empty_header desc) (blen rows) (56 + blen (rows_bytes rows)) (micro_size rows)).
  assert (pod_deserialize ObMicroBlockHeader_default (micro_block_of desc rows)
            (blen (micro_block_of desc rows)) 0 = Done (0, h, 56)) as ->.
  { pose proof (pod_deserialize_app h ObMicroBlockHeader_default []
      (rows_bytes rows ++ concat (le_enc 4 <$> row_starts 56 rows)) (micro_size rows)
      (empty_header_built_wf _ _ _ _)) as E.
    rewrite Hlen. apply E. change pod_size with 56. rewrite blen_nil. unfold micro_size. lia. }
  cbn [mbind outcome_bind]. change (ObMicroBlockHeader_is_valid h) with true. cbn [negb orb Z.eqb].
  cbn [h built_header mh_row_count_ mh_row_index_offset_].
  rewrite (u32_small (blen rows)), u32_small by lia. unfold blen at 1. rewrite Nat2Z.id.
  set (hb := micro_header_bytes h).
  replace (56 + blen (rows_bytes rows)) with (blen (hb ++ rows_bytes rows)) by (by rewrite blen_app).
  erewrite (index_rows_spec rows (micro_block_of desc rows) hb (hb ++ rows_bytes rows));
    [done|done|done| |rewrite Hlen; unfold micro_size; lia].
  unfold micro_block_of. rewrite <-app_assoc, app_nil_r. done.
Qed.

(** Appending rows one after the other. *)
Fixpoint micro_append_rows (rows : list ObStoreRow) (w : ObMicroBlockWriter)
    : outcome (Z * ObMicroBlockWriter) :=
  match rows with
  | [] => Done (0, w)
  | row :: rows' =>
      x ← ObMicroBlockWriter_append_row row w;
      let '(ret, w) := x : Z * ObMicroBlockWriter in
      if negb (ret =? 0) then Done (ret, w) else micro_append_rows rows' w
  end.

Lemma micro_append_rows_spec desc rows rows0 : Forall row_storable rows →
  56 + blen (rows_bytes (rows0 ++ rows)) < 2 ^ 31 →
  micro_append_rows rows (writer_with desc rows0) = Done (0, writer_with desc (rows0 ++ rows)).
Proof.
  revert rows0. induction rows as [|row rows IH]; intros rows0 Hok Hsz; cbn [micro_append_rows].
  - by rewrite app_nil_r.
  - apply Forall_cons in Hok as [Hrow Hok]. rewrite micro_append_spec; [|done|].
    2:{ unfold rows_bytes in *. rewrite fmap_app, concat_app, blen_app in Hsz.
        pose proof (blen_nonneg (concat (record_of <$> row :: rows))). lia. }
    cbn [mbind outcome_bind Z.eqb negb]. rewrite IH; rewrite <-?app_assoc; done.
Qed.



(** The three block headers survive being written and read back: every
    field of a header in range, bit fields included, is read back from the
    position it was written at, whatever surrounds it. *)
Theorem block_headers_roundtrip ch fh mh buf pos ch0 fh0 mh0 :
  common_header_wf ch → fixed_header_wf fh → micro_header_wf mh → 0 ≤ pos → pos + 168 ≤ blen buf →
  ∃ b1 b2 b3,
    ObMacroBlockCommonHeader_serialize ch buf (blen buf) pos = Done (0, b1, pos + 24)
    ∧ ObMacroBlockCommonHeader_deserialize ch0 b1 (blen b1) pos = Done (0, ch, pos + 24)
    ∧ ObSSTableMacroBlockHeader_serialize (mkMacroHeader fh) b1 (blen b1) (pos + 24) = Done (0, b2, pos + 112)
    ∧ ObSSTableMacroBlockHeader_deserialize fh0 b2 (blen b2) (pos + 24)
      = Done (0, mkMacroHeader fh, pos + 112)
    ∧ ObMicroBlockHeader_serialize mh b2 (blen b2) (pos + 112) = Done (0, b3, pos + 168)
    ∧ ObMicroBlockHeader_deserialize mh0 b3 (blen b3) (pos + 112) = Done (0, mh, pos + 168).
Proof.
  intros Hc Hf Hm Hpos Hlen.
  destruct (pod_roundtrip ch ch0 buf pos) as (b1 & E1 & L1 & D1); [done|done|cbn; lia|].
  destruct (pod_roundtrip fh (fixed_header_ fh0) b1 (pos + 24)) as (b2 & E2 & L2 & D2); [done|lia|cbn; lia|].
  destruct (pod_roundtrip mh mh0 b2 (pos + 112)) as (b3 & E3 & L3 & D3); [done|lia|cbn; lia|].
  cbn [pod_size common_header_pod fixed_header_pod micro_header_pod] in *.
  replace (pos + 24 + 88) with (pos + 112) in * by lia. replace (pos + 112 + 56) with (pos + 168) in * by lia.
  exists b1, b2, b3. split_and!; try done. unfold ObSSTableMacroBlockHeader_deserialize. by rewrite D2.
Qed.

Lemma block_headers_roundtrip_witness :
  ∃ b1 b2 b3,
    ObMacroBlockCommonHeader_serialize ObMacroBlockCommonHeader_default (replicate 168 7) (blen (replicate 168 7)) 0
    = Done (0, b1, 0 + 24)
    ∧ ObSSTableMacroBlockHeader_serialize ObSSTableMacroBlockHeader_default b1 (blen b1) (0 + 24) = Done (0, b2, 0 + 112)
    ∧ ObMicroBlockHeader_serialize (empty_header ObDataStoreDesc_default) b2 (blen b2) (0 + 112) = Done (0, b3, 0 + 168)
    ∧ ObMicroBlockHeader_deserialize ObMicroBlockHeader_default b3 (blen b3) (0 + 112)
      = Done (0, empty_header ObDataStoreDesc_default, 0 + 168).
Proof.
  destruct (block_headers_roundtrip ObMacroBlockCommonHeader_default FixedHeader_default
              (empty_header ObDataStoreDesc_default) (replicate 168 7) 0 ObMacroBlockCommonHeader_default
              ObSSTableMacroBlockHeader_default ObMicroBlockHeader_default)
    as (b1 & b2 & b3 & E1 & _ & E2 & _ & E3 & E4).
  - unfold common_header_wf, i32_range. vm_compute; repeat split; discriminate.
  - unfold fixed_header_wf, i32_range, i64_range. vm_compute; repeat split; discriminate.
  - unfold micro_header_wf, micro_flags_wf, flat_flags_wf, i32_range, i64_range. vm_compute; repeat split; discriminate.
  - done.
  - reflexivity.
  - exists b1, b2, b3. split_and!; assumption.
Defined.
