(* ===== verification/MacroBlock.v ===== *)
(** * Macro blocks and the macro block writer

    Models [src/src/storage/blocksstable/ob_macro_block.h/.cpp] and
    [ob_macro_block_writer.h/.cpp].  A macro block is built in memory from
    micro blocks; the writer alternates between two of them and hands out the
    finished one.  The format is specified by the decoder [macro_block_rows]. *)

From S2P Require Import Prelude Pod StoreTypes BlockFormat.

(** ** ObMacroBlock *)

Definition HEADER_RESERVE : Z := 4096.

Record ObMacroBlock := mkMacroBlock {
  mb_spec_ : option ObDataStoreDesc;
  mb_data_buf_ : option bytes;
  mb_macro_size_ : Z;
  mb_data_size_ : Z;
  mb_cur_macro_seq_ : Z;
  mb_macro_header_ : ObSSTableMacroBlockHeader;
  mb_common_header_ : ObMacroBlockCommonHeader;
  mb_row_count_ : Z;
  mb_micro_block_count_ : Z;
  mb_is_inited_ : bool }.

Definition ObMacroBlock_new : ObMacroBlock :=
  mkMacroBlock None None 0 0 0 ObSSTableMacroBlockHeader_default ObMacroBlockCommonHeader_default 0 0 false.

(** [init]: [new char[macro_size_]] of a negative size throws; an older buffer
    is not freed. *)
Definition ObMacroBlock_init (spec : ObDataStoreDesc) (cur_macro_seq : Z) (mb : ObMacroBlock)
    : outcome (Z * ObMacroBlock) :=
  let macro_size := d_macro_block_size_ spec in
  if macro_size <? 0 then UB
  else
    let h := fixed_header_ (mb_macro_header_ mb) in
    let fh := mkFixedHeader 88 SSTABLE_MACRO_BLOCK_HEADER_VERSION_V2 SSTABLE_MACRO_BLOCK_HEADER_MAGIC
      (u64 (d_tablet_id_ spec)) (fh_logical_version_ h) (fh_data_seq_ h) (i32 (d_column_count_ spec))
      (i32 (d_rowkey_column_count_ spec)) FLAT_ROW_STORE (fh_row_count_ h) (fh_occupy_size_ h)
      (fh_micro_block_count_ h) (fh_micro_block_data_offset_ h) (fh_micro_block_data_size_ h)
      (fh_idx_block_offset_ h) (fh_idx_block_size_ h) (fh_meta_block_offset_ h)
      (fh_meta_block_size_ h) (fh_data_checksum_ h) in
    Done (0, mkMacroBlock (Some spec) (Some (replicate (Z.to_nat macro_size) 0)) macro_size HEADER_RESERVE
               cur_macro_seq (mkMacroHeader fh) (mb_common_header_ mb) 0 0 true).

(** [write_micro_block]: code, [data_offset], block. *)
Definition ObMacroBlock_write_micro_block (micro_data : bytes) (data_offset : Z) (mb : ObMacroBlock)
    : outcome (Z * Z * ObMacroBlock) :=
  let micro_size := blen micro_data in
  if negb (mb_is_inited_ mb) then Done (-1, data_offset, mb)
  else if mb_macro_size_ mb <? mb_data_size_ mb + micro_size then Done (-1, data_offset, mb)
  else
    buf ← deref (mb_data_buf_ mb);
    buf ← mem_write (mb_data_size_ mb) micro_data buf;
    Done (0, mb_data_size_ mb,
          mkMacroBlock (mb_spec_ mb) (Some buf) (mb_macro_size_ mb) (mb_data_size_ mb + micro_size)
            (mb_cur_macro_seq_ mb) (mb_macro_header_ mb) (mb_common_header_ mb) (mb_row_count_ mb)
            (mb_micro_block_count_ mb) (mb_is_inited_ mb)).

Definition ObMacroBlock_get_data_size (mb : ObMacroBlock) : Z := mb_data_size_ mb.
Definition ObMacroBlock_get_remain_size (mb : ObMacroBlock) : Z := mb_macro_size_ mb - mb_data_size_ mb.
Definition ObMacroBlock_add_row_count (n : Z) (mb : ObMacroBlock) : ObMacroBlock :=
  mkMacroBlock (mb_spec_ mb) (mb_data_buf_ mb) (mb_macro_size_ mb) (mb_data_size_ mb)
    (mb_cur_macro_seq_ mb) (mb_macro_header_ mb) (mb_common_header_ mb) (mb_row_count_ mb + n)
    (mb_micro_block_count_ mb) (mb_is_inited_ mb).
Definition ObMacroBlock_inc_micro_block_count (mb : ObMacroBlock) : ObMacroBlock :=
  mkMacroBlock (mb_spec_ mb) (mb_data_buf_ mb) (mb_macro_size_ mb) (mb_data_size_ mb)
    (mb_cur_macro_seq_ mb) (mb_macro_header_ mb) (mb_common_header_ mb) (mb_row_count_ mb)
    (mb_micro_block_count_ mb + 1) (mb_is_inited_ mb).

Definition ObMacroBlock_build_common_header (mb : ObMacroBlock) : Z * ObMacroBlock :=
  let h := fixed_header_ (mb_macro_header_ mb) in
  let fh := mkFixedHeader (fh_header_size_ h) (fh_version_ h) (fh_magic_ h) (fh_tablet_id_ h)
    (fh_logical_version_ h) (fh_data_seq_ h) (fh_column_count_ h) (fh_rowkey_column_count_ h)
    (fh_row_store_type_ h) (mb_row_count_ mb) (i32 (mb_data_size_ mb)) (mb_micro_block_count_ mb)
    HEADER_RESERVE (i32 (mb_data_size_ mb - HEADER_RESERVE)) (fh_idx_block_offset_ h)
    (fh_idx_block_size_ h) (fh_meta_block_offset_ h) (fh_meta_block_size_ h) (fh_data_checksum_ h) in
  let ch := mkCommonHeader 24 MACRO_BLOCK_COMMON_HEADER_VERSION MACRO_BLOCK_COMMON_HEADER_MAGIC
              MacroBlockType_SSTableData (i32 (mb_data_size_ mb)) 0 in
  (0, mkMacroBlock (mb_spec_ mb) (mb_data_buf_ mb) (mb_macro_size_ mb) (mb_data_size_ mb)
        (mb_cur_macro_seq_ mb) (mkMacroHeader fh) ch (mb_row_count_ mb) (mb_micro_block_count_ mb) false).
Definition ObMacroBlock_get_total_size (mb : ObMacroBlock) : Z := 24 + 88 + mb_data_size_ mb.

(** ** ObMacroBlockWriter *)

Record ObMacroBlockWriter := mkMacroWriter {
  wr_desc_ : option ObDataStoreDesc;
  wr_micro_writer_ : ObMicroBlockWriter;
  wr_macro_blocks_ : ObMacroBlock * ObMacroBlock;
  wr_current_macro_idx_ : bool;
  wr_macro_seq_ : Z;
  wr_total_row_count_ : Z;
  wr_is_opened_ : bool }.

Definition ObMacroBlockWriter_new : ObMacroBlockWriter :=
  mkMacroWriter None ObMicroBlockWriter_new (ObMacroBlock_new, ObMacroBlock_new) false 0 0 false.

(** [macro_blocks_[current_macro_idx_]]; index 1 is [true]. *)
Definition cur_block (w : ObMacroBlockWriter) : ObMacroBlock :=
  if wr_current_macro_idx_ w then (wr_macro_blocks_ w).2 else (wr_macro_blocks_ w).1.
Definition set_block (idx : bool) (mb : ObMacroBlock) (p : ObMacroBlock * ObMacroBlock)
    : ObMacroBlock * ObMacroBlock :=
  if idx then (p.1, mb) else (mb, p.2).
Definition set_cur_block (mb : ObMacroBlock) (w : ObMacroBlockWriter) : ObMacroBlockWriter :=
  mkMacroWriter (wr_desc_ w) (wr_micro_writer_ w) (set_block (wr_current_macro_idx_ w) mb (wr_macro_blocks_ w))
    (wr_current_macro_idx_ w) (wr_macro_seq_ w) (wr_total_row_count_ w) (wr_is_opened_ w).
Definition set_micro_writer (m : ObMicroBlockWriter) (w : ObMacroBlockWriter) : ObMacroBlockWriter :=
  mkMacroWriter (wr_desc_ w) m (wr_macro_blocks_ w) (wr_current_macro_idx_ w) (wr_macro_seq_ w)
    (wr_total_row_count_ w) (wr_is_opened_ w).

Definition ObMacroBlockWriter_build_micro_writer_ (w : ObMacroBlockWriter)
    : outcome (Z * ObMacroBlockWriter) :=
  desc ← deref (wr_desc_ w);
  x ← ObMicroBlockWriter_init desc (wr_micro_writer_ w);
  let '(ret, m) := x : Z * ObMicroBlockWriter in Done (ret, set_micro_writer m w).

Definition ObMacroBlockWriter_open (desc : ObDataStoreDesc) (parallel_idx : Z) (w : ObMacroBlockWriter)
    : outcome (Z * ObMacroBlockWriter) :=
  let seq := parallel_idx * 1000000 + 1 in
  let w := mkMacroWriter (Some desc) (wr_micro_writer_ w) (wr_macro_blocks_ w) (wr_current_macro_idx_ w)
             seq (wr_total_row_count_ w) (wr_is_opened_ w) in
  x ← ObMacroBlockWriter_build_micro_writer_ w;
  let '(ret, w) := x : Z * ObMacroBlockWriter in
  if negb (ret =? 0) then Done (ret, w)
  else
    y ← ObMacroBlock_init desc seq (wr_macro_blocks_ w).1;
    let '(ret, b0) := y : Z * ObMacroBlock in
    let w := mkMacroWriter (wr_desc_ w) (wr_micro_writer_ w) (b0, (wr_macro_blocks_ w).2)
               (wr_current_macro_idx_ w) (seq + 1) (wr_total_row_count_ w) (wr_is_opened_ w) in
    if negb (ret =? 0) then Done (ret, w)
    else
      z ← ObMacroBlock_init desc (seq + 1) (wr_macro_blocks_ w).2;
      let '(ret, b1) := z : Z * ObMacroBlock in
      if negb (ret =? 0)
      then Done (ret, mkMacroWriter (wr_desc_ w) (wr_micro_writer_ w) (b0, b1) (wr_current_macro_idx_ w)
                        (seq + 2) (wr_total_row_count_ w) (wr_is_opened_ w))
      else Done (0, mkMacroWriter (wr_desc_ w) (wr_micro_writer_ w) (b0, b1) false (seq + 2) 0 true).

(** [std::string::resize(n)]. *)
Definition string_resize (n : Z) (b : bytes) : bytes :=
  take (Z.to_nat n) b ++ replicate (Z.to_nat n - length b) 0.

(** [flush_current_macro_]: code, [out_block], [out_seq], writer.  The codes of
    the two [serialize] calls and of [init] are ignored. *)
Definition ObMacroBlockWriter_flush_current_macro_ (out_block : bytes) (out_seq : Z)
    (w : ObMacroBlockWriter) : outcome (Z * bytes * Z * ObMacroBlockWriter) :=
  let '(_, mb) := ObMacroBlock_build_common_header (cur_block w) in
  let total := ObMacroBlock_get_total_size mb in
  let out_block := string_resize total out_block in
  x ← ObMacroBlockCommonHeader_serialize (mb_common_header_ mb) out_block total 0;
  let '(_, out_block, pos) := x : Z * bytes * Z in
  y ← ObSSTableMacroBlockHeader_serialize (mb_macro_header_ mb) out_block total pos;
  let '(_, out_block, pos) := y : Z * bytes * Z in
  buf ← deref (mb_data_buf_ mb);
  data ← mem_read 0 (ObMacroBlock_get_data_size mb) buf;
  out_block ← mem_write pos data out_block;
  let w := set_cur_block mb w in
  desc ← deref (wr_desc_ w);
  let idx := negb (wr_current_macro_idx_ w) in
  let other := if idx then (wr_macro_blocks_ w).2 else (wr_macro_blocks_ w).1 in
  z ← ObMacroBlock_init desc (wr_macro_seq_ w) other;
  let '(_, nb) := z : Z * ObMacroBlock in
  Done (0, out_block, mb_cur_macro_seq_ mb,
        mkMacroWriter (wr_desc_ w) (wr_micro_writer_ w) (set_block idx nb (wr_macro_blocks_ w)) idx
          (wr_macro_seq_ w + 1) (wr_total_row_count_ w) (wr_is_opened_ w)).

(** [build_block] of the micro writer followed by [write_micro_block]: the code
    of [build_block] (0 on each of its paths, so the order of the code's tests
    of it and of the write makes no difference), the code of the write, the
    writer. *)
Definition flush_micro (w : ObMacroBlockWriter) : outcome (Z * Z * ObMacroBlockWriter) :=
  x ← ObMicroBlockWriter_build_block (wr_micro_writer_ w);
  let '(ret, micro_data, m) := x : Z * bytes * ObMicroBlockWriter in
  let w := set_micro_writer m w in
  y ← ObMacroBlock_write_micro_block micro_data 0 (cur_block w);
  let '(ret2, _, mb) := y : Z * Z * ObMacroBlock in
  Done (ret, ret2, set_cur_block mb w).

(** [append_row]: code, [*flushed_macro_block], [*macro_seq], writer.  The
    output pointers may be null ([None]). *)
Definition ObMacroBlockWriter_append_row (row : ObStoreRow) (flushed : option bytes) (seq : option Z)
    (w : ObMacroBlockWriter) : outcome (Z * option bytes * option Z * ObMacroBlockWriter) :=
  if negb (wr_is_opened_ w) then Done (-1, flushed, seq, w)
  else
    x ← ObMicroBlockWriter_append_row row (wr_micro_writer_ w);
    let '(ret, m) := x : Z * ObMicroBlockWriter in
    let w := set_micro_writer m w in
    if negb (ret =? 0) then Done (ret, flushed, seq, w)
    else
      let w := mkMacroWriter (wr_desc_ w) (wr_micro_writer_ w) (wr_macro_blocks_ w)
                 (wr_current_macro_idx_ w) (wr_macro_seq_ w) (wr_total_row_count_ w + 1) (wr_is_opened_ w) in
      let w := set_cur_block (ObMacroBlock_add_row_count 1 (cur_block w)) w in
      y ← (if ObMicroBlockWriter_is_block_full (wr_micro_writer_ w) then
             z ← flush_micro w;
             let '(ret, ret2, w) := z : Z * Z * ObMacroBlockWriter in
             if negb (ret =? 0) then Done (ret, w)
             else if negb (ret2 =? 0) then Done (ret2, w)
             else Done (0, set_cur_block (ObMacroBlock_inc_micro_block_count (cur_block w)) w)
           else Done (0, w));
      let '(ret, w) := y : Z * ObMacroBlockWriter in
      if negb (ret =? 0) then Done (ret, flushed, seq, w)
      else
        desc ← deref (wr_desc_ w);
        if ObMacroBlock_get_remain_size (cur_block w) <? d_micro_block_size_ desc then
          y ← (if 0 <? ObMicroBlockWriter_get_row_count (wr_micro_writer_ w) then
                 z ← flush_micro w;
                 let '(ret, _, w) := z : Z * Z * ObMacroBlockWriter in
                 if negb (ret =? 0) then Done (ret, w)
                 else Done (0, set_cur_block (ObMacroBlock_inc_micro_block_count (cur_block w)) w)
               else Done (0, w));
          let '(ret, w) := y : Z * ObMacroBlockWriter in
          if negb (ret =? 0) then Done (ret, flushed, seq, w)
          else
            out ← deref flushed;
            oseq ← deref seq;
            f ← ObMacroBlockWriter_flush_current_macro_ out oseq w;
            let '(ret, out, oseq, w) := f : Z * bytes * Z * ObMacroBlockWriter in
            Done (ret, Some out, Some oseq, w)
        else Done (0, (λ _, []) <$> flushed, seq, w).

(** [close]: code, the two output vectors, writer.  The codes of the calls are
    ignored. *)
Definition ObMacroBlockWriter_close (out_macro_blocks : list bytes) (out_macro_seqs : list Z)
    (w : ObMacroBlockWriter) : outcome (Z * list bytes * list Z * ObMacroBlockWriter) :=
  if negb (wr_is_opened_ w) then Done (-1, out_macro_blocks, out_macro_seqs, w)
  else
    w ← (if 0 <? ObMicroBlockWriter_get_row_count (wr_micro_writer_ w) then
           z ← flush_micro w;
           let '(_, _, w) := z : Z * Z * ObMacroBlockWriter in
           Done (set_cur_block (ObMacroBlock_inc_micro_block_count (cur_block w)) w)
         else Done w);
    f ← ObMacroBlockWriter_flush_current_macro_ [] 0 w;
    let '(_, last_block, last_seq, w) := f : Z * bytes * Z * ObMacroBlockWriter in
    Done (0, out_macro_blocks ++ [last_block], out_macro_seqs ++ [last_seq],
          mkMacroWriter (wr_desc_ w) (wr_micro_writer_ w) (wr_macro_blocks_ w) (wr_current_macro_idx_ w)
            (wr_macro_seq_ w) (wr_total_row_count_ w) false).
Definition ObMacroBlockWriter_get_row_count (w : ObMacroBlockWriter) : Z := wr_total_row_count_ w.

(** ** The format, as a reference decoder *)

(** Where the first micro block really is: after the two headers and the
    reserved area. *)
Definition micro_area : Z := 24 + 88 + HEADER_RESERVE.

(** The rows of [n] micro blocks stored one after the other from [off] on; the
    length of each is in its header. *)
Fixpoint micro_blocks_rows (n : nat) (off : Z) (b : bytes) : outcome (list stored_row) :=
  match n with
  | O => Done []
  | S n' =>
      hb ← mem_read off 56 b;
      let len := mh_data_length_ (pod_dec hb) in
      m ← mem_read off len b;
      x ← micro_block_rows m;
      let '(_, rows) := x : Z * list stored_row in
      rest ← micro_blocks_rows n' (off + len) b;
      Done (rows ++ rest)
  end.

(** The rows of a macro block and the row count of its header. *)
Definition macro_block_rows (b : bytes) : outcome (Z * list stored_row) :=
  hb ← mem_read 24 88 b;
  let h : FixedHeader := pod_dec hb in
  rows ← micro_blocks_rows (Z.to_nat (fh_micro_block_count_ h)) micro_area b;
  Done (fh_row_count_ h, rows).

(** ** The states of a macro block *)

Definition micros_bytes (desc : ObDataStoreDesc) (micros : list (list ObStoreRow)) : bytes :=
  concat (micro_block_of desc <$> micros).
Definition micros_size (micros : list (list ObStoreRow)) : Z := foldr (λ rows n, micro_size rows + n) 0 micros.

Lemma blen_micros desc micros : blen (micros_bytes desc micros) = micros_size micros.
Proof.
  unfold micros_bytes. induction micros as [|rows micros IH]; [done|]. rewrite fmap_cons.
  cbn [concat micros_size foldr]. rewrite blen_app, blen_micro_block. unfold micros_size in IH. lia.
Qed.

Lemma micros_bytes_snoc desc micros rows :
  micros_bytes desc (micros ++ [rows]) = micros_bytes desc micros ++ micro_block_of desc rows.
Proof. unfold micros_bytes. rewrite fmap_app, concat_app. cbn. by rewrite app_nil_r. Qed.

Lemma micro_size_pos rows : 56 ≤ micro_size rows.
Proof. unfold micro_size. pose proof (blen_nonneg (rows_bytes rows)). pose proof (blen_nonneg rows). lia. Qed.

Lemma micros_size_nonneg micros : 0 ≤ micros_size micros.
Proof. induction micros as [|rows m IH]; cbn; [lia|]. pose proof (micro_size_pos rows). unfold micros_size in IH. lia. Qed.

Lemma micros_size_snoc micros rows : micros_size (micros ++ [rows]) = micros_size micros + micro_size rows.
Proof. induction micros as [|r m IH]; cbn in *; unfold micros_size in *; [lia|]. rewrite IH. lia. Qed.

(** The zeroed area in front of the micro blocks. *)
Definition reserve : bytes := replicate (Z.to_nat HEADER_RESERVE) 0.
Lemma blen_reserve : blen reserve = HEADER_RESERVE.
Proof. unfold reserve. rewrite blen_replicate. unfold HEADER_RESERVE. lia. Qed.

(** The fixed header of a block being written: only the five fields of
    [build_common_header] vary. *)
Definition header_of (desc : ObDataStoreDesc) (rc oc mc off sz : Z) : FixedHeader :=
  mkFixedHeader 88 2 1007 (u64 (d_tablet_id_ desc)) 0 0 (i32 (d_column_count_ desc))
    (i32 (d_rowkey_column_count_ desc)) 0 rc oc mc off sz 0 0 0 0 0.

(** The block [mb] holds the micro blocks of [micros] and counts [n] rows. *)
Definition macro_repr (desc : ObDataStoreDesc) (mb : ObMacroBlock) (micros : list (list ObStoreRow))
    (n : Z) : Prop :=
  mb_spec_ mb = Some desc ∧ mb_is_inited_ mb = true ∧ mb_macro_size_ mb = d_macro_block_size_ desc
  ∧ mb_data_size_ mb = HEADER_RESERVE + micros_size micros
  ∧ mb_data_size_ mb ≤ mb_macro_size_ mb
  ∧ mb_data_buf_ mb = Some (reserve ++ micros_bytes desc micros
                            ++ replicate (Z.to_nat (mb_macro_size_ mb - mb_data_size_ mb)) 0)
  ∧ mb_row_count_ mb = n ∧ mb_micro_block_count_ mb = blen micros
  ∧ ∃ rc oc mc off sz, fixed_header_ (mb_macro_header_ mb) = header_of desc rc oc mc off sz.

(** The header fields no code ever sets. *)
Definition header_clean (mb : ObMacroBlock) : Prop :=
  let h := fixed_header_ (mb_macro_header_ mb) in
  fh_logical_version_ h = 0 ∧ fh_data_seq_ h = 0 ∧ fh_idx_block_offset_ h = 0 ∧ fh_idx_block_size_ h = 0
  ∧ fh_meta_block_offset_ h = 0 ∧ fh_meta_block_size_ h = 0 ∧ fh_data_checksum_ h = 0.

Lemma macro_repr_clean desc mb micros n : macro_repr desc mb micros n → header_clean mb.
Proof. intros (_ & _ & _ & _ & _ & _ & _ & _ & rc & oc & mc & off & sz & E). unfold header_clean. by rewrite E. Qed.

Lemma macro_init_spec desc seq mb : header_clean mb → HEADER_RESERVE ≤ d_macro_block_size_ desc →
  ∃ mb', ObMacroBlock_init desc seq mb = Done (0, mb') ∧ macro_repr desc mb' [] 0
         ∧ mb_cur_macro_seq_ mb' = seq.
Proof.
  intros (H1 & H2 & H3 & H4 & H5 & H6 & H7) Hsz. unfold ObMacroBlock_init, HEADER_RESERVE in *.
  rewrite (proj2 (Z.ltb_ge _ _)) by lia. eexists. split; [done|]. split; [|done].
  split_and!; try done; cbn [mb_data_size_ mb_macro_size_ mb_data_buf_ mb_macro_header_ fixed_header_].
  - unfold micros_bytes. cbn [fmap list_fmap concat app].
    unfold reserve, HEADER_RESERVE. rewrite <-replicate_add. do 2 f_equal. lia.
  - rewrite H1, H2, H3, H4, H5, H6, H7. by eexists _, _, _, _, _.
Qed.

(** Writing the block of [rows] where it fits. *)
Lemma write_micro_spec desc mb micros n rows o : macro_repr desc mb micros n →
  micro_size rows ≤ ObMacroBlock_get_remain_size mb →
  ∃ mb', ObMacroBlock_write_micro_block (micro_block_of desc rows) o mb = Done (0, mb_data_size_ mb, mb')
    ∧ macro_repr desc (ObMacroBlock_inc_micro_block_count mb') (micros ++ [rows]) n
    ∧ mb_cur_macro_seq_ mb' = mb_cur_macro_seq_ mb.
Proof.
  intros (H1 & H2 & H3 & H4 & H5 & H6 & H7 & H8 & H9) Hfit.
  unfold ObMacroBlock_write_micro_block, ObMacroBlock_get_remain_size in *.
  rewrite H2, blen_micro_block. cbn [negb]. rewrite (proj2 (Z.ltb_ge _ _)) by lia. rewrite H6.
  cbn [deref mbind outcome_bind]. pose proof (micro_size_pos rows). pose proof (micros_size_nonneg micros).
  set (k := Z.to_nat (mb_macro_size_ mb - mb_data_size_ mb)).
  assert (k = (Z.to_nat (micro_size rows)
               + Z.to_nat (mb_macro_size_ mb - (mb_data_size_ mb + micro_size rows)))%nat) as -> by lia.
  rewrite replicate_add, (app_assoc (reserve)).
  rewrite mem_write_ok.
  2:{ rewrite H4. unfold HEADER_RESERVE. lia. }
  2:{ rewrite !blen_app, blen_reserve, !blen_replicate, blen_micros, blen_micro_block, H4. lia. }
  rewrite splice_eq; [|rewrite blen_app, blen_reserve, blen_micros, H4; done
                      |rewrite blen_replicate, blen_micro_block; lia].
  cbn [mbind outcome_bind]. eexists. split; [done|]. split; [|done].
  split_and!; try done; cbn [ObMacroBlock_inc_micro_block_count mb_data_size_ mb_macro_size_ mb_data_buf_
    mb_micro_block_count_].
  - rewrite H4, micros_size_snoc. lia.
  - lia.
  - by rewrite micros_bytes_snoc, <-!app_assoc.
  - by rewrite H8, blen_app.
Qed.

Lemma macro_repr_add_row desc mb micros n k : macro_repr desc mb micros n →
  macro_repr desc (ObMacroBlock_add_row_count k mb) micros (n + k).
Proof. intros (H1 & H2 & H3 & H4 & H5 & H6 & H7 & H8 & H9). unfold macro_repr. cbn. by rewrite H7. Qed.

(** ** Flushing *)

Definition rows_in (micros : list (list ObStoreRow)) : Z := blen (concat micros).

(** The bytes of a macro block with the micro blocks [micros] whose header
    counts [n] rows. *)
Definition macro_block_with (desc : ObDataStoreDesc) (micros : list (list ObStoreRow)) (n : Z) : bytes :=
  let size := HEADER_RESERVE + micros_size micros in
  common_header_bytes (mkCommonHeader 24 1 1001 1 (i32 size) 0)
  ++ fixed_header_bytes (header_of desc n (i32 size) (blen micros) HEADER_RESERVE
                           (i32 (size - HEADER_RESERVE)))
  ++ reserve ++ micros_bytes desc micros.
Definition macro_block_of (desc : ObDataStoreDesc) (micros : list (list ObStoreRow)) : bytes :=
  macro_block_with desc micros (rows_in micros).

Lemma blen_macro_block desc micros :
  blen (macro_block_of desc micros) = 24 + 88 + HEADER_RESERVE + micros_size micros.
Proof.
  unfold macro_block_of, macro_block_with. rewrite !blen_app, blen_reserve, blen_micros.
  change (blen (common_header_bytes _)) with 24. change (blen (fixed_header_bytes _)) with 88.
  unfold HEADER_RESERVE. lia.
Qed.

(** The writer holds finished micro blocks [micros] in the current macro block,
    the rows [pend] in the micro writer, and has counted [n] rows. *)
Definition writer_holds (desc : ObDataStoreDesc) (w : ObMacroBlockWriter) (micros : list (list ObStoreRow))
    (pend : list ObStoreRow) (n : Z) : Prop :=
  wr_desc_ w = Some desc ∧ wr_is_opened_ w = true ∧ wr_micro_writer_ w = writer_with desc pend
  ∧ macro_repr desc (cur_block w) micros n
  ∧ header_clean (if wr_current_macro_idx_ w then (wr_macro_blocks_ w).1 else (wr_macro_blocks_ w).2).
Definition writer_repr (desc : ObDataStoreDesc) (w : ObMacroBlockWriter) (micros : list (list ObStoreRow))
    (pend : list ObStoreRow) : Prop :=
  writer_holds desc w micros pend (rows_in micros + blen pend).

Lemma blen_resize n (b : bytes) : 0 ≤ n → blen (string_resize n b) = n.
Proof. intros Hn. unfold string_resize, blen. rewrite length_app, length_take, length_replicate. lia. Qed.

(** Three adjacent fields overwrite a buffer of their total size. *)
Lemma splice3 (b x y z : bytes) : blen b = blen x + blen y + blen z →
  splice (blen x + blen y) z (splice (blen x) y (splice 0 x b)) = x ++ y ++ z.
Proof.
  intros Hb. pose proof (blen_nonneg x). pose proof (blen_nonneg y). pose proof (blen_nonneg z).
  replace (splice (blen x)) with (splice (A:=Z) (0 + blen x)) by done. rewrite (splice_next 0 x y b) by lia.
  replace (blen x + blen y) with (0 + blen (x ++ y)) by (rewrite blen_app; lia).
  rewrite splice_next by (rewrite ?blen_app; lia). rewrite splice_all by (rewrite !blen_app; lia).
  by rewrite <-app_assoc.
Qed.

Lemma cur_set_block mb w : cur_block (set_cur_block mb w) = mb.
Proof. unfold cur_block, set_cur_block. cbn. by destruct (wr_current_macro_idx_ w). Qed.

Lemma flush_counted desc w micros n out seq : writer_holds desc w micros [] n →
  HEADER_RESERVE ≤ d_macro_block_size_ desc →
  ∃ seq' w', ObMacroBlockWriter_flush_current_macro_ out seq w = Done (0, macro_block_with desc micros n, seq', w')
    ∧ writer_repr desc w' [] [] ∧ wr_total_row_count_ w' = wr_total_row_count_ w
    ∧ seq' = mb_cur_macro_seq_ (cur_block w).
Proof.
  intros (H1 & H2 & H3 & Hm & Hc) Hsz. pose proof (macro_repr_clean _ _ _ _ Hm) as Hclean.
  destruct Hm as (M1 & M2 & M3 & M4 & M5 & M6 & M7 & M8 & rc & oc & mc & off & sz & M9).
  pose proof (micros_size_nonneg micros) as Hnn.
  unfold ObMacroBlockWriter_flush_current_macro_. set (mb := cur_block w) in *.
  unfold ObMacroBlock_build_common_header, ObMacroBlock_get_total_size, ObMacroBlock_get_data_size. cbn [mb_data_size_ mb_common_header_ mb_macro_header_ mb_data_buf_ mb_cur_macro_seq_].
  rewrite M9, M7, M8, M6. cbn [header_of fh_header_size_ fh_version_ fh_magic_ fh_tablet_id_
    fh_logical_version_ fh_data_seq_ fh_column_count_ fh_rowkey_column_count_ fh_row_store_type_
    fh_idx_block_offset_ fh_idx_block_size_ fh_meta_block_offset_ fh_meta_block_size_ fh_data_checksum_].
  set (total := 24 + 88 + mb_data_size_ mb). unfold HEADER_RESERVE in *.
  assert (total = 112 + mb_data_size_ mb) as Htot by (unfold total; lia). clearbody total.
  set (b := string_resize total out). assert (blen b = total) as Hb by (apply blen_resize; lia).
  unfold ObMacroBlockCommonHeader_serialize, ObSSTableMacroBlockHeader_serialize.
  rewrite pod_serialize_ok; [|lia|change pod_size with 24; lia|lia]. cbn [mbind outcome_bind].
  change (0 + pod_size) with 24. set (b1 := splice 0 _ b).
  assert (blen b1 = total) as Hb1.
  { unfold b1. rewrite blen_splice; [done|lia|]. rewrite pod_len. change pod_size with 24. lia. }
  rewrite pod_serialize_ok; [|lia|change pod_size with 88; lia|lia]. cbn [mbind outcome_bind deref].
  change (24 + pod_size) with 112. cbn [fixed_header_]. set (b2 := splice 24 _ b1).
  assert (blen b2 = total) as Hb2.
  { unfold b2. rewrite blen_splice; [done|lia|]. rewrite pod_len. change pod_size with 88. lia. }
  rewrite (app_assoc (reserve)).
  assert (blen (reserve ++ micros_bytes desc micros) = mb_data_size_ mb) as Hdata.
  { rewrite blen_app, blen_reserve, blen_micros, M4. done. }
  pose proof (λ z, mem_read_app 0 (mb_data_size_ mb) [] (reserve ++ micros_bytes desc micros) z
                eq_refl (eq_sym Hdata)) as Hread.
  cbn [app] in Hread. rewrite Hread. clear Hread.
  cbn [mbind outcome_bind]. rewrite mem_write_ok by lia. cbn [mbind outcome_bind].
  assert (splice 112 (reserve ++ micros_bytes desc micros) b2 = macro_block_with desc micros n) as ->.
  { unfold b2, b1. match goal with |- splice 112 ?d (splice 24 (pod_enc ?fh) (splice 0 (pod_enc ?ch) _)) = _ =>
      pose proof (splice3 b (pod_enc ch) (pod_enc fh) d) as E end.
    rewrite !pod_len in E.
    change (pod_size (A:=ObMacroBlockCommonHeader)) with 24 in E. change (pod_size (A:=FixedHeader)) with 88 in E.
    etransitivity; [apply E; lia|]. unfold macro_block_with, HEADER_RESERVE. by rewrite <-M4. }
  match goal with |- context [set_cur_block ?m w] => set (mb' := m) end.
  assert (header_clean mb') as Hcl' by (repeat split). clearbody mb'.
  clear M1 M2 M3 M4 M5 M6 M7 M8 M9 b b1 b2 Hb Hb1 Hb2 Hdata.
  destruct w as [de mi [x y] idx sq tot op].
  cbn [set_cur_block wr_desc_ wr_current_macro_idx_ wr_macro_blocks_ wr_macro_seq_ wr_micro_writer_
    wr_is_opened_ wr_total_row_count_ fst snd] in *. subst de op mi. cbn [deref mbind outcome_bind].
  destruct idx; cbn [negb set_block fst snd] in *.
  - destruct (macro_init_spec desc sq x Hc Hsz) as (nb & -> & Hnb & _). cbn [mbind outcome_bind].
    eexists _, _. split; [done|]. by split_and!.
  - destruct (macro_init_spec desc sq y Hc Hsz) as (nb & -> & Hnb & _). cbn [mbind outcome_bind].
    eexists _, _. split; [done|]. by split_and!.
Qed.

Lemma flush_spec desc w micros out seq : writer_repr desc w micros [] →
  HEADER_RESERVE ≤ d_macro_block_size_ desc →
  ∃ seq' w', ObMacroBlockWriter_flush_current_macro_ out seq w = Done (0, macro_block_of desc micros, seq', w')
    ∧ writer_repr desc w' [] [] ∧ wr_total_row_count_ w' = wr_total_row_count_ w
    ∧ seq' = mb_cur_macro_seq_ (cur_block w).
Proof.
  unfold writer_repr at 1, macro_block_of. change (blen []) with 0. rewrite Z.add_0_r. apply flush_counted.
Qed.

(** ** No row is lost when the blocks cannot overflow

    A micro block is closed once it is within 4 KB of [micro_block_size_]; the
    last row and the row index must fit these 4 KB.  With rows of [lo] to [hi]
    bytes there are at most [(micro_block_size_ - 4152) / lo + 1] of them. *)
Section Fits.
Context (desc : ObDataStoreDesc) (lo hi : Z).
Local Abbreviation F := (d_micro_block_size_ desc).
Local Abbreviation M := (d_macro_block_size_ desc).

Definition sizes_fit : Prop :=
  0 < lo ∧ 4152 ≤ F ∧ HEADER_RESERVE + F ≤ M < 2 ^ 31 ∧ hi + 4 * ((F - 4152) / lo + 1) ≤ 4096.
Definition row_fits (row : ObStoreRow) : Prop := row_storable row ∧ lo ≤ blen (record_of row) ≤ hi.
Definition pend_ok (pend : list ObStoreRow) : Prop :=
  Forall row_fits pend ∧ (pend = [] ∨ 56 + blen (rows_bytes pend) < F - 4096).
Definition micros_ok (micros : list (list ObStoreRow)) : Prop :=
  Forall (λ rows, Forall row_fits rows ∧ micro_size rows ≤ F) micros.

Definition writer_ok (w : ObMacroBlockWriter) (micros : list (list ObStoreRow)) (pend : list ObStoreRow)
    : Prop :=
  writer_repr desc w micros pend ∧ pend_ok pend ∧ micros_ok micros
  ∧ F ≤ ObMacroBlock_get_remain_size (cur_block w).

Context (Hfit : sizes_fit).

Lemma rows_bytes_lo rows : Forall row_fits rows → lo * blen rows ≤ blen (rows_bytes rows).
Proof.
  induction 1 as [|row rows [_ Hr] _ IH]; [unfold blen; cbn; lia|].
  unfold rows_bytes in *. rewrite fmap_cons. cbn [concat]. rewrite blen_app, blen_cons. lia.
Qed.

(** A block that was not full is not overfull after one more row. *)
Lemma pend_append pend row : pend_ok pend → row_fits row → micro_size (pend ++ [row]) ≤ F.
Proof.
  intros [Hp Hnf] [_ Hr]. destruct Hfit as (Hlo & HF & _ & H4).
  pose proof (rows_bytes_lo _ Hp) as Hb. unfold micro_size. rewrite rows_bytes_snoc, !blen_app.
  change (blen [row]) with 1. pose proof (blen_nonneg pend). pose proof (blen_nonneg (rows_bytes pend)).
  assert (0 ≤ (F - 4152) / lo) by (apply Z.div_pos; lia).
  assert (56 + blen (rows_bytes pend) ≤ F - 4096 ∧ blen pend ≤ (F - 4152) / lo) as [? ?]; [|lia].
  destruct Hnf as [->|Hnf]; [change (blen (rows_bytes [])) with 0; change (blen []) with 0; lia|].
  split; [lia|]. apply Z.div_le_lower_bound; lia.
Qed.

Lemma writer_with_full pend :
  ObMicroBlockWriter_is_block_full (writer_with desc pend) = (F - 4096 <=? 56 + blen (rows_bytes pend)).
Proof. done. Qed.

(** Building the pending micro block and writing it where it fits. *)
Lemma flush_micro_spec w micros pend : pend ≠ [] → micro_size pend ≤ F → Forall row_fits pend →
  writer_repr desc w micros pend → micros_ok micros → F ≤ ObMacroBlock_get_remain_size (cur_block w) →
  ∃ w', flush_micro w = Done (0, 0, w')
    ∧ let w'' := set_cur_block (ObMacroBlock_inc_micro_block_count (cur_block w')) w' in
      writer_repr desc w'' (micros ++ [pend]) [] ∧ micros_ok (micros ++ [pend])
      ∧ wr_total_row_count_ w'' = wr_total_row_count_ w
      ∧ wr_current_macro_idx_ w'' = wr_current_macro_idx_ w ∧ wr_macro_seq_ w'' = wr_macro_seq_ w.
Proof.
  intros Hne Hsz Hok (H1 & H2 & H3 & Hm & Hc) Hmok Hrem. destruct Hfit as (_ & _ & HM & _).
  unfold HEADER_RESERVE in *. unfold flush_micro. rewrite H3, micro_build_spec by (done || lia).
  cbn [mbind outcome_bind].
  assert (cur_block (set_micro_writer (writer_with desc []) w) = cur_block w) as -> by done.
  destruct (write_micro_spec desc (cur_block w) micros _ pend 0 Hm) as (mb' & -> & Hm' & _); [lia|].
  cbn [mbind outcome_bind]. eexists. split; [done|]. cbn zeta.
  destruct w as [de mi [x y] idx sq tot op]. cbn in H1, H2, H3. subst.
  unfold writer_repr, writer_holds. split_and!; try done.
  - replace (rows_in micros + blen pend) with (rows_in (micros ++ [pend]) + 0) in Hm'.
    2:{ unfold rows_in. rewrite concat_app, blen_app. cbn [concat]. rewrite app_nil_r. lia. }
    destruct idx; exact Hm'.
  - destruct idx; exact Hc.
  - apply Forall_app. split; [done|]. by repeat constructor.
Qed.

Lemma append_row_counted w micros pend row m : writer_repr desc w micros pend → m = writer_with desc (pend ++ [row]) →
  let w0 := set_micro_writer m w in
  let w1 := mkMacroWriter (wr_desc_ w0) (wr_micro_writer_ w0) (wr_macro_blocks_ w0) (wr_current_macro_idx_ w0)
              (wr_macro_seq_ w0) (wr_total_row_count_ w0 + 1) (wr_is_opened_ w0) in
  let w2 := set_cur_block (ObMacroBlock_add_row_count 1 (cur_block w1)) w1 in
  writer_repr desc w2 micros (pend ++ [row])
  ∧ ObMacroBlock_get_remain_size (cur_block w2) = ObMacroBlock_get_remain_size (cur_block w)
  ∧ wr_micro_writer_ w2 = m ∧ wr_desc_ w2 = Some desc
  ∧ wr_total_row_count_ w2 = wr_total_row_count_ w + 1.
Proof.
  intros (H1 & H2 & H3 & Hm & Hc) ->. destruct w as [de mi [x y] idx sq tot op]. cbn in H1, H2, H3. subst.
  apply (macro_repr_add_row _ _ _ _ 1) in Hm.
  replace (rows_in micros + blen pend + 1) with (rows_in micros + blen (pend ++ [row])) in Hm
    by (rewrite blen_app; change (blen [row]) with 1; lia).
  cbn zeta. unfold writer_repr, writer_holds. destruct idx; split_and!; (exact Hm || exact Hc || done).
Qed.

Definition no_block (o : option bytes) : Prop := o = Some [].

(** One [append_row]: the row ends up in the pending micro block, in a finished
    one, or in the macro block that is handed out. *)
Lemma append_row_ok w micros pend row out seq : writer_ok w micros pend → row_fits row →
  ∃ out' seq' w', ObMacroBlockWriter_append_row row (Some out) (Some seq) w
                  = Done (0, Some out', Some seq', w')
    ∧ wr_total_row_count_ w' = wr_total_row_count_ w + 1
    ∧ ∃ micros' pend', micros_ok micros' ∧ concat micros' ++ pend' = concat micros ++ pend ++ [row]
      ∧ (out' = [] ∧ writer_ok w' micros' pend'
         ∨ out' = macro_block_of desc micros' ∧ pend' = [] ∧ writer_ok w' [] []
           ∧ HEADER_RESERVE + micros_size micros' ≤ M).
Proof.
  intros (Hw & Hp & Hmok & Hrem) Hrow. pose proof Hw as (H1 & H2 & H3 & _ & _).
  pose proof (pend_append _ _ Hp Hrow) as Hsz. destruct Hfit as (Hlo & HF & HM & _).
  assert (Forall row_fits (pend ++ [row])) as Hall by (apply Forall_app; split; [apply Hp|by constructor]).
  unfold ObMacroBlockWriter_append_row. rewrite H2, H3. cbn [negb].
  rewrite micro_append_spec; [|apply Hrow|].
  2:{ unfold micro_size, HEADER_RESERVE in *. rewrite rows_bytes_snoc, !blen_app in Hsz.
      pose proof (blen_nonneg pend). pose proof (blen_nonneg (record_of row)). change (blen [row]) with 1 in Hsz. lia. }
  cbn [mbind outcome_bind Z.eqb negb].
  pose proof (append_row_counted w micros pend row _ Hw eq_refl) as Hcnt. cbn zeta in Hcnt.
  match type of Hcnt with writer_repr _ ?x _ _ ∧ _ => set (w2 := x) in * end.
  destruct Hcnt as (Hw2 & Hr2 & Hm2 & Hd2 & Ht2). clearbody w2. rewrite Hm2, writer_with_full.
  destruct (Z.leb_spec (F - 4096) (56 + blen (rows_bytes (pend ++ [row])))) as [Hfull|Hnot].
  - destruct (flush_micro_spec w2 micros (pend ++ [row])) as (w3 & -> & Hw3);
      [by destruct pend|done|done|done|done|lia|].
    cbn [mbind outcome_bind Z.eqb negb]. cbn zeta in Hw3. set (w4 := set_cur_block _ w3) in *.
    destruct Hw3 as (Hw4 & Hmok4 & Ht4 & _). pose proof Hw4 as (D4 & _ & M4 & Hm4 & _). rewrite D4.
    cbn [deref mbind outcome_bind].
    assert (concat (micros ++ [pend ++ [row]]) ++ [] = concat micros ++ pend ++ [row]) as Hcat.
    { rewrite concat_app. cbn [concat]. by rewrite !app_nil_r. }
    destruct (Z.ltb_spec (ObMacroBlock_get_remain_size (cur_block w4)) F) as [Hlt|Hge].
    + rewrite M4. cbn [ObMicroBlockWriter_get_row_count writer_with mw_row_count_]. change (blen []) with 0.
      cbn [Z.ltb Z.compare mbind outcome_bind Z.eqb negb deref].
      destruct (flush_spec desc w4 _ out seq Hw4) as (seq' & w5 & -> & Hw5 & Ht5 & _);
        [unfold HEADER_RESERVE in *; lia|].
      cbn [mbind outcome_bind]. exists (macro_block_of desc (micros ++ [pend ++ [row]])), seq', w5.
      split; [done|]. split; [congruence|]. exists (micros ++ [pend ++ [row]]), []. split; [done|]. split; [done|].
      right. split_and!; [done..| |].
      * split; [done|]. split_and!; [by split; [constructor|left]|constructor|].
        pose proof Hw5 as (_ & _ & _ & Hm5 & _). destruct Hm5 as (_ & _ & A & B & _).
        unfold ObMacroBlock_get_remain_size. rewrite A, B. unfold micros_size. cbn. lia.
      * destruct Hm4 as (_ & _ & A & B & C & _). lia.
    + exists [], seq, w4. split; [done|]. split; [congruence|].
      exists (micros ++ [pend ++ [row]]), []. split; [done|]. split; [done|]. left. split; [done|].
      split; [done|]. split_and!; [by split; [constructor|left]|done|lia].
  - cbn [mbind outcome_bind Z.eqb negb]. rewrite Hd2. cbn [deref mbind outcome_bind].
    rewrite (proj2 (Z.ltb_ge _ _)) by lia. exists [], seq, w2. split; [done|]. split; [done|].
    exists micros, (pend ++ [row]). split; [done|]. split; [done|]. left. split; [done|].
    split; [done|]. split_and!; [split; [done|by right]|done|lia].
Qed.

Lemma close_ok w micros pend blocks seqs : writer_ok w micros pend →
  ∃ micros' seq' w', ObMacroBlockWriter_close blocks seqs w
                = Done (0, blocks ++ [macro_block_of desc micros'], seqs ++ [seq'], w')
    ∧ concat micros' = concat micros ++ pend ∧ micros_ok micros'
    ∧ HEADER_RESERVE + micros_size micros' ≤ M.
Proof.
  intros (Hw & Hp & Hmok & Hrem). pose proof Hw as (H1 & H2 & H3 & Hm & _).
  destruct Hfit as (Hlo & HF & HM & H4). unfold ObMacroBlockWriter_close. rewrite H2, H3. cbn [negb].
  unfold ObMicroBlockWriter_get_row_count. cbn [writer_with mw_row_count_]. destruct pend as [|row pend].
  - change (blen []) with 0. cbn [Z.ltb Z.compare mbind outcome_bind].
    destruct (flush_spec desc w micros [] 0 Hw) as (seq' & w5 & -> & _ & _ & _); [unfold HEADER_RESERVE in *; lia|].
    cbn [mbind outcome_bind]. exists micros, seq'. eexists. split; [done|]. rewrite app_nil_r.
    split_and!; [done..|]. destruct Hm as (_ & _ & A & B & C & _). lia.
  - rewrite (proj2 (Z.ltb_lt _ _)) by (rewrite blen_cons; pose proof (blen_nonneg pend); lia).
    assert (micro_size (row :: pend) ≤ F) as Hsz.
    { destruct Hp as [Hp [|Hnf]]; [done|]. pose proof (rows_bytes_lo _ Hp) as Hb. unfold micro_size.
      assert (0 ≤ (F - 4152) / lo) by (apply Z.div_pos; lia). pose proof (Forall_inv Hp) as [_ [? ?]].
      assert (blen (row :: pend) ≤ (F - 4152) / lo) by (apply Z.div_le_lower_bound; lia). lia. }
    destruct (flush_micro_spec w micros (row :: pend)) as (w3 & -> & Hw3); [done|done|apply Hp|done|done|lia|].
    cbn [mbind outcome_bind]. cbn zeta in Hw3. set (w4 := set_cur_block _ w3) in *.
    destruct Hw3 as (Hw4 & Hmok4 & _). pose proof Hw4 as (_ & _ & _ & Hm4 & _).
    destruct (flush_spec desc w4 _ [] 0 Hw4) as (seq' & w5 & -> & _ & _ & _); [unfold HEADER_RESERVE in *; lia|].
    cbn [mbind outcome_bind]. exists (micros ++ [row :: pend]), seq'. eexists. split; [done|].
    rewrite concat_app. cbn [concat]. rewrite app_nil_r. split_and!; [done..|].
    destruct Hm4 as (_ & _ & A & B & C & _). lia.
Qed.
End Fits.

(** ** Decoding *)

Lemma micro_blocks_rows_spec desc micros pre post :
  Forall (λ rows, Forall row_storable rows ∧ micro_size rows < 2 ^ 31) micros →
  micro_blocks_rows (length micros) (blen pre) (pre ++ micros_bytes desc micros ++ post)
  = Done (row_image <$> concat micros).
Proof.
  revert pre. induction micros as [|rows micros IH]; intros pre Hok; [done|].
  apply Forall_cons in Hok as [[Hst Hsz] Hok]. cbn [length micro_blocks_rows concat].
  unfold micros_bytes. rewrite fmap_cons. cbn [concat]. fold (micros_bytes desc micros).
  rewrite <-app_assoc. set (h := built_header (empty_header desc) (blen rows) (56 + blen (rows_bytes rows)) (micro_size rows)).
  assert (micro_block_of desc rows = pod_enc h ++ rows_bytes rows ++ concat (le_enc 4 <$> row_starts 56 rows))
    as Hblk by done.
  rewrite (Hblk) at 1. rewrite <-!app_assoc.
  rewrite (mem_read_app (blen pre) 56 pre (pod_enc h)) by done. cbn [mbind outcome_bind].
  rewrite pod_dec_enc by apply empty_header_built_wf. cbn [h built_header mh_data_length_].
  pose proof (micro_size_pos rows). rewrite i32_small by (unfold i32_range; lia).
  rewrite (mem_read_app (blen pre) (micro_size rows) pre (micro_block_of desc rows))
    by (done || by rewrite blen_micro_block).
  cbn [mbind outcome_bind]. rewrite micro_block_decode by done. cbn [mbind outcome_bind].
  replace (blen pre + micro_size rows) with (blen (pre ++ micro_block_of desc rows))
    by (by rewrite blen_app, blen_micro_block).
  rewrite (app_assoc pre). rewrite IH by done. cbn [mbind outcome_bind]. by rewrite fmap_app.
Qed.

Lemma rows_in_bound micros : rows_in micros ≤ micros_size micros ∧ blen micros ≤ micros_size micros.
Proof.
  unfold rows_in. induction micros as [|rows micros IH]; [done|]. cbn [concat micros_size foldr].
  rewrite blen_app, blen_cons. fold (micros_size micros).
  pose proof (blen_nonneg (rows_bytes rows)). pose proof (blen_nonneg rows).
  assert (blen rows + 1 ≤ micro_size rows); [unfold micro_size|]; lia.
Qed.

Lemma header_of_wf desc micros n : HEADER_RESERVE + micros_size micros < 2 ^ 31 → 0 ≤ n < 2 ^ 31 →
  fixed_header_wf (header_of desc n (i32 (HEADER_RESERVE + micros_size micros)) (blen micros)
    HEADER_RESERVE (i32 (HEADER_RESERVE + micros_size micros - HEADER_RESERVE))).
Proof.
  intros Hsz Hn. pose proof (rows_in_bound micros). pose proof (micros_size_nonneg micros).
  pose proof (blen_nonneg micros).
  pose proof (u64_range (d_tablet_id_ desc)). unfold rows_in in *.
  pose proof (sint_range 32 (d_column_count_ desc) ltac:(lia)).
  pose proof (sint_range 32 (d_rowkey_column_count_ desc) ltac:(lia)).
  pose proof (sint_range 32 (HEADER_RESERVE + micros_size micros) ltac:(lia)).
  pose proof (sint_range 32 (HEADER_RESERVE + micros_size micros - HEADER_RESERVE) ltac:(lia)).
  unfold fixed_header_wf, i32_range, i64_range, HEADER_RESERVE, i32 in *.
  cbn [header_of fh_header_size_ fh_version_ fh_magic_ fh_tablet_id_ fh_logical_version_ fh_data_seq_
    fh_column_count_ fh_rowkey_column_count_ fh_row_store_type_ fh_row_count_ fh_occupy_size_
    fh_micro_block_count_ fh_micro_block_data_offset_ fh_micro_block_data_size_ fh_idx_block_offset_
    fh_idx_block_size_ fh_meta_block_offset_ fh_meta_block_size_ fh_data_checksum_].
  unfold i32. split_and!; lia.
Qed.

Lemma macro_block_with_decode desc micros n :
  Forall (λ rows, Forall row_storable rows ∧ micro_size rows < 2 ^ 31) micros →
  HEADER_RESERVE + micros_size micros < 2 ^ 31 → 0 ≤ n < 2 ^ 31 →
  macro_block_rows (macro_block_with desc micros n) = Done (n, row_image <$> concat micros).
Proof.
  intros Hok Hsz Hn. unfold macro_block_rows, macro_block_with. set (ch := common_header_bytes _).
  set (fh := header_of _ _ _ _ _ _). change (fixed_header_bytes fh) with (pod_enc fh).
  rewrite (mem_read_app 24 88 ch (pod_enc fh)) by done. cbn [mbind outcome_bind].
  rewrite pod_dec_enc by (by apply header_of_wf). cbn [fh header_of fh_micro_block_count_ fh_row_count_].
  unfold blen at 1. rewrite Nat2Z.id.
  assert (ch ++ pod_enc fh ++ reserve ++ micros_bytes desc micros
          = (ch ++ pod_enc fh ++ reserve) ++ micros_bytes desc micros ++ []) as ->.
  { by rewrite app_nil_r, <-!app_assoc. }
  replace micro_area with (blen (ch ++ pod_enc fh ++ reserve)).
  2:{ rewrite !blen_app, blen_reserve, pod_len. done. }
  by rewrite micro_blocks_rows_spec.
Qed.

Lemma macro_block_decode desc micros :
  Forall (λ rows, Forall row_storable rows ∧ micro_size rows < 2 ^ 31) micros →
  HEADER_RESERVE + micros_size micros < 2 ^ 31 →
  macro_block_rows (macro_block_of desc micros) = Done (rows_in micros, row_image <$> concat micros).
Proof.
  intros Hok Hsz. pose proof (rows_in_bound micros). pose proof (blen_nonneg (concat micros)).
  unfold rows_in, HEADER_RESERVE in *. apply macro_block_with_decode; unfold HEADER_RESERVE; (done || lia).
Qed.

(** ** Opening a writer *)

Lemma open_repr desc seq : HEADER_RESERVE ≤ d_macro_block_size_ desc →
  ∃ w, ObMacroBlockWriter_open desc seq ObMacroBlockWriter_new = Done (0, w) ∧ writer_repr desc w [] [].
Proof.
  intros HM. unfold ObMacroBlockWriter_open, ObMacroBlockWriter_build_micro_writer_.
  cbn [wr_desc_ deref mbind outcome_bind wr_micro_writer_]. rewrite micro_init_spec.
  cbn [mbind outcome_bind Z.eqb negb set_micro_writer wr_macro_blocks_ ObMacroBlockWriter_new fst snd].
  destruct (macro_init_spec desc (seq * 1000000 + 1) ObMacroBlock_new) as (b0 & -> & Hb0 & _);
    [by repeat split|done|].
  cbn [mbind outcome_bind Z.eqb negb wr_macro_blocks_ snd].
  destruct (macro_init_spec desc (seq * 1000000 + 1 + 1) ObMacroBlock_new) as (b1 & -> & Hb1 & _);
    [by repeat split|done|].
  cbn [mbind outcome_bind Z.eqb negb]. eexists. split; [done|].
  pose proof (macro_repr_clean _ _ _ _ Hb1). by split_and!.
Qed.

Lemma repr_remain desc w micros pend n : writer_holds desc w micros pend n →
  ObMacroBlock_get_remain_size (cur_block w) = d_macro_block_size_ desc - HEADER_RESERVE - micros_size micros.
Proof.
  intros (_ & _ & _ & Hm & _). destruct Hm as (_ & _ & A & B & _). unfold ObMacroBlock_get_remain_size. lia.
Qed.

(** ** Rows that do not fit *)

Section Overfull.
Context (desc : ObDataStoreDesc).
Local Abbreviation F := (d_micro_block_size_ desc).
Local Abbreviation M := (d_macro_block_size_ desc).
Context (HF : 4152 ≤ F) (HM : HEADER_RESERVE + F ≤ M < 2 ^ 31).

(** Append rows with no room for a flushed block; [None] after a failure. *)
Fixpoint append_all (rows : list ObStoreRow) (w : ObMacroBlockWriter) : outcome (option ObMacroBlockWriter) :=
  match rows with
  | [] => Done (Some w)
  | row :: rows =>
      x ← ObMacroBlockWriter_append_row row (Some []) (Some 0) w;
      let '(ret, _, _, w) := x : Z * option bytes * option Z * ObMacroBlockWriter in
      if ret =? 0 then append_all rows w else Done None
  end.

Lemma append_not_full w pend row : writer_repr desc w [] pend → row_storable row →
  56 + blen (rows_bytes (pend ++ [row])) < F - 4096 →
  ∃ w', ObMacroBlockWriter_append_row row (Some []) (Some 0) w = Done (0, Some [], Some 0, w')
    ∧ writer_repr desc w' [] (pend ++ [row]).
Proof.
  intros Hw Hrow Hnot. pose proof Hw as (H1 & H2 & H3 & _ & _).
  pose proof (repr_remain _ _ _ _ _ Hw) as Hrem. change (micros_size []) with 0 in Hrem.
  unfold ObMacroBlockWriter_append_row. rewrite H2, H3. cbn [negb].
  rewrite micro_append_spec; [|done|].
  2:{ rewrite rows_bytes_snoc, blen_app in Hnot. pose proof (blen_nonneg (record_of row)).
      unfold HEADER_RESERVE in *. lia. }
  cbn [mbind outcome_bind Z.eqb negb].
  pose proof (append_row_counted desc w [] pend row _ Hw eq_refl) as Hcnt. cbn zeta in Hcnt.
  match type of Hcnt with writer_repr _ ?x _ _ ∧ _ => set (w2 := x) in * end.
  destruct Hcnt as (Hw2 & Hr2 & Hm2 & Hd2 & _). clearbody w2. rewrite Hm2, writer_with_full.
  rewrite (proj2 (Z.leb_gt _ _)) by lia. cbn [mbind outcome_bind Z.eqb negb].
  rewrite Hd2. cbn [deref mbind outcome_bind]. rewrite (proj2 (Z.ltb_ge _ _)) by lia. by exists w2.
Qed.

Lemma append_all_not_full rows : ∀ w pend, writer_repr desc w [] pend → Forall row_storable rows →
  56 + blen (rows_bytes (pend ++ rows)) < F - 4096 →
  ∃ w', append_all rows w = Done (Some w') ∧ writer_repr desc w' [] (pend ++ rows).
Proof.
  induction rows as [|row rows IH]; intros w pend Hw Hst Hnot; cbn [append_all].
  { rewrite app_nil_r. by exists w. }
  apply Forall_cons in Hst as [Hrow Hst]. rewrite (cons_middle row), (app_assoc pend) in Hnot |- *.
  destruct (append_not_full w pend row Hw Hrow) as (w1 & -> & Hw1).
  { unfold rows_bytes in *. rewrite fmap_app, concat_app, blen_app in Hnot.
    pose proof (blen_nonneg (concat (record_of <$> rows))). lia. }
  cbn [mbind outcome_bind Z.eqb]. by apply IH.
Qed.

(** The pending rows outgrow the macro block when [row] closes the micro block:
    they are gone, and stay counted. *)
Lemma append_overfull w pend row : writer_repr desc w [] pend → row_storable row →
  56 + blen (rows_bytes pend) < 2 ^ 31 → micro_size (pend ++ [row]) < 2 ^ 31 →
  F - 4096 ≤ 56 + blen (rows_bytes (pend ++ [row])) → M - HEADER_RESERVE < micro_size (pend ++ [row]) →
  ∃ w', ObMacroBlockWriter_append_row row (Some []) (Some 0) w = Done (-1, Some [], Some 0, w')
    ∧ writer_holds desc w' [] [] (blen (pend ++ [row])).
Proof.
  intros Hw Hrow Hsz Hsz' Hfull Hover. pose proof Hw as (H1 & H2 & H3 & _ & _).
  unfold ObMacroBlockWriter_append_row. rewrite H2, H3. cbn [negb].
  rewrite micro_append_spec by done. cbn [mbind outcome_bind Z.eqb negb].
  pose proof (append_row_counted desc w [] pend row _ Hw eq_refl) as Hcnt. cbn zeta in Hcnt.
  match type of Hcnt with writer_repr _ ?x _ _ ∧ _ => set (w2 := x) in * end.
  destruct Hcnt as (Hw2 & _ & Hm2 & _). clearbody w2. rewrite Hm2, writer_with_full.
  rewrite (proj2 (Z.leb_le _ _)) by lia. unfold flush_micro.
  rewrite Hm2, micro_build_spec by (done || by destruct pend).
  cbn [mbind outcome_bind]. pose proof (repr_remain _ _ _ _ _ Hw2) as Hrem.
  destruct Hw2 as (D2 & O2 & _ & Hmb & Hc2).
  assert (cur_block (set_micro_writer (writer_with desc []) w2) = cur_block w2) as -> by done.
  pose proof Hmb as (_ & I2 & _). unfold ObMacroBlock_write_micro_block. rewrite I2, blen_micro_block.
  unfold ObMacroBlock_get_remain_size in Hrem. change (micros_size []) with 0 in Hrem.
  cbn [negb]. rewrite (proj2 (Z.ltb_lt _ _)) by lia. cbn [mbind outcome_bind Z.eqb negb].
  eexists. split; [done|]. destruct w2 as [de mi [x y] idx sq tot op].
  unfold writer_holds. destruct idx; split_and!; (exact Hmb || exact Hc2 || done).
Qed.

Lemma close_counted w n : writer_holds desc w [] [] n →
  ∃ seq w', ObMacroBlockWriter_close [] [] w = Done (0, [macro_block_with desc [] n], [seq], w').
Proof.
  intros Hw. pose proof Hw as (_ & H2 & H3 & _). unfold ObMacroBlockWriter_close. rewrite H2, H3.
  unfold ObMicroBlockWriter_get_row_count. cbn [negb writer_with mw_row_count_]. change (blen []) with 0.
  cbn [Z.ltb Z.compare mbind outcome_bind].
  destruct (flush_counted desc w [] n [] 0 Hw) as (seq & w' & -> & _); [lia|].
  cbn [mbind outcome_bind]. by eexists _, _.
Qed.
End Overfull.

(** A micro block that outgrows its macro block is lost.  [is_block_full]
    keeps 4 KB free for the last row and the row index, but the index takes 4
    bytes per row.  When rows fill a micro block so that with its index it is
    larger than the macro block's data area, the append of the last one fails,
    all the rows pending in the micro writer are dropped, and [close] succeeds
    with a macro block whose header counts them and that holds none. *)
Theorem overfull_micro_block_lost desc seq rows row :
  HEADER_RESERVE + d_micro_block_size_ desc ≤ d_macro_block_size_ desc < 2 ^ 31 →
  Forall row_storable rows → row_storable row → micro_size (rows ++ [row]) < 2 ^ 31 →
  56 + blen (rows_bytes rows) < d_micro_block_size_ desc - 4096 →
  d_micro_block_size_ desc - 4096 ≤ 56 + blen (rows_bytes (rows ++ [row])) →
  d_macro_block_size_ desc - HEADER_RESERVE < micro_size (rows ++ [row]) →
  ∃ w w1 w2 blk q w3, ObMacroBlockWriter_open desc seq ObMacroBlockWriter_new = Done (0, w)
    ∧ append_all rows w = Done (Some w1)
    ∧ ObMacroBlockWriter_append_row row (Some []) (Some 0) w1 = Done (-1, Some [], Some 0, w2)
    ∧ ObMacroBlockWriter_close [] [] w2 = Done (0, [blk], [q], w3)
    ∧ macro_block_rows blk = Done (blen rows + 1, []).
Proof.
  intros HM Hst Hrow Hsz Hnot Hfull Hover. pose proof (blen_nonneg (rows_bytes rows)).
  assert (4152 ≤ d_micro_block_size_ desc) as HF by lia. unfold HEADER_RESERVE in *.
  destruct (open_repr desc seq) as (w & E & Hw); [unfold HEADER_RESERVE; lia|].
  destruct (append_all_not_full desc HM rows w [] Hw Hst) as (w1 & E1 & Hw1); [by rewrite app_nil_l|].
  rewrite app_nil_l in Hw1.
  destruct (append_overfull desc w1 rows row Hw1) as (w2 & E2 & Hw2); [done|lia|done..|].
  destruct (close_counted desc HF HM w2 _ Hw2) as (q & w3 & E3).
  eexists w, w1, w2, _, q, w3. split_and!; [done..|].
  rewrite macro_block_with_decode; [|constructor|unfold HEADER_RESERVE; cbn; lia|].
  - rewrite blen_app. done.
  - rewrite blen_app. change (blen [row]) with 1. unfold micro_size in Hsz. rewrite blen_app in Hsz.
    change (blen [row]) with 1 in Hsz. pose proof (blen_nonneg rows).
    pose proof (blen_nonneg (rows_bytes (rows ++ [row]))). lia.
Qed.

(** A description with small blocks and a row of 10 bytes, for examples. *)
Definition small_desc (micro_size : Z) : ObDataStoreDesc :=
  mkDesc 1 2 1 (HEADER_RESERVE + micro_size) micro_size 0 0 FLAT_ROW_STORE MINI_MERGE.
Definition small_row (k : Z) : ObStoreRow := mkRow DF_INSERT 0 1 (rowkey_of [k]) [] false.

Lemma rows_bytes_replicate n row : blen (rows_bytes (replicate n row)) = Z.of_nat n * blen (record_of row).
Proof.
  induction n as [|n IH]; [done|]. unfold rows_bytes in *. cbn [replicate]. rewrite fmap_cons.
  cbn [concat]. rewrite blen_app, IH. lia.
Qed.

Lemma small_row_storable k : is_byte k → row_storable (small_row k).
Proof. intros Hk. repeat constructor; try (cbn; unfold blen; cbn; lia); apply Hk. Qed.

Lemma overfull_micro_block_lost_witness :
  let desc := small_desc 15000 in
  ∃ w w1 w2 blk q w3, ObMacroBlockWriter_open desc 0 ObMacroBlockWriter_new = Done (0, w)
    ∧ append_all (replicate 1084 (small_row 1)) w = Done (Some w1)
    ∧ ObMacroBlockWriter_append_row (small_row 1) (Some []) (Some 0) w1 = Done (-1, Some [], Some 0, w2)
    ∧ ObMacroBlockWriter_close [] [] w2 = Done (0, [blk], [q], w3)
    ∧ macro_block_rows blk = Done (1085, []).
Proof.
  assert (row_storable (small_row 1)) as Hrow by (apply small_row_storable; unfold is_byte; lia).
  assert (blen (record_of (small_row 1)) = 10) as Hlen by reflexivity.
  assert (1085 = blen (replicate 1084 (small_row 1)) + 1) as -> by (rewrite blen_replicate; reflexivity).
  apply (overfull_micro_block_lost (small_desc 15000) 0 (replicate 1084 (small_row 1)) (small_row 1));
    unfold micro_size; rewrite ?rows_bytes_snoc, ?blen_app, ?rows_bytes_replicate, ?Hlen, ?blen_replicate;
    try assumption; try (apply Forall_replicate; assumption); vm_compute; try split; try reflexivity; discriminate.
Defined.
