(* ===== verification/KvCache.v ===== *)
(** * The block cache: ObKVCache

    Models [src/src/storage/cache/ob_kv_cache.h] and [ob_block_cache.h].  The
    [std::list] of keys is a list of cells with an identity, so that the
    iterators stored in the map are pointers into it: erasing through an
    iterator whose cell is gone is [UB].  The cache is shown to be an LRU cache
    of at most [max capacity 1] entries. *)

From S2P Require Import Prelude.

Section KVCache.
Context {Key : Type} `{Countable Key} {Value : Type}.

Record CacheEntry := mkCacheEntry { ce_value_ : Value; ce_lru_iter_ : positive }.

(** [kc_cell] is the next list cell the allocator hands out. *)
Record ObKVCache := mkKVCache {
  kc_capacity_ : Z;
  kc_size_ : Z;
  kc_map_ : gmap Key CacheEntry;
  kc_lru_list_ : list (positive * Key);
  kc_cell : positive }.

Definition ObKVCache_new : ObKVCache := mkKVCache 1024 0 ∅ [] 1%positive.
(** [init] sets the two numbers and leaves the entries alone. *)
Definition ObKVCache_init (capacity : Z) (c : ObKVCache) : Z * ObKVCache :=
  (0, mkKVCache capacity 0 (kc_map_ c) (kc_lru_list_ c) (kc_cell c)).

(** [lru_list_.erase(it)]. *)
Fixpoint list_erase (it : positive) (l : list (positive * Key)) : outcome (list (positive * Key)) :=
  match l with
  | [] => UB
  | (i, k) :: l' => if bool_decide (i = it) then Done l' else l'' ← list_erase it l'; Done ((i, k) :: l'')
  end.

(** [erase], [push_front], [lru_iter_ = begin()] on the entry of [key]; [v] is
    the value the entry ends up with. *)
Definition move_to_front (key : Key) (it : positive) (v : Value) (c : ObKVCache) : outcome ObKVCache :=
  l ← list_erase it (kc_lru_list_ c);
  Done (mkKVCache (kc_capacity_ c) (kc_size_ c) (<[key := mkCacheEntry v (kc_cell c)]> (kc_map_ c))
          ((kc_cell c, key) :: l) (Pos.succ (kc_cell c))).

(** [get]: found, [value], the cache. *)
Definition ObKVCache_get (key : Key) (value : Value) (c : ObKVCache)
    : outcome (bool * Value * ObKVCache) :=
  match kc_map_ c !! key with
  | None => Done (false, value, c)
  | Some e =>
      c ← move_to_front key (ce_lru_iter_ e) (ce_value_ e) c;
      Done (true, ce_value_ e, c)
  end.

(** The eviction loop, on the list from its back. *)
Fixpoint evict (capacity size : Z) (rl : list (positive * Key)) (m : gmap Key CacheEntry)
    : Z * list (positive * Key) * gmap Key CacheEntry :=
  match rl with
  | [] => (size, rl, m)
  | (_, oldest) :: rl' =>
      if capacity <=? size then evict capacity (size - 1) rl' (delete oldest m) else (size, rl, m)
  end.

Definition ObKVCache_put (key : Key) (value : Value) (c : ObKVCache) : outcome (Z * ObKVCache) :=
  match kc_map_ c !! key with
  | Some e => c ← move_to_front key (ce_lru_iter_ e) value c; Done (0, c)
  | None =>
      let '(size, rl, m) := evict (kc_capacity_ c) (kc_size_ c) (reverse (kc_lru_list_ c)) (kc_map_ c) in
      Done (0, mkKVCache (kc_capacity_ c) (size + 1) (<[key := mkCacheEntry value (kc_cell c)]> m)
                 ((kc_cell c, key) :: reverse rl) (Pos.succ (kc_cell c)))
  end.

Definition ObKVCache_erase (key : Key) (c : ObKVCache) : outcome (Z * ObKVCache) :=
  match kc_map_ c !! key with
  | None => Done (0, c)
  | Some e =>
      l ← list_erase (ce_lru_iter_ e) (kc_lru_list_ c);
      Done (0, mkKVCache (kc_capacity_ c) (kc_size_ c - 1) (delete key (kc_map_ c)) l (kc_cell c))
  end.

Definition ObKVCache_size (c : ObKVCache) : Z := kc_size_ c.
Definition ObKVCache_clear (c : ObKVCache) : ObKVCache :=
  mkKVCache (kc_capacity_ c) 0 ∅ [] (kc_cell c).

(** ** Specification: entries by recency *)

Implicit Types l : list (Key * Value).

Fixpoint lru_lookup (key : Key) l : option Value :=
  match l with
  | [] => None
  | (k, v) :: l' => if bool_decide (k = key) then Some v else lru_lookup key l'
  end.
Definition lru_remove (key : Key) l : list (Key * Value) := filter (λ e, e.1 ≠ key) l.

Definition lru_get (key : Key) l : option Value * list (Key * Value) :=
  match lru_lookup key l with
  | None => (None, l)
  | Some v => (Some v, (key, v) :: lru_remove key l)
  end.
(** A new key keeps the [capacity - 1] most recent of the others. *)
Definition lru_put (capacity : Z) (key : Key) (v : Value) l : list (Key * Value) :=
  match lru_lookup key l with
  | Some _ => (key, v) :: lru_remove key l
  | None => (key, v) :: take (Z.to_nat (capacity - 1)) l
  end.

(** The concrete entries: list cell, key and value, most recent first. *)
Implicit Types es : list (positive * Key * Value).
Definition entries_of es : list (Key * Value) := (λ e, (e.1.2, e.2)) <$> es.

Definition cache_inv (c : ObKVCache) es : Prop :=
  kc_size_ c = blen es ∧ kc_lru_list_ c = es.*1 ∧ NoDup (es.*1.*1) ∧ NoDup (es.*1.*2)
  ∧ (∀ i, i ∈ es.*1.*1 → (i < kc_cell c)%positive)
  ∧ (∀ k v i, kc_map_ c !! k = Some (mkCacheEntry v i) ↔ (i, k, v) ∈ es).

(** The cache holds the entries [l], most recent first. *)
Definition cache_repr (c : ObKVCache) l : Prop := ∃ es, cache_inv c es ∧ entries_of es = l.

(** ** Lemmas *)

Lemma entries_keys es : (entries_of es).*1 = es.*1.*2.
Proof. unfold entries_of. rewrite <-!list_fmap_compose. by apply list_fmap_ext. Qed.

Lemma lru_lookup_elem key v l : NoDup (l.*1) → lru_lookup key l = Some v ↔ (key, v) ∈ l.
Proof.
  induction l as [|[k w] l IH]; cbn; intros Hnd; [set_solver|].
  apply NoDup_cons in Hnd as [Hk Hnd]. rewrite elem_of_cons. case_bool_decide as E; subst.
  - split; [intros [= ->]; auto|]. intros [[= ->]|Hin]; [done|].
    destruct Hk. apply list_elem_of_fmap. by exists (key, v).
  - rewrite IH by done. naive_solver.
Qed.

Lemma lru_lookup_none key l : lru_lookup key l = None ↔ key ∉ l.*1.
Proof.
  induction l as [|[k w] l IH]; cbn; [set_solver|]. rewrite not_elem_of_cons.
  case_bool_decide; subst; naive_solver.
Qed.

Lemma map_lookup_spec c es k : cache_inv c es →
  ce_value_ <$> kc_map_ c !! k = lru_lookup k (entries_of es).
Proof.
  intros (_ & _ & _ & Hk & _ & Hm). destruct (kc_map_ c !! k) as [[v i]|] eqn:E; cbn; symmetry.
  - apply lru_lookup_elem; [by rewrite entries_keys|]. apply list_elem_of_fmap.
    exists (i, k, v). by rewrite <-Hm.
  - apply lru_lookup_none. rewrite entries_keys. intros Hin.
    apply list_elem_of_fmap in Hin as ((i & k') & -> & Hin).
    apply list_elem_of_fmap in Hin as (((i' & k'') & v) & [= -> ->] & Hin).
    apply Hm in Hin. cbn in *. congruence.
Qed.

Lemma cells_elem es e : e ∈ es → e.1.1 ∈ es.*1.*1 ∧ e.1.2 ∈ es.*1.*2.
Proof. intros He. split; do 2 (apply list_elem_of_fmap; eexists; split; [done|]); done. Qed.

(** The other entries have other keys. *)
Lemma filter_fresh_key es k : k ∉ es.*1.*2 → filter (λ e, e.1.2 ≠ k) es = es.
Proof.
  intros Hk. apply filter_all, Forall_forall. intros e He E. apply Hk. rewrite <-E.
  by apply cells_elem.
Qed.

(** Erasing through a valid iterator removes the entry of its key. *)
Lemma list_erase_spec es i k v : NoDup (es.*1.*1) → NoDup (es.*1.*2) → (i, k, v) ∈ es →
  list_erase i (es.*1) = Done ((filter (λ e, e.1.2 ≠ k) es).*1).
Proof.
  induction es as [|[[j k'] w] es IH]; intros Hc Hk Hin; [set_solver|]. cbn in Hc, Hk.
  apply NoDup_cons in Hc as [Hj Hc]. apply NoDup_cons in Hk as [Hk' Hk].
  rewrite filter_cons, fmap_cons. cbn [list_erase fst snd].
  apply elem_of_cons in Hin as [[= <- <- <-]|Hin].
  - rewrite bool_decide_true, decide_False by (done || tauto). by rewrite filter_fresh_key.
  - assert (j ≠ i ∧ k' ≠ k) as [Hji Hkk].
    { apply cells_elem in Hin as [? ?]. split; intros ->; done. }
    rewrite bool_decide_false, decide_True by done. rewrite (IH Hc Hk Hin). done.
Qed.

Lemma entries_filter es k : entries_of (filter (λ e, e.1.2 ≠ k) es) = lru_remove k (entries_of es).
Proof.
  unfold entries_of, lru_remove. induction es as [|[[i k'] v] es IH]; [done|].
  rewrite fmap_cons, !filter_cons. cbn. case_decide; [|done]. by rewrite fmap_cons, IH.
Qed.

Lemma NoDup_fmap_filter {A B} (f : A → B) (P : A → Prop) `{!∀ x, Decision (P x)} (xs : list A) :
  NoDup (f <$> xs) → NoDup (f <$> filter P xs).
Proof.
  induction xs as [|x xs IH]; [done|]. rewrite fmap_cons, filter_cons.
  intros [Hx Hnd]%NoDup_cons. case_decide; [|auto]. rewrite fmap_cons. constructor; [|auto].
  intros (y & E & [_ Hy]%list_elem_of_filter)%list_elem_of_fmap. destruct Hx.
  rewrite E. apply list_elem_of_fmap. eauto.
Qed.

(** Length of the remaining list after erasing a present key. *)
Lemma blen_filter_key es k i v : NoDup (es.*1.*2) → (i, k, v) ∈ es →
  blen (filter (λ e, e.1.2 ≠ k) es) = blen es - 1.
Proof.
  induction es as [|[[j k'] w] es IH]; intros Hk Hin; [set_solver|]. cbn in Hk.
  apply NoDup_cons in Hk as [Hk' Hk]. rewrite filter_cons. cbn [fst snd].
  apply elem_of_cons in Hin as [[= <- <- <-]|Hin].
  - rewrite decide_False by tauto. rewrite filter_fresh_key, blen_cons by done. lia.
  - rewrite decide_True, !blen_cons, (IH Hk Hin); [lia|].
    cbn. intros ->. apply cells_elem in Hin as [_ ?]. done.
Qed.

(** Putting an entry at the front of what is left after removing its key. *)
Lemma cache_inv_front cap n es es' m key v c (ks : list (positive * Key)) :
  cache_inv c es → ks = es'.*1 → n = blen es' + 1 →
  (∀ e, e ∈ es' → e ∈ es) → NoDup (es'.*1.*1) → NoDup (es'.*1.*2) → key ∉ es'.*1.*2 →
  (∀ k w i, k ≠ key → m !! k = Some (mkCacheEntry w i) ↔ (i, k, w) ∈ es') →
  cache_inv (mkKVCache cap n (<[key := mkCacheEntry v (kc_cell c)]> m) ((kc_cell c, key) :: ks)
               (Pos.succ (kc_cell c))) ((kc_cell c, key, v) :: es').
Proof.
  intros (_ & _ & _ & _ & Hlt & _) -> -> Hsub Hc Hk Hkey Hm.
  assert (∀ i, i ∈ es'.*1.*1 → (i < kc_cell c)%positive) as Hlt'.
  { intros i (e & -> & (e' & -> & He)%list_elem_of_fmap)%list_elem_of_fmap. apply Hlt.
    by apply cells_elem, Hsub. }
  split_and!; cbn.
  - rewrite blen_cons. lia.
  - done.
  - constructor; [|done]. intros Hin%Hlt'. lia.
  - by constructor.
  - intros i [->|Hin%Hlt']%elem_of_cons; lia.
  - intros k w i. rewrite elem_of_cons. destruct (decide (k = key)) as [->|Hne].
    + rewrite lookup_insert_eq. split; [intros [= <- <-]; by left|].
      intros [[= -> ->]|Hin]; [done|]. apply cells_elem in Hin as [_ ?]. done.
    + rewrite lookup_insert_ne by done. rewrite Hm by done. naive_solver.
Qed.

Lemma move_to_front_spec c es key v w i : cache_inv c es → kc_map_ c !! key = Some (mkCacheEntry w i) →
  ∃ c', move_to_front key i v c = Done c' ∧ kc_capacity_ c' = kc_capacity_ c
        ∧ cache_repr c' ((key, v) :: lru_remove key (entries_of es)).
Proof.
  intros Hi He. pose proof Hi as (Hs & Hl & Hc & Hk & Hlt & Hm). apply Hm in He.
  unfold move_to_front. rewrite Hl, (list_erase_spec _ _ _ _ Hc Hk He). cbn [mbind outcome_bind].
  eexists. split; [done|]. split; [done|].
  exists ((kc_cell c, key, v) :: filter (λ e, e.1.2 ≠ key) es). split.
  - eapply (cache_inv_front _ _ es); eauto.
    + rewrite (blen_filter_key _ _ _ _ Hk He). lia.
    + intros e. rewrite list_elem_of_filter. tauto.
    + rewrite <-!list_fmap_compose in *. by apply NoDup_fmap_filter.
    + rewrite <-!list_fmap_compose in *. by apply NoDup_fmap_filter.
    + intros (e & -> & (e' & -> & [? _]%list_elem_of_filter)%list_elem_of_fmap)%list_elem_of_fmap. done.
    + intros k w' j Hne. rewrite Hm, list_elem_of_filter. cbn. tauto.
  - unfold entries_of at 1. rewrite fmap_cons. f_equal. apply entries_filter.
Qed.

(** What the eviction loop drops. *)
Lemma evict_spec cap rl m : ∃ dropped rl', rl = dropped ++ rl'
  ∧ evict cap (blen rl) rl m = (blen rl', rl', foldl (λ m k, delete k m) m (dropped.*2))
  ∧ length rl' = Nat.min (length rl) (Z.to_nat (cap - 1)).
Proof.
  revert m. induction rl as [|[i k] rl IH]; intros m; [by exists [], []|]. cbn [evict].
  destruct (Z.leb_spec cap (blen ((i, k) :: rl))) as [Hle|Hgt].
  - rewrite blen_cons. replace (1 + blen rl - 1) with (blen rl) by lia.
    destruct (IH (delete k m)) as (d & rl' & -> & E & Hlen). exists ((i, k) :: d), rl'.
    split_and!; [done|by rewrite E|]. unfold blen in *. cbn [length] in *.
    rewrite !length_app in *. lia.
  - exists [], ((i, k) :: rl). split_and!; [done..|]. unfold blen in *. cbn [length] in *. lia.
Qed.

Lemma foldl_delete_lookup {A} (m : gmap Key A) ks k :
  foldl (λ m k, delete k m) m ks !! k = if bool_decide (k ∈ ks) then None else m !! k.
Proof.
  revert m. induction ks as [|k' ks IH]; intros m; cbn; [done|]. rewrite IH.
  destruct (decide (k ∈ ks)) as [Hin|Hin].
  - rewrite !bool_decide_true; [done|by right|done].
  - rewrite (bool_decide_false _ Hin). destruct (decide (k = k')) as [->|Hne].
    + rewrite bool_decide_true by by left. by rewrite lookup_delete_eq.
    + rewrite bool_decide_false by set_solver. by rewrite lookup_delete_ne.
Qed.

(** ** Every operation implements its specification *)

Lemma cache_new_repr cap : cache_repr (ObKVCache_init cap ObKVCache_new).2 [].
Proof.
  exists []. split; [|done]. split_and!; try done; try constructor; cbn.
  - intros i Hi. by apply not_elem_of_nil in Hi.
  - rewrite lookup_empty. done.
  - intros Hin. by apply not_elem_of_nil in Hin.
Qed.

Lemma cache_get_spec c l key v0 : cache_repr c l →
  ∃ c', ObKVCache_get key v0 c
        = Done (bool_decide (is_Some (lru_get key l).1), default v0 (lru_get key l).1, c')
    ∧ cache_repr c' (lru_get key l).2 ∧ kc_capacity_ c' = kc_capacity_ c.
Proof.
  intros (es & Hi & <-). unfold ObKVCache_get, lru_get.
  rewrite <-(map_lookup_spec _ _ _ Hi). destruct (kc_map_ c !! key) as [[w i]|] eqn:E; cbn.
  - destruct (move_to_front_spec c es key w w i Hi E) as (c' & -> & Hcap & Hr). cbn.
    eauto.
  - exists c. split_and!; try done. by exists es.
Qed.

Lemma fmap_take_fst {A B} (f : A → B) n (xs : list A) : f <$> take n xs = take n (f <$> xs).
Proof. revert n. induction xs as [|x xs IH]; intros [|n]; cbn; congruence. Qed.

Lemma cache_put_new c es key v : cache_inv c es → kc_map_ c !! key = None →
  ∃ c', ObKVCache_put key v c = Done (0, c') ∧ kc_capacity_ c' = kc_capacity_ c
    ∧ cache_repr c' ((key, v) :: take (Z.to_nat (kc_capacity_ c - 1)) (entries_of es)).
Proof.
  intros Hi E. pose proof Hi as (Hs & Hl & Hc & Hk & Hlt & Hm). unfold ObKVCache_put. rewrite E.
  destruct (evict_spec (kc_capacity_ c) (reverse (kc_lru_list_ c)) (kc_map_ c)) as (d & rl' & Hrl & He & Hlen).
  replace (blen (reverse (kc_lru_list_ c))) with (kc_size_ c) in He
    by (rewrite Hs, Hl; unfold blen; by rewrite length_reverse, length_fmap).
  rewrite He. set (n := Z.to_nat (kc_capacity_ c - 1)) in *.
  assert (reverse rl' = (take n es).*1 ∧ d.*2 = reverse ((drop n es).*1.*2)) as [Htake Hdrop].
  { rewrite Hl in Hrl, Hlen. apply (f_equal reverse) in Hrl.
    rewrite reverse_involutive, reverse_app in Hrl. rewrite length_reverse, length_fmap in Hlen.
    assert (reverse rl' = take n (es.*1) ∧ reverse d = drop n (es.*1)) as [H1 H2].
    { rewrite Hrl. destruct (decide (n ≤ length es)%nat).
      - assert (n = length (reverse rl')) as -> by (rewrite length_reverse; lia).
        by rewrite take_app_length, drop_app_length.
      - assert (reverse d = []) as ->.
        { apply (f_equal length) in Hrl. rewrite length_app, length_fmap, length_reverse in Hrl.
          apply nil_length_inv. lia. }
        rewrite app_nil_r, take_ge, drop_ge; [done| |]; rewrite length_reverse; lia. }
    rewrite fmap_take_fst, fmap_drop. split; [done|]. rewrite <-H2, fmap_reverse, reverse_involutive. done. }
  rewrite <-(take_drop n es), !fmap_app in Hc. apply NoDup_app in Hc as (Hc & _ & _).
  rewrite <-(take_drop n es), !fmap_app in Hk. apply NoDup_app in Hk as (Hk & Hdis & _).
  eexists. split; [done|]. split; [done|]. exists ((kc_cell c, key, v) :: take n es). split.
  - eapply (cache_inv_front _ _ es); eauto.
    + apply (f_equal length) in Htake. rewrite length_reverse, length_fmap in Htake.
      unfold blen. rewrite Htake. lia.
    + intros e He'. eapply elem_of_take in He' as (j & Hj & _). by eapply list_elem_of_lookup_2.
    + intros Hin. apply list_elem_of_fmap in Hin as ([i' k'] & -> & Hin).
      apply list_elem_of_fmap in Hin as ([[i'' k''] w] & [= -> ->] & Hin). cbn in E.
      apply elem_of_take in Hin as (j & Hj & _). apply list_elem_of_lookup_2, Hm in Hj. congruence.
    + intros k w i Hne. rewrite foldl_delete_lookup, Hdrop.
      rewrite <-(take_drop n es) in Hm. case_bool_decide as Hd; rewrite elem_of_reverse in Hd.
      * split; [done|]. intros Hin. apply cells_elem in Hin as [_ Hin]. by destruct (Hdis _ Hin).
      * rewrite Hm, elem_of_app. split; [|by left]. intros [?|Hin]; [done|].
        apply cells_elem in Hin as [_ Hin]. done.
  - unfold entries_of. cbn. by rewrite fmap_take_fst.
Qed.

Lemma cache_put_spec c l key v : cache_repr c l →
  ∃ c', ObKVCache_put key v c = Done (0, c') ∧ kc_capacity_ c' = kc_capacity_ c
    ∧ cache_repr c' (lru_put (kc_capacity_ c) key v l).
Proof.
  intros (es & Hi & <-). unfold lru_put. rewrite <-(map_lookup_spec _ _ _ Hi).
  destruct (kc_map_ c !! key) as [[w i]|] eqn:E; cbn.
  - unfold ObKVCache_put. rewrite E. cbn.
    destruct (move_to_front_spec c es key v w i Hi E) as (c' & -> & Hcap & Hr). cbn. eauto.
  - by apply cache_put_new.
Qed.

Lemma cache_erase_spec c l key : cache_repr c l →
  ∃ c', ObKVCache_erase key c = Done (0, c') ∧ kc_capacity_ c' = kc_capacity_ c
    ∧ cache_repr c' (lru_remove key l).
Proof.
  intros (es & Hi & <-). pose proof Hi as (Hs & Hl & Hc & Hk & Hlt & Hm). unfold ObKVCache_erase.
  destruct (kc_map_ c !! key) as [[w i]|] eqn:E; cbn.
  - apply Hm in E. rewrite Hl, (list_erase_spec _ _ _ _ Hc Hk E). cbn.
    eexists. split_and!; [done..|]. exists (filter (λ e, e.1.2 ≠ key) es).
    split; [|apply entries_filter]. split_and!; cbn.
    + rewrite (blen_filter_key _ _ _ _ Hk E). lia.
    + done.
    + rewrite <-!list_fmap_compose in *. by apply NoDup_fmap_filter.
    + rewrite <-!list_fmap_compose in *. by apply NoDup_fmap_filter.
    + intros j (e & -> & (e' & -> & [_ He]%list_elem_of_filter)%list_elem_of_fmap)%list_elem_of_fmap.
      apply Hlt. by apply cells_elem.
    + intros k v j. rewrite list_elem_of_filter. cbn. destruct (decide (k = key)) as [->|Hne].
      * rewrite lookup_delete_eq. naive_solver.
      * rewrite lookup_delete_ne, Hm by done. naive_solver.
  - exists c. split_and!; [done..|]. exists es. split; [done|]. rewrite <-entries_filter. f_equal.
    symmetry. apply filter_fresh_key. intros (e & -> & (e' & -> & He)%list_elem_of_fmap)%list_elem_of_fmap.
    destruct e' as [[i k] v]. apply Hm in He. cbn in *. congruence.
Qed.

Lemma cache_clear_repr c : cache_repr (ObKVCache_clear c) [].
Proof.
  exists []. split; [|done]. split_and!; try done; try constructor; cbn.
  - intros i Hi. by apply not_elem_of_nil in Hi.
  - rewrite lookup_empty. done.
  - intros Hin. by apply not_elem_of_nil in Hin.
Qed.

(** ** Client programs *)

Inductive cache_op :=
  | CGet (key : Key) (value : Value)
  | CPut (key : Key) (value : Value)
  | CErase (key : Key)
  | CClear.
Inductive cache_answer := AGet (found : bool) (value : Value) | ACode (ret : Z) | AUnit.

Definition cache_step (op : cache_op) (c : ObKVCache) : outcome (cache_answer * ObKVCache) :=
  match op with
  | CGet k v => '(b, v, c) ← ObKVCache_get k v c; Done (AGet b v, c)
  | CPut k v => '(ret, c) ← ObKVCache_put k v c; Done (ACode ret, c)
  | CErase k => '(ret, c) ← ObKVCache_erase k c; Done (ACode ret, c)
  | CClear => Done (AUnit, ObKVCache_clear c)
  end.
Fixpoint cache_run (ops : list cache_op) (c : ObKVCache) : outcome (list cache_answer * ObKVCache) :=
  match ops with
  | [] => Done ([], c)
  | op :: ops' => '(a, c) ← cache_step op c; '(ans, c) ← cache_run ops' c; Done (a :: ans, c)
  end.

Definition lru_step (capacity : Z) (op : cache_op) l : cache_answer * list (Key * Value) :=
  match op with
  | CGet k v => (AGet (bool_decide (is_Some (lru_get k l).1)) (default v (lru_get k l).1), (lru_get k l).2)
  | CPut k v => (ACode 0, lru_put capacity k v l)
  | CErase k => (ACode 0, lru_remove k l)
  | CClear => (AUnit, [])
  end.
Fixpoint lru_run (capacity : Z) (ops : list cache_op) l : list cache_answer * list (Key * Value) :=
  match ops with
  | [] => ([], l)
  | op :: ops' => let '(a, l) := lru_step capacity op l in
                  let '(ans, l) := lru_run capacity ops' l in (a :: ans, l)
  end.

Lemma cache_step_spec op c l : cache_repr c l →
  ∃ c', cache_step op c = Done ((lru_step (kc_capacity_ c) op l).1, c')
    ∧ cache_repr c' (lru_step (kc_capacity_ c) op l).2 ∧ kc_capacity_ c' = kc_capacity_ c.
Proof.
  intros Hr. destruct op as [k v|k v|k|]; cbn [cache_step lru_step fst snd].
  - destruct (cache_get_spec c l k v Hr) as (c' & -> & ? & ?). eauto.
  - destruct (cache_put_spec c l k v Hr) as (c' & -> & ? & ?). eauto.
  - destruct (cache_erase_spec c l k Hr) as (c' & -> & ? & ?). eauto.
  - exists (ObKVCache_clear c). split_and!; [done|apply cache_clear_repr|done].
Qed.

Lemma cache_run_spec ops c l : cache_repr c l →
  ∃ c', cache_run ops c = Done ((lru_run (kc_capacity_ c) ops l).1, c')
    ∧ cache_repr c' (lru_run (kc_capacity_ c) ops l).2 ∧ kc_capacity_ c' = kc_capacity_ c.
Proof.
  revert c l. induction ops as [|op ops IH]; intros c l Hr; cbn [cache_run lru_run]; [eauto|].
  destruct (cache_step_spec op c l Hr) as (c1 & -> & Hr1 & Hc1). cbn [mbind outcome_bind].
  destruct (IH c1 _ Hr1) as (c2 & -> & Hr2 & Hc2). rewrite Hc1 in *. cbn [mbind outcome_bind].
  destruct (lru_step _ op l) as [a l1]. cbn [fst snd] in *.
  destruct (lru_run _ ops l1) as [ans l2]. eauto.
Qed.

(** *** The bound *)

Lemma lru_remove_length key l : (length (lru_remove key l) ≤ length l)%nat.
Proof. apply length_filter. Qed.

Lemma lru_remove_present key v l : lru_lookup key l = Some v →
  (length (lru_remove key l) < length l)%nat.
Proof.
  unfold lru_remove. induction l as [|[k w] l IH]; cbn [lru_lookup]; [done|]. rewrite filter_cons.
  cbn [fst]. case_bool_decide as E; subst.
  - intros _. rewrite decide_False by tauto. cbn. pose proof (length_filter (λ e : Key * Value, e.1 ≠ key) l). lia.
  - intros Hl%IH. rewrite decide_True by done. cbn. lia.
Qed.

Definition lru_bounded (capacity : Z) l : Prop := blen l ≤ Z.max capacity 1.

Lemma lru_step_bounded cap op l : lru_bounded cap l → lru_bounded cap (lru_step cap op l).2.
Proof.
  unfold lru_bounded, blen. intros Hb. destruct op as [k v|k v|k|]; cbn [lru_step snd]; [| | |cbn; lia].
  - unfold lru_get. destruct (lru_lookup k l) as [w|] eqn:E; cbn [snd length]; [|done].
    pose proof (lru_remove_present _ _ _ E). lia.
  - unfold lru_put. destruct (lru_lookup k l) as [w|] eqn:E; cbn [snd length].
    + pose proof (lru_remove_present _ _ _ E). lia.
    + rewrite length_take. lia.
  - pose proof (lru_remove_length k l). lia.
Qed.

Lemma lru_run_bounded cap ops l : lru_bounded cap l → lru_bounded cap (lru_run cap ops l).2.
Proof.
  revert l. induction ops as [|op ops IH]; intros l Hb; cbn [lru_run]; [done|].
  pose proof (lru_step_bounded cap op l Hb) as Hb1. destruct (lru_step cap op l) as [a l1].
  specialize (IH l1 Hb1). by destruct (lru_run cap ops l1).
Qed.

Lemma cache_map_size c l : cache_repr c l → Z.of_nat (size (kc_map_ c)) = blen l.
Proof.
  intros (es & (_ & _ & _ & Hk & _ & Hm) & <-). rewrite <-size_dom.
  assert (dom (kc_map_ c) ≡ list_to_set (es.*1.*2)) as ->.
  { intros k. rewrite elem_of_dom, elem_of_list_to_set. split.
    - intros [[v i] He%Hm]. by apply cells_elem in He as [_ ?].
    - intros (e & -> & ([[i k'] v] & -> & He)%list_elem_of_fmap)%list_elem_of_fmap.
      apply Hm in He. eauto. }
  rewrite size_list_to_set by done. unfold blen, entries_of. by rewrite !length_fmap.
Qed.

(** C7: the cache is an LRU cache.  Every sequence of [get], [put], [erase] and
    [clear] on a cache freshly initialised with any capacity runs without
    touching an invalid iterator and gives the answers of the list of entries
    by recency: [get] finds the last value put and makes it the most recent,
    [put] of a new key drops the least recently used entries, and the map, the
    list and the iterators keep describing that list. *)
Theorem kv_cache_is_lru cap ops :
  ∃ c', cache_run ops (ObKVCache_init cap ObKVCache_new).2 = Done ((lru_run cap ops []).1, c')
        ∧ cache_repr c' (lru_run cap ops []).2.
Proof.
  destruct (cache_run_spec ops _ [] (cache_new_repr cap)) as (c' & E & Hr & _). eauto.
Qed.

(** The cache never holds more than [max capacity 1] entries, [size()] is
    the number of entries of the map, and a capacity that is not positive
    still keeps the last entry put. *)
Theorem kv_cache_bounded cap ops c' ans :
  cache_run ops (ObKVCache_init cap ObKVCache_new).2 = Done (ans, c') →
  ObKVCache_size c' = Z.of_nat (size (kc_map_ c')) ∧ 0 ≤ ObKVCache_size c' ≤ Z.max cap 1.
Proof.
  intros E. destruct (cache_run_spec ops _ [] (cache_new_repr cap)) as (c2 & E2 & Hr & _).
  rewrite E in E2. injection E2 as -> ->. change (kc_capacity_ _) with cap in Hr.
  rewrite (cache_map_size _ _ Hr). pose proof (lru_run_bounded cap ops [] ltac:(unfold lru_bounded, blen; cbn; lia)) as Hb.
  unfold lru_bounded in Hb.
  destruct Hr as (es & (Hs & _) & Hes). unfold ObKVCache_size. rewrite Hs, <-Hes in *.
  unfold entries_of, blen in *. rewrite length_fmap in *. lia.
Qed.
End KVCache.
Arguments CacheEntry : clear implicits.
Arguments ObKVCache Key {_ _} Value.
Arguments cache_op : clear implicits.

(** ** The micro block cache *)

Record ObMicroBlockCacheKey := mkBlockKey {
  macro_block_id_ : Z;
  block_offset_ : Z;
  block_size_ : Z }.
#[export] Instance ObMicroBlockCacheKey_eq_dec : EqDecision ObMicroBlockCacheKey.
Proof. solve_decision. Defined.
#[export] Instance ObMicroBlockCacheKey_countable : Countable ObMicroBlockCacheKey.
Proof.
  refine (inj_countable' (λ k, (macro_block_id_ k, block_offset_ k, block_size_ k))
            (λ x, mkBlockKey x.1.1 x.1.2 x.2) _). by intros [].
Defined.

Definition ObMicroBlockCacheKey_default : ObMicroBlockCacheKey := mkBlockKey 0 0 0.
Definition ObMicroBlockCacheKey_eq (k o : ObMicroBlockCacheKey) : bool :=
  (macro_block_id_ k =? macro_block_id_ o) && (block_offset_ k =? block_offset_ o)
  && (block_size_ k =? block_size_ o).

Record ObMicroBlockCacheValue := mkBlockValue { cv_data_ : bytes; cv_access_count_ : Z }.
Definition ObMicroBlockCacheValue_default : ObMicroBlockCacheValue := mkBlockValue [] 0.

Abbreviation ObDataMicroBlockCache := (ObKVCache ObMicroBlockCacheKey ObMicroBlockCacheValue).

(** The equality the map uses is equality. *)
Lemma ObMicroBlockCacheKey_eq_spec k o : ObMicroBlockCacheKey_eq k o = bool_decide (k = o).
Proof.
  destruct k as [a b c], o as [a' b' c']. unfold ObMicroBlockCacheKey_eq. cbn.
  destruct (Z.eqb_spec a a'), (Z.eqb_spec b b'), (Z.eqb_spec c c'); subst; cbn;
    first [by rewrite bool_decide_true | rewrite bool_decide_false by congruence; done].
Qed.

Lemma kv_cache_bounded_witness : ∃ ans c',
  cache_run [CPut ObMicroBlockCacheKey_default ObMicroBlockCacheValue_default;
             CPut (mkBlockKey 1 2 3) ObMicroBlockCacheValue_default]
    (ObKVCache_init 1 ObKVCache_new).2 = Done (ans, c')
  ∧ ObKVCache_size c' = Z.of_nat (size (kc_map_ c')) ∧ 0 ≤ ObKVCache_size c' ≤ Z.max 1 1.
Proof.
  eexists _, _. split; [reflexivity|].
  eapply (kv_cache_bounded 1 [CPut ObMicroBlockCacheKey_default ObMicroBlockCacheValue_default;
             CPut (mkBlockKey 1 2 3) ObMicroBlockCacheValue_default]). reflexivity.
Defined.
