(* ===== verification/MvccRow.v ===== *)
(** * Version chains: ObMvccTransNode and ObMvccRow

    Models [src/src/storage/memtable/mvcc/ob_mvcc_row.h] and [.cpp].  The nodes
    of a row's version chain are heap objects linked by [prev_]/[next_]; a row
    carries the part of the heap its nodes live in ([r_store_], addresses to
    nodes), so that the pointer surgery of [mvcc_write] is modelled as it is
    written, aliasing included.  The abstraction of a row is the list of its
    versions, newest first, and [ObMvccRow_mvcc_write] is shown to implement
    [spec_write] on that list. *)

From S2P Require Import Prelude StoreTypes.

Abbreviation loc := positive (only parsing).

(** ** TransNodeFlag, ObMvccTransNode *)

Definition F_INIT : Z := 0x01.
Definition F_COMMITTED : Z := 0x02.
Definition F_ABORTED : Z := 0x04.

Record ObMvccTransNode := mkTransNode {
  n_tx_id_ : Z;
  n_trans_version_ : Z;
  n_prev_ : option loc;
  n_next_ : option loc;
  n_type_ : Z;
  n_flag_ : Z;
  n_buf_ : ObMemtableDataHeader }.

Definition ObMvccTransNode_is_committed (n : ObMvccTransNode) : bool :=
  negb (Z.land (n_flag_ n) F_COMMITTED =? 0).
Definition ObMvccTransNode_is_aborted (n : ObMvccTransNode) : bool :=
  negb (Z.land (n_flag_ n) F_ABORTED =? 0).

Definition set_flag (f : Z) (n : ObMvccTransNode) : ObMvccTransNode :=
  mkTransNode (n_tx_id_ n) (n_trans_version_ n) (n_prev_ n) (n_next_ n) (n_type_ n) f (n_buf_ n).
Definition set_version (v : Z) (n : ObMvccTransNode) : ObMvccTransNode :=
  mkTransNode (n_tx_id_ n) v (n_prev_ n) (n_next_ n) (n_type_ n) (n_flag_ n) (n_buf_ n).
Definition set_prev (p : option loc) (n : ObMvccTransNode) : ObMvccTransNode :=
  mkTransNode (n_tx_id_ n) (n_trans_version_ n) p (n_next_ n) (n_type_ n) (n_flag_ n) (n_buf_ n).
Definition set_next (p : option loc) (n : ObMvccTransNode) : ObMvccTransNode :=
  mkTransNode (n_tx_id_ n) (n_trans_version_ n) (n_prev_ n) p (n_type_ n) (n_flag_ n) (n_buf_ n).

Definition ObMvccTransNode_trans_commit (commit_version : Z) (n : ObMvccTransNode)
    : ObMvccTransNode :=
  let n := set_version commit_version n in
  let n := set_flag (u8 (Z.lor (n_flag_ n) F_COMMITTED)) n in
  set_flag (u8 (Z.land (n_flag_ n) (Z.lnot F_ABORTED))) n.
Definition ObMvccTransNode_trans_abort (n : ObMvccTransNode) : ObMvccTransNode :=
  let n := set_flag (u8 (Z.lor (n_flag_ n) F_ABORTED)) n in
  set_flag (u8 (Z.land (n_flag_ n) (Z.lnot F_COMMITTED))) n.
Definition ObMvccTransNode_get_dml_flag (n : ObMvccTransNode) : ObDmlFlag :=
  hdr_dml_flag_ (n_buf_ n).
Definition ObMvccTransNode_get_data_size (n : ObMvccTransNode) : Z :=
  sizeof_ObMemtableDataHeader + hdr_buf_len_ (n_buf_ n).

(** ** ObMvccRow *)

Definition F_HASH_INDEX : Z := 0x01.
Definition F_BTREE_INDEX : Z := 0x02.

(** [r_brk_] is the next address the allocator hands out for this row. *)
Record ObMvccRow := mkMvccRow {
  r_flag_ : Z;
  r_max_trans_version_ : Z;
  r_list_head_ : option loc;
  r_store_ : gmap loc ObMvccTransNode;
  r_brk_ : loc }.

Definition ObMvccRow_new : ObMvccRow := mkMvccRow 0 0 None ∅ 1%positive.
Definition ObMvccRow_is_empty (r : ObMvccRow) : bool := bool_decide (r_list_head_ r = None).
Definition ObMvccRow_is_hash_indexed (r : ObMvccRow) : bool :=
  negb (Z.land (r_flag_ r) F_HASH_INDEX =? 0).
Definition ObMvccRow_is_btree_indexed (r : ObMvccRow) : bool :=
  negb (Z.land (r_flag_ r) F_BTREE_INDEX =? 0).
Definition set_row_flag (f : Z) (r : ObMvccRow) : ObMvccRow :=
  mkMvccRow f (r_max_trans_version_ r) (r_list_head_ r) (r_store_ r) (r_brk_ r).
Definition set_row_head (p : option loc) (r : ObMvccRow) : ObMvccRow :=
  mkMvccRow (r_flag_ r) (r_max_trans_version_ r) p (r_store_ r) (r_brk_ r).
Definition set_row_store (st : gmap loc ObMvccTransNode) (r : ObMvccRow) : ObMvccRow :=
  mkMvccRow (r_flag_ r) (r_max_trans_version_ r) (r_list_head_ r) st (r_brk_ r).
Definition set_row_max (v : Z) (r : ObMvccRow) : ObMvccRow :=
  mkMvccRow (r_flag_ r) v (r_list_head_ r) (r_store_ r) (r_brk_ r).
Definition ObMvccRow_set_hash_indexed (r : ObMvccRow) : ObMvccRow :=
  set_row_flag (Z.lor (r_flag_ r) F_HASH_INDEX) r.
Definition ObMvccRow_set_btree_indexed (r : ObMvccRow) : ObMvccRow :=
  set_row_flag (Z.lor (r_flag_ r) F_BTREE_INDEX) r.

(** [new]/[delete] of a node of this row. *)
Definition row_alloc (n : ObMvccTransNode) (r : ObMvccRow) : loc * ObMvccRow :=
  (r_brk_ r,
   mkMvccRow (r_flag_ r) (r_max_trans_version_ r) (r_list_head_ r)
     (<[r_brk_ r := n]> (r_store_ r)) (Pos.succ (r_brk_ r))).
Definition row_free (l : loc) (r : ObMvccRow) : ObMvccRow :=
  set_row_store (delete l (r_store_ r)) r.

Definition ObMvccRow_is_transaction_set_violation (r : ObMvccRow) (snapshot_version : Z) : bool :=
  if snapshot_version =? OB_INVALID_VERSION then false
  else snapshot_version <? r_max_trans_version_ r.

(** The [while (head != nullptr)] loop of [mvcc_write]: it stops at the node
    to insert above, or reports a write-write conflict. *)
Inductive walk_result := WalkStop (head : option loc) | WalkConflict.

Definition mvcc_write_walk_body (st : gmap loc ObMvccTransNode) (tx_id : Z) (head : option loc)
    : outcome (option loc + walk_result) :=
  match head with
  | None => Done (inr (WalkStop None))
  | Some l =>
      n ← deref (st !! l);
      if ObMvccTransNode_is_aborted n then Done (inl (n_prev_ n))
      else if ObMvccTransNode_is_committed n then Done (inr (WalkStop (Some l)))
      else if n_tx_id_ n =? tx_id then Done (inr (WalkStop (Some l)))
      else Done (inr WalkConflict)
  end.

(** Linking the new node [nl] above [head]. *)
Definition mvcc_write_link (nl : loc) (head : option loc) (st : gmap loc ObMvccTransNode)
    : outcome (gmap loc ObMvccTransNode) :=
  let st := alter (set_prev head ∘ set_next None) nl st in
  match head with
  | None => Done st
  | Some h =>
      hn ← deref (st !! h);
      st ← match n_next_ hn with
           | None => Done st
           | Some o =>
               _ ← deref (st !! o);
               let st := alter (set_prev (Some nl)) o st in
               Done (alter (set_next (Some o)) nl st)
           end;
      let st := alter (set_next (Some nl)) h st in
      Done (alter (set_prev (Some h)) nl st)
  end.

(** [mvcc_write]: the return code, the [write_conflict] output and the row.
    The loop visits each node at most once, so the number of live nodes bounds
    it.  [check_exist] is not used by the code. *)
Definition ObMvccRow_mvcc_write (ctx : ObStoreCtx) (nl : loc) (check_exist : bool)
    (r : ObMvccRow) : outcome (Z * bool * ObMvccRow) :=
  w ← loop (mvcc_write_walk_body (r_store_ r) (tx_id_ ctx)) (S (size (r_store_ r))) (r_list_head_ r);
  match w with
  | WalkConflict => Done (-1, true, r)
  | WalkStop head =>
      if ObMvccRow_is_transaction_set_violation r (snapshot_version_ ctx) then Done (-1, false, r)
      else
        st ← mvcc_write_link nl head (r_store_ r);
        let r := set_row_head (Some nl) (set_row_store st r) in
        let r :=
          if (r_max_trans_version_ r <? snapshot_version_ ctx)
             && negb (snapshot_version_ ctx =? OB_INVALID_VERSION)
          then set_row_max (snapshot_version_ ctx) r else r in
        Done (0, false, r)
  end.

(** ** Abstraction: the list of versions *)

(** A version is a node without its links. *)
Definition erase (n : ObMvccTransNode) : ObMvccTransNode := set_prev None (set_next None n).

Definition versions (st : gmap loc ObMvccTransNode) (ls : list loc) : list ObMvccTransNode :=
  omap (λ l, erase <$> (st !! l)) ls.

(** [chain st p ls]: following [prev_] from [p] visits [ls] and ends in null. *)
Fixpoint chain (st : gmap loc ObMvccTransNode) (p : option loc) (ls : list loc) : Prop :=
  match ls with
  | [] => p = None
  | l :: ls' => p = Some l ∧ ∃ n, st !! l = Some n ∧ chain st (n_prev_ n) ls'
  end.

(** [back st up ls]: the [next_] pointers run the chain backwards, the first
    node pointing to [up]. *)
Fixpoint back (st : gmap loc ObMvccTransNode) (up : option loc) (ls : list loc) : Prop :=
  match ls with
  | [] => True
  | l :: ls' => ∃ n, st !! l = Some n ∧ n_next_ n = up ∧ back st (Some l) ls'
  end.

(** Above the chain's head there is nothing, or a live node that is not on
    the chain (an aborted node that an insertion has bypassed). *)
Definition above_ok (st : gmap loc ObMvccTransNode) (up : option loc) (ls : list loc) : Prop :=
  match up with
  | None => True
  | Some y => (y ∉ ls) ∧ is_Some (st !! y)
  end.

Definition row_inv (r : ObMvccRow) (ls : list loc) : Prop :=
  chain (r_store_ r) (r_list_head_ r) ls ∧ NoDup ls
  ∧ (∃ up, back (r_store_ r) up ls ∧ above_ok (r_store_ r) up ls)
  ∧ (∀ l, is_Some (r_store_ r !! l) → (l < r_brk_ r)%positive).

(** The row holds the versions [vs], newest first. *)
Definition row_repr (r : ObMvccRow) (vs : list ObMvccTransNode) : Prop :=
  ∃ ls, row_inv r ls ∧ versions (r_store_ r) ls = vs.

(** ** Specification of a write on the list of versions *)

Fixpoint skip_aborted (vs : list ObMvccTransNode) : list ObMvccTransNode :=
  match vs with
  | [] => []
  | v :: vs' => if ObMvccTransNode_is_aborted v then skip_aborted vs' else vs
  end.

Inductive write_result :=
  | WConflict                               (* another transaction's undecided write *)
  | WViolation                              (* a newer version than the snapshot *)
  | WOk (vs : list ObMvccTransNode) (max_version : Z).

(** The newest version that is not aborted lets transaction [tx] write. *)
Definition write_free (tx : Z) (rest : list ObMvccTransNode) : bool :=
  match rest with
  | [] => true
  | w :: _ => ObMvccTransNode_is_committed w || (n_tx_id_ w =? tx)
  end.

Definition spec_write (ctx : ObStoreCtx) (max_version : Z) (v : ObMvccTransNode)
    (vs : list ObMvccTransNode) : write_result :=
  let rest := skip_aborted vs in
  let s := snapshot_version_ ctx in
  if negb (write_free (tx_id_ ctx) rest) then WConflict
  else if negb (s =? OB_INVALID_VERSION) && (s <? max_version) then WViolation
  else WOk (v :: rest)
           (if negb (s =? OB_INVALID_VERSION) then Z.max s max_version else max_version).

(** ** Lemmas on chains *)

Lemma erase_committed n :
  ObMvccTransNode_is_committed (erase n) = ObMvccTransNode_is_committed n.
Proof. done. Qed.
Lemma erase_aborted n : ObMvccTransNode_is_aborted (erase n) = ObMvccTransNode_is_aborted n.
Proof. done. Qed.

Lemma chain_live st p ls l : chain st p ls → l ∈ ls → is_Some (st !! l).
Proof.
  revert p. induction ls as [|x ls IH]; intros p Hc Hl; [by apply elem_of_nil in Hl|].
  destruct Hc as (_ & n & Hn & Hc). apply elem_of_cons in Hl as [->|Hl]; eauto.
Qed.

Lemma chain_length st p ls : chain st p ls → NoDup ls → (length ls ≤ size st)%nat.
Proof.
  intros Hc Hnd. rewrite <-size_dom.
  rewrite <-(size_list_to_set (C := gset loc) ls) by done.
  apply subseteq_size. intros l Hl%elem_of_list_to_set.
  apply elem_of_dom. by eapply chain_live.
Qed.

(** Two stores that agree on data and [prev_] over [ls] have the same chain. *)
Definition same_chain (st st' : gmap loc ObMvccTransNode) (ls : list loc) : Prop :=
  ∀ l, l ∈ ls → ∀ n, st !! l = Some n → ∃ n', st' !! l = Some n' ∧ n_prev_ n' = n_prev_ n
                     ∧ erase n' = erase n.

Lemma same_chain_chain st st' p ls : same_chain st st' ls → chain st p ls → chain st' p ls.
Proof.
  revert p. induction ls as [|x ls IH]; intros p Hs Hc; [done|].
  destruct Hc as (-> & n & Hn & Hc). split; [done|].
  destruct (Hs x ltac:(set_solver) n Hn) as (n' & Hn' & Hp & _).
  exists n'. split; [done|]. rewrite Hp. apply IH; [|done]. intros l Hl. apply Hs. set_solver.
Qed.

Lemma same_chain_versions st st' p ls :
  chain st p ls → same_chain st st' ls → versions st' ls = versions st ls.
Proof.
  revert p. induction ls as [|x ls IH]; intros p Hc Hs; [done|].
  destruct Hc as (-> & n & Hn & Hc). unfold versions in *. cbn [omap list_omap].
  destruct (Hs x ltac:(set_solver) n Hn) as (n' & Hn' & _ & He).
  rewrite Hn, Hn'. cbn. rewrite He. f_equal. eapply IH; [done|].
  intros l Hl. apply Hs. set_solver.
Qed.

Lemma back_ext st st' up ls :
  (∀ l, l ∈ ls → n_next_ <$> st' !! l = n_next_ <$> st !! l) → back st up ls → back st' up ls.
Proof.
  revert up. induction ls as [|x ls IH]; intros up He Hb; [done|].
  destruct Hb as (n & Hn & Hup & Hb). pose proof (He x ltac:(set_solver)) as Hx.
  rewrite Hn in Hx. destruct (st' !! x) as [n'|] eqn:Hn'; simplify_eq/=.
  exists n'. split; [done|]. split; [congruence|]. apply IH; [|done].
  intros l Hl. apply He. set_solver.
Qed.

Lemma versions_cons st l ls n : st !! l = Some n →
  versions st (l :: ls) = erase n :: versions st ls.
Proof. intros Hn. unfold versions. cbn [omap list_omap]. by rewrite Hn. Qed.

Lemma versions_app st ls1 ls2 : versions st (ls1 ++ ls2) = versions st ls1 ++ versions st ls2.
Proof. unfold versions. apply omap_app. Qed.

Lemma chain_app st p ls1 ls2 : chain st p (ls1 ++ ls2) →
  ∃ q, chain st q ls2 ∧ q = head ls2.
Proof.
  revert p. induction ls1 as [|x ls1 IH]; intros p Hc.
  - exists p. split; [done|]. destruct ls2; cbn in *; naive_solver.
  - destruct Hc as (_ & n & _ & Hc). eauto.
Qed.

(** Dropping a prefix keeps the [next_] structure. *)
Lemma back_suffix st p up ls1 ls2 :
  chain st p (ls1 ++ ls2) → NoDup (ls1 ++ ls2) →
  back st up (ls1 ++ ls2) → above_ok st up (ls1 ++ ls2) →
  ∃ up', back st up' ls2 ∧ above_ok st up' ls2.
Proof.
  revert p up. induction ls1 as [|x ls1 IH]; intros p up Hc Hnd Hb Hup; [eauto|].
  destruct Hc as (_ & n & Hn & Hc). destruct Hb as (n' & Hn' & _ & Hb).
  apply NoDup_cons in Hnd as [Hx Hnd].
  eapply (IH _ (Some x)); [done..|]. simpl. split; [done|eauto].
Qed.

(** ** The walk *)

(** The walk from [p] reaches the first version that is not aborted. *)
Lemma walk_spec st tx p ls fuel :
  chain st p ls → (length ls < fuel)%nat →
  ∃ ls1 ls2, ls = ls1 ++ ls2 ∧ versions st ls2 = skip_aborted (versions st ls) ∧
    loop (mvcc_write_walk_body st tx) fuel p =
      Done (if write_free tx (versions st ls2) then WalkStop (head ls2) else WalkConflict).
Proof.
  revert p fuel. induction ls as [|x ls IH]; intros p fuel Hc Hf.
  - destruct fuel as [|fuel]; [simpl in Hf; lia|]. simpl in Hc. subst p.
    exists [], []. done.
  - destruct fuel as [|fuel]; [simpl in Hf; lia|].
    destruct Hc as (-> & n & Hn & Hc). cbn [length] in Hf.
    rewrite loop_step, (versions_cons _ _ _ _ Hn). cbn [skip_aborted mvcc_write_walk_body].
    rewrite Hn. cbn [deref mbind outcome_bind]. rewrite erase_aborted.
    destruct (ObMvccTransNode_is_aborted n).
    + destruct (IH (n_prev_ n) fuel Hc ltac:(lia)) as (ls1 & ls2 & -> & Hv & Hl).
      exists (x :: ls1), ls2. done.
    + exists [], (x :: ls). rewrite (versions_cons _ _ _ _ Hn). split_and!; [done..|].
      cbn [write_free]. rewrite erase_committed. change (n_tx_id_ (erase n)) with (n_tx_id_ n).
      by destruct (ObMvccTransNode_is_committed n), (n_tx_id_ n =? tx).
Qed.

(** The fuel of [ObMvccRow_mvcc_write] is enough. *)
Lemma row_walk_spec tx r ls :
  row_inv r ls →
  ∃ ls1 ls2, ls = ls1 ++ ls2 ∧ versions (r_store_ r) ls2 = skip_aborted (versions (r_store_ r) ls)
   ∧ loop (mvcc_write_walk_body (r_store_ r) tx) (S (size (r_store_ r))) (r_list_head_ r) =
      Done (if write_free tx (versions (r_store_ r) ls2) then WalkStop (head ls2) else WalkConflict).
Proof.
  intros (Hc & Hnd & _). pose proof (chain_length _ _ _ Hc Hnd). apply walk_spec; [done|lia].
Qed.

(** A fresh node does not disturb the walk. *)
Lemma chain_insert_fresh st p ls l n : st !! l = None → chain st p ls → chain (<[l:=n]> st) p ls.
Proof.
  intros Hl Hc. eapply same_chain_chain; [|done]. intros x Hx m Hm. exists m.
  by rewrite lookup_insert_ne by congruence.
Qed.

Lemma versions_insert_fresh st p ls l n :
  st !! l = None → chain st p ls → versions (<[l:=n]> st) ls = versions st ls.
Proof.
  intros Hl Hc. eapply same_chain_versions; [done|]. intros x Hx m Hm. exists m.
  by rewrite lookup_insert_ne by congruence.
Qed.

Lemma row_inv_insert_fresh r ls l n : r_store_ r !! l = None → (l < r_brk_ r)%positive →
  row_inv r ls → row_inv (set_row_store (<[l:=n]> (r_store_ r)) r) ls.
Proof.
  intros Hl Hlt (Hc & Hnd & (up & Hb & Hup) & Hbrk). unfold row_inv; simpl.
  split_and!; [by apply chain_insert_fresh|done| |].
  - exists up. split.
    + eapply back_ext; [|done]. intros x Hx. destruct (chain_live _ _ _ _ Hc Hx) as [m Hm].
      by rewrite lookup_insert_ne by congruence.
    + destruct up as [y|]; [|done]. destruct Hup as [Hy [m Hm]]. split; [done|].
      rewrite lookup_insert_ne by congruence. eauto.
  - intros x [m Hm]. destruct (decide (l = x)) as [->|]; [done|].
    rewrite lookup_insert_ne in Hm by done. eauto.
Qed.

(** ** Linking *)

(** What the pointer updates of [mvcc_write_link] leave in the store, when the
    node to insert above is [h] and its [next_] is [up]. *)
Lemma link_lookups st nl n h hn up :
  st !! nl = None → st !! h = Some hn → n_next_ hn = up → above_ok st up [h] →
  ∃ st', mvcc_write_link nl (Some h) (<[nl:=n]> st) = Done st'
    ∧ st' !! nl = Some (set_prev (Some h) (set_next up n))
    ∧ st' !! h = Some (set_next (Some nl) hn)
    ∧ (∀ x, x ≠ nl → x ≠ h → up ≠ Some x → st' !! x = st !! x)
    ∧ dom st' = dom (<[nl:=n]> st).
Proof.
  intros Hnl Hh Hup Hab. assert (nl ≠ h) by congruence.
  unfold mvcc_write_link. lk. rewrite Hh. cbn [deref mbind outcome_bind]. rewrite Hup.
  destruct up as [o|]; cbn [mbind outcome_bind].
  - destruct Hab as [Ho [on Hon]]. assert (o ≠ nl) by congruence.
    assert (o ≠ h) by set_solver. lk. rewrite Hon. cbn. eexists. split; [done|].
    split_and!; [by lk|by lk; rewrite Hh| |by rewrite !dom_alter_L].
    intros x ???. assert (o ≠ x) by congruence. by lk.
  - eexists. split; [done|]. split_and!; [by lk|by lk; rewrite Hh| |by rewrite !dom_alter_L].
    intros x ???. by lk.
Qed.

(** The chain after linking is the new node above the old suffix. *)
Lemma link_spec st nl n p ls2 up :
  st !! nl = None → chain st p ls2 → p = head ls2 → NoDup ls2 →
  back st up ls2 → above_ok st up ls2 →
  ∃ st', mvcc_write_link nl p (<[nl:=n]> st) = Done st'
    ∧ chain st' (Some nl) (nl :: ls2) ∧ NoDup (nl :: ls2)
    ∧ (∃ up', back st' up' (nl :: ls2) ∧ above_ok st' up' (nl :: ls2))
    ∧ versions st' (nl :: ls2) = erase n :: versions st ls2
    ∧ dom st' = dom (<[nl:=n]> st).
Proof.
  intros Hnl Hc -> Hnd Hb Hup.
  assert (nl ∉ ls2) as Hnot.
  { intros Hin. destruct (chain_live _ _ _ _ Hc Hin). congruence. }
  assert (NoDup (nl :: ls2)) as Hnd' by (by apply NoDup_cons).
  destruct ls2 as [|h t].
  { unfold mvcc_write_link. cbn [head]. eexists.
    split_and!; [done| |done|exists None| |by rewrite dom_alter_L]; unfold versions; cbn; lk; eauto. }
  destruct Hc as (_ & hn & Hh & Hc). destruct Hb as (? & Hh' & Hup' & Hb).
  rewrite Hh in Hh'. injection Hh' as <-. apply NoDup_cons in Hnd as [Hht Hnd].
  destruct (link_lookups st nl n h hn up) as (st' & Hlink & Hn' & Hh' & Hrest & Hdom); [done..| |].
  { destruct up; [|done]. simpl in *. destruct Hup. split; [set_solver|done]. }
  assert (∀ x, x ∈ t → st' !! x = st !! x) as Ht.
  { intros x Hx. apply Hrest; [set_solver..|]. intros ->. simpl in Hup. set_solver. }
  exists st'. split; [done|]. split_and!; [| done | | | done].
  - split; [done|]. eexists. split; [done|]. split; [done|]. eexists. split; [done|].
    eapply same_chain_chain; [|done]. intros x Hx m Hm. exists m. by rewrite Ht.
  - exists up. split.
    + eexists. split; [done|]. split; [done|]. eexists. split; [done|]. split; [done|].
      eapply back_ext; [|done]. intros x Hx. by rewrite Ht.
    + destruct up as [o|]; [|done]. simpl in *. destruct Hup as [Ho [m Hm]].
      split; [assert (o ≠ nl) by congruence; set_solver|].
      apply elem_of_dom. rewrite Hdom, dom_insert_L, elem_of_union. right. by apply elem_of_dom.
  - rewrite (versions_cons _ _ _ _ Hn'). f_equal.
    rewrite (versions_cons _ _ _ _ Hh'), (versions_cons _ _ _ _ Hh). f_equal.
    eapply same_chain_versions; [done|]. intros x Hx m Hm. exists m. by rewrite Ht.
Qed.

(** ** Rows *)

Lemma ObMvccRow_new_repr : row_repr ObMvccRow_new [].
Proof.
  exists []. unfold row_inv; simpl. split_and!; try done; [apply NoDup_nil_2|exists None; done|].
  intros l [n Hn]. by rewrite lookup_empty in Hn.
Qed.
#[export] Hint Resolve ObMvccRow_new_repr : mystorage.

Lemma row_repr_empty r vs : row_repr r vs → ObMvccRow_is_empty r = true ↔ vs = [].
Proof.
  intros (ls & (Hc & _) & <-). unfold ObMvccRow_is_empty. rewrite bool_decide_eq_true.
  destruct ls as [|l ls]; simpl in Hc; [done|]. destruct Hc as (-> & n & Hn & _).
  by rewrite (versions_cons _ _ _ _ Hn).
Qed.

Lemma row_repr_set_flag r vs f : row_repr r vs → row_repr (set_row_flag f r) vs.
Proof. done. Qed.
#[export] Hint Resolve row_repr_set_flag : mystorage.

Lemma row_brk_fresh r ls : row_inv r ls → r_store_ r !! r_brk_ r = None.
Proof.
  intros (_ & _ & _ & Hbrk). destruct (r_store_ r !! r_brk_ r) eqn:E; [|done].
  specialize (Hbrk (r_brk_ r)). rewrite E in Hbrk. specialize (Hbrk ltac:(eauto)). lia.
Qed.

Lemma row_alloc_inv r ls n : row_inv r ls → row_inv (row_alloc n r).2 ls.
Proof.
  intros Hr. pose proof (row_brk_fresh _ _ Hr) as Hf. destruct Hr as (Hc & Hnd & Hb & Hbrk).
  assert (row_inv (mkMvccRow (r_flag_ r) (r_max_trans_version_ r) (r_list_head_ r) (r_store_ r)
                     (Pos.succ (r_brk_ r))) ls) as Hr'.
  { split_and!; [done..|]. simpl. intros l Hl. specialize (Hbrk l Hl). lia. }
  apply (row_inv_insert_fresh _ _ (r_brk_ r) n) in Hr'; simpl in *; [done|done|lia].
Qed.

Lemma row_alloc_repr r vs n : row_repr r vs → row_repr (row_alloc n r).2 vs.
Proof.
  intros (ls & Hr & <-). exists ls. split; [by apply row_alloc_inv|].
  eapply versions_insert_fresh; [by eapply row_brk_fresh|apply Hr].
Qed.

(** Freeing the node just allocated gives the row back. *)
Lemma row_free_alloc_repr r vs n : row_repr r vs →
  row_repr (row_free (row_alloc n r).1 (row_alloc n r).2) vs.
Proof.
  intros (ls & Hr & <-). pose proof (row_brk_fresh _ _ Hr) as Hf. exists ls.
  destruct Hr as (Hc & Hnd & Hb & Hbrk). unfold row_free, row_inv; simpl.
  rewrite delete_insert_id by done. split_and!; try done.
  intros l Hl. specialize (Hbrk l Hl). lia.
Qed.

(** The new row after a successful write. *)
Lemma write_ok_repr r ls1 ls2 n :
  row_inv r (ls1 ++ ls2) →
  ∃ st', mvcc_write_link (r_brk_ r) (head ls2) (r_store_ (row_alloc n r).2) = Done st'
   ∧ ∀ r', r_list_head_ r' = Some (r_brk_ r) → r_store_ r' = st' →
           r_brk_ r' = Pos.succ (r_brk_ r) →
           row_repr r' (erase n :: versions (r_store_ r) ls2).
Proof.
  intros Hr. pose proof (row_brk_fresh _ _ Hr) as Hf.
  pose proof (row_alloc_inv r _ n Hr) as Hr1. destruct Hr as (Hc & Hnd & (up & Hb & Hup) & _).
  destruct (back_suffix _ _ _ _ _ Hc Hnd Hb Hup) as (up2 & Hb2 & Hup2).
  destruct (chain_app _ _ _ _ Hc) as (q & Hc2 & ->). apply NoDup_app in Hnd as (_ & _ & Hnd2).
  destruct (link_spec (r_store_ r) (r_brk_ r) n (head ls2) ls2 up2)
    as (st' & Hlink & Hc' & Hnd' & Hb' & Hv' & Hdom); [done..|].
  exists st'. split; [done|]. intros r' Hhd Hst Hbrk. exists (r_brk_ r :: ls2).
  unfold row_inv. rewrite Hhd, Hst, Hbrk. split; [|done]. split_and!; [done..|].
  intros l Hl%elem_of_dom. rewrite Hdom in Hl. apply elem_of_dom in Hl.
  by apply Hr1.
Qed.

(** The walk, the conflict and violation checks and the pointer updates of
    [ObMvccRow::mvcc_write] implement [spec_write]. *)
Lemma mvcc_write_spec ctx r vs n ce : row_repr r vs →
  let '(nl, r1) := row_alloc n r in
  match spec_write ctx (r_max_trans_version_ r) (erase n) vs with
  | WConflict => ObMvccRow_mvcc_write ctx nl ce r1 = Done (-1, true, r1)
  | WViolation => ObMvccRow_mvcc_write ctx nl ce r1 = Done (-1, false, r1)
  | WOk vs' m => ∃ r', ObMvccRow_mvcc_write ctx nl ce r1 = Done (0, false, r')
                   ∧ row_repr r' vs' ∧ r_max_trans_version_ r' = m ∧ r_flag_ r' = r_flag_ r
  end.
Proof.
  intros (ls & Hr & <-). pose proof (row_brk_fresh _ _ Hr) as Hf.
  destruct (row_walk_spec (tx_id_ ctx) _ _ (row_alloc_inv r ls n Hr)) as (ls1 & ls2 & -> & Hsk & Hwalk).
  assert (∀ ls' q, chain (r_store_ r) q ls' →
            versions (r_store_ (row_alloc n r).2) ls' = versions (r_store_ r) ls') as Hv.
  { intros ls' q Hq. by eapply versions_insert_fresh. }
  destruct (chain_app _ _ _ _ (proj1 Hr)) as (q & Hc2 & _).
  rewrite (Hv _ _ (proj1 Hr)), (Hv _ _ Hc2) in Hsk. rewrite (Hv _ _ Hc2) in Hwalk.
  destruct (write_ok_repr r ls1 ls2 n Hr) as (st' & Hlink & Hok).
  unfold ObMvccRow_mvcc_write, spec_write. rewrite <-Hsk. cbn -[mvcc_write_link r_store_ loop size] in *.
  rewrite Hwalk. destruct (write_free _ _); cbn [negb mbind outcome_bind]; [|done].
  unfold ObMvccRow_is_transaction_set_violation. cbn [r_max_trans_version_].
  destruct (Z.eqb_spec (snapshot_version_ ctx) OB_INVALID_VERSION) as [Es|Es];
    cbn [negb andb]; [|destruct (Z.ltb_spec (snapshot_version_ ctx) (r_max_trans_version_ r)); [done|]];
    rewrite Hlink; cbn [mbind outcome_bind]; eexists; (split; [done|]); rewrite ?andb_false_r, ?andb_true_r.
  - split; [by apply Hok|done].
  - cbn. destruct (Z.ltb_spec (r_max_trans_version_ r) (snapshot_version_ ctx)); simpl;
      (split; [by apply Hok|]); split; try done; lia.
Qed.

(** ** Histories of a row

    A transaction writes a node it has allocated (and frees it when the write
    is refused), and later commits or aborts it through its pointer, which is
    given here by the node's position in the chain. *)
Inductive row_event :=
  | RWrite (ctx : ObStoreCtx) (n : ObMvccTransNode)
  | RCommit (i : nat) (commit_version : Z)
  | RAbort (i : nat).

(** The address of the [i]-th newest node. *)
Fixpoint nth_node (st : gmap loc ObMvccTransNode) (i : nat) (p : option loc) : outcome (option loc) :=
  match p with
  | None => Done None
  | Some l =>
      n ← deref (st !! l);
      match i with O => Done p | S i' => nth_node st i' (n_prev_ n) end
  end.
Definition on_node (f : ObMvccTransNode → ObMvccTransNode) (i : nat) (r : ObMvccRow) : outcome ObMvccRow :=
  o ← nth_node (r_store_ r) i (r_list_head_ r);
  match o with
  | None => Done r
  | Some l => Done (set_row_store (alter f l (r_store_ r)) r)
  end.

(** The code, the [write_conflict] output and the row. *)
Definition row_step (op : row_event) (r : ObMvccRow) : outcome (Z * bool * ObMvccRow) :=
  match op with
  | RWrite ctx n =>
      let '(nl, r) := row_alloc n r in
      x ← ObMvccRow_mvcc_write ctx nl true r;
      let '(ret, conflict, r) := x : Z * bool * ObMvccRow in
      Done (ret, conflict, if negb (ret =? 0) then row_free nl r else r)
  | RCommit i v => r ← on_node (ObMvccTransNode_trans_commit v) i r; Done (0, false, r)
  | RAbort i => r ← on_node ObMvccTransNode_trans_abort i r; Done (0, false, r)
  end.
Fixpoint row_run (ops : list row_event) (r : ObMvccRow) : outcome (list (Z * bool) * ObMvccRow) :=
  match ops with
  | [] => Done ([], r)
  | op :: ops =>
      x ← row_step op r;
      let '(ret, conflict, r) := x : Z * bool * ObMvccRow in
      y ← row_run ops r;
      Done ((ret, conflict) :: y.1, y.2)
  end.

(** The same on the list of versions and the highest write snapshot. *)
Definition spec_row_step (op : row_event) (s : Z * list ObMvccTransNode)
    : Z * bool * (Z * list ObMvccTransNode) :=
  let '(mx, vs) := s in
  match op with
  | RWrite ctx n =>
      match spec_write ctx mx (erase n) vs with
      | WConflict => (-1, true, (mx, vs))
      | WViolation => (-1, false, (mx, vs))
      | WOk vs' mx' => (0, false, (mx', vs'))
      end
  | RCommit i v => (0, false, (mx, alter (ObMvccTransNode_trans_commit v) i vs))
  | RAbort i => (0, false, (mx, alter ObMvccTransNode_trans_abort i vs))
  end.
Fixpoint spec_row_run (ops : list row_event) (s : Z * list ObMvccTransNode)
    : list (Z * bool) * (Z * list ObMvccTransNode) :=
  match ops with
  | [] => ([], s)
  | op :: ops =>
      let '(ret, conflict, s) := spec_row_step op s in
      let '(out, s) := spec_row_run ops s in ((ret, conflict) :: out, s)
  end.

Lemma versions_length st ls : (length (versions st ls) ≤ length ls)%nat.
Proof.
  unfold versions. induction ls as [|l ls IH]; cbn; [lia|]. destruct (erase <$> st !! l); cbn; lia.
Qed.

Lemma nth_node_spec st ls i : ∀ p, chain st p ls → nth_node st i p = Done (ls !! i).
Proof.
  revert i. induction ls as [|l ls IH]; intros i p; cbn [chain].
  { intros ->. by destruct i. }
  intros [-> (n & Hn & Hc)]. destruct i; cbn [nth_node]; rewrite Hn; cbn [deref mbind outcome_bind]; [done|].
  by apply IH.
Qed.

(** An update of a node that keeps its links. *)
Definition keeps_links (f : ObMvccTransNode → ObMvccTransNode) : Prop :=
  (∀ n, n_prev_ (f n) = n_prev_ n) ∧ (∀ n, n_next_ (f n) = n_next_ n) ∧ ∀ n, f (erase n) = erase (f n).
Lemma commit_keeps_links v : keeps_links (ObMvccTransNode_trans_commit v).
Proof. done. Qed.
Lemma abort_keeps_links : keeps_links ObMvccTransNode_trans_abort.
Proof. done. Qed.
#[export] Hint Resolve commit_keeps_links abort_keeps_links : mystorage.

Section Alter.
Context (f : ObMvccTransNode → ObMvccTransNode) (Hf : keeps_links f) (st : gmap loc ObMvccTransNode) (l : loc).

Lemma alter_chain ls p : chain st p ls → chain (alter f l st) p ls.
Proof.
  revert p. induction ls as [|k ls IH]; intros p; cbn [chain]; [done|]. intros [-> (n & Hn & Hc)]. split; [done|].
  destruct (decide (k = l)) as [->|Hk]; lk.
  - rewrite Hn. cbn. eexists. split; [done|]. rewrite (proj1 Hf). by apply IH.
  - exists n. split; [done|by apply IH].
Qed.

Lemma alter_back ls up : back st up ls → back (alter f l st) up ls.
Proof.
  apply back_ext. intros k _. destruct (decide (k = l)) as [->|Hk]; lk; [|done].
  destruct (st !! l) as [n|]; cbn; [|done]. f_equal. apply Hf.
Qed.

Lemma alter_is_Some k : is_Some (alter f l st !! k) ↔ is_Some (st !! k).
Proof. apply lookup_alter_is_Some. Qed.

Lemma alter_versions_other ls : l ∉ ls → versions (alter f l st) ls = versions st ls.
Proof.
  induction ls as [|k ls IH]; [done|]. intros [Hk Hls]%not_elem_of_cons. unfold versions in *. cbn [omap list_omap].
  rewrite lookup_alter_ne by done. by rewrite IH.
Qed.

Lemma alter_versions ls p i : chain st p ls → NoDup ls → ls !! i = Some l →
  versions (alter f l st) ls = alter f i (versions st ls).
Proof.
  revert p i. induction ls as [|k ls IH]; intros p i; cbn [chain]; [done|].
  intros [-> (n & Hn & Hc)] [Hk Hnd]%NoDup_cons Hi. rewrite (versions_cons st k ls n Hn).
  destruct i as [|i]; cbn in Hi.
  - injection Hi as ->. rewrite (versions_cons _ l ls (f n)) by (lk; by rewrite Hn).
    rewrite alter_versions_other by done. cbn. f_equal. symmetry. apply Hf.
  - assert (k ≠ l) as Hkl by (intros ->; by apply Hk, (list_elem_of_lookup_2 _ i)).
    rewrite (versions_cons _ k ls n) by (by rewrite lookup_alter_ne). cbn. f_equal. by eapply IH.
Qed.
End Alter.

Lemma on_node_spec f i r vs : keeps_links f → row_repr r vs →
  ∃ r', on_node f i r = Done r' ∧ row_repr r' (alter f i vs)
    ∧ r_max_trans_version_ r' = r_max_trans_version_ r ∧ r_flag_ r' = r_flag_ r.
Proof.
  intros Hf (ls & (Hc & Hnd & (up & Hb & Hup) & Hbrk) & <-). unfold on_node.
  rewrite (nth_node_spec _ _ _ _ Hc). cbn [mbind outcome_bind]. destruct (ls !! i) as [l|] eqn:Hl.
  - eexists. split; [done|]. split; [|done]. exists ls. split; [|by eapply alter_versions].
    split_and!; [by apply alter_chain|done| |].
    + exists up. split; [by apply alter_back|]. destruct up; [|done]. cbn in *. by rewrite alter_is_Some.
    + intros k Hk%alter_is_Some. by apply Hbrk.
  - exists r. split; [done|]. split; [|done]. exists ls. split; [by split_and!; eauto|].
    symmetry. apply list_alter_ge. apply lookup_ge_None in Hl. pose proof (versions_length (r_store_ r) ls).
    lia.
Qed.

Lemma row_step_spec op r vs : row_repr r vs →
  let '(ret, conflict, (mx, vs')) := spec_row_step op (r_max_trans_version_ r, vs) in
  ∃ r', row_step op r = Done (ret, conflict, r') ∧ row_repr r' vs' ∧ r_max_trans_version_ r' = mx.
Proof.
  intros Hr. destruct op as [ctx n|i v|i]; cbn [spec_row_step row_step].
  - pose proof (mvcc_write_spec ctx r vs n true Hr) as Hw. pose proof (row_free_alloc_repr r vs n Hr) as Hfree.
    destruct (row_alloc n r) as [nl r1] eqn:Ha. assert (r_max_trans_version_ r1 = r_max_trans_version_ r) as Hmx.
    { injection Ha as <- <-. done. }
    destruct (spec_write _ _ _ _) as [| |vs' m].
    + rewrite Hw. eexists. split; [done|]. by split.
    + rewrite Hw. eexists. split; [done|]. by split.
    + destruct Hw as (r' & -> & Hr' & Hm & _). by exists r'.
  - destruct (on_node_spec (ObMvccTransNode_trans_commit v) i r vs) as (r' & -> & Hr' & Hm & _); [done..|].
    by exists r'.
  - destruct (on_node_spec ObMvccTransNode_trans_abort i r vs) as (r' & -> & Hr' & Hm & _); [done..|].
    by exists r'.
Qed.

Lemma row_run_spec ops : ∀ r vs, row_repr r vs →
  let '(out, (mx, vs')) := spec_row_run ops (r_max_trans_version_ r, vs) in
  ∃ r', row_run ops r = Done (out, r') ∧ row_repr r' vs' ∧ r_max_trans_version_ r' = mx.
Proof.
  induction ops as [|op ops IH]; intros r vs Hr; cbn [spec_row_run row_run]; [by exists r|].
  pose proof (row_step_spec op r vs Hr) as Hs.
  destruct (spec_row_step op _) as [[ret conflict] [mx vs1]]. destruct Hs as (r1 & -> & Hr1 & <-).
  cbn [mbind outcome_bind]. specialize (IH r1 vs1 Hr1).
  destruct (spec_row_run ops _) as [out [mx2 vs2]]. destruct IH as (r2 & -> & Hr2 & Hm2).
  cbn [mbind outcome_bind]. by exists r2.
Qed.

(** C4: the linked version chain of a row is a list of versions.  For every
    history of writes, commits and aborts, in any order and by any
    transactions, the pointer code neither loops nor follows a bad pointer; it
    gives each write the code and the [write_conflict] answer of the abstract
    rule (conflict with another transaction's undecided newest version,
    violation of a newer write snapshot, success otherwise), and the chain it
    leaves holds exactly the versions the abstract rule leaves. *)
Theorem mvcc_row_refines_version_list ops :
  let '(out, (mx, vs)) := spec_row_run ops (0, []) in
  ∃ r, row_run ops ObMvccRow_new = Done (out, r) ∧ row_repr r vs ∧ r_max_trans_version_ r = mx.
Proof. exact (row_run_spec ops ObMvccRow_new [] ObMvccRow_new_repr). Qed.

(** ** What writes keep *)

Definition is_write (op : row_event) : bool := match op with RWrite _ _ => true | _ => false end.
Local Abbreviation committed vs := (filter (λ v, ObMvccTransNode_is_committed v = true) vs) (only parsing).

(** A version is not both committed and aborted. *)
Definition decided_once (v : ObMvccTransNode) : Prop :=
  ObMvccTransNode_is_aborted v = true → ObMvccTransNode_is_committed v = false.
Definition op_decided_once (op : row_event) : Prop :=
  match op with RWrite _ n => decided_once n | _ => True end.

Lemma skip_aborted_committed vs : Forall decided_once vs → committed (skip_aborted vs) = committed vs.
Proof.
  induction 1 as [|v vs Hv _ IH]; cbn [skip_aborted]; [done|].
  destruct (ObMvccTransNode_is_aborted v) eqn:E; [|done].
  rewrite IH, filter_cons_False; [done|]. rewrite (Hv E). done.
Qed.
Lemma skip_aborted_Forall (P : ObMvccTransNode → Prop) vs : Forall P vs → Forall P (skip_aborted vs).
Proof. induction 1; cbn [skip_aborted]; [done|]. destruct (ObMvccTransNode_is_aborted x); [done|by constructor]. Qed.

Lemma spec_writes_keep ops : ∀ mx vs, forallb is_write ops = true → Forall op_decided_once ops →
  Forall decided_once vs →
  ∃ new, committed (spec_row_run ops (mx, vs)).2.2 = new ++ committed vs.
Proof.
  induction ops as [|op ops IH]; intros mx vs Hw Hops Hvs; [by exists []|].
  apply Forall_cons in Hops as [Hop Hops]. cbn in Hw. apply andb_true_iff in Hw as [Hw1 Hw].
  destruct op as [ctx n| |]; [|done..]. cbn [spec_row_run spec_row_step].
  destruct (spec_write ctx mx (erase n) vs) as [| |vs' mx'] eqn:E.
  1-2: specialize (IH mx vs Hw Hops Hvs); by destruct (spec_row_run ops (mx, vs)) as [? [? ?]].
  unfold spec_write in E. destruct (negb (write_free _ _)); [done|]. destruct (_ && _); [done|].
  injection E as <- <-.
  assert (Forall decided_once (erase n :: skip_aborted vs)) as Hvs'.
  { constructor; [done|by apply skip_aborted_Forall]. }
  match goal with |- context [spec_row_run ops (?m, _)] => destruct (IH m _ Hw Hops Hvs') as [new Hnew] end.
  match goal with |- context [spec_row_run ops ?s] => destruct (spec_row_run ops s) as [out [mx2 vs2]] end.
  rewrite filter_cons, skip_aborted_committed in Hnew by done. cbn in Hnew |- *.
  destruct (decide _) in Hnew; rewrite Hnew; [|by exists new].
  exists (new ++ [erase n]). by rewrite <-app_assoc.
Qed.


(** Two transactions on one key: the second waits for the first to commit. *)
Definition demo_node (tx : Z) : ObMvccTransNode :=
  mkTransNode tx OB_INVALID_VERSION None None 0 F_INIT (mkDataHeader DF_INSERT 0 []).
Definition demo_ctx (tx : Z) : ObStoreCtx := mkCtx tx OB_INVALID_VERSION 0.

Example demo_conflict :
  (spec_row_run [RWrite (demo_ctx 1) (demo_node 1); RWrite (demo_ctx 2) (demo_node 2); RCommit 0 9;
                 RWrite (demo_ctx 2) (demo_node 2)] (0, [])).1
  = [(0, false); (-1, true); (0, false); (0, false)].
Proof. reflexivity. Qed.

