(* ===== verification/QueryEngine.v ===== *)
(** * ObMtHash and ObQueryEngine: the memtable's two indexes

    Models [src/src/storage/memtable/mvcc/ob_mt_hash.h] and
    [ob_query_engine.h/.cpp].  Both indexes map the 64-bit hash of a key to an
    [ObMvccRow *]: the hash table for point reads, a [std::map] for scans.  The
    rows are heap objects shared by the two indexes; [qe_rows_] is the part of
    the heap they live in. *)

From S2P Require Import Prelude StoreTypes OrdMap MvccRow.

(** ** ObMtHash: [std::unordered_map<uint64_t, ObMvccRow *>] *)

Abbreviation ObMtHash := (gmap Z loc) (only parsing).

Definition ObMtHash_set (key : ObStoreRowkeyWrapper) (value : loc) (map_ : ObMtHash)
    : Z * ObMtHash :=
  match map_ !! ObStoreRowkeyWrapper_hash key with
  | Some _ => (-1, map_)
  | None => (0, <[ObStoreRowkeyWrapper_hash key := value]> map_)
  end.

Definition ObMtHash_get (key : ObStoreRowkeyWrapper) (map_ : ObMtHash) : Z * option loc :=
  match map_ !! ObStoreRowkeyWrapper_hash key with
  | None => (-1, None)
  | Some v => (0, Some v)
  end.

(** [get_or_create]: the creator returns a code and a pointer. *)
Definition ObMtHash_get_or_create (key : ObStoreRowkeyWrapper) (creator : Z * option loc)
    (map_ : ObMtHash) : Z * option loc * ObMtHash :=
  match map_ !! ObStoreRowkeyWrapper_hash key with
  | Some v => (0, Some v, map_)
  | None =>
      let '(ret, value) := creator in
      match value with
      | Some v => if ret =? 0 then (ret, value, <[ObStoreRowkeyWrapper_hash key := v]> map_)
                  else (ret, value, map_)
      | None => (ret, value, map_)
      end
  end.

Definition ObMtHash_erase (key : ObStoreRowkeyWrapper) (map_ : ObMtHash) : Z * ObMtHash :=
  (0, delete (ObStoreRowkeyWrapper_hash key) map_).
Definition ObMtHash_clear (_ : ObMtHash) : ObMtHash := ∅.
Definition ObMtHash_size (map_ : ObMtHash) : Z := Z.of_nat (size map_).

(** ** ObQueryEngine *)

Record ObQueryEngine := mkQueryEngine {
  qe_keyhash_ : ObMtHash;
  qe_btree_ : list (Z * loc);
  qe_rows_ : gmap loc ObMvccRow;
  qe_brk_ : loc }.

Definition ObQueryEngine_new : ObQueryEngine := mkQueryEngine ∅ [] ∅ 1%positive.

Definition qe_set_row (l : loc) (r : ObMvccRow) (q : ObQueryEngine) : ObQueryEngine :=
  mkQueryEngine (qe_keyhash_ q) (qe_btree_ q) (<[l := r]> (qe_rows_ q)) (qe_brk_ q).

(** [new ObMvccRow()] and [delete]. *)
Definition qe_alloc_row (q : ObQueryEngine) : loc * ObQueryEngine :=
  (qe_brk_ q,
   mkQueryEngine (qe_keyhash_ q) (qe_btree_ q) (<[qe_brk_ q := ObMvccRow_new]> (qe_rows_ q))
     (Pos.succ (qe_brk_ q))).
Definition qe_free_row (l : loc) (q : ObQueryEngine) : ObQueryEngine :=
  mkQueryEngine (qe_keyhash_ q) (qe_btree_ q) (delete l (qe_rows_ q)) (qe_brk_ q).

Definition ObQueryEngine_btree_set_ (key : ObMemtableKey) (value : loc) (q : ObQueryEngine)
    : ObQueryEngine :=
  mkQueryEngine (qe_keyhash_ q) (om_insert (ObMemtableKey_hash key) value (qe_btree_ q))
    (qe_rows_ q) (qe_brk_ q).

Definition ObQueryEngine_set (key : option ObMemtableKey) (value : option loc) (q : ObQueryEngine)
    : outcome (Z * ObQueryEngine) :=
  match key, value with
  | Some key, Some value =>
      let '(ret, kh) := ObMtHash_set (mkWrapper (mk_rowkey_ key)) value (qe_keyhash_ q) in
      if ret =? -1 then Done (-1, q)
      else
        let q := mkQueryEngine kh (qe_btree_ q) (qe_rows_ q) (qe_brk_ q) in
        let q := ObQueryEngine_btree_set_ key value q in
        r ← deref (qe_rows_ q !! value);
        Done (0, qe_set_row value (ObMvccRow_set_hash_indexed (ObMvccRow_set_btree_indexed r)) q)
  | _, _ => Done (-1, q)
  end.

Definition ObQueryEngine_ensure (key : option ObMemtableKey) (value : option loc)
    (q : ObQueryEngine) : outcome (Z * ObQueryEngine) :=
  match key, value with
  | Some key, Some value =>
      r ← deref (qe_rows_ q !! value);
      if ObMvccRow_is_btree_indexed r then Done (0, q)
      else
        let q := ObQueryEngine_btree_set_ key value q in
        Done (0, qe_set_row value (ObMvccRow_set_btree_indexed r) q)
  | _, _ => Done (-1, q)
  end.

(** [get]: [returned_key] is never written by the code. *)
Definition ObQueryEngine_get (parameter_key : option ObMemtableKey) (row : option loc)
    (q : ObQueryEngine) : Z * option loc :=
  match parameter_key with
  | None => (-1, row)
  | Some key => ObMtHash_get (mkWrapper (mk_rowkey_ key)) (qe_keyhash_ q)
  end.

(** [create_btree_kv]: [row_creator] may allocate, so it takes and returns the
    query engine whose heap it allocates in. *)
Definition ObQueryEngine_create_btree_kv (key : option ObMemtableKey)
    (row_creator : bool → ObStoreRowkeyWrapper → ObQueryEngine → Z * option loc * ObQueryEngine)
    (q : ObQueryEngine) : outcome (Z * option loc * ObQueryEngine) :=
  match key with
  | None => Done (-1, None, q)
  | Some key =>
      match om_lookup (ObMemtableKey_hash key) (qe_btree_ q) with
      | Some row => Done (0, Some row, q)
      | None =>
          let '(ret, row, q) := row_creator false (mkWrapper (mk_rowkey_ key)) q in
          match row with
          | Some l =>
              if ret =? 0 then
                let q := ObQueryEngine_btree_set_ key l q in
                r ← deref (qe_rows_ q !! l);
                Done (ret, row, qe_set_row l (ObMvccRow_set_btree_indexed r) q)
              else Done (ret, row, q)
          | None => Done (ret, row, q)
          end
      end
  end.

Definition ObQueryEngine_size (q : ObQueryEngine) : Z := blen (qe_btree_ q).

(** ** ObQueryEngineBtreeIterator

    [it_curr_] is the suffix of the map the [std::map] iterator points to,
    [[]] being [end()]. *)
Record ObQueryEngineBtreeIterator := mkIter {
  it_start_hash_ : Z;
  it_end_hash_ : Z;
  it_start_exclude_ : bool;
  it_end_exclude_ : bool;
  it_reverse_ : bool;
  it_curr_ : list (Z * loc);
  it_is_init_ : bool }.

Definition start_hash (start_key : option ObMemtableKey) : Z :=
  match start_key with Some k => ObMemtableKey_hash k | None => 0 end.
Definition end_hash (end_key : option ObMemtableKey) : Z :=
  match end_key with Some k => ObMemtableKey_hash k | None => UINT64_MAX end.

Definition ObQueryEngine_scan (start_key : option ObMemtableKey) (start_exclude : bool)
    (end_key : option ObMemtableKey) (end_exclude : bool) : Z * ObQueryEngineBtreeIterator :=
  (0, mkIter (start_hash start_key) (end_hash end_key) start_exclude end_exclude false [] false).

Definition ObQueryEngineBtreeIterator_get_value (it : ObQueryEngineBtreeIterator) : option loc :=
  match it_curr_ it with (_, v) :: _ => Some v | [] => None end.
Definition ObQueryEngineBtreeIterator_reset (it : ObQueryEngineBtreeIterator)
    : ObQueryEngineBtreeIterator :=
  mkIter (it_start_hash_ it) (it_end_hash_ it) (it_start_exclude_ it) (it_end_exclude_ it)
    (it_reverse_ it) (it_curr_ it) false.

(** The [while (curr_ != btree_.end())] loop of [next_internal_]; rows are
    never null in the map, a missing one is a dangling pointer. *)
Fixpoint next_from (rows : gmap loc ObMvccRow) (end_hash : Z) (end_exclude : bool)
    (curr : list (Z * loc)) : outcome (Z * list (Z * loc)) :=
  match curr with
  | [] => Done (-1, [])
  | (k, v) :: curr' =>
      if end_hash <? k then Done (-1, [])
      else if end_exclude && (k =? end_hash) then Done (-1, [])
      else
        r ← deref (rows !! v);
        if negb (ObMvccRow_is_empty r) then Done (0, curr)
        else next_from rows end_hash end_exclude curr'
  end.

Definition ObQueryEngineBtreeIterator_next (q : ObQueryEngine) (it : ObQueryEngineBtreeIterator)
    : outcome (Z * ObQueryEngineBtreeIterator) :=
  let curr :=
    if negb (it_is_init_ it) then om_lower_bound (it_start_hash_ it) (qe_btree_ q)
    else match it_curr_ it with [] => [] | _ :: c => c end in
  res ← next_from (qe_rows_ q) (it_end_hash_ it) (it_end_exclude_ it) curr;
  let '(ret, curr) := res in
  Done (ret, mkIter (it_start_hash_ it) (it_end_hash_ it) (it_start_exclude_ it)
               (it_end_exclude_ it) (it_reverse_ it) curr true).

(** ** scan_range *)

Fixpoint scan_range_loop (rows : gmap loc ObMvccRow) (end_h : Z) (end_exclude : bool)
    (it : list (Z * loc)) : outcome (list loc) :=
  match it with
  | [] => Done []
  | (k, v) :: it' =>
      if end_h <? k then Done []
      else if end_exclude && (k =? end_h) then Done []
      else
        r ← deref (rows !! v);
        rest ← scan_range_loop rows end_h end_exclude it';
        Done (if negb (ObMvccRow_is_empty r) then v :: rest else rest)
  end.

(** [scan_range]: the rows found; the keys of the result pairs are default
    constructed by the code. *)
Definition ObQueryEngine_scan_range (start_key : option ObMemtableKey) (start_exclude : bool)
    (end_key : option ObMemtableKey) (end_exclude : bool) (q : ObQueryEngine)
    : outcome (Z * list (ObMemtableKey * loc)) :=
  let start_h := start_hash start_key in
  let it := om_lower_bound start_h (qe_btree_ q) in
  let it :=
    match it with
    | (k, _) :: it' => if start_exclude && (k =? start_h) then it' else it
    | [] => it
    end in
  rows ← scan_range_loop (qe_rows_ q) (end_hash end_key) end_exclude it;
  Done (0, List.map (λ l : loc, (ObMemtableKey_default, l)) rows).

(** A client's loop over an iterator: [while (iter->next() == 0)]. *)
Fixpoint iter_collect (fuel : nat) (q : ObQueryEngine) (it : ObQueryEngineBtreeIterator)
    : outcome (list loc) :=
  match fuel with
  | O => OutOfFuel
  | S fuel' =>
      res ← ObQueryEngineBtreeIterator_next q it;
      let '(ret, it) := res in
      if ret =? 0 then
        v ← deref (ObQueryEngineBtreeIterator_get_value it);
        rest ← iter_collect fuel' q it;
        Done (v :: rest)
      else Done []
  end.

(** ** Invariant

    Both indexes hold the same keys and point to the same, live, distinct row
    objects, each of which is marked as indexed and holds a well-formed
    version chain. *)
Definition row_indexed (r : ObMvccRow) : Prop :=
  ObMvccRow_is_hash_indexed r = true ∧ ObMvccRow_is_btree_indexed r = true.

Record qe_inv (q : ObQueryEngine) : Prop := {
  qe_sorted : om_sorted (qe_btree_ q);
  qe_agree : om_map (qe_btree_ q) = qe_keyhash_ q;
  qe_inj : ∀ h h' l, qe_keyhash_ q !! h = Some l → qe_keyhash_ q !! h' = Some l → h = h';
  qe_live : ∀ h l, qe_keyhash_ q !! h = Some l →
    ∃ r vs, qe_rows_ q !! l = Some r ∧ row_indexed r ∧ row_repr r vs;
  qe_fresh : ∀ l, is_Some (qe_rows_ q !! l) → (l < qe_brk_ q)%positive }.

(** The abstract contents: for each hash the highest write snapshot and the
    versions, newest first. *)
Abbreviation contents := (gmap Z (Z * list ObMvccTransNode)) (only parsing).

Definition qe_repr (q : ObQueryEngine) (m : contents) : Prop :=
  qe_inv q ∧ ∀ h, match qe_keyhash_ q !! h with
                  | None => m !! h = None
                  | Some l => ∃ r vs, qe_rows_ q !! l = Some r ∧ row_repr r vs
                                ∧ m !! h = Some (r_max_trans_version_ r, vs)
                  end.

Lemma ObQueryEngine_new_repr : qe_repr ObQueryEngine_new ∅.
Proof.
  split; [|intros h; simpl; by rewrite lookup_empty].
  split; cbn [qe_keyhash_ qe_btree_ qe_rows_ qe_brk_ ObQueryEngine_new].
  - constructor.
  - done.
  - intros h h' l Hl. by rewrite lookup_empty in Hl.
  - intros h l Hl. by rewrite lookup_empty in Hl.
  - intros l [r Hl]. by rewrite lookup_empty in Hl.
Qed.
#[export] Hint Resolve ObQueryEngine_new_repr : mystorage.

Lemma qe_repr_lookup q m h l : qe_repr q m → qe_keyhash_ q !! h = Some l →
  ∃ r vs, qe_rows_ q !! l = Some r ∧ row_indexed r ∧ row_repr r vs
    ∧ m !! h = Some (r_max_trans_version_ r, vs).
Proof.
  intros [Hi Hm] Hl. destruct (qe_live _ Hi h l Hl) as (r & vs & Hr & Hx & _).
  specialize (Hm h). rewrite Hl in Hm. destruct Hm as (r' & vs' & Hr' & Hv & Hm).
  rewrite Hr in Hr'. injection Hr' as <-. eauto 10.
Qed.

Lemma qe_repr_none q m h : qe_repr q m → qe_keyhash_ q !! h = None → m !! h = None.
Proof. intros [_ Hm] Hl. specialize (Hm h). by rewrite Hl in Hm. Qed.

(** Replacing the row object of one hash changes the contents there only. *)
Lemma qe_set_row_repr q m h l r vs :
  qe_repr q m → qe_keyhash_ q !! h = Some l → row_indexed r → row_repr r vs →
  qe_repr (qe_set_row l r q) (<[h := (r_max_trans_version_ r, vs)]> m).
Proof.
  intros Hq Hl Hx Hv. destruct (qe_repr_lookup _ _ _ _ Hq Hl) as (r0 & vs0 & Hr0 & _).
  destruct Hq as [[Hs Ha Hinj Hlive Hfr] Hm]. split; [split; simpl; auto|].
  - intros h' l' Hl'. destruct (decide (l = l')) as [->|].
    + lk. eauto.
    + lk. eauto.
  - intros l' Hl'. destruct (decide (l = l')) as [->|]; [eauto|]. rewrite lookup_insert_ne in Hl'; auto.
  - intros h'. simpl. specialize (Hm h'). destruct (qe_keyhash_ q !! h') as [l'|] eqn:Hh'.
    + destruct (decide (l = l')) as [<-|Hne].
      * assert (h = h') as <- by eauto. exists r, vs. lk. done.
      * assert (h ≠ h') by congruence. lk. done.
    + assert (h ≠ h') by congruence. lk. done.
Qed.

Lemma set_indexed r : row_indexed (ObMvccRow_set_hash_indexed (ObMvccRow_set_btree_indexed r)).
Proof.
  unfold row_indexed, ObMvccRow_is_hash_indexed, ObMvccRow_is_btree_indexed. simpl.
  unfold F_HASH_INDEX, F_BTREE_INDEX. split; apply negb_true_iff, Z.eqb_neq; intros E.
  - apply (f_equal (λ z, Z.testbit z 0)) in E. rewrite Z.land_spec, Z.lor_spec in E.
    by rewrite orb_true_r in E.
  - apply (f_equal (λ z, Z.testbit z 1)) in E. rewrite Z.land_spec, !Z.lor_spec in E.
    by rewrite orb_true_r in E.
Qed.
#[export] Hint Resolve set_indexed : mystorage.

(** A key's hash in the btree is its hash in the hash table. *)
Definition key_consistent (key : ObMemtableKey) : Prop :=
  ObMemtableKey_hash key = ObStoreRowkeyWrapper_hash (mkWrapper (mk_rowkey_ key)).

(** Allocating a row and inserting it under a new hash. *)
Lemma qe_set_new q m key :
  qe_repr q m → key_consistent key → m !! ObMemtableKey_hash key = None →
  let '(l, q1) := qe_alloc_row q in
  ∃ q', ObQueryEngine_set (Some key) (Some l) q1 = Done (0, q')
    ∧ qe_keyhash_ q' !! ObMemtableKey_hash key = Some l
    ∧ qe_repr q' (<[ObMemtableKey_hash key := (0, [])]> m).
Proof.
  intros Hq Hk Hnone. set (h := ObMemtableKey_hash key) in *.
  assert (qe_keyhash_ q !! h = None) as Hkh.
  { destruct (qe_keyhash_ q !! h) as [l|] eqn:E; [|done].
    destruct (qe_repr_lookup _ _ _ _ Hq E) as (r & vs & _ & _ & _ & Hm). congruence. }
  destruct Hq as [[Hs Ha Hinj Hlive Hfr] Hm].
  assert (qe_rows_ q !! qe_brk_ q = None) as Hf.
  { destruct (qe_rows_ q !! qe_brk_ q) eqn:E; [|done].
    specialize (Hfr (qe_brk_ q)). rewrite E in Hfr. specialize (Hfr ltac:(eauto)). lia. }
  assert (∀ h l, qe_keyhash_ q !! h = Some l → l ≠ qe_brk_ q) as Hnew.
  { intros h' l Hl ->. destruct (Hlive _ _ Hl) as (r & vs & Hr & _). congruence. }
  unfold qe_alloc_row, ObQueryEngine_set, ObMtHash_set. simpl. rewrite <-Hk. fold h.
  rewrite Hkh. simpl. lk. simpl. eexists. split; [done|]. simpl. lk. split; [done|].
  split; [split|].
  - simpl. by apply om_insert_sorted.
  - simpl. fold h. rewrite om_insert_map, Ha by done. done.
  - simpl. intros h1 h2 l. rewrite !lookup_insert. intros H1 H2.
    repeat case_decide; subst; simplify_eq; try done; try (by eapply Hnew in H1); try (by eapply Hnew in H2).
    eauto.
  - simpl. intros h1 l. rewrite lookup_insert. case_decide as E; [intros [= <-]|intros Hl].
    + lk. eexists _, []. split; [done|]. split; [apply set_indexed|].
      repeat apply row_repr_set_flag. apply ObMvccRow_new_repr.
    + pose proof (Hnew _ _ Hl). lk. eauto.
  - simpl. intros l Hl. destruct (decide (qe_brk_ q = l)) as [<-|]; [lia|].
    rewrite !lookup_insert_ne in Hl by done. specialize (Hfr _ Hl). lia.
  - intros h1. simpl. rewrite (lookup_insert (qe_keyhash_ q)). case_decide as E.
    + subst h1. lk. eexists _, []. split; [done|]. split; [|done].
      repeat apply row_repr_set_flag. apply ObMvccRow_new_repr.
    + specialize (Hm h1). destruct (qe_keyhash_ q !! h1) as [l|] eqn:Hl.
      * pose proof (Hnew _ _ Hl). lk. done.
      * lk. done.
Qed.

Lemma key_consistent_default : key_consistent ObMemtableKey_default.
Proof. done. Qed.

Lemma encode_consistent k rk : ObStoreRowkey_is_valid rk = true →
  key_consistent (ObMemtableKey_encode k (Some rk)).2.
Proof. intros Hv. by rewrite ObMemtableKey_encode_ok. Qed.
#[export] Hint Resolve key_consistent_default encode_consistent : mystorage.

(** ** Scans *)

Definition nonempty_row (rows : gmap loc ObMvccRow) (l : loc) : bool :=
  match rows !! l with Some r => negb (ObMvccRow_is_empty r) | None => false end.

(** The entries a scan up to [eh] keeps. *)
Definition below_end (eh : Z) (ee : bool) (k : Z) : Prop := k ≤ eh ∧ (ee = true → k ≠ eh).
Definition above_start (sh : Z) (se : bool) (k : Z) : Prop := sh ≤ k ∧ (se = true → k ≠ sh).
#[export] Instance below_end_dec eh ee k : Decision (below_end eh ee k).
Proof. unfold below_end. destruct ee; apply _. Defined.
#[export] Instance above_start_dec sh se k : Decision (above_start sh se k).
Proof. unfold above_start. destruct se; apply _. Defined.

Definition scan_spec (rows : gmap loc ObMvccRow) (eh : Z) (ee : bool) (it : list (Z * loc))
    : list loc :=
  (filter (λ e, below_end eh ee e.1 ∧ nonempty_row rows e.2 = true) it).*2.

Definition all_live (rows : gmap loc ObMvccRow) (it : list (Z * loc)) : Prop :=
  Forall (λ e, is_Some (rows !! e.2)) it.

Lemma scan_stop rows eh ee k v it :
  om_sorted ((k, v) :: it) → ¬ below_end eh ee k → scan_spec rows eh ee ((k, v) :: it) = [].
Proof.
  unfold om_sorted. intros Hs Hn. cbn in Hs. apply StronglySorted_inv in Hs as [_ Hall].
  unfold scan_spec. rewrite (filter_none _ ((k, v) :: it)); [done|]. constructor; [naive_solver|].
  rewrite Forall_forall. intros [k' v'] He [Hb _]. cbn in *.
  rewrite Forall_forall in Hall. assert (k < k') by (apply Hall, list_elem_of_fmap; by eexists (_, _)).
  apply Hn. unfold below_end in *. split; [lia|]. intros. lia.
Qed.

(** The two break conditions of the loops. *)
Lemma end_test {A} eh ee k (x y : A) :
  (if eh <? k then x else if ee && (k =? eh) then x else y)
  = (if bool_decide (below_end eh ee k) then y else x).
Proof.
  case_bool_decide as H; unfold below_end in H;
    destruct (Z.ltb_spec eh k), ee, (Z.eqb_spec k eh); cbn; try done; naive_solver lia.
Qed.

Lemma scan_spec_cons rows eh ee k v it r : rows !! v = Some r → below_end eh ee k →
  scan_spec rows eh ee ((k, v) :: it)
  = if ObMvccRow_is_empty r then scan_spec rows eh ee it else v :: scan_spec rows eh ee it.
Proof.
  intros Hr Hb. unfold scan_spec. rewrite (filter_cons _ (k, v)). cbn [fst snd].
  assert (nonempty_row rows v = negb (ObMvccRow_is_empty r)) as Hn
    by (unfold nonempty_row; by rewrite Hr).
  destruct (ObMvccRow_is_empty r); cbn in Hn.
  - rewrite decide_False; [done|]. intros [_ H]. congruence.
  - rewrite decide_True by done. done.
Qed.

Lemma scan_range_loop_spec rows eh ee it : om_sorted it → all_live rows it →
  scan_range_loop rows eh ee it = Done (scan_spec rows eh ee it).
Proof.
  induction it as [|[k v] it IH]; intros Hs Hl; [done|]. cbn [scan_range_loop].
  rewrite end_test. case_bool_decide as Hb; [|by rewrite scan_stop].
  apply Forall_cons in Hl as [[r Hr] Hl]. cbn in Hr. rewrite (scan_spec_cons _ _ _ _ _ _ r) by done.
  rewrite Hr. cbn [deref mbind outcome_bind].
  rewrite IH; [|by eapply om_sorted_tail|done]. cbn [mbind outcome_bind].
  by destruct (ObMvccRow_is_empty r).
Qed.

(** [next_internal_] stops at the first entry of the scan. *)
Lemma next_from_spec rows eh ee it : om_sorted it → all_live rows it →
  (next_from rows eh ee it = Done (-1, []) ∧ scan_spec rows eh ee it = [])
  ∨ ∃ k v it', next_from rows eh ee it = Done (0, (k, v) :: it') ∧ om_sorted it'
      ∧ all_live rows it' ∧ (length it' < length it)%nat
      ∧ scan_spec rows eh ee it = v :: scan_spec rows eh ee it'.
Proof.
  induction it as [|[k v] it IH]; intros Hs Hl; [by left|]. cbn [next_from].
  rewrite end_test. case_bool_decide as Hb; [|left; by rewrite scan_stop].
  pose proof (om_sorted_tail _ _ Hs) as Hs'. apply Forall_cons in Hl as [[r Hr] Hl]. cbn in Hr.
  rewrite Hr, (scan_spec_cons _ _ _ _ _ _ r) by done. cbn [deref mbind outcome_bind length].
  destruct (ObMvccRow_is_empty r); cbn [negb].
  - destruct (IH Hs' Hl) as [|(k' & v' & it' & H)]; [by left|].
    right. exists k', v', it'. naive_solver lia.
  - right. exists k, v, it. naive_solver lia.
Qed.

(** What an iterator has still to visit. *)
Definition it_pending (q : ObQueryEngine) (it : ObQueryEngineBtreeIterator) : list (Z * loc) :=
  if negb (it_is_init_ it) then om_lower_bound (it_start_hash_ it) (qe_btree_ q)
  else match it_curr_ it with [] => [] | _ :: c => c end.

Lemma iter_collect_spec fuel q it :
  om_sorted (it_pending q it) → all_live (qe_rows_ q) (it_pending q it) →
  (length (it_pending q it) < fuel)%nat →
  iter_collect fuel q it
  = Done (scan_spec (qe_rows_ q) (it_end_hash_ it) (it_end_exclude_ it) (it_pending q it)).
Proof.
  revert it. induction fuel as [|fuel IH]; intros it Hs Hl Hf; [lia|].
  cbn [iter_collect]. unfold ObQueryEngineBtreeIterator_next. fold (it_pending q it).
  destruct (next_from_spec (qe_rows_ q) (it_end_hash_ it) (it_end_exclude_ it) _ Hs Hl)
    as [[-> ->]|(k & v & c & -> & Hs' & Hl' & Hlen & ->)]; [done|].
  cbn [mbind outcome_bind Z.eqb]. cbn [deref ObQueryEngineBtreeIterator_get_value it_curr_ mbind outcome_bind].
  rewrite IH; cbn -[iter_collect]; first done; try done; lia.
Qed.

Lemma qe_all_live q m : qe_inv q → (∀ e, e ∈ m → e ∈ qe_btree_ q) → all_live (qe_rows_ q) m.
Proof.
  intros Hq Hm. apply Forall_forall. intros [k l] He. apply Hm in He. cbn.
  apply om_elem_lookup in He; [|by apply qe_sorted]. rewrite qe_agree in He by done.
  destruct (qe_live _ Hq _ _ He) as (r & _ & -> & _). eauto.
Qed.

(** A full pass of an iterator, whatever [start_exclude] it was given. *)
Lemma scan_collect q sk se ek ee : qe_inv q →
  iter_collect (S (length (qe_btree_ q))) q (ObQueryEngine_scan sk se ek ee).2
  = Done ((filter (λ e, above_start (start_hash sk) false e.1 ∧ below_end (end_hash ek) ee e.1
                        ∧ nonempty_row (qe_rows_ q) e.2 = true) (qe_btree_ q)).*2).
Proof.
  intros Hq. pose proof (qe_sorted _ Hq) as Hs.
  assert (it_pending q (ObQueryEngine_scan sk se ek ee).2
          = om_lower_bound (start_hash sk) (qe_btree_ q)) as Hp by done.
  rewrite iter_collect_spec; rewrite Hp.
  - rewrite om_lower_bound_filter by done. unfold scan_spec. rewrite list_filter_filter.
    do 2 f_equal. apply list_filter_iff. intros [k l]. cbn. unfold above_start. naive_solver.
  - by apply om_lower_bound_sorted.
  - apply qe_all_live; [done|]. intros e. rewrite om_lower_bound_filter by done.
    by intros [_ ?]%list_elem_of_filter.
  - rewrite om_lower_bound_filter by done. pose proof (length_filter (λ e : Z * loc, start_hash sk ≤ e.1) (qe_btree_ q)). lia.
Qed.

(** The start of [scan_range]: [lower_bound], then one step over an excluded
    start. *)
Lemma om_skip_start sh se (m : list (Z * loc)) : om_sorted m →
  match om_lower_bound sh m with
  | [] => om_lower_bound sh m
  | (k, _) :: it' => if se && (k =? sh) then it' else om_lower_bound sh m
  end = filter (λ e, above_start sh se e.1) m.
Proof.
  induction m as [|[k v] m IH]; intros Hs; [done|]. pose proof (om_sorted_tail _ _ Hs) as Hs'.
  cbn [om_lower_bound]. rewrite (filter_cons _ (k, v)). cbn [fst].
  destruct (Z.ltb_spec k sh); [rewrite decide_False; [auto|unfold above_start; lia]|].
  assert (∀ e, e ∈ m → above_start sh se e.1) as Hall.
  { intros e He. unfold om_sorted in Hs. cbn in Hs. apply StronglySorted_inv in Hs as [_ Hs].
    rewrite Forall_forall in Hs. specialize (Hs e.1 ltac:(apply list_elem_of_fmap; eauto)).
    unfold above_start. lia. }
  apply Forall_forall in Hall. rewrite (filter_all _ m) by done.
  destruct (Z.eqb_spec k sh), se; cbn; case_decide as Hd; unfold above_start in Hd;
    try done; exfalso; naive_solver lia.
Qed.

(** [scan_range] returns exactly the non-empty rows of the range, in hash order. *)
Lemma scan_range_spec q sk se ek ee : qe_inv q →
  ObQueryEngine_scan_range sk se ek ee q
  = Done (0, (λ l, (ObMemtableKey_default, l)) <$>
       (filter (λ e, above_start (start_hash sk) se e.1 ∧ below_end (end_hash ek) ee e.1
                     ∧ nonempty_row (qe_rows_ q) e.2 = true) (qe_btree_ q)).*2).
Proof.
  intros Hq. pose proof (qe_sorted _ Hq) as Hs. unfold ObQueryEngine_scan_range.
  assert (match om_lower_bound (start_hash sk) (qe_btree_ q) with
          | [] => om_lower_bound (start_hash sk) (qe_btree_ q)
          | (k, _) :: it' => if se && (k =? start_hash sk) then it'
                             else om_lower_bound (start_hash sk) (qe_btree_ q) end
          = filter (λ e, above_start (start_hash sk) se e.1) (qe_btree_ q)) as ->.
  { by apply om_skip_start. }
  rewrite scan_range_loop_spec; [|by apply om_filter_sorted|].
  2:{ apply qe_all_live; [done|]. by intros e [_ ?]%list_elem_of_filter. }
  cbn [mbind outcome_bind]. unfold scan_spec. rewrite list_filter_filter. do 4 f_equal.
  apply list_filter_iff. intros [k l]. cbn. naive_solver.
Qed.

Lemma qe_nonempty q m h l : qe_repr q m → qe_keyhash_ q !! h = Some l →
  nonempty_row (qe_rows_ q) l = true ↔ ∃ mx v vs, m !! h = Some (mx, v :: vs).
Proof.
  intros Hq Hh. destruct (qe_repr_lookup _ _ _ _ Hq Hh) as (r & vs & Hr & _ & Hrep & ->).
  unfold nonempty_row. rewrite Hr. pose proof (row_repr_empty _ _ Hrep) as He.
  destruct (ObMvccRow_is_empty r), vs as [|v vs]; cbn; split; try naive_solver.
Qed.

(** C18: a range scan is exact.  [scan_range] succeeds and returns, in
    increasing order of hash and each once, the row objects of exactly the
    hashes between the hashes of the two keys (a missing key is no bound, each
    end included unless it is excluded) that hold at least one version. *)
Theorem scan_range_exact q m sk se ek ee : qe_repr q m →
  ∃ hs ls, ObQueryEngine_scan_range sk se ek ee q = Done (0, (λ l, (ObMemtableKey_default, l)) <$> ls)
    ∧ StronglySorted Z.lt hs ∧ Forall2 (λ h l, qe_keyhash_ q !! h = Some l) hs ls
    ∧ ∀ h, h ∈ hs ↔ above_start (start_hash sk) se h ∧ below_end (end_hash ek) ee h
                    ∧ ∃ mx v vs, m !! h = Some (mx, v :: vs).
Proof.
  intros Hq. pose proof (proj1 Hq) as Hinv. pose proof (qe_sorted _ Hinv) as Hs.
  set (es := filter (λ e, above_start (start_hash sk) se e.1 ∧ below_end (end_hash ek) ee e.1
                     ∧ nonempty_row (qe_rows_ q) e.2 = true) (qe_btree_ q)).
  exists es.*1, es.*2. split; [by apply scan_range_spec|]. split; [by apply om_filter_sorted|].
  assert (∀ e, e ∈ qe_btree_ q → qe_keyhash_ q !! e.1 = Some e.2) as Hin.
  { intros [k l] He. rewrite <-(qe_agree _ Hinv). by apply om_elem_lookup. }
  split.
  - assert (∀ e, e ∈ es → qe_keyhash_ q !! e.1 = Some e.2) as Hes by (intros e [_ He]%list_elem_of_filter; auto).
    clear -Hes. induction es as [|e es IH]; constructor; [apply Hes, list_elem_of_here|].
    apply IH. intros e' He'. by apply Hes, list_elem_of_further.
  - intros h. rewrite list_elem_of_fmap. split.
    + intros ([k l] & -> & [(Ha & Hb & Hn) He]%list_elem_of_filter). cbn in *.
      split_and!; [done..|]. by apply (qe_nonempty q m k l Hq (Hin _ He)).
    + intros (Ha & Hb & mx & v & vs & Hm).
      destruct (qe_keyhash_ q !! h) as [l|] eqn:Hh; [|by rewrite (qe_repr_none _ _ _ Hq Hh) in Hm].
      exists (h, l). split; [done|]. apply list_elem_of_filter. split_and!; [done..| |].
      * apply (qe_nonempty q m h l Hq Hh). eauto.
      * apply om_elem_lookup; [done|]. by rewrite (qe_agree _ Hinv).
Qed.

(** The iterator ignores [start_exclude].  Walking the iterator of
    [scan(start_key, start_exclude, ...)] to its end visits the rows that
    [scan_range] returns when the start is included, whichever value was passed;
    so with [start_exclude] set the two entry points disagree on a range whose
    start key is stored. *)
Theorem iterator_ignores_start_exclude q sk se ek ee : qe_inv q →
  ∃ ls, iter_collect (S (length (qe_btree_ q))) q (ObQueryEngine_scan sk se ek ee).2 = Done ls
    ∧ ObQueryEngine_scan_range sk false ek ee q = Done (0, (λ l, (ObMemtableKey_default, l)) <$> ls).
Proof. intros Hq. eexists. split; [by apply scan_collect|]. by apply scan_range_spec. Qed.

(** An engine with one (empty) row for the one-byte key [1]. *)
Definition demo_key : ObMemtableKey := (ObMemtableKey_encode ObMemtableKey_default (Some (rowkey_of [1]))).2.

Lemma demo_engine : ∃ q, ObQueryEngine_set (Some demo_key) (Some 1%positive) (qe_alloc_row ObQueryEngine_new).2
    = Done (0, q) ∧ qe_repr q {[ObMemtableKey_hash demo_key := (0, [])]}.
Proof.
  destruct (qe_set_new ObQueryEngine_new ∅ demo_key) as (q & Hq & _ & Hrep);
    [apply ObQueryEngine_new_repr|by apply encode_consistent|done|]. by exists q.
Qed.

Lemma scan_range_exact_witness : ∃ q, qe_repr q {[ObMemtableKey_hash demo_key := (0, [])]}
  ∧ ∃ hs ls, ObQueryEngine_scan_range None false None true q = Done (0, (λ l, (ObMemtableKey_default, l)) <$> ls)
    ∧ StronglySorted Z.lt hs ∧ Forall2 (λ h l, qe_keyhash_ q !! h = Some l) hs ls.
Proof.
  destruct demo_engine as (q & _ & Hq). exists q. split; [exact Hq|].
  destruct (scan_range_exact q _ None false None true Hq) as (hs & ls & H1 & H2 & H3 & _).
  exists hs, ls. split_and!; assumption.
Defined.

Lemma iterator_ignores_start_exclude_witness : ∃ q, qe_inv q
  ∧ ∃ ls, iter_collect (S (length (qe_btree_ q))) q (ObQueryEngine_scan (Some demo_key) true None false).2 = Done ls
    ∧ ObQueryEngine_scan_range (Some demo_key) false None false q
      = Done (0, (λ l, (ObMemtableKey_default, l)) <$> ls).
Proof.
  destruct demo_engine as (q & _ & Hq). exists q. split; [exact (proj1 Hq)|].
  exact (iterator_ignores_start_exclude q (Some demo_key) true None false (proj1 Hq)).
Defined.
