(* ===== verification/MvccEngine.v ===== *)
(** * ObMvccEngine: reads and writes of versioned rows

    Models [src/src/storage/memtable/mvcc/ob_mvcc_define.h] and
    [ob_mvcc_engine.h/.cpp].  The engine holds pointers to the memtable's query
    engine; [me_query_engine_] says whether the pointer is set, and the query
    engine it points to is passed along.  Calling through a null pointer is
    undefined. *)

From S2P Require Import Prelude StoreTypes OrdMap MvccRow QueryEngine.

(** ** ob_mvcc_define.h *)

Record ObTxNodeArg := mkTxNodeArg {
  arg_tx_id_ : Z;
  arg_data_ : option ObMemtableData;
  arg_column_cnt_ : Z }.
Definition ObTxNodeArg_default : ObTxNodeArg := mkTxNodeArg OB_INVALID_TRANS_ID None 0.

Record ObMvccWriteResult := mkWriteResult {
  res_can_insert_ : bool;
  res_need_insert_ : bool;
  res_is_mvcc_undo_ : bool;
  res_tx_node_ : option loc;
  res_value_ : option loc;
  res_mtk_ : ObMemtableKey }.
Definition ObMvccWriteResult_default : ObMvccWriteResult :=
  mkWriteResult false false false None None ObMemtableKey_default.
Definition ObMvccWriteResult_has_insert (r : ObMvccWriteResult) : bool :=
  res_can_insert_ r && res_need_insert_ r && negb (res_is_mvcc_undo_ r).
Definition ObMvccWriteResult_reset (r : ObMvccWriteResult) : ObMvccWriteResult :=
  mkWriteResult false false false None None (res_mtk_ r).
Definition set_res_mtk (k : ObMemtableKey) (r : ObMvccWriteResult) : ObMvccWriteResult :=
  mkWriteResult (res_can_insert_ r) (res_need_insert_ r) (res_is_mvcc_undo_ r)
    (res_tx_node_ r) (res_value_ r) k.

(** ** The engine *)

Record ObMvccEngine := mkEngine {
  me_is_inited_ : bool;
  me_query_engine_ : bool;
  me_memtable_ : bool }.
Definition ObMvccEngine_new : ObMvccEngine := mkEngine false false false.

(** The arguments say whether the pointers passed are non-null. *)
Definition ObMvccEngine_init (query_engine memtable : bool) (e : ObMvccEngine)
    : Z * ObMvccEngine :=
  if negb query_engine || negb memtable then (-1, e) else (0, mkEngine true true true).
Definition ObMvccEngine_destroy (_ : ObMvccEngine) : ObMvccEngine := mkEngine false false false.

(** Dereference of [query_engine_]. *)
Definition use_qe {A} (e : ObMvccEngine) (k : outcome A) : outcome A :=
  if me_query_engine_ e then k else UB.

Definition ObMvccEngine_query_engine_get_ (e : ObMvccEngine) (key : option ObMemtableKey)
    (row : option loc) (q : ObQueryEngine) : outcome (Z * option loc) :=
  use_qe e (Done (ObQueryEngine_get key row q)).

(** [create_kv_]: code, row and query engine.  After the race branch's
    [delete value] the pointer dangles until [get] overwrites it. *)
Definition ObMvccEngine_create_kv_ (e : ObMvccEngine) (key : option ObMemtableKey)
    (value : option loc) (q : ObQueryEngine) : outcome (Z * option loc * ObQueryEngine) :=
  x ← ObMvccEngine_query_engine_get_ e key value q;
  let '(ret, value) := x in
  if negb (ret =? 0) || bool_decide (value = None) then
    let '(l, q) := qe_alloc_row q in
    y ← use_qe e (ObQueryEngine_set key (Some l) q);
    let '(ret, q) := y in
    if ret =? -1 then
      let q := qe_free_row l q in
      z ← ObMvccEngine_query_engine_get_ e key (Some l) q;
      let '(ret, value) := z in
      Done (ret, value, q)
    else Done (0, Some l, q)
  else Done (0, value, q).
Definition ObMvccEngine_create_kv := ObMvccEngine_create_kv_.

Definition ObMvccEngine_ensure_kv (e : ObMvccEngine) (stored_key : option ObMemtableKey)
    (value : option loc) (q : ObQueryEngine) : outcome (Z * ObQueryEngine) :=
  use_qe e (ObQueryEngine_ensure stored_key value q).

(** [build_tx_node_]: the contents of the new node; the copy of [buf_len_]
    bytes reads the caller's buffer.  With a positive length and a null buffer
    the data stay uninitialised (no bytes here, so reading them is [UB]). *)
Definition ObMvccEngine_build_tx_node_ (arg : ObTxNodeArg) : outcome (Z * option ObMvccTransNode) :=
  match arg_data_ arg with
  | None => Done (-1, None)
  | Some data =>
      buf ← match md_buf_ data with
            | Some b => if 0 <? md_buf_len_ data then mem_read 0 (md_buf_len_ data) b else Done []
            | None => Done []
            end;
      let node := mkTransNode (arg_tx_id_ arg) OB_INVALID_VERSION None None 0 F_INIT
                    (mkDataHeader (md_dml_flag_ data) (md_buf_len_ data) buf) in
      Done (0, Some (ObMvccTransNode_trans_commit 1 node))
  end.

(** [mvcc_write] on the row object at [l]. *)
Definition ObMvccEngine_mvcc_write (ctx : ObStoreCtx) (l : loc) (arg : ObTxNodeArg)
    (check_exist : bool) (res : ObMvccWriteResult) (q : ObQueryEngine)
    : outcome (Z * ObMvccWriteResult * ObQueryEngine) :=
  let res := ObMvccWriteResult_reset res in
  b ← ObMvccEngine_build_tx_node_ arg;
  match b with
  | (ret, Some node) =>
      if negb (ret =? 0) then Done (-1, res, q)
      else
        r ← deref (qe_rows_ q !! l);
        let '(nl, r) := row_alloc node r in
        w ← ObMvccRow_mvcc_write ctx nl check_exist r;
        let '(ret, write_conflict, r) := w : Z * bool * ObMvccRow in
        if negb (ret =? 0) then
          let q := qe_set_row l (row_free nl r) q in
          Done (if write_conflict then -1 else ret, res, q)
        else
          Done (0, mkWriteResult true true (res_is_mvcc_undo_ res) (Some nl) (Some l) (res_mtk_ res),
                qe_set_row l r q)
  | (_, None) => Done (-1, res, q)
  end.

(** [mvcc_undo] on the row object at [value]. *)
Definition ObMvccEngine_mvcc_undo (value : option loc) (q : ObQueryEngine)
    : outcome ObQueryEngine :=
  match value with
  | None => Done q
  | Some l =>
      r ← deref (qe_rows_ q !! l);
      match r_list_head_ r with
      | None => Done q
      | Some hl =>
          _ ← deref (r_store_ r !! hl);
          let st := alter ObMvccTransNode_trans_abort hl (r_store_ r) in
          head ← deref (st !! hl);
          let r := set_row_head (n_prev_ head) r in
          st ← match n_prev_ head with
               | None => Done st
               | Some p => _ ← deref (st !! p); Done (alter (set_next None) p st)
               end;
          Done (qe_set_row l (row_free hl (set_row_store st r)) q)
      end
  end.

Definition ObMvccEngine_finish_kv (res : ObMvccWriteResult) : ObMvccWriteResult :=
  mkWriteResult false (res_need_insert_ res) (res_is_mvcc_undo_ res) (res_tx_node_ res)
    (res_value_ res) (res_mtk_ res).

(** *** Reads *)

(** The [while (node != nullptr)] walks stop at the first node the test
    accepts. *)
Definition find_node_body (st : gmap loc ObMvccTransNode) (vis : ObMvccTransNode → bool)
    (node : option loc) : outcome (option loc + option ObMvccTransNode) :=
  match node with
  | None => Done (inr None)
  | Some l => n ← deref (st !! l);
              if vis n then Done (inr (Some n)) else Done (inl (n_prev_ n))
  end.
Definition find_node (vis : ObMvccTransNode → bool) (r : ObMvccRow)
    : outcome (option ObMvccTransNode) :=
  loop (find_node_body (r_store_ r) vis) (S (size (r_store_ r))) (r_list_head_ r).

(** The row built from a node. *)
Definition node_row (n : ObMvccTransNode) : outcome ObStoreRow :=
  let hdr := n_buf_ n in
  v ← mem_read 0 (hdr_buf_len_ hdr) (hdr_buf_ hdr);
  Done (mkRow (hdr_dml_flag_ hdr) (n_trans_version_ n) (n_tx_id_ n) ObStoreRowkey_default v
              (hdr_dml_flag_ hdr =? DF_DELETE)).

Definition snapshot_sees (ctx : ObStoreCtx) (n : ObMvccTransNode) : bool :=
  (snapshot_version_ ctx =? OB_INVALID_VERSION) || (n_trans_version_ n <=? snapshot_version_ ctx).

(** The tests of [get] and of [scan]. *)
Definition get_visible (ctx : ObStoreCtx) (n : ObMvccTransNode) : bool :=
  if ObMvccTransNode_is_committed n then snapshot_sees ctx n
  else if ObMvccTransNode_is_aborted n then false
  else n_tx_id_ n =? tx_id_ ctx.
Definition scan_visible (ctx : ObStoreCtx) (n : ObMvccTransNode) : bool :=
  if ObMvccTransNode_is_committed n && snapshot_sees ctx n then true
  else if ObMvccTransNode_is_aborted n then false
  else n_tx_id_ n =? tx_id_ ctx.

(** [get]: the code and [results]. *)
Definition ObMvccEngine_get (e : ObMvccEngine) (ctx : ObStoreCtx) (key : option ObMemtableKey)
    (results : list ObStoreRow) (q : ObQueryEngine) : outcome (Z * list ObStoreRow) :=
  x ← ObMvccEngine_query_engine_get_ e key None q;
  match x with
  | (ret, Some l) =>
      if negb (ret =? 0) then Done (-1, results)
      else
        r ← deref (qe_rows_ q !! l);
        o ← find_node (get_visible ctx) r;
        match o with
        | None => Done (-1, results)
        | Some n => srow ← node_row n; Done (0, results ++ [srow])
        end
  | (_, None) => Done (-1, results)
  end.

(** The rows of one step of [scan]'s outer loop. *)
Definition scan_row (vis : ObMvccTransNode → bool) (q : ObQueryEngine) (l : loc)
    : outcome (list ObStoreRow) :=
  r ← deref (qe_rows_ q !! l);
  if ObMvccRow_is_empty r then Done []
  else
    o ← find_node vis r;
    match o with
    | None => Done []
    | Some n => srow ← node_row n; Done [srow]
    end.

Fixpoint scan_loop (ctx : ObStoreCtx) (fuel : nat) (q : ObQueryEngine)
    (it : ObQueryEngineBtreeIterator) (results : list ObStoreRow) : outcome (list ObStoreRow) :=
  match fuel with
  | O => OutOfFuel
  | S fuel' =>
      x ← ObQueryEngineBtreeIterator_next q it;
      let '(ret, it) := x in
      if ret =? 0 then
        match ObQueryEngineBtreeIterator_get_value it with
        | None => scan_loop ctx fuel' q it results
        | Some l => srows ← scan_row (scan_visible ctx) q l;
                    scan_loop ctx fuel' q it (results ++ srows)
        end
      else Done results
  end.

Definition ObMvccEngine_scan (e : ObMvccEngine) (ctx : ObStoreCtx) (start_key : option ObMemtableKey)
    (start_exclude : bool) (end_key : option ObMemtableKey) (end_exclude : bool)
    (results : list ObStoreRow) (q : ObQueryEngine) : outcome (Z * list ObStoreRow) :=
  use_qe e (
    let '(ret, iter) := ObQueryEngine_scan start_key start_exclude end_key end_exclude in
    if negb (ret =? 0) then Done (ret, results)
    else
      results ← scan_loop ctx (S (length (qe_btree_ q))) q iter results;
      Done (0, results)).

(** [check_row_locked]: code, [is_locked], [lock_trans_id]. *)
Definition ObMvccEngine_check_row_locked (e : ObMvccEngine) (key : option ObMemtableKey)
    (lock_trans_id : Z) (q : ObQueryEngine) : outcome (Z * bool * Z) :=
  x ← ObMvccEngine_query_engine_get_ e key None q;
  match x with
  | (ret, Some l) =>
      if negb (ret =? 0) then Done (0, false, lock_trans_id)
      else
        r ← deref (qe_rows_ q !! l);
        match r_list_head_ r with
        | None => Done (0, false, lock_trans_id)
        | Some hl =>
            head ← deref (r_store_ r !! hl);
            if negb (ObMvccTransNode_is_committed head) && negb (ObMvccTransNode_is_aborted head)
            then Done (0, true, n_tx_id_ head)
            else Done (0, false, lock_trans_id)
        end
  | (_, None) => Done (0, false, lock_trans_id)
  end.

(** ** Walks *)

Lemma find_node_body_spec st vis p ls fuel :
  (∀ n, vis (erase n) = vis n) → chain st p ls → (length ls < fuel)%nat →
  ∃ o, loop (find_node_body st vis) fuel p = Done o ∧ erase <$> o = List.find vis (versions st ls).
Proof.
  intros Hvis. revert p fuel. induction ls as [|x ls IH]; intros p fuel Hc Hf;
    (destruct fuel as [|fuel]; [simpl in Hf; lia|]).
  - simpl in Hc. subst p. exists None. done.
  - destruct Hc as (-> & n & Hn & Hc). cbn [length] in Hf.
    rewrite loop_step, (versions_cons _ _ _ _ Hn). cbn [find_node_body List.find]. rewrite Hn, Hvis.
    cbn [deref mbind outcome_bind]. destruct (vis n) eqn:Hv.
    + exists (Some n). done.
    + apply IH; [done|lia].
Qed.

(** A walk finds the newest version that passes the test. *)
Lemma find_node_spec vis r vs : (∀ n, vis (erase n) = vis n) → row_repr r vs →
  ∃ o, find_node vis r = Done o ∧ erase <$> o = List.find vis vs.
Proof.
  intros Hvis (ls & (Hc & Hnd & _) & <-). pose proof (chain_length _ _ _ Hc Hnd).
  apply find_node_body_spec; [done..|lia].
Qed.

Lemma get_visible_erase ctx n : get_visible ctx (erase n) = get_visible ctx n.
Proof. done. Qed.
Lemma scan_visible_erase ctx n : scan_visible ctx (erase n) = scan_visible ctx n.
Proof. done. Qed.
#[export] Hint Resolve get_visible_erase scan_visible_erase : mystorage.

(** ** Nodes *)

(** A node whose length field is the size of its data. *)
Definition node_wf (n : ObMvccTransNode) : Prop :=
  hdr_buf_len_ (n_buf_ n) = blen (hdr_buf_ (n_buf_ n)).

(** The row a well-formed node stands for. *)
Definition row_of_node (n : ObMvccTransNode) : ObStoreRow :=
  mkRow (hdr_dml_flag_ (n_buf_ n)) (n_trans_version_ n) (n_tx_id_ n) ObStoreRowkey_default
    (hdr_buf_ (n_buf_ n)) (hdr_dml_flag_ (n_buf_ n) =? DF_DELETE).

Lemma node_row_wf n : node_wf n → node_row n = Done (row_of_node n).
Proof.
  intros Hn. unfold node_row. rewrite Hn, mem_read_ok by auto with mystorage lia.
  cbn [mbind outcome_bind]. by rewrite sub_all.
Qed.

Lemma row_of_node_erase n : row_of_node (erase n) = row_of_node n.
Proof. done. Qed.
Lemma node_wf_erase n : node_wf (erase n) ↔ node_wf n.
Proof. done. Qed.

(** The node [build_tx_node_] makes for a row of [mtd]. *)
Definition tx_node (tx : Z) (dml : ObDmlFlag) (value : bytes) : ObMvccTransNode :=
  mkTransNode tx 1 None None 0 (Z.lor F_INIT F_COMMITTED) (mkDataHeader dml (blen value) value).

Lemma build_tx_node_spec tx dml value cnt :
  ObMvccEngine_build_tx_node_
    (mkTxNodeArg tx (Some (ObMemtableData_set ObMemtableData_default dml (blen value) (Some value))) cnt)
  = Done (0, Some (tx_node tx dml value)).
Proof.
  unfold ObMvccEngine_build_tx_node_. cbn [arg_data_ ObMemtableData_set md_buf_ md_buf_len_].
  destruct (Z.ltb_spec 0 (blen value)).
  - rewrite mem_read_ok, sub_all by auto with mystorage lia. done.
  - destruct value as [|b v]; [done|]. rewrite blen_cons in *. pose proof (blen_nonneg v). lia.
Qed.

(** ** create_kv *)

Definition kv_created (h : Z) (m : contents) : contents :=
  match m !! h with Some _ => m | None => <[h := (0, [])]> m end.

Lemma create_kv_spec e key q m v0 : me_query_engine_ e = true → qe_repr q m → key_consistent key →
  ∃ l q', ObMvccEngine_create_kv e (Some key) v0 q = Done (0, Some l, q')
    ∧ qe_keyhash_ q' !! ObMemtableKey_hash key = Some l
    ∧ qe_repr q' (kv_created (ObMemtableKey_hash key) m).
Proof.
  intros He Hq Hk. unfold ObMvccEngine_create_kv, ObMvccEngine_create_kv_,
    ObMvccEngine_query_engine_get_, use_qe, kv_created. rewrite He.
  cbn [mbind outcome_bind ObQueryEngine_get]. unfold ObMtHash_get. rewrite <-Hk.
  destruct (qe_keyhash_ q !! ObMemtableKey_hash key) as [l|] eqn:Hl.
  - destruct (qe_repr_lookup _ _ _ _ Hq Hl) as (r & vs & _ & _ & _ & ->). exists l, q. done.
  - rewrite (qe_repr_none _ _ _ Hq Hl).
    pose proof (qe_set_new q m key Hq Hk (qe_repr_none _ _ _ Hq Hl)) as Hnew.
    destruct (qe_alloc_row q) as [l q1]. destruct Hnew as (q' & Hset & Hl' & Hq').
    cbn [Z.eqb negb orb]. rewrite Hset. cbn. eauto.
Qed.

Lemma kv_created_lookup h m : ∃ mx vs, kv_created h m !! h = Some (mx, vs)
  ∧ (mx, vs) = default (0, []) (m !! h).
Proof.
  unfold kv_created. destruct (m !! h) as [[mx vs]|] eqn:E; [rewrite E|lk]; eauto.
Qed.

(** ** mvcc_write *)

Lemma engine_write_spec ctx l arg ce res q m h n mx vs :
  qe_repr q m → qe_keyhash_ q !! h = Some l → m !! h = Some (mx, vs) →
  ObMvccEngine_build_tx_node_ arg = Done (0, Some n) →
  match spec_write ctx mx (erase n) vs with
  | WOk vs' mx' =>
      ∃ res' q', ObMvccEngine_mvcc_write ctx l arg ce res q = Done (0, res', q')
        ∧ ObMvccWriteResult_has_insert res' = true
        ∧ qe_keyhash_ q' = qe_keyhash_ q ∧ qe_repr q' (<[h := (mx', vs')]> m)
  | _ => ∃ q', ObMvccEngine_mvcc_write ctx l arg ce res q = Done (-1, ObMvccWriteResult_reset res, q')
        ∧ qe_keyhash_ q' = qe_keyhash_ q ∧ qe_repr q' m
  end.
Proof.
  intros Hq Hl Hm Hb. destruct (qe_repr_lookup _ _ _ _ Hq Hl) as (r & vs0 & Hr & Hx & Hv & Hm').
  rewrite Hm in Hm'. injection Hm' as -> ->.
  pose proof (mvcc_write_spec ctx r vs0 n ce Hv) as Hw.
  pose proof (row_free_alloc_repr r vs0 n Hv) as Hf.
  assert (row_indexed (row_free (row_alloc n r).1 (row_alloc n r).2)) as Hxf by done.
  pose proof (qe_set_row_repr _ _ _ _ _ _ Hq Hl Hxf Hf) as Hqf. cbn [r_max_trans_version_] in Hqf.
  rewrite insert_id in Hqf by done.
  unfold ObMvccEngine_mvcc_write. rewrite Hb. cbn [mbind outcome_bind Z.eqb negb]. rewrite Hr.
  cbn [deref mbind outcome_bind]. destruct (row_alloc n r) as [nl r1] eqn:Hra.
  destruct (spec_write _ _ _ _) as [| |vs' mx'].
  - rewrite Hw. cbn. eauto.
  - rewrite Hw. cbn. eauto.
  - destruct Hw as (r' & -> & Hv' & <- & Hflag). cbn. do 2 eexists. split_and!; [done..|].
    eapply qe_set_row_repr; [done..| |done]. unfold row_indexed, ObMvccRow_is_hash_indexed,
      ObMvccRow_is_btree_indexed in *. by rewrite Hflag.
Qed.

(** Rows that [create_kv] made are already in the btree, so [ensure_kv] does
    nothing, whatever key it is given. *)
Lemma ensure_kv_noop e key q m h l : me_query_engine_ e = true → qe_repr q m →
  qe_keyhash_ q !! h = Some l → ObMvccEngine_ensure_kv e (Some key) (Some l) q = Done (0, q).
Proof.
  intros He Hq Hl. destruct (qe_repr_lookup _ _ _ _ Hq Hl) as (r & vs & Hr & [_ Hx] & _).
  unfold ObMvccEngine_ensure_kv, use_qe, ObQueryEngine_ensure. rewrite He, Hr.
  cbn [deref mbind outcome_bind]. by rewrite Hx.
Qed.

(** ** mvcc_undo *)

(** Unlinking the head of a chain. *)
Lemma undo_row_repr r v vs : row_repr r (v :: vs) →
  ∃ hl n, r_list_head_ r = Some hl ∧ r_store_ r !! hl = Some n ∧
    ∃ st', match n_prev_ n with
           | None => Done (alter ObMvccTransNode_trans_abort hl (r_store_ r))
           | Some p => _ ← deref (alter ObMvccTransNode_trans_abort hl (r_store_ r) !! p);
                       Done (alter (set_next None) p (alter ObMvccTransNode_trans_abort hl (r_store_ r)))
           end = Done st'
    ∧ row_repr (row_free hl (set_row_store st' (set_row_head (n_prev_ n) r))) vs.
Proof.
  intros (ls & (Hc & Hnd & (up & Hb & Hup) & Hbrk) & Hv).
  destruct ls as [|hl ls]; [done|]. destruct Hc as (Hhd & n & Hn & Hc).
  rewrite (versions_cons _ _ _ _ Hn) in Hv. injection Hv as _ Hv.
  exists hl, n. split_and!; [done..|]. apply NoDup_cons in Hnd as [Hnot Hnd].
  destruct Hb as (n' & Hn' & _ & Hb). rewrite Hn in Hn'. injection Hn' as <-.
  set (st1 := alter ObMvccTransNode_trans_abort hl (r_store_ r)).
  assert (∀ x, x ≠ hl → st1 !! x = r_store_ r !! x) as Hst1 by (intros x ?; subst st1; by lk).
  destruct ls as [|p ls].
  - simpl in Hc. rewrite Hc. eexists. split; [done|]. exists []. unfold row_inv. cbn.
    split_and!; try done; [exists None; done|].
    intros l [m Hm]%lookup_delete_is_Some. apply Hbrk. rewrite Hst1 in Hm by done. eauto.
  - destruct Hc as (Hp & pn & Hpn & Hc). destruct Hb as (pn' & Hpn' & Hpup & Hb).
    rewrite Hpn in Hpn'. injection Hpn' as <-. rewrite Hp.
    assert (p ≠ hl) by set_solver. rewrite Hst1, Hpn by done. cbn [deref mbind outcome_bind].
    eexists. split; [done|]. apply NoDup_cons in Hnd as [Hpnot Hnd].
    set (st2 := delete hl (alter (set_next None) p st1)).
    assert (st2 !! p = Some (set_next None pn)) as Hp2.
    { subst st2. lk. by rewrite Hst1, Hpn. }
    assert (∀ x, x ∈ ls → st2 !! x = r_store_ r !! x) as Hst2.
    { intros x Hx. assert (x ≠ p) by set_solver. assert (x ≠ hl) by set_solver.
      subst st2. lk. by rewrite Hst1. }
    exists (p :: ls). split; [split_and!|]; cbn -[versions chain back].
    + split; [done|]. eexists. split; [done|]. cbn. eapply same_chain_chain; [|done].
      intros x Hx m Hm. exists m. by rewrite Hst2.
    + by apply NoDup_cons.
    + exists None. split; [|done]. eexists. split; [done|]. split; [done|].
      eapply back_ext; [|done]. intros x Hx. by rewrite Hst2.
    + fold st2. intros l Hl%lookup_delete_is_Some. destruct Hl as [Hne [m Hm]]. apply Hbrk.
      destruct (decide (p = l)) as [<-|]; [eauto|]. rewrite lookup_alter_ne, Hst1 in Hm by done. eauto.
    + rewrite <-Hv. rewrite (versions_cons _ _ _ _ Hp2), (versions_cons _ _ _ _ Hpn). f_equal.
      eapply same_chain_versions; [done|]. intros x Hx m Hm. exists m. by rewrite Hst2.
Qed.

(** [mvcc_undo] removes the newest version of the row, and only that. *)
Lemma mvcc_undo_spec q m h l mx vs : qe_repr q m → qe_keyhash_ q !! h = Some l →
  m !! h = Some (mx, vs) →
  ∃ q', ObMvccEngine_mvcc_undo (Some l) q = Done q' ∧ qe_keyhash_ q' = qe_keyhash_ q
    ∧ qe_repr q' (<[h := (mx, tail vs)]> m).
Proof.
  intros Hq Hl Hm. destruct (qe_repr_lookup _ _ _ _ Hq Hl) as (r & vs0 & Hr & Hx & Hv & Hm').
  rewrite Hm in Hm'. injection Hm' as -> ->. unfold ObMvccEngine_mvcc_undo. rewrite Hr.
  cbn [deref mbind outcome_bind]. destruct vs0 as [|v vs0].
  - apply row_repr_empty in Hv as [_ Hv]. specialize (Hv eq_refl).
    apply bool_decide_eq_true in Hv. rewrite Hv. exists q. cbn [tail]. by rewrite insert_id.
  - destruct (undo_row_repr _ _ _ Hv) as (hl & n & Hhd & Hn & st' & Hst & Hv').
    rewrite Hhd, Hn. cbn [deref mbind outcome_bind]. lk. rewrite Hn. cbn [fmap option_fmap option_map deref mbind outcome_bind].
    change (n_prev_ (ObMvccTransNode_trans_abort n)) with (n_prev_ n). rewrite Hst.
    cbn [mbind outcome_bind]. eexists. split_and!; [done..|].
    exact (qe_set_row_repr q m h l (row_free hl (set_row_store st' (set_row_head (n_prev_ n) r)))
             vs0 Hq Hl Hx Hv').
Qed.

(** ** Reads *)

Definition contents_wf (m : contents) : Prop :=
  ∀ h mx vs, m !! h = Some (mx, vs) → Forall node_wf vs.

(** The versions of a hash; none when the hash is absent. *)
Definition versions_at (h : Z) (m : contents) : list ObMvccTransNode :=
  default [] (snd <$> m !! h).

Lemma find_wf vis vs n : Forall node_wf vs → List.find vis vs = Some n → node_wf n.
Proof.
  intros Hwf [Hin _]%find_some. rewrite Forall_forall in Hwf. apply Hwf. by apply list_elem_of_In.
Qed.

(** A walk that found a node yields its row. *)
Lemma find_node_row vis r vs : (∀ n, vis (erase n) = vis n) → row_repr r vs → Forall node_wf vs →
  ∃ o, find_node vis r = Done o ∧ row_of_node <$> o = row_of_node <$> List.find vis vs
    ∧ ∀ n, o = Some n → node_row n = Done (row_of_node n).
Proof.
  intros Hvis Hv Hwf. destruct (find_node_spec vis r vs Hvis Hv) as (o & Ho & He).
  exists o. split_and!; [done| |].
  - rewrite <-He. by destruct o.
  - intros n ->. apply node_row_wf. apply (find_wf vis vs (erase n)); [done|]. by rewrite <-He.
Qed.

(** [get] appends the row of the newest visible version of the key's hash. *)
Lemma engine_get_spec e ctx key results q m :
  me_query_engine_ e = true → qe_repr q m → contents_wf m → key_consistent key →
  ObMvccEngine_get e ctx (Some key) results q
  = Done (match List.find (get_visible ctx) (versions_at (ObMemtableKey_hash key) m) with
          | Some n => (0, results ++ [row_of_node n])
          | None => (-1, results)
          end).
Proof.
  intros He Hq Hwf Hk. unfold ObMvccEngine_get, ObMvccEngine_query_engine_get_, use_qe, versions_at.
  rewrite He. cbn [mbind outcome_bind ObQueryEngine_get]. unfold ObMtHash_get. rewrite <-Hk.
  destruct (qe_keyhash_ q !! ObMemtableKey_hash key) as [l|] eqn:Hl.
  - destruct (qe_repr_lookup _ _ _ _ Hq Hl) as (r & vs & Hr & _ & Hv & Hm).
    rewrite Hr, Hm. cbn [Z.eqb negb deref mbind outcome_bind fmap option_fmap option_map default from_option id snd].
    destruct (find_node_row (get_visible ctx) r vs) as (o & -> & Ho & Hrow); [done|done|by eapply Hwf|].
    cbn [mbind outcome_bind]. destruct o as [n|], (List.find _ vs) as [n'|]; try done.
    rewrite (Hrow n) by done. apply (inj Some) in Ho. cbn [mbind outcome_bind]. by rewrite Ho.
  - by rewrite (qe_repr_none _ _ _ Hq Hl).
Qed.

(** [scan]: one row per non-empty chain of the range, the newest visible
    version of each, in hash order. *)
Definition scan_result (vis : ObMvccTransNode → bool) (m : contents) (hs : list Z)
    : list ObStoreRow :=
  omap (λ h, row_of_node <$> List.find vis (versions_at h m)) hs.

Lemma scan_row_spec vis q m h l : (∀ n, vis (erase n) = vis n) →
  qe_repr q m → contents_wf m → qe_keyhash_ q !! h = Some l →
  scan_row vis q l = Done (option_list (row_of_node <$> List.find vis (versions_at h m))).
Proof.
  intros Hvis Hq Hwf Hl. destruct (qe_repr_lookup _ _ _ _ Hq Hl) as (r & vs & Hr & _ & Hv & Hm).
  unfold scan_row, versions_at. rewrite Hr, Hm. cbn [deref mbind outcome_bind fmap option_fmap option_map default from_option id snd].
  destruct (ObMvccRow_is_empty r) eqn:Hem.
  - apply (row_repr_empty _ _ Hv) in Hem as ->. done.
  - destruct (find_node_row vis r vs Hvis Hv) as (o & -> & Ho & Hrow); [by eapply Hwf|].
    cbn [mbind outcome_bind]. destruct o as [n|], (List.find _ vs) as [n'|]; try done.
    rewrite (Hrow n) by done. apply (inj Some) in Ho. cbn [mbind outcome_bind]. by rewrite Ho.
Qed.

(** The scan loop is the iterator's pass followed by one walk per row. *)
Lemma scan_loop_collect ctx q fuel it ls results (f : loc → list ObStoreRow) :
  iter_collect fuel q it = Done ls →
  (∀ l, l ∈ ls → scan_row (scan_visible ctx) q l = Done (f l)) →
  scan_loop ctx fuel q it results = Done (results ++ concat (f <$> ls)).
Proof.
  revert it ls results. induction fuel as [|fuel IH]; intros it ls results; [done|].
  cbn [iter_collect scan_loop]. intros H. apply outcome_bind_inv in H as ([ret it'] & -> & H).
  cbn [mbind outcome_bind]. destruct (ret =? 0).
  - apply outcome_bind_inv in H as (v & Hv & H). apply deref_inv in Hv. rewrite Hv.
    apply outcome_bind_inv in H as (rest & Hrest & [= <-]). intros Hf.
    rewrite (Hf v) by set_solver. cbn [mbind outcome_bind].
    rewrite (IH _ _ _ Hrest) by (intros; apply Hf; set_solver). cbn. by rewrite <-app_assoc.
  - injection H as <-. intros _. cbn. by rewrite app_nil_r.
Qed.

Lemma scan_row_empty vis q l : nonempty_row (qe_rows_ q) l = false → is_Some (qe_rows_ q !! l) →
  scan_row vis q l = Done [].
Proof.
  unfold nonempty_row, scan_row. intros Hn [r Hr]. rewrite Hr in *. cbn.
  by destruct (ObMvccRow_is_empty r).
Qed.

Definition in_range (sk ek : option ObMemtableKey) (ee : bool) (h : Z) : Prop :=
  start_hash sk ≤ h ∧ below_end (end_hash ek) ee h.
#[export] Instance in_range_dec sk ek ee h : Decision (in_range sk ek ee h).
Proof. unfold in_range. apply _. Defined.

Lemma engine_scan_spec e ctx sk se ek ee results q m :
  me_query_engine_ e = true → qe_repr q m → contents_wf m →
  ObMvccEngine_scan e ctx sk se ek ee results q
  = Done (0, results ++ scan_result (scan_visible ctx) m
                          (filter (in_range sk ek ee) (qe_btree_ q).*1)).
Proof.
  intros He Hq Hwf. unfold ObMvccEngine_scan, use_qe. rewrite He.
  cbn [ObQueryEngine_scan Z.eqb negb].
  set (f l := match scan_row (scan_visible ctx) q l with Done x => x | _ => [] end).
  assert (∀ k l, (k, l) ∈ qe_btree_ q → scan_row (scan_visible ctx) q l = Done (f l)
            ∧ f l = option_list (row_of_node <$> List.find (scan_visible ctx) (versions_at k m))
            ∧ (nonempty_row (qe_rows_ q) l = false → f l = [])) as Hf.
  { intros k l Hkl. pose proof (qe_all_live q [(k, l)] (proj1 Hq) ltac:(set_solver)) as Hlv.
    apply Forall_cons in Hlv as [Hlv _]. apply om_elem_lookup in Hkl; [|by apply Hq].
    rewrite qe_agree in Hkl by apply Hq.
    pose proof (scan_row_spec (scan_visible ctx) q m k l ltac:(done) Hq Hwf Hkl) as Hs.
    subst f. cbn. rewrite Hs. split_and!; [done..|]. intros Hn.
    rewrite scan_row_empty in Hs by done. by injection Hs. }
  rewrite (scan_loop_collect ctx q _ _ _ _ f (scan_collect q sk se ek ee (proj1 Hq))).
  2:{ intros l ((k & l') & -> & [_ Hin]%list_elem_of_filter)%list_elem_of_fmap. by eapply Hf. }
  cbn [mbind outcome_bind]. do 3 f_equal. unfold scan_result. clear -Hf.
  induction (qe_btree_ q) as [|[k l] t IH]; [done|].
  destruct (Hf k l ltac:(set_solver)) as (_ & Hfl & Hne). rewrite (filter_cons _ (k, l)).
  cbn [fmap list_fmap fst snd]. rewrite (filter_cons _ k).
  specialize (IH ltac:(intros; apply Hf; set_solver)).
  destruct (decide (in_range sk ek ee k)) as [Hr|Hr].
  - destruct (nonempty_row (qe_rows_ q) l) eqn:Hn.
    + rewrite decide_True by (unfold in_range, above_start in *; naive_solver).
      cbn [fmap list_fmap concat omap list_omap fst snd]. rewrite Hfl, IH. by destruct (List.find _ _).
    + rewrite decide_False by naive_solver. rewrite IH.
      cbn [omap list_omap]. rewrite Hne in Hfl by done.
      by destruct (List.find _ _).
  - rewrite decide_False; [done|]. unfold in_range, above_start in *. naive_solver.
Qed.

(** A row is locked when its newest version is undecided. *)
Lemma check_row_locked_spec e key tx0 q m :
  me_query_engine_ e = true → qe_repr q m → key_consistent key →
  ObMvccEngine_check_row_locked e (Some key) tx0 q
  = Done (match versions_at (ObMemtableKey_hash key) m with
          | n :: _ => if negb (ObMvccTransNode_is_committed n) && negb (ObMvccTransNode_is_aborted n)
                      then (0, true, n_tx_id_ n) else (0, false, tx0)
          | [] => (0, false, tx0)
          end).
Proof.
  intros He Hq Hk. unfold ObMvccEngine_check_row_locked, ObMvccEngine_query_engine_get_, use_qe, versions_at.
  rewrite He. cbn [mbind outcome_bind ObQueryEngine_get]. unfold ObMtHash_get. rewrite <-Hk.
  destruct (qe_keyhash_ q !! ObMemtableKey_hash key) as [l|] eqn:Hl.
  - destruct (qe_repr_lookup _ _ _ _ Hq Hl) as (r & vs & Hr & _ & (ls & (Hc & _) & Hv) & Hm).
    rewrite Hr, Hm. cbn [Z.eqb negb deref mbind outcome_bind fmap option_fmap option_map default from_option id snd].
    destruct ls as [|x ls]; cbn in Hc.
    + rewrite Hc. by subst vs.
    + destruct Hc as (-> & n & Hn & _). rewrite (versions_cons _ _ _ _ Hn) in Hv. subst vs.
      rewrite Hn. cbn [deref mbind outcome_bind]. rewrite erase_committed, erase_aborted.
      by destruct (_ && _).
  - by rewrite (qe_repr_none _ _ _ Hq Hl).
Qed.

(** ** Histories of the engine *)

(** The key of a row: [encode] leaves the default key for an invalid one. *)
Definition key_of (rk : ObStoreRowkey) : ObMemtableKey :=
  (ObMemtableKey_encode ObMemtableKey_default (Some rk)).2.
Lemma key_of_consistent rk : key_consistent (key_of rk).
Proof.
  unfold key_of. destruct (ObStoreRowkey_is_valid rk) eqn:E; [by apply encode_consistent|].
  rewrite ObMemtableKey_encode_bad by done. apply key_consistent_default.
Qed.
#[export] Hint Resolve key_of_consistent : mystorage.

Inductive engine_op :=
  | EWrite (ctx : ObStoreCtx) (rk : ObStoreRowkey) (dml : ObDmlFlag) (value : bytes)
  | EUndo (rk : ObStoreRowkey)
  | EGet (ctx : ObStoreCtx) (rk : ObStoreRowkey)
  | EScan (ctx : ObStoreCtx) (sk : option ObStoreRowkey) (se : bool) (ek : option ObStoreRowkey) (ee : bool)
  | ELocked (rk : ObStoreRowkey).
Inductive engine_answer :=
  | ACode (ret : Z)
  | ARows (ret : Z) (rows : list ObStoreRow)
  | ALocked (ret : Z) (is_locked : bool) (trans_id : Z).

(** A write is [create_kv], [mvcc_write], [ensure_kv]; an undo looks the row up
    and calls [mvcc_undo]. *)
Definition engine_write (e : ObMvccEngine) (ctx : ObStoreCtx) (rk : ObStoreRowkey) (dml : ObDmlFlag)
    (value : bytes) (q : ObQueryEngine) : outcome (Z * ObQueryEngine) :=
  x ← ObMvccEngine_create_kv e (Some (key_of rk)) None q;
  let '(ret, v, q) := x : Z * option loc * ObQueryEngine in
  match v with
  | None => Done (-1, q)
  | Some l =>
      if negb (ret =? 0) then Done (-1, q)
      else
        let data := ObMemtableData_set ObMemtableData_default dml (blen value) (Some value) in
        y ← ObMvccEngine_mvcc_write ctx l (mkTxNodeArg (tx_id_ ctx) (Some data) 0) true
              ObMvccWriteResult_default q;
        let '(ret, _, q) := y : Z * ObMvccWriteResult * ObQueryEngine in
        if negb (ret =? 0) then Done (ret, q)
        else
          z ← ObMvccEngine_ensure_kv e (Some (key_of rk)) (Some l) q;
          let '(_, q) := z : Z * ObQueryEngine in Done (0, q)
  end.
Definition engine_step (e : ObMvccEngine) (op : engine_op) (q : ObQueryEngine)
    : outcome (engine_answer * ObQueryEngine) :=
  match op with
  | EWrite ctx rk dml value =>
      x ← engine_write e ctx rk dml value q;
      let '(ret, q) := x : Z * ObQueryEngine in Done (ACode ret, q)
  | EUndo rk =>
      x ← ObMvccEngine_query_engine_get_ e (Some (key_of rk)) None q;
      q ← ObMvccEngine_mvcc_undo x.2 q;
      Done (ACode 0, q)
  | EGet ctx rk =>
      x ← ObMvccEngine_get e ctx (Some (key_of rk)) [] q;
      let '(ret, rows) := x : Z * list ObStoreRow in Done (ARows ret rows, q)
  | EScan ctx sk se ek ee =>
      x ← ObMvccEngine_scan e ctx (key_of <$> sk) se (key_of <$> ek) ee [] q;
      let '(ret, rows) := x : Z * list ObStoreRow in Done (ARows ret rows, q)
  | ELocked rk =>
      x ← ObMvccEngine_check_row_locked e (Some (key_of rk)) OB_INVALID_TRANS_ID q;
      let '(ret, locked, tx) := x : Z * bool * Z in Done (ALocked ret locked tx, q)
  end.
Fixpoint engine_run (e : ObMvccEngine) (ops : list engine_op) (q : ObQueryEngine)
    : outcome (list engine_answer * ObQueryEngine) :=
  match ops with
  | [] => Done ([], q)
  | op :: ops =>
      x ← engine_step e op q;
      let '(a, q) := x : engine_answer * ObQueryEngine in
      y ← engine_run e ops q;
      let '(out, q) := y : list engine_answer * ObQueryEngine in Done (a :: out, q)
  end.

(** *** The abstract engine: a map from hashes to versions *)

Definition hash_of (rk : ObStoreRowkey) : Z := ObMemtableKey_hash (key_of rk).
Definition sorted_hashes (m : contents) : list Z := merge_sort Z.le (elements (dom m)).

(** One version chain after a write; a refused write leaves it. *)
Definition write_at (ctx : ObStoreCtx) (h : Z) (v : ObMvccTransNode) (m : contents) : Z * contents :=
  let m := kv_created h m in
  let '(mx, vs) := default (0, []) (m !! h) in
  match spec_write ctx mx v vs with
  | WOk vs' mx' => (0, <[h := (mx', vs')]> m)
  | _ => (-1, m)
  end.
Definition spec_engine_step (op : engine_op) (m : contents) : engine_answer * contents :=
  match op with
  | EWrite ctx rk dml value =>
      let '(ret, m) := write_at ctx (hash_of rk) (tx_node (tx_id_ ctx) dml value) m in (ACode ret, m)
  | EUndo rk =>
      (ACode 0, match m !! hash_of rk with
                | Some (mx, vs) => <[hash_of rk := (mx, tail vs)]> m
                | None => m
                end)
  | EGet ctx rk =>
      (match List.find (get_visible ctx) (versions_at (hash_of rk) m) with
       | Some n => ARows 0 [row_of_node n]
       | None => ARows (-1) []
       end, m)
  | EScan ctx sk se ek ee =>
      (ARows 0 (scan_result (scan_visible ctx) m
                  (filter (in_range (key_of <$> sk) (key_of <$> ek) ee) (sorted_hashes m))), m)
  | ELocked rk =>
      (match versions_at (hash_of rk) m with
       | n :: _ => if negb (ObMvccTransNode_is_committed n) && negb (ObMvccTransNode_is_aborted n)
                   then ALocked 0 true (n_tx_id_ n) else ALocked 0 false OB_INVALID_TRANS_ID
       | [] => ALocked 0 false OB_INVALID_TRANS_ID
       end, m)
  end.
Fixpoint spec_engine_run (ops : list engine_op) (m : contents) : list engine_answer * contents :=
  match ops with
  | [] => ([], m)
  | op :: ops =>
      let '(a, m) := spec_engine_step op m in
      let '(out, m) := spec_engine_run ops m in (a :: out, m)
  end.

(** *** The engine implements it *)

Lemma btree_hashes q m : qe_repr q m → (qe_btree_ q).*1 = sorted_hashes m.
Proof.
  intros Hq. pose proof (proj1 Hq) as Hinv. pose proof (qe_sorted _ Hinv) as Hs.
  apply (StronglySorted_unique Z.le).
  - unfold om_sorted in Hs. clear -Hs. induction Hs as [|h hs _ IH Hall]; constructor; [done|].
    eapply Forall_impl; [exact Hall|]. cbn. lia.
  - apply Sorted_StronglySorted; [apply _|]. apply Sorted_merge_sort, _.
  - unfold sorted_hashes. rewrite merge_sort_Permutation. apply NoDup_Permutation;
      [by apply om_sorted_NoDup|apply NoDup_elements|].
    intros h. rewrite elem_of_elements, elem_of_dom. split.
    + intros ([k l] & -> & He)%list_elem_of_fmap. apply om_elem_lookup in He; [|done].
      rewrite (qe_agree _ Hinv) in He. cbn. destruct (qe_repr_lookup _ _ _ _ Hq He) as (? & ? & _ & _ & _ & ->).
      eauto.
    + intros [x Hx]. destruct (qe_keyhash_ q !! h) as [l|] eqn:Hh.
      * apply list_elem_of_fmap. exists (h, l). split; [done|]. apply om_elem_lookup; [done|].
        by rewrite (qe_agree _ Hinv).
      * by rewrite (qe_repr_none _ _ _ Hq Hh) in Hx.
Qed.

Lemma tx_node_wf tx dml value : node_wf (tx_node tx dml value).
Proof. done. Qed.

Lemma kv_created_wf h m : contents_wf m → contents_wf (kv_created h m).
Proof.
  intros Hm h' mx vs. unfold kv_created. destruct (m !! h) eqn:E; [apply Hm|].
  destruct (decide (h' = h)) as [->|Hne]; lk; [intros [= <- <-]; constructor|apply Hm].
Qed.

Lemma contents_wf_insert h mx vs m : contents_wf m → Forall node_wf vs → contents_wf (<[h := (mx, vs)]> m).
Proof.
  intros Hm Hvs h' mx' vs'. destruct (decide (h' = h)) as [->|Hne]; lk; [intros [= <- <-]; done|apply Hm].
Qed.

Lemma spec_write_wf ctx mx v vs vs' mx' : node_wf v → Forall node_wf vs →
  spec_write ctx mx v vs = WOk vs' mx' → Forall node_wf vs'.
Proof.
  intros Hv Hvs. unfold spec_write. destruct (negb _); [done|]. destruct (_ && _); [done|].
  intros [= <- _]. constructor; [done|]. by apply skip_aborted_Forall.
Qed.

Lemma engine_write_step e ctx rk dml value q m : me_query_engine_ e = true → qe_repr q m → contents_wf m →
  let '(ret, m') := write_at ctx (hash_of rk) (tx_node (tx_id_ ctx) dml value) m in
  ∃ q', engine_write e ctx rk dml value q = Done (ret, q') ∧ qe_repr q' m' ∧ contents_wf m'.
Proof.
  intros He Hq Hm. unfold engine_write, write_at, hash_of.
  destruct (create_kv_spec e (key_of rk) q m None He Hq (key_of_consistent rk)) as (l & q1 & -> & Hl & Hq1).
  cbn [mbind outcome_bind Z.eqb negb].
  destruct (kv_created_lookup (ObMemtableKey_hash (key_of rk)) m) as (mx & vs & Hlk & _).
  pose proof (kv_created_wf (ObMemtableKey_hash (key_of rk)) m Hm) as Hwf.
  pose proof (engine_write_spec ctx l _ true ObMvccWriteResult_default q1 _ _ _ mx vs Hq1 Hl Hlk
                (build_tx_node_spec (tx_id_ ctx) dml value 0)) as Hw.
  rewrite Hlk. cbn [default id].
  change (erase (tx_node (tx_id_ ctx) dml value)) with (tx_node (tx_id_ ctx) dml value) in Hw.
  destruct (spec_write ctx mx _ vs) as [| |vs' mx'] eqn:E.
  1-2: destruct Hw as (q' & -> & _ & Hq'); cbn [mbind outcome_bind Z.eqb negb]; by exists q'.
  destruct Hw as (res & q' & -> & _ & Hk & Hq'). cbn [mbind outcome_bind Z.eqb negb].
  rewrite (ensure_kv_noop e (key_of rk) q' _ (ObMemtableKey_hash (key_of rk)) l He Hq') by (by rewrite Hk).
  exists q'. split; [done|]. split; [done|]. apply contents_wf_insert; [done|].
  eapply spec_write_wf; [apply tx_node_wf|by eapply Hwf|exact E].
Qed.

Lemma engine_step_spec e op q m : me_query_engine_ e = true → qe_repr q m → contents_wf m →
  let '(a, m') := spec_engine_step op m in
  ∃ q', engine_step e op q = Done (a, q') ∧ qe_repr q' m' ∧ contents_wf m'.
Proof.
  intros He Hq Hm. destruct op as [ctx rk dml value|rk|ctx rk|ctx sk se ek ee|rk]; cbn [spec_engine_step engine_step].
  - pose proof (engine_write_step e ctx rk dml value q m He Hq Hm) as Hw.
    destruct (write_at _ _ _ m) as [ret m']. destruct Hw as (q' & -> & Hq' & Hm'). by exists q'.
  - unfold ObMvccEngine_query_engine_get_, use_qe. rewrite He. cbn [mbind outcome_bind].
    unfold ObQueryEngine_get, ObMtHash_get. rewrite <-(key_of_consistent rk). fold (hash_of rk).
    destruct (qe_keyhash_ q !! hash_of rk) as [l|] eqn:Hl; cbn [snd].
    + destruct (qe_repr_lookup _ _ _ _ Hq Hl) as (r & vs & _ & _ & _ & Hlk). rewrite Hlk.
      destruct (mvcc_undo_spec q m _ l _ vs Hq Hl Hlk) as (q' & -> & _ & Hq'). cbn [mbind outcome_bind].
      exists q'. split; [done|]. split; [done|]. apply contents_wf_insert; [done|].
      specialize (Hm _ _ _ Hlk). destruct vs; [done|by inversion Hm].
    + rewrite (qe_repr_none _ _ _ Hq Hl). by exists q.
  - rewrite (engine_get_spec e ctx (key_of rk) [] q m) by (done || apply key_of_consistent).
    fold (hash_of rk). exists q. destruct (List.find _ _); by split.
  - rewrite (engine_scan_spec e ctx _ se _ ee [] q m) by done. rewrite (btree_hashes q m) by done. by exists q.
  - rewrite (check_row_locked_spec e (key_of rk) _ q m) by (done || apply key_of_consistent).
    fold (hash_of rk). exists q. destruct (versions_at _ m) as [|n ?]; [done|]. by destruct (_ && _).
Qed.

Lemma engine_run_spec e ops : me_query_engine_ e = true → ∀ q m, qe_repr q m → contents_wf m →
  let '(out, m') := spec_engine_run ops m in
  ∃ q', engine_run e ops q = Done (out, q') ∧ qe_repr q' m' ∧ contents_wf m'.
Proof.
  intros He. induction ops as [|op ops IH]; intros q m Hq Hm; cbn [spec_engine_run engine_run]; [by exists q|].
  pose proof (engine_step_spec e op q m He Hq Hm) as Hs. destruct (spec_engine_step op m) as [a m1].
  destruct Hs as (q1 & -> & Hq1 & Hm1). cbn [mbind outcome_bind]. specialize (IH q1 m1 Hq1 Hm1).
  destruct (spec_engine_run ops m1) as [out m2]. destruct IH as (q2 & -> & Hq2 & Hm2). by exists q2.
Qed.

(** C5: the MVCC engine is a map of version lists.  Whatever sequence of
    writes, undos, point reads, range scans and lock checks is run on an
    initialised engine over empty indexes, every call returns (no bad pointer,
    no endless walk) and gives the answer of the abstract engine: a map from key
    hashes to version lists, in which a read finds the newest visible version, a
    scan goes over the hashes in increasing order, a write follows the
    conflict and snapshot rules and an undo removes the newest version.  The
    hash table and the ordered index stay in agreement throughout. *)
Theorem mvcc_engine_refines_version_map ops :
  let e := (ObMvccEngine_init true true ObMvccEngine_new).2 in
  let '(out, m) := spec_engine_run ops ∅ in
  ∃ q, engine_run e ops ObQueryEngine_new = Done (out, q) ∧ qe_repr q m.
Proof.
  cbn zeta. pose proof (engine_run_spec (ObMvccEngine_init true true ObMvccEngine_new).2 ops eq_refl
    ObQueryEngine_new ∅ ObQueryEngine_new_repr ltac:(done)) as H.
  destruct (spec_engine_run ops ∅) as [out m]. destruct H as (q & E & Hq & _). by exists q.
Qed.

(** ** Point reads and scans *)

Lemma sorted_hashes_singleton h x : sorted_hashes {[h := x]} = [h].
Proof. unfold sorted_hashes. by rewrite dom_singleton_L, elements_singleton. Qed.

Lemma hash_of_range rk : 0 ≤ hash_of rk ≤ UINT64_MAX.
Proof.
  unfold hash_of. rewrite (key_of_consistent rk).
  pose proof (ObStoreRowkeyWrapper_hash_range (mkWrapper (mk_rowkey_ (key_of rk)))). unfold UINT64_MAX. lia.
Qed.

Lemma write_at_empty ctx h v : snapshot_version_ ctx = 0 →
  write_at ctx h v ∅ = (0, {[h := (0, [v])]}).
Proof.
  intros Hs. unfold write_at, kv_created. rewrite lookup_empty. lk. cbn [default id].
  unfold spec_write. cbn [skip_aborted write_free negb]. rewrite Hs.
  change (0 =? OB_INVALID_VERSION) with false. cbn [negb andb Z.ltb Z.compare Z.max].
  by rewrite insert_insert_eq.
Qed.

(** [get] and [scan] disagree on what a snapshot sees.  The engine commits
    every node it builds with version 1.  A transaction whose snapshot is 0 and
    that has just written a key does not find it with [get], which hides
    committed versions above the snapshot, but does find it with [scan], which
    falls through to the test for the transaction's own writes. *)
Theorem get_hides_what_scan_shows tx timeout rk dml value :
  let e := (ObMvccEngine_init true true ObMvccEngine_new).2 in
  let ctx := mkCtx tx 0 timeout in
  ∃ q, engine_run e [EWrite ctx rk dml value; EGet ctx rk; EScan ctx None false None false] ObQueryEngine_new
       = Done ([ACode 0; ARows (-1) []; ARows 0 [row_of_node (tx_node tx dml value)]], q).
Proof.
  cbn zeta. set (ctx := mkCtx tx 0 timeout).
  pose proof (engine_run_spec (ObMvccEngine_init true true ObMvccEngine_new).2
    [EWrite ctx rk dml value; EGet ctx rk; EScan ctx None false None false] eq_refl
    ObQueryEngine_new ∅ ObQueryEngine_new_repr ltac:(done)) as H.
  cbn [spec_engine_run spec_engine_step] in H. rewrite (write_at_empty ctx) in H by done.
  cbv beta iota in H. rewrite sorted_hashes_singleton in H.
  assert (versions_at (hash_of rk) {[hash_of rk := (0, [tx_node tx dml value])]} = [tx_node tx dml value]) as Hv.
  { unfold versions_at. rewrite lookup_singleton_eq. done. }
  cbn [ctx tx_id_] in H. rewrite Hv in H. pose proof (hash_of_range rk) as Hr.
  rewrite filter_cons_True, filter_nil in H by (split; [cbn; lia|]; split; [cbn; lia|done]).
  unfold scan_result in H. cbn [omap list_omap] in H. rewrite Hv in H.
  assert (List.find (get_visible (mkCtx tx 0 timeout)) [tx_node tx dml value] = None) as Hg by done.
  assert (List.find (scan_visible (mkCtx tx 0 timeout)) [tx_node tx dml value] = Some (tx_node tx dml value)) as Hsc.
  { cbn [List.find]. unfold scan_visible. cbn. by rewrite Z.eqb_refl. }
  change ctx with (mkCtx tx 0 timeout) in H. rewrite Hg, Hsc in H. destruct H as (q & E & _). by exists q.
Qed.
