(* ===== verification/Posix.v ===== *)
(** * The operating system calls the storage code makes

    The log and block files are read and written with [open], [lseek] +
    [read]/[write] (or [pread]/[pwrite]), [ftruncate], [unlink] and [stat].
    A file is sparse: its size and the bytes written to it, the others being
    0.  Paths name inodes, so a descriptor stays usable after [unlink].

    [os_faults] schedules failures: each [open], [read], [write] and
    [ftruncate] takes one entry; a negative entry makes the call fail, [k >= 0]
    lets a read or write transfer at most [k] bytes, and with the schedule
    used up every call succeeds in full.  [os_heap] is the memory [malloc]
    hands out, with whatever it contains. *)

From S2P Require Import Prelude.

Abbreviation inode := positive (only parsing).

Record file := mkFile { f_size : Z; f_data : gmap Z Z }.

Record os := mkOs {
  os_dir : gmap string inode;
  os_inodes : gmap inode file;
  os_next : inode;
  os_faults : list Z;
  os_heap : Z → Z;
  os_brk : Z }.

Definition os_empty : os := mkOs ∅ ∅ 1%positive [] (λ _, 0) 0.

Definition set_inodes (m : gmap inode file) (s : os) : os :=
  mkOs (os_dir s) m (os_next s) (os_faults s) (os_heap s) (os_brk s).
Definition set_faults (l : list Z) (s : os) : os :=
  mkOs (os_dir s) (os_inodes s) (os_next s) l (os_heap s) (os_brk s).
Definition set_dir (d : gmap string inode) (s : os) : os :=
  mkOs d (os_inodes s) (os_next s) (os_faults s) (os_heap s) (os_brk s).

(** ** Files *)

Definition byte_at (f : file) (i : Z) : Z := default 0 (f_data f !! i).

(** The bytes of [f] at [off, off + n). *)
Definition region (f : file) (off n : Z) : bytes := byte_at f <$> seqZ off n.

Fixpoint put_bytes (off : Z) (bs : bytes) (m : gmap Z Z) : gmap Z Z :=
  match bs with
  | [] => m
  | b :: bs' => <[off := b]> (put_bytes (off + 1) bs' m)
  end.

Definition file_read (f : file) (off n : Z) : bytes :=
  region f off (Z.min n (f_size f - off)).
Definition file_write (f : file) (off : Z) (bs : bytes) : file :=
  mkFile (Z.max (f_size f) (off + blen bs))
         (put_bytes off bs (f_data f)).
Definition file_truncate (f : file) (n : Z) : file :=
  mkFile n (filter (λ e, e.1 < n) (f_data f)).

(** ** Calls *)

(** The next scheduled fault. *)
Definition take_fault (s : os) : option Z * os :=
  match os_faults s with
  | [] => (None, s)
  | k :: l => (Some k, set_faults l s)
  end.

Definition failed (o : option Z) : bool := match o with Some k => k <? 0 | None => false end.
Definition granted (o : option Z) (n : Z) : Z :=
  match o with Some k => Z.min k n | None => n end.

Definition sys_exists (path : string) (s : os) : bool := bool_decide (is_Some (os_dir s !! path)).

(** [open(path, O_RDWR [| O_CREAT] [| O_TRUNC])]. *)
Definition sys_open (path : string) (creat trunc : bool) (s : os) : option inode * os :=
  let '(o, s) := take_fault s in
  if failed o then (None, s)
  else match os_dir s !! path with
       | Some i =>
           (Some i, if trunc then set_inodes (alter (λ f, file_truncate f 0) i (os_inodes s)) s else s)
       | None =>
           if creat then
             let i := os_next s in
             (Some i, mkOs (<[path := i]> (os_dir s)) (<[i := mkFile 0 ∅]> (os_inodes s))
                        (Pos.succ i) (os_faults s) (os_heap s) (os_brk s))
           else (None, s)
       end.

(** [lseek(fd, off)] followed by [write(fd, bs, len)]: the count written, or -1. *)
Definition sys_write (i : inode) (off : Z) (bs : bytes) (s : os) : Z * os :=
  let '(o, s) := take_fault s in
  if failed o then (-1, s)
  else
    let n := granted o (blen bs) in
    (n, set_inodes (alter (λ f, file_write f off (sub 0 n bs)) i (os_inodes s)) s).

(** [write] on a descriptor opened with [O_APPEND]: the end of the file at the
    time of the call. *)
Definition sys_append (i : inode) (bs : bytes) (s : os) : Z * os :=
  sys_write i (match os_inodes s !! i with Some f => f_size f | None => 0 end) bs s.

(** [lseek(fd, off)] followed by [read(fd, buf, n)]: the bytes read, or [None]. *)
Definition sys_read (i : inode) (off n : Z) (s : os) : option bytes * os :=
  let '(o, s) := take_fault s in
  if failed o then (None, s)
  else match os_inodes s !! i with
       | Some f => (Some (file_read f off (granted o n)), s)
       | None => (None, s)
       end.

Definition sys_ftruncate (i : inode) (n : Z) (s : os) : Z * os :=
  let '(o, s) := take_fault s in
  if failed o then (-1, s) else (0, set_inodes (alter (λ f, file_truncate f n) i (os_inodes s)) s).

Definition sys_unlink (path : string) (s : os) : os := set_dir (delete path (os_dir s)) s.

(** [malloc(n)]: the uninitialised bytes handed out. *)
Definition sys_malloc (n : Z) (s : os) : bytes * os :=
  (os_heap s <$> seqZ (os_brk s) n,
   mkOs (os_dir s) (os_inodes s) (os_next s) (os_faults s) (os_heap s) (os_brk s + n)).

(** [std::ofstream(path, binary)], [write]s of [data] in total, [close]: the
    file is created or emptied and the buffered bytes are written; a failed
    write only sets the state of the stream.  The first component is
    [is_open()]. *)
Definition ofstream_write (path : string) (data : bytes) (s : os) : bool * os :=
  let '(fd, s) := sys_open path true true s in
  match fd with
  | None => (false, s)
  | Some i => (true, (sys_write i 0 data s).2)
  end.

(** [std::ifstream(path, binary)], [seekg(off)], [read(buf, n)], [close]: what
    was read ([None] when the file does not open; a failed read leaves the
    buffer as it was). *)
Definition ifstream_read (path : string) (off n : Z) (s : os) : option bytes * os :=
  let '(fd, s) := sys_open path false false s in
  match fd with
  | None => (None, s)
  | Some i => let '(d, s) := sys_read i off n s in (Some (default [] d), s)
  end.

(** [seekg(0, end); tellg()] on an open file. *)
Definition sys_size (path : string) (s : os) : Z :=
  match os_dir s !! path ≫= (os_inodes s !!.) with Some f => f_size f | None => -1 end.

(** The file a path names. *)
Definition file_of (path : string) (s : os) : option file := os_dir s !! path ≫= (os_inodes s !!.).

(** After a restart the files are there (and the file system knows which inode
    numbers are taken), nothing else is. *)
Definition reboot (s s' : os) : Prop :=
  os_dir s' = os_dir s ∧ os_inodes s' = os_inodes s ∧ os_faults s' = [] ∧ os_next s' = os_next s.

Lemma reboot_trans s1 s2 s3 : reboot s1 s2 → reboot s2 s3 → reboot s1 s3.
Proof. intros (? & ? & _ & ?) (? & ? & ? & ?). split_and!; congruence. Qed.

(** Inodes in use are below [os_next] and every name has an inode. *)
Definition os_wf (s : os) : Prop :=
  (∀ i, is_Some (os_inodes s !! i) → (i < os_next s)%positive) ∧
  (∀ p i, os_dir s !! p = Some i → is_Some (os_inodes s !! i)) ∧
  (∀ p p' i, os_dir s !! p = Some i → os_dir s !! p' = Some i → p = p').

(** ** Lemmas *)

Lemma os_empty_wf : os_wf os_empty.
Proof. split_and!; [intros i [? H]|intros p i H|intros p p' i H]; discriminate H. Qed.


Lemma put_bytes_lookup off bs m i :
  put_bytes off bs m !! i
  = if bool_decide (off ≤ i < off + blen bs) then Some (nth (Z.to_nat (i - off)) bs 0) else m !! i.
Proof.
  revert off. induction bs as [|b bs IH]; intros off; cbn [put_bytes].
  - rewrite bool_decide_false; [done|]. rewrite blen_nil. lia.
  - rewrite blen_cons. destruct (decide (off = i)) as [->|].
    + rewrite lookup_insert_eq. rewrite bool_decide_true by (pose proof (blen_nonneg bs); lia).
      by rewrite Z.sub_diag.
    + rewrite lookup_insert_ne, IH by done. repeat case_bool_decide; try lia; [|done].
      replace (Z.to_nat (i - off)) with (S (Z.to_nat (i - (off + 1)))) by lia. done.
Qed.

Lemma byte_at_write f off bs i :
  byte_at (file_write f off bs) i
  = if bool_decide (off ≤ i < off + blen bs) then nth (Z.to_nat (i - off)) bs 0 else byte_at f i.
Proof.
  unfold byte_at, file_write. cbn. rewrite put_bytes_lookup. by case_bool_decide.
Qed.

Lemma blen_region f off n : 0 ≤ n → blen (region f off n) = n.
Proof. intros. unfold region, blen. rewrite length_fmap, length_seqZ. lia. Qed.

Lemma region_app f off n m : 0 ≤ n → 0 ≤ m →
  region f off (n + m) = region f off n ++ region f (off + n) m.
Proof. intros. unfold region. by rewrite seqZ_app, fmap_app. Qed.

Lemma region_ext f g off n : (∀ i, off ≤ i < off + n → byte_at f i = byte_at g i) →
  region f off n = region g off n.
Proof.
  intros H. unfold region. apply list_fmap_ext. intros k x Hx%lookup_seqZ. apply H. lia.
Qed.

Lemma region_write_same f off bs : region (file_write f off bs) off (blen bs) = bs.
Proof.
  apply list_eq. intros k. unfold region. rewrite list_lookup_fmap.
  destruct (decide (k < length bs)%nat) as [Hk|Hk].
  - rewrite lookup_seqZ_lt by (unfold blen; lia). cbn. rewrite byte_at_write.
    rewrite bool_decide_true by (unfold blen; lia). replace (Z.to_nat _) with k by lia.
    destruct (lookup_lt_is_Some_2 bs k Hk) as [b Hb]. rewrite Hb. f_equal. by apply nth_lookup_Some.
  - rewrite lookup_seqZ_ge by (unfold blen; lia). cbn. symmetry. apply lookup_ge_None. lia.
Qed.

Lemma region_write_disjoint f off bs off' n : off' + n ≤ off ∨ off + blen bs ≤ off' →
  region (file_write f off bs) off' n = region f off' n.
Proof.
  intros H. apply region_ext. intros i Hi. rewrite byte_at_write. rewrite bool_decide_false; [done|]. lia.
Qed.

Lemma region_sub f off n k m : 0 ≤ k → 0 ≤ m → k + m ≤ n →
  sub k m (region f off n) = region f (off + k) m.
Proof.
  intros. unfold sub.
  replace n with (k + (m + (n - k - m))) by lia.
  rewrite (region_app _ _ k), (region_app _ _ m) by lia.
  rewrite drop_app_length'; [|unfold region; rewrite length_fmap, length_seqZ; done].
  rewrite take_app_length'; [done|unfold region; rewrite length_fmap, length_seqZ; done].
Qed.

Lemma region_zero f off n : (∀ i, off ≤ i < off + n → byte_at f i = 0) →
  region f off n = replicate (Z.to_nat n) 0.
Proof.
  intros H. apply list_eq. intros k. unfold region. rewrite list_lookup_fmap.
  destruct (decide (k < Z.to_nat n)%nat).
  - rewrite lookup_seqZ_lt, lookup_replicate_2 by lia. cbn. rewrite H by lia. done.
  - rewrite lookup_seqZ_ge, (proj2 (lookup_ge_None _ _)); rewrite ?length_replicate; try done; lia.
Qed.

Lemma blen_file_read f off n : 0 ≤ n → off ≤ f_size f →
  blen (file_read f off n) = Z.min n (f_size f - off).
Proof. intros. unfold file_read. rewrite blen_region; lia. Qed.

(** *** Calls on a file with no fault scheduled *)

Lemma sys_write_ok s i f off bs : os_faults s = [] → os_inodes s !! i = Some f →
  sys_write i off bs s = (blen bs, set_inodes (<[i := file_write f off bs]> (os_inodes s)) s).
Proof.
  intros Hf Hi. unfold sys_write, take_fault. rewrite Hf. cbn. rewrite sub_all. do 2 f_equal.
  apply map_eq. intros j. destruct (decide (i = j)) as [<-|]; lk; [by rewrite Hi|done].
Qed.

Lemma sys_read_ok s i f off n : os_faults s = [] → os_inodes s !! i = Some f →
  sys_read i off n s = (Some (file_read f off n), s).
Proof. intros Hf Hi. unfold sys_read, take_fault. rewrite Hf. cbn. by rewrite Hi. Qed.

Lemma sys_open_ok s path creat i : os_faults s = [] → os_dir s !! path = Some i →
  sys_open path creat false s = (Some i, s).
Proof. intros Hf Hi. unfold sys_open, take_fault. rewrite Hf. cbn. by rewrite Hi. Qed.

Lemma sys_malloc_length n s : 0 ≤ n → blen (sys_malloc n s).1 = n.
Proof. intros. unfold sys_malloc, blen. cbn. rewrite length_fmap, length_seqZ. lia. Qed.

(** The state after creating an empty file. *)
Definition os_created (path : string) (s : os) : os :=
  mkOs (<[path := os_next s]> (os_dir s)) (<[os_next s := mkFile 0 ∅]> (os_inodes s))
    (Pos.succ (os_next s)) (os_faults s) (os_heap s) (os_brk s).

Lemma sys_open_create s path trunc : os_faults s = [] → os_dir s !! path = None →
  sys_open path true trunc s = (Some (os_next s), os_created path s).
Proof. intros Hf Hn. unfold sys_open, take_fault. rewrite Hf. cbn. by rewrite Hn. Qed.

Lemma sys_ftruncate_ok s i f n : os_faults s = [] → os_inodes s !! i = Some f →
  sys_ftruncate i n s = (0, set_inodes (<[i := file_truncate f n]> (os_inodes s)) s).
Proof.
  intros Hf Hi. unfold sys_ftruncate, take_fault. rewrite Hf. cbn. do 2 f_equal.
  apply map_eq. intros j. destruct (decide (i = j)) as [<-|]; lk; [by rewrite Hi|done].
Qed.

Lemma sys_exists_false path s : sys_exists path s = false ↔ os_dir s !! path = None.
Proof. unfold sys_exists. rewrite bool_decide_eq_false. by rewrite eq_None_not_Some. Qed.

(** *** Streams with no fault scheduled *)

Definition file_bytes (f : file) : bytes := region f 0 (f_size f).

(** A file that holds exactly [data]. *)
Definition holds (path : string) (data : bytes) (s : os) : Prop :=
  ∃ f, file_of path s = Some f ∧ f_size f = blen data ∧ file_bytes f = data.

Lemma file_read_sub f data off n : f_size f = blen data → file_bytes f = data → 0 ≤ off → 0 ≤ n →
  file_read f off n = sub off n data.
Proof.
  intros Hs Hd Ho Hn. unfold file_read. destruct (Z_le_gt_dec off (f_size f)) as [Hle|Hgt].
  - pose proof (region_sub f 0 (f_size f) off (Z.min n (f_size f - off))) as Hr. rewrite Z.add_0_l in Hr.
    rewrite <-Hr by lia. unfold file_bytes in Hd. rewrite Hd, Hs. unfold sub, blen.
    destruct (Z.min_spec n (Z.of_nat (length data) - off)) as [[? ->]|[? ->]]; [done|].
    rewrite !take_ge; [done|rewrite length_drop; lia..].
  - unfold region, sub. rewrite drop_ge by (unfold blen in *; lia). rewrite take_nil.
    replace (Z.min n (f_size f - off)) with (f_size f - off) by lia.
    unfold seqZ. replace (Z.to_nat (f_size f - off)) with 0%nat by lia. done.
Qed.

Lemma file_write_empty f data : f_size f = 0 →
  f_size (file_write f 0 data) = blen data ∧ file_bytes (file_write f 0 data) = data.
Proof.
  intros Hs. pose proof (blen_nonneg data).
  assert (f_size (file_write f 0 data) = blen data) as E by (cbn; lia). split; [done|].
  unfold file_bytes. rewrite E. apply region_write_same.
Qed.

Lemma file_append f data bs : f_size f = blen data → file_bytes f = data →
  f_size (file_write f (f_size f) bs) = blen (data ++ bs)
  ∧ file_bytes (file_write f (f_size f) bs) = data ++ bs.
Proof.
  intros Hs Hd. pose proof (blen_nonneg bs). pose proof (blen_nonneg data).
  assert (f_size (file_write f (f_size f) bs) = blen (data ++ bs)) as E by (cbn; rewrite blen_app; lia). split; [done|].
  unfold file_bytes in *. rewrite E, blen_app, region_app by lia. f_equal.
  - rewrite region_write_disjoint by lia. congruence.
  - rewrite Z.add_0_l, <-Hs. apply region_write_same.
Qed.

Lemma sys_open_trunc_ok s path i f : os_faults s = [] → os_dir s !! path = Some i →
  os_inodes s !! i = Some f →
  sys_open path true true s = (Some i, set_inodes (<[i := file_truncate f 0]> (os_inodes s)) s).
Proof.
  intros Hf Hd Hi. unfold sys_open, take_fault. rewrite Hf. cbn. rewrite Hd. do 2 f_equal.
  apply map_eq. intros j. destruct (decide (i = j)) as [<-|]; lk; [by rewrite Hi|done].
Qed.

(** Writing a whole file. *)
Lemma ofstream_write_ok s path data : os_wf s → os_faults s = [] →
  ∃ s', ofstream_write path data s = (true, s') ∧ os_wf s' ∧ os_faults s' = [] ∧ holds path data s'
        ∧ ∀ p, p ≠ path → file_of p s' = file_of p s.
Proof.
  intros (Hlt & Hdir & Hinj) Hf. unfold ofstream_write. destruct (os_dir s !! path) as [i|] eqn:Ei.
  - destruct (Hdir _ _ Ei) as [f Hi]. rewrite (sys_open_trunc_ok s path i f Hf Ei Hi).
    rewrite (sys_write_ok _ i (file_truncate f 0)) by (cbn; lk; done). eexists. split; [done|].
    destruct (file_write_empty (file_truncate f 0) data eq_refl) as [Hsz Hb].
    cbn. rewrite insert_insert_eq. split_and!; cbn; try done.
    + split_and!; cbn.
      * intros j. rewrite lookup_insert_is_Some'. intros [->|?]; apply Hlt; eauto.
      * intros p j Hp. apply lookup_insert_is_Some'. right. eauto.
      * done.
    + exists (file_write (file_truncate f 0) 0 data). unfold file_of. cbn. rewrite Ei. cbn. lk. done.
    + intros p Hp. unfold file_of. cbn. destruct (os_dir s !! p) as [j|] eqn:Ej; [|done]. cbn.
      rewrite lookup_insert_ne; [done|]. intros <-. destruct Hp. eauto.
  - rewrite sys_open_create by done. rewrite (sys_write_ok _ (os_next s) (mkFile 0 ∅)) by (cbn; lk; done).
    eexists. split; [done|]. destruct (file_write_empty (mkFile 0 ∅) data eq_refl) as [Hsz Hb].
    cbn. rewrite insert_insert_eq.
    assert (os_inodes s !! os_next s = None) as Hnext.
    { apply eq_None_not_Some. intros H%Hlt. lia. }
    split_and!; cbn; try done.
    + split_and!; cbn.
      * intros j. rewrite lookup_insert_is_Some'. intros [->|?]; [lia|]. transitivity (os_next s); [auto|lia].
      * intros p j. rewrite lookup_insert_Some. intros [[<- <-]|[_ Hp]]; apply lookup_insert_is_Some'; eauto.
      * intros p p' j. rewrite !lookup_insert_Some. intros [[<- <-]|[Hne Hp]] [[<- E]|[Hne' Hp']]; try done.
        -- apply Hdir in Hp'. rewrite Hnext in Hp'. by destruct Hp'.
        -- subst j. apply Hdir in Hp. rewrite Hnext in Hp. by destruct Hp.
        -- eauto.
    + exists (file_write (mkFile 0 ∅) 0 data). unfold file_of. cbn. lk. cbn. lk. done.
    + intros p Hp. unfold file_of. cbn. rewrite lookup_insert_ne by done.
      destruct (os_dir s !! p) as [j|] eqn:Ej; [|done]. cbn. rewrite lookup_insert_ne; [done|].
      intros <-. apply Hdir in Ej. rewrite Hnext in Ej. by destruct Ej.
Qed.

Lemma ifstream_read_ok s path data off n : holds path data s → os_faults s = [] → 0 ≤ off → 0 ≤ n →
  ifstream_read path off n s = (Some (sub off n data), s).
Proof.
  intros (f & Hf & Hs & Hd) Hfl Ho Hn. unfold file_of in Hf. apply bind_Some in Hf as (i & Hi & Hf).
  unfold ifstream_read. rewrite (sys_open_ok s path false i) by done. rewrite (sys_read_ok s i f) by done.
  cbn. by rewrite (file_read_sub f data).
Qed.

Lemma sys_size_holds s path data : holds path data s → sys_size path s = blen data.
Proof. intros (f & Hf & Hs & _). unfold sys_size, file_of in *. by rewrite Hf. Qed.

(** A file system untouched on [path]. *)
Lemma holds_same s s' path data : file_of path s' = file_of path s → holds path data s → holds path data s'.
Proof. intros E (f & Hf & H). exists f. by rewrite E. Qed.

(** *** Calls that change one file

    [touches p s s']: from [s] to [s'] at most the file named [p] changed. *)
Definition touches (p : string) (s s' : os) : Prop :=
  os_wf s' ∧ os_faults s' = os_faults s
  ∧ ∀ q, q ≠ p → os_dir s' !! q = os_dir s !! q ∧ file_of q s' = file_of q s.

Lemma touches_refl p s : os_wf s → touches p s s.
Proof. by split. Qed.

Lemma touches_trans p s1 s2 s3 : touches p s1 s2 → touches p s2 s3 → touches p s1 s3.
Proof.
  intros (_ & Hf1 & H1) (Hw & Hf2 & H2). split; [done|]. split; [congruence|]. intros q Hq.
  destruct (H1 q Hq), (H2 q Hq). split; congruence.
Qed.

Lemma touches_malloc p n s : os_wf s → touches p s (sys_malloc n s).2.
Proof. by split. Qed.

Lemma touches_insert p i f s : os_wf s → os_dir s !! p = Some i →
  touches p s (set_inodes (<[i := f]> (os_inodes s)) s).
Proof.
  intros (Hlt & Hdir & Hinj) Hp. split; [|split; [done|]].
  - split_and!; cbn; [|intros q j Hq; apply lookup_insert_is_Some'; eauto|done].
    intros j. rewrite lookup_insert_is_Some'. intros [->|?]; [apply Hlt; eauto|auto].
  - intros q Hq. split; [done|]. unfold file_of. cbn. destruct (os_dir s !! q) as [j|] eqn:Ej; [|done]. cbn.
    rewrite lookup_insert_ne; [done|]. intros ->. eauto.
Qed.

(** Creating a file that is not there. *)
Lemma touches_create p f s s' : os_wf s → os_dir s !! p = None →
  os_dir s' = <[p := os_next s]> (os_dir s) → os_inodes s' = <[os_next s := f]> (os_inodes s) →
  os_next s' = Pos.succ (os_next s) → os_faults s' = os_faults s → touches p s s'.
Proof.
  intros (Hlt & Hdir & Hinj) Hp Ed Ei En Ef.
  assert (os_inodes s !! os_next s = None) as Hnext by (apply eq_None_not_Some; intros H%Hlt; lia).
  split; [|split; [done|]]; unfold os_wf, file_of; rewrite Ed, Ei, ?En.
  - split_and!.
    + intros j. rewrite lookup_insert_is_Some'. intros [->|?%Hlt]; lia.
    + intros q j. rewrite lookup_insert_Some. intros [[<- <-]|[_ Hq]]; apply lookup_insert_is_Some'; eauto.
    + intros q q' j. rewrite !lookup_insert_Some. intros [[<- <-]|[Hne Hq]] [[<- E]|[Hne' Hq']]; try done.
      * apply Hdir in Hq'. rewrite Hnext in Hq'. by destruct Hq'.
      * subst j. apply Hdir in Hq. rewrite Hnext in Hq. by destruct Hq.
      * eauto.
  - intros q Hq. rewrite lookup_insert_ne by done. split; [done|].
    destruct (os_dir s !! q) as [j|] eqn:Ej; [|done]. cbn. rewrite lookup_insert_ne; [done|].
    intros <-. apply Hdir in Ej. rewrite Hnext in Ej. by destruct Ej.
Qed.

(** A restart touches nothing. *)
Lemma reboot_touches p s s' : reboot s s' → os_wf s → os_faults s = [] → touches p s s'.
Proof.
  intros (Hd & Hi & Hf & Hn) (Hw1 & Hw2 & Hw3) H. unfold touches, os_wf, file_of. rewrite Hd, Hi, Hf, Hn.
  split; [done|]. split; [done|]. by intros q _.
Qed.

(** Opening a file for writing, creating it if need be. *)
Lemma sys_open_touches p s : os_wf s → os_faults s = [] →
  ∃ i f s', sys_open p true false s = (Some i, s') ∧ touches p s s' ∧ os_dir s' !! p = Some i
    ∧ os_inodes s' !! i = Some f.
Proof.
  intros Hw Hf. destruct (os_dir s !! p) as [i|] eqn:Ei.
  - destruct Hw as (Hlt & Hdir & Hinj). destruct (Hdir _ _ Ei) as [f Hi]. exists i, f, s.
    rewrite (sys_open_ok _ _ _ i) by done. split_and!; try done.
  - rewrite sys_open_create by done. unfold os_created. exists (os_next s), (mkFile 0 ∅). eexists. split; [done|].
    split; [by eapply touches_create|]. cbn. by rewrite !lookup_insert_eq.
Qed.

(** A descriptor of another file still names the same contents. *)
Lemma touches_file p q i s s' : touches p s s' → q ≠ p → os_dir s !! q = Some i →
  os_dir s' !! q = Some i ∧ os_inodes s' !! i = os_inodes s !! i.
Proof.
  intros (_ & _ & H) Hq Hi. destruct (H q Hq) as [Hd Hf]. rewrite Hi in Hd. split; [done|].
  unfold file_of in Hf. by rewrite Hd, Hi in Hf.
Qed.
