(* ===== verification/SSTable.v ===== *)
(** * SSTable metadata, SSTable files and the SSTable builder

    Models, under [src/src/storage/blocksstable]: [ob_sstable_meta.h/.cpp],
    [ob_sstable.h/.cpp] and [ob_sstable_builder.h/.cpp].  Files are written and
    read through the stream operations of [Posix]. *)

From S2P Require Import Prelude Pod StoreTypes BlockFormat MacroBlock Posix.

(** ** ObSSTableBasicMeta *)

Record ObSSTableBasicMeta := mkBasicMeta {
  bm_row_count_ : Z;
  bm_occupy_size_ : Z;
  bm_original_size_ : Z;
  bm_data_checksum_ : Z;
  bm_rowkey_column_count_ : Z;
  bm_column_cnt_ : Z;
  bm_data_macro_block_count_ : Z;
  bm_data_micro_block_count_ : Z;
  bm_schema_version_ : Z;
  bm_create_snapshot_version_ : Z;
  bm_upper_trans_version_ : Z;
  bm_max_merged_trans_version_ : Z;
  bm_data_index_tree_height_ : Z;
  bm_row_store_type_ : Z;
  bm_contain_uncommitted_row_ : bool }.

Definition ObSSTableBasicMeta_default : ObSSTableBasicMeta :=
  mkBasicMeta 0 0 0 0 0 0 0 0 0 0 0 0 0 0 false.

(** The last 4 of the 104 bytes are padding, zeroed by the constructor's
    [memset]. *)
Definition basic_meta_bytes (m : ObSSTableBasicMeta) : bytes :=
  le_enc 8 (bm_row_count_ m) ++ le_enc 8 (bm_occupy_size_ m) ++ le_enc 8 (bm_original_size_ m)
  ++ le_enc 8 (bm_data_checksum_ m) ++ le_enc 8 (bm_rowkey_column_count_ m) ++ le_enc 8 (bm_column_cnt_ m)
  ++ le_enc 8 (bm_data_macro_block_count_ m) ++ le_enc 8 (bm_data_micro_block_count_ m)
  ++ le_enc 8 (bm_schema_version_ m) ++ le_enc 8 (bm_create_snapshot_version_ m)
  ++ le_enc 8 (bm_upper_trans_version_ m) ++ le_enc 8 (bm_max_merged_trans_version_ m)
  ++ le_enc 2 (bm_data_index_tree_height_ m) ++ le_enc 1 (bm_row_store_type_ m)
  ++ [if bm_contain_uncommitted_row_ m then 1 else 0] ++ [0; 0; 0; 0].
Definition basic_meta_wf (m : ObSSTableBasicMeta) : Prop :=
  i64_range (bm_row_count_ m) ∧ i64_range (bm_occupy_size_ m) ∧ i64_range (bm_original_size_ m)
  ∧ i64_range (bm_data_checksum_ m) ∧ i64_range (bm_rowkey_column_count_ m) ∧ i64_range (bm_column_cnt_ m)
  ∧ i64_range (bm_data_macro_block_count_ m) ∧ i64_range (bm_data_micro_block_count_ m)
  ∧ i64_range (bm_schema_version_ m) ∧ i64_range (bm_create_snapshot_version_ m)
  ∧ i64_range (bm_upper_trans_version_ m) ∧ i64_range (bm_max_merged_trans_version_ m)
  ∧ - 2 ^ 15 ≤ bm_data_index_tree_height_ m < 2 ^ 15 ∧ 0 ≤ bm_row_store_type_ m < 2 ^ 8.

#[export] Program Instance basic_meta_pod : Pod ObSSTableBasicMeta := {|
  pod_size := 104;
  pod_enc := basic_meta_bytes;
  pod_dec b := mkBasicMeta (i64 (field 0 8 b)) (i64 (field 8 8 b)) (i64 (field 16 8 b))
    (i64 (field 24 8 b)) (i64 (field 32 8 b)) (i64 (field 40 8 b)) (i64 (field 48 8 b))
    (i64 (field 56 8 b)) (i64 (field 64 8 b)) (i64 (field 72 8 b)) (i64 (field 80 8 b))
    (i64 (field 88 8 b)) (i16 (field 96 2 b)) (field 98 1 b) (negb (field 99 1 b =? 0));
  pod_wf := basic_meta_wf |}.
Next Obligation. done. Qed.
Next Obligation.
  intros [] (H1 & H2 & H3 & H4 & H5 & H6 & H7 & H8 & H9 & H10 & H11 & H12 & H13 & H14). cbn in *.
  f_equal; [exact (i64_enc _ H1)|exact (i64_enc _ H2)|exact (i64_enc _ H3)|exact (i64_enc _ H4)
    |exact (i64_enc _ H5)|exact (i64_enc _ H6)|exact (i64_enc _ H7)|exact (i64_enc _ H8)
    |exact (i64_enc _ H9)|exact (i64_enc _ H10)|exact (i64_enc _ H11)|exact (i64_enc _ H12)
    |exact (sint_le_dec_enc 2 _ ltac:(lia) H13)|exact (le_dec_enc_small 1 _ H14)
    |by destruct bm_contain_uncommitted_row_0].
Qed.

(** ** ObSSTableMeta: basic meta, root block, macro block lists *)

Record ObSSTableMeta := mkSSTableMeta {
  sm_basic_meta_ : ObSSTableBasicMeta;
  sm_root_block_data_ : bytes;
  sm_root_block_offset_ : Z;
  sm_root_block_size_ : Z;
  sm_macro_ids_ : list Z;
  sm_macro_offsets_ : list Z;
  sm_macro_sizes_ : list Z;
  sm_is_inited_ : bool }.

Definition ObSSTableMeta_new : ObSSTableMeta :=
  mkSSTableMeta ObSSTableBasicMeta_default [] 0 0 [] [] [] false.

Definition set_basic (b : ObSSTableBasicMeta) (m : ObSSTableMeta) : ObSSTableMeta :=
  mkSSTableMeta b (sm_root_block_data_ m) (sm_root_block_offset_ m) (sm_root_block_size_ m)
    (sm_macro_ids_ m) (sm_macro_offsets_ m) (sm_macro_sizes_ m) (sm_is_inited_ m).
Definition set_macros (ids offs szs : list Z) (m : ObSSTableMeta) : ObSSTableMeta :=
  mkSSTableMeta (sm_basic_meta_ m) (sm_root_block_data_ m) (sm_root_block_offset_ m)
    (sm_root_block_size_ m) ids offs szs (sm_is_inited_ m).

Definition ObSSTableMeta_init (tablet_id column_count rowkey_column_count schema_version
    snapshot_version : Z) (m : ObSSTableMeta) : Z * ObSSTableMeta :=
  let b := sm_basic_meta_ m in
  (0, mkSSTableMeta
        (mkBasicMeta (bm_row_count_ b) (bm_occupy_size_ b) (bm_original_size_ b) (bm_data_checksum_ b)
           rowkey_column_count column_count (bm_data_macro_block_count_ b) (bm_data_micro_block_count_ b)
           schema_version snapshot_version (bm_upper_trans_version_ b) (bm_max_merged_trans_version_ b)
           1 0 false)
        (sm_root_block_data_ m) (sm_root_block_offset_ m) (sm_root_block_size_ m) (sm_macro_ids_ m)
        (sm_macro_offsets_ m) (sm_macro_sizes_ m) true).

Definition ObSSTableMeta_add_macro_block (macro_seq macro_offset macro_size row_count micro_block_count : Z)
    (m : ObSSTableMeta) : ObSSTableMeta :=
  let b := sm_basic_meta_ m in
  mkSSTableMeta
    (mkBasicMeta (bm_row_count_ b + row_count) (bm_occupy_size_ b + macro_size) (bm_original_size_ b)
       (bm_data_checksum_ b) (bm_rowkey_column_count_ b) (bm_column_cnt_ b)
       (bm_data_macro_block_count_ b + 1) (bm_data_micro_block_count_ b + micro_block_count)
       (bm_schema_version_ b) (bm_create_snapshot_version_ b) (bm_upper_trans_version_ b)
       (bm_max_merged_trans_version_ b) (bm_data_index_tree_height_ b) (bm_row_store_type_ b)
       (bm_contain_uncommitted_row_ b))
    (sm_root_block_data_ m) (sm_root_block_offset_ m) (sm_root_block_size_ m)
    (sm_macro_ids_ m ++ [macro_seq]) (sm_macro_offsets_ m ++ [macro_offset])
    (sm_macro_sizes_ m ++ [macro_size]) (sm_is_inited_ m).

Definition ObSSTableMeta_set_root_index_block (data : bytes) (m : ObSSTableMeta) : Z * ObSSTableMeta :=
  (0, mkSSTableMeta (sm_basic_meta_ m) data (sm_root_block_offset_ m) (blen data)
        (sm_macro_ids_ m) (sm_macro_offsets_ m) (sm_macro_sizes_ m) (sm_is_inited_ m)).

Definition ObSSTableMeta_get_row_count (m : ObSSTableMeta) : Z := bm_row_count_ (sm_basic_meta_ m).
Definition ObSSTableMeta_get_occupy_size (m : ObSSTableMeta) : Z := bm_occupy_size_ (sm_basic_meta_ m).
Definition ObSSTableMeta_get_macro_block_count (m : ObSSTableMeta) : Z :=
  bm_data_macro_block_count_ (sm_basic_meta_ m).
Definition ObSSTableMeta_get_micro_block_count (m : ObSSTableMeta) : Z :=
  bm_data_micro_block_count_ (sm_basic_meta_ m).

(** The loop of [serialize] over the three vectors; indexing past the end of
    the shorter ones is undefined. *)
Fixpoint macro_triples (ids offs szs : list Z) : outcome bytes :=
  match ids, offs, szs with
  | [], _, _ => Done []
  | id :: ids', o :: offs', z :: szs' =>
      rest ← macro_triples ids' offs' szs';
      Done (le_enc 8 id ++ le_enc 8 o ++ le_enc 8 z ++ rest)
  | _, _, _ => UB
  end.

Definition ObSSTableMeta_serialize (out : bytes) (m : ObSSTableMeta) : outcome (Z * bytes) :=
  let out := out ++ basic_meta_bytes (sm_basic_meta_ m) in
  let root_size := blen (sm_root_block_data_ m) in
  let out := out ++ le_enc 8 root_size in
  let out := if 0 <? root_size then out ++ sm_root_block_data_ m else out in
  let macro_count := blen (sm_macro_ids_ m) in
  let out := out ++ le_enc 8 macro_count in
  t ← macro_triples (sm_macro_ids_ m) (sm_macro_offsets_ m) (sm_macro_sizes_ m);
  Done (0, out ++ t).

(** The loop of [deserialize]: it runs while [i < macro_count] and 24 bytes
    remain, [n] bounding [macro_count - i]. *)
Fixpoint read_triples (macro_count i : Z) (n : nat) (b : bytes) (ids offs szs : list Z)
    : list Z * list Z * list Z :=
  match n with
  | O => (ids, offs, szs)
  | S n' =>
      if (i <? macro_count) && (24 <=? blen b) then
        read_triples macro_count (i + 1) n' (drop 24 b) (ids ++ [i64 (field 0 8 b)])
          (offs ++ [i64 (field 8 8 b)]) (szs ++ [i64 (field 16 8 b)])
      else (ids, offs, szs)
  end.

(** [deserialize] appends to whatever the vectors hold. *)
Definition ObSSTableMeta_deserialize (inp : bytes) (m : ObSSTableMeta) : Z * ObSSTableMeta :=
  if blen inp <? 104 then (-1, m)
  else
    let m := set_basic (pod_dec (sub 0 104 inp)) m in
    let inp := drop 104 inp in
    if blen inp <? 8 then (-1, m)
    else
      let root_size := i64 (field 0 8 inp) in
      let inp := drop 8 inp in
      let '(m, inp) :=
        if (0 <? root_size) && (root_size <=? blen inp)
        then (mkSSTableMeta (sm_basic_meta_ m) (sub 0 root_size inp) (sm_root_block_offset_ m)
                (sm_root_block_size_ m) (sm_macro_ids_ m) (sm_macro_offsets_ m) (sm_macro_sizes_ m)
                (sm_is_inited_ m), drop (Z.to_nat root_size) inp)
        else (m, inp) in
      if blen inp <? 8 then (-1, m)
      else
        let macro_count := i64 (field 0 8 inp) in
        let inp := drop 8 inp in
        let '(ids, offs, szs) := read_triples macro_count 0 (length inp) inp (sm_macro_ids_ m)
                                   (sm_macro_offsets_ m) (sm_macro_sizes_ m) in
        let m := set_macros ids offs szs m in
        let b := sm_basic_meta_ m in
        (0, set_basic (mkBasicMeta (bm_row_count_ b) (bm_occupy_size_ b) (bm_original_size_ b)
               (bm_data_checksum_ b) (bm_rowkey_column_count_ b) (bm_column_cnt_ b) macro_count
               (bm_data_micro_block_count_ b) (bm_schema_version_ b) (bm_create_snapshot_version_ b)
               (bm_upper_trans_version_ b) (bm_max_merged_trans_version_ b) (bm_data_index_tree_height_ b)
               (bm_row_store_type_ b) (bm_contain_uncommitted_row_ b)) m).

Definition ObSSTableMeta_save_to_file (path : string) (m : ObSSTableMeta) (s : os) : outcome (Z * os) :=
  x ← ObSSTableMeta_serialize [] m;
  let '(_, data) := x : Z * bytes in
  let '(ok, s') := ofstream_write path data s in
  Done (if ok then 0 else -1, s').

Definition ObSSTableMeta_load_from_file (path : string) (m : ObSSTableMeta) (s : os)
    : Z * ObSSTableMeta * os :=
  let sz := sys_size path s in
  let '(d, s) := ifstream_read path 0 sz s in
  match d with
  | None => (-1, m, s)
  | Some d =>
      let data := d ++ replicate (Z.to_nat (sz - blen d)) 0 in
      let '(ret, m) := ObSSTableMeta_deserialize data m in (ret, m, s)
  end.

(** ** ObSSTable *)

Record ObSSTable := mkSSTable {
  st_meta_ : ObSSTableMeta;
  st_data_file_path_ : string;
  st_meta_file_path_ : string;
  st_is_inited_ : bool }.
Definition ObSSTable_new : ObSSTable := mkSSTable ObSSTableMeta_new EmptyString EmptyString false.

Definition ObSSTable_init (data_file_path meta_file_path : string) (t : ObSSTable) (s : os)
    : Z * ObSSTable * os :=
  let '(ret, m, s) := ObSSTableMeta_load_from_file meta_file_path (st_meta_ t) s in
  if negb (ret =? 0) then (ret, mkSSTable m data_file_path meta_file_path (st_is_inited_ t), s)
  else (0, mkSSTable m data_file_path meta_file_path true, s).

Definition ObSSTable_get_table_type (_ : ObSSTable) : ObTableType := MINI_SSTABLE.
Definition ObSSTable_get_row_count (t : ObSSTable) : Z := ObSSTableMeta_get_row_count (st_meta_ t).
Definition ObSSTable_get_occupy_size (t : ObSSTable) : Z := ObSSTableMeta_get_occupy_size (st_meta_ t).
Definition ObSSTable_is_empty (t : ObSSTable) : bool := ObSSTableMeta_get_row_count (st_meta_ t) =? 0.

(** The loop of [create_from_blocks]: the meta and the offset; [macro_seqs[i]]
    past the end is undefined. *)
Fixpoint add_macro_blocks (blocks : list bytes) (seqs : list Z) (offset : Z) (m : ObSSTableMeta)
    : outcome ObSSTableMeta :=
  match blocks with
  | [] => Done m
  | b :: blocks' =>
      match seqs with
      | [] => UB
      | q :: seqs' =>
          add_macro_blocks blocks' seqs' (offset + blen b)
            (ObSSTableMeta_add_macro_block q offset (blen b) 0 0 m)
      end
  end.

(** [create_from_blocks]; the code of [save_to_file] is ignored. *)
Definition ObSSTable_create_from_blocks (macro_blocks : list bytes) (macro_seqs : list Z)
    (meta : ObSSTableMeta) (data_file_path meta_file_path : string) (t : ObSSTable) (s : os)
    : outcome (Z * ObSSTable * os) :=
  let '(ok, s') := ofstream_write data_file_path (concat macro_blocks) s in
  if negb ok then Done (-1, mkSSTable meta data_file_path meta_file_path (st_is_inited_ t), s')
  else
    wm ← add_macro_blocks macro_blocks macro_seqs 0 (set_macros [] [] [] meta);
    x ← ObSSTableMeta_save_to_file meta_file_path wm s';
    let '(_, s) := x : Z * os in
    Done (0, mkSSTable wm data_file_path meta_file_path true, s).

(** [read_macro_block]: code, [out_data].  [out_data] is resized, and a short
    read leaves the end of it as it was. *)
Definition ObSSTable_read_macro_block (macro_idx : Z) (out_data : bytes) (t : ObSSTable) (s : os)
    : outcome (Z * bytes * os) :=
  if negb (st_is_inited_ t) then Done (-1, out_data, s)
  else if (macro_idx <? 0) || (blen (sm_macro_offsets_ (st_meta_ t)) <=? macro_idx)
  then Done (-1, out_data, s)
  else
    offset ← deref (sm_macro_offsets_ (st_meta_ t) !! Z.to_nat macro_idx);
    size ← deref (sm_macro_sizes_ (st_meta_ t) !! Z.to_nat macro_idx);
    let '(d, s) := ifstream_read (st_data_file_path_ t) offset size s in
    match d with
    | None => Done (-1, out_data, s)
    | Some d =>
        if size <? 0 then UB
        else
          let out := string_resize size out_data in
          out ← mem_write 0 d out;
          Done (0, out, s)
    end.

(** ** ObSSTableBuilder *)

Record ObSSTableBuilder := mkBuilder {
  sb_desc_ : ObDataStoreDesc;
  sb_writer_ : ObMacroBlockWriter;
  sb_macro_blocks_ : list bytes;
  sb_macro_seqs_ : list Z;
  sb_data_file_path_ : string;
  sb_meta_file_path_ : string;
  sb_meta_ : ObSSTableMeta;
  sb_sstable_ : ObSSTable;
  sb_is_closed_ : bool }.

Definition ObSSTableBuilder_new : ObSSTableBuilder :=
  mkBuilder ObDataStoreDesc_default ObMacroBlockWriter_new [] [] EmptyString EmptyString ObSSTableMeta_new
    ObSSTable_new false.

Definition ObSSTableBuilder_init (desc : ObDataStoreDesc) (data_file_path meta_file_path : string)
    (b : ObSSTableBuilder) : outcome (Z * ObSSTableBuilder) :=
  x ← ObMacroBlockWriter_open desc 0 (sb_writer_ b);
  let '(ret, w) := x : Z * ObMacroBlockWriter in
  let b' meta := mkBuilder desc w (sb_macro_blocks_ b) (sb_macro_seqs_ b) data_file_path meta_file_path
                   meta (sb_sstable_ b) (sb_is_closed_ b) in
  if negb (ret =? 0) then Done (ret, b' (sb_meta_ b))
  else
    let '(ret, m) := ObSSTableMeta_init (d_tablet_id_ desc) (d_column_count_ desc)
                       (d_rowkey_column_count_ desc) (d_schema_version_ desc) (d_snapshot_version_ desc)
                       (sb_meta_ b) in
    Done (ret, b' m).

Definition ObSSTableBuilder_append_row (row : ObStoreRow) (b : ObSSTableBuilder)
    : outcome (Z * ObSSTableBuilder) :=
  x ← ObMacroBlockWriter_append_row row (Some []) (Some 0) (sb_writer_ b);
  let '(ret, flushed, seq, w) := x : Z * option bytes * option Z * ObMacroBlockWriter in
  let b' blocks seqs := mkBuilder (sb_desc_ b) w blocks seqs (sb_data_file_path_ b) (sb_meta_file_path_ b)
                          (sb_meta_ b) (sb_sstable_ b) (sb_is_closed_ b) in
  if negb (ret =? 0) then Done (ret, b' (sb_macro_blocks_ b) (sb_macro_seqs_ b))
  else
    block ← deref flushed;
    q ← deref seq;
    Done (0, if bool_decide (block = []) then b' (sb_macro_blocks_ b) (sb_macro_seqs_ b)
             else b' (sb_macro_blocks_ b ++ [block]) (sb_macro_seqs_ b ++ [q])).

Definition ObSSTableBuilder_close (b : ObSSTableBuilder) (s : os) : outcome (Z * ObSSTableBuilder * os) :=
  if sb_is_closed_ b then Done (0, b, s)
  else
    x ← ObMacroBlockWriter_close [] [] (sb_writer_ b);
    let '(ret, blocks, seqs, w) := x : Z * list bytes * list Z * ObMacroBlockWriter in
    if negb (ret =? 0)
    then Done (ret, mkBuilder (sb_desc_ b) w (sb_macro_blocks_ b) (sb_macro_seqs_ b) (sb_data_file_path_ b)
                      (sb_meta_file_path_ b) (sb_meta_ b) (sb_sstable_ b) (sb_is_closed_ b), s)
    else
      let blocks := sb_macro_blocks_ b ++ blocks in
      let seqs := sb_macro_seqs_ b ++ seqs in
      y ← ObSSTable_create_from_blocks blocks seqs (sb_meta_ b) (sb_data_file_path_ b)
            (sb_meta_file_path_ b) (sb_sstable_ b) s;
      let '(ret, t, s) := y : Z * ObSSTable * os in
      Done (ret, mkBuilder (sb_desc_ b) w blocks seqs (sb_data_file_path_ b) (sb_meta_file_path_ b)
                   (sb_meta_ b) t true, s).
Definition ObSSTableBuilder_get_sstable (b : ObSSTableBuilder) : ObSSTable := sb_sstable_ b.
Definition ObSSTableBuilder_get_row_count (b : ObSSTableBuilder) : Z :=
  ObMacroBlockWriter_get_row_count (sb_writer_ b).

(** ** The meta file *)

Lemma i64_dec_enc z : i64 (le_dec (le_enc 8 z)) = i64 z.
Proof. unfold i64. rewrite le_dec_enc, sint_mod by lia. done. Qed.
Lemma i64_small z : i64_range z → i64 z = z.
Proof. intros Hz. apply sint_small; [lia|exact Hz]. Qed.

Fixpoint triples_bytes (ids offs szs : list Z) : bytes :=
  match ids, offs, szs with
  | id :: ids', o :: offs', z :: szs' =>
      le_enc 8 id ++ le_enc 8 o ++ le_enc 8 z ++ triples_bytes ids' offs' szs'
  | _, _, _ => []
  end.

Lemma macro_triples_ok ids offs szs : length offs = length ids → length szs = length ids →
  macro_triples ids offs szs = Done (triples_bytes ids offs szs).
Proof.
  revert offs szs. induction ids as [|id ids IH]; intros [|o offs] [|z szs] H1 H2; try done.
  cbn [macro_triples triples_bytes]. by rewrite IH by (cbn in *; lia).
Qed.

Lemma blen_triples ids offs szs : length offs = length ids → length szs = length ids →
  blen (triples_bytes ids offs szs) = 24 * blen ids.
Proof.
  revert offs szs. induction ids as [|id ids IH]; intros [|o offs] [|z szs] H1 H2; try done.
  cbn [triples_bytes]. rewrite !blen_app, !blen_le_enc, IH, blen_cons by (cbn in *; lia). lia.
Qed.

Lemma read_triples_spec ids offs szs i n k a b c : length offs = length ids → length szs = length ids →
  n = i + blen ids → 0 ≤ i → (length ids ≤ k)%nat →
  read_triples n i k (triples_bytes ids offs szs) a b c
  = (a ++ (i64 <$> ids), b ++ (i64 <$> offs), c ++ (i64 <$> szs)).
Proof.
  revert offs szs i k a b c. induction ids as [|id ids IH]; intros [|o offs] [|z szs] i k a b c H1 H2 Hn Hi Hk;
    try done.
  - cbn [fmap list_fmap]. rewrite !app_nil_r. destruct k; [done|]. cbn [read_triples].
    rewrite (proj2 (Z.ltb_ge _ _)) by (rewrite blen_nil in Hn; lia). done.
  - destruct k as [|k]; [cbn in Hk; lia|]. cbn [read_triples].
    rewrite blen_cons in Hn. pose proof (blen_nonneg ids).
    rewrite (proj2 (Z.ltb_lt _ _)) by lia.
    rewrite (blen_triples (id :: ids)) by (cbn in *; lia). rewrite blen_cons.
    rewrite (proj2 (Z.leb_le _ _)) by lia. cbn [andb triples_bytes].
    change (field 0 8 (le_enc 8 id ++ _)) with (le_dec (le_enc 8 id)).
    change (field 8 8 (le_enc 8 id ++ le_enc 8 o ++ _)) with (le_dec (le_enc 8 o)).
    change (field 16 8 (le_enc 8 id ++ le_enc 8 o ++ le_enc 8 z ++ _)) with (le_dec (le_enc 8 z)).
    change (drop 24 (le_enc 8 id ++ le_enc 8 o ++ le_enc 8 z ++ ?x)) with x.
    rewrite !i64_dec_enc, IH by (cbn in *; lia). by rewrite <-!app_assoc.
Qed.

(** What a meta file brings back: the numbers of the lists cut to 64 bits, the
    offset and size of the root block not at all. *)
Definition meta_reloaded (m : ObSSTableMeta) : ObSSTableMeta :=
  let b := sm_basic_meta_ m in
  mkSSTableMeta (mkBasicMeta (bm_row_count_ b) (bm_occupy_size_ b) (bm_original_size_ b)
     (bm_data_checksum_ b) (bm_rowkey_column_count_ b) (bm_column_cnt_ b) (blen (sm_macro_ids_ m))
     (bm_data_micro_block_count_ b) (bm_schema_version_ b) (bm_create_snapshot_version_ b)
     (bm_upper_trans_version_ b) (bm_max_merged_trans_version_ b) (bm_data_index_tree_height_ b)
     (bm_row_store_type_ b) (bm_contain_uncommitted_row_ b))
    (sm_root_block_data_ m) 0 0 (i64 <$> sm_macro_ids_ m) (i64 <$> sm_macro_offsets_ m)
    (i64 <$> sm_macro_sizes_ m) false.

Definition meta_wf (m : ObSSTableMeta) : Prop :=
  basic_meta_wf (sm_basic_meta_ m) ∧ length (sm_macro_offsets_ m) = length (sm_macro_ids_ m)
  ∧ length (sm_macro_sizes_ m) = length (sm_macro_ids_ m) ∧ blen (sm_macro_ids_ m) < 2 ^ 63
  ∧ blen (sm_root_block_data_ m) < 2 ^ 63.

Definition meta_bytes (m : ObSSTableMeta) : bytes :=
  basic_meta_bytes (sm_basic_meta_ m) ++ le_enc 8 (blen (sm_root_block_data_ m)) ++ sm_root_block_data_ m
  ++ le_enc 8 (blen (sm_macro_ids_ m))
  ++ triples_bytes (sm_macro_ids_ m) (sm_macro_offsets_ m) (sm_macro_sizes_ m).

Lemma if_pos_app (out x : bytes) : (if 0 <? blen x then out ++ x else out) = out ++ x.
Proof.
  destruct (Z.ltb_spec 0 (blen x)); [done|]. destruct x as [|y x]; [by rewrite app_nil_r|].
  rewrite blen_cons in *. pose proof (blen_nonneg x). lia.
Qed.

Lemma meta_serialize_spec out m : meta_wf m →
  ObSSTableMeta_serialize out m = Done (0, out ++ meta_bytes m).
Proof.
  intros (_ & H1 & H2 & _). unfold ObSSTableMeta_serialize. rewrite if_pos_app, macro_triples_ok by done.
  cbn [mbind outcome_bind]. unfold meta_bytes. by rewrite <-!app_assoc.
Qed.

Lemma drop_app_blen {A} n (a b : list A) : Z.of_nat n = blen a → drop n (a ++ b) = b.
Proof. unfold blen. intros H. replace n with (length a) by lia. apply drop_app_length. Qed.

Lemma meta_deserialize_spec m : meta_wf m →
  ObSSTableMeta_deserialize (meta_bytes m) ObSSTableMeta_new = (0, meta_reloaded m).
Proof.
  intros (Hb & H1 & H2 & H3 & H4). unfold ObSSTableMeta_deserialize, meta_bytes.
  pose proof (blen_nonneg (sm_root_block_data_ m)). pose proof (blen_nonneg (sm_macro_ids_ m)).
  set (t := triples_bytes _ _ _). assert (blen t = 24 * blen (sm_macro_ids_ m)) as Ht by (by apply blen_triples).
  assert (blen (basic_meta_bytes (sm_basic_meta_ m)) = 104) as Hbl by done.
  rewrite !blen_app, Hbl, !blen_le_enc, Ht, (proj2 (Z.ltb_ge _ _)) by lia.
  pose proof (sub_app_l (basic_meta_bytes (sm_basic_meta_ m))) as Hsub. rewrite Hbl in Hsub. rewrite Hsub.
  assert (pod_dec (basic_meta_bytes (sm_basic_meta_ m)) = sm_basic_meta_ m) as -> by exact (pod_dec_enc _ Hb).
  rewrite (drop_app_blen 104) by done.
  rewrite !blen_app, !blen_le_enc, (proj2 (Z.ltb_ge _ _)) by lia.
  change (field 0 8 (le_enc 8 ?z ++ _)) with (le_dec (le_enc 8 z)).
  rewrite i64_enc by (unfold i64_range; lia). rewrite (drop_app_blen 8) by done.
  set (root := sm_root_block_data_ m) in *. set (tail := le_enc 8 (blen (sm_macro_ids_ m)) ++ t).
  assert (blen tail = 8 + 24 * blen (sm_macro_ids_ m)) as Htail by (unfold tail; rewrite blen_app, Ht; done).
  assert ((if (0 <? blen root) && (blen root <=? blen (root ++ tail))
           then (mkSSTableMeta (sm_basic_meta_ m) (sub 0 (blen root) (root ++ tail)) 0 0 [] [] [] false,
                 drop (Z.to_nat (blen root)) (root ++ tail))
           else (set_basic (sm_basic_meta_ m) ObSSTableMeta_new, root ++ tail))
          = (mkSSTableMeta (sm_basic_meta_ m) root 0 0 [] [] [] false, tail)) as Hroot.
  { rewrite blen_app. rewrite (proj2 (Z.leb_le (blen root) _)) by lia. rewrite andb_true_r.
    destruct (Z.ltb_spec 0 (blen root)).
    - rewrite sub_app_l, drop_app_blen by lia. done.
    - destruct root as [|x r]; [done|]. rewrite blen_cons in *. pose proof (blen_nonneg r). lia. }
  cbn [set_basic ObSSTableMeta_new sm_basic_meta_ sm_root_block_data_ sm_root_block_offset_
    sm_root_block_size_ sm_macro_ids_ sm_macro_offsets_ sm_macro_sizes_ sm_is_inited_] in *.
  rewrite Hroot. rewrite (proj2 (Z.ltb_ge (blen tail) 8)) by lia. unfold tail.
  change (field 0 8 (le_enc 8 ?z ++ _)) with (le_dec (le_enc 8 z)).
  rewrite i64_enc by (unfold i64_range; lia). rewrite (drop_app_blen 8) by done.
  unfold t. rewrite read_triples_spec; [done|done|done|lia|lia|].
  fold t. unfold blen in Ht. lia.
Qed.

(** ** Data files *)

Fixpoint offsets_from (off : Z) (blocks : list bytes) : list Z :=
  match blocks with
  | [] => []
  | b :: blocks' => off :: offsets_from (off + blen b) blocks'
  end.

(** The meta after registering [blocks]. *)
Definition meta_with (m : ObSSTableMeta) (blocks : list bytes) (seqs : list Z) (off : Z) : ObSSTableMeta :=
  let b := sm_basic_meta_ m in
  mkSSTableMeta
    (mkBasicMeta (bm_row_count_ b) (bm_occupy_size_ b + blen (concat blocks)) (bm_original_size_ b)
       (bm_data_checksum_ b) (bm_rowkey_column_count_ b) (bm_column_cnt_ b)
       (bm_data_macro_block_count_ b + blen blocks) (bm_data_micro_block_count_ b)
       (bm_schema_version_ b) (bm_create_snapshot_version_ b) (bm_upper_trans_version_ b)
       (bm_max_merged_trans_version_ b) (bm_data_index_tree_height_ b) (bm_row_store_type_ b)
       (bm_contain_uncommitted_row_ b))
    (sm_root_block_data_ m) (sm_root_block_offset_ m) (sm_root_block_size_ m)
    (sm_macro_ids_ m ++ seqs) (sm_macro_offsets_ m ++ offsets_from off blocks)
    (sm_macro_sizes_ m ++ (blen <$> blocks)) (sm_is_inited_ m).

Lemma add_macro_blocks_spec blocks seqs off m : length seqs = length blocks →
  add_macro_blocks blocks seqs off m = Done (meta_with m blocks seqs off).
Proof.
  revert seqs off m. induction blocks as [|b blocks IH]; intros [|q seqs] off m Hl; try done; cbn [add_macro_blocks].
  - unfold meta_with. cbn [offsets_from fmap list_fmap concat]. rewrite !app_nil_r, !blen_nil, !Z.add_0_r.
    by destruct m as [[] ? ? ? ? ? ? ?].
  - rewrite IH by (cbn in Hl; lia). unfold meta_with, ObSSTableMeta_add_macro_block.
    cbn [sm_basic_meta_ sm_root_block_data_ sm_root_block_offset_ sm_root_block_size_ sm_macro_ids_
      sm_macro_offsets_ sm_macro_sizes_ sm_is_inited_ bm_row_count_ bm_occupy_size_ bm_original_size_
      bm_data_checksum_ bm_rowkey_column_count_ bm_column_cnt_ bm_data_macro_block_count_
      bm_data_micro_block_count_ bm_schema_version_ bm_create_snapshot_version_ bm_upper_trans_version_
      bm_max_merged_trans_version_ bm_data_index_tree_height_ bm_row_store_type_ bm_contain_uncommitted_row_
      offsets_from concat]. rewrite fmap_cons, <-!app_assoc. cbn [app]. rewrite blen_app, !blen_cons.
    do 2 f_equal. f_equal; lia.
Qed.

Lemma length_offsets off blocks : length (offsets_from off blocks) = length blocks.
Proof. revert off. induction blocks; intros; cbn; auto. Qed.

Lemma offsets_lookup blocks i blk off : blocks !! i = Some blk →
  offsets_from off blocks !! i = Some (off + blen (concat (take i blocks)))
  ∧ ∃ c, concat blocks = concat (take i blocks) ++ blk ++ c.
Proof.
  revert i off. induction blocks as [|b blocks IH]; intros [|i] off Hi; try done; cbn in Hi.
  - injection Hi as ->. cbn [offsets_from take concat]. rewrite blen_nil, Z.add_0_r. split; [done|]. by eexists.
  - destruct (IH i (off + blen b) Hi) as (E & c & Hc). cbn [offsets_from take concat].
    rewrite blen_app, Z.add_assoc. split; [exact E|]. exists c. by rewrite Hc at 1; rewrite <-app_assoc.
Qed.

(** The lists of a meta describe [blocks]. *)
Definition describes (m : ObSSTableMeta) (blocks : list bytes) : Prop :=
  sm_macro_offsets_ m = offsets_from 0 blocks ∧ sm_macro_sizes_ m = blen <$> blocks.

Lemma read_macro_block_ok t s blocks i blk out : st_is_inited_ t = true → describes (st_meta_ t) blocks →
  holds (st_data_file_path_ t) (concat blocks) s → os_faults s = [] → blocks !! i = Some blk →
  ObSSTable_read_macro_block (Z.of_nat i) out t s = Done (0, blk, s).
Proof.
  intros Hin [Ho Hz] Hh Hf Hi. unfold ObSSTable_read_macro_block. rewrite Hin. cbn [negb].
  pose proof (lookup_lt_Some _ _ _ Hi) as Hlt. rewrite Ho, Hz.
  destruct (offsets_lookup blocks i blk 0 Hi) as (Eo & c & Hc).
  rewrite (proj2 (Z.ltb_ge _ _)) by lia. cbn [orb].
  rewrite (proj2 (Z.leb_gt _ _)) by (unfold blen; rewrite length_offsets; lia).
  rewrite Nat2Z.id, Eo, list_lookup_fmap, Hi. cbn [deref mbind outcome_bind fmap option_fmap option_map].
  pose proof (blen_nonneg blk). pose proof (blen_nonneg (concat (take i blocks))).
  rewrite (ifstream_read_ok s _ (concat blocks)) by (done || lia).
  rewrite (proj2 (Z.ltb_ge _ _)) by lia. rewrite Hc, Z.add_0_l.
  rewrite (sub_app_r _ _ 0) by lia. rewrite sub_app_l.
  rewrite mem_write_ok by (rewrite ?blen_resize; lia). cbn [mbind outcome_bind].
  by rewrite splice_all by (rewrite blen_resize; lia).
Qed.

Lemma meta_wf_with m blocks seqs : length seqs = length blocks → meta_wf m →
  sm_macro_ids_ m = [] → blen blocks < 2 ^ 62 →
  bm_data_macro_block_count_ (sm_basic_meta_ m) = 0 → bm_occupy_size_ (sm_basic_meta_ m) = 0 →
  blen (concat blocks) < 2 ^ 62 → meta_wf (meta_with m blocks seqs 0).
Proof.
  intros Hl (Hb & H1 & H2 & H3 & H4) Hids Hn Hc0 Ho0 Hsz. unfold meta_wf, meta_with.
  rewrite Hids in *. apply nil_length_inv in H1, H2. rewrite H1, H2.
  pose proof (blen_nonneg blocks). pose proof (blen_nonneg (concat blocks)).
  destruct Hb as (B1 & B2 & B3 & B4 & B5 & B6 & B7 & B8 & B9 & B10 & B11 & B12 & B13 & B14).
  cbn [sm_basic_meta_ sm_root_block_data_ sm_macro_ids_ sm_macro_offsets_ sm_macro_sizes_ app].
  rewrite length_offsets, length_fmap. unfold blen at 3. rewrite Hl. fold (blen blocks).
  rewrite Hc0, Ho0. unfold basic_meta_wf, i64_range in *. split_and!; cbn; try done; try tauto; lia.
Qed.

(** ** Reading a whole SSTable: its macro blocks in order, decoded *)

Fixpoint blocks_rows (n : nat) (i : Z) (t : ObSSTable) (s : os) : outcome (Z * list stored_row) :=
  match n with
  | O => Done (0, [])
  | S n' =>
      x ← ObSSTable_read_macro_block i [] t s;
      let '(ret, blk, s) := x : Z * bytes * os in
      if negb (ret =? 0) then Done (ret, [])
      else
        y ← macro_block_rows blk;
        let '(_, rows) := y : Z * list stored_row in
        z ← blocks_rows n' (i + 1) t s;
        let '(ret, rest) := z : Z * list stored_row in
        Done (ret, rows ++ rest)
  end.
Definition sstable_rows (t : ObSSTable) (s : os) : outcome (Z * list stored_row) :=
  blocks_rows (length (sm_macro_offsets_ (st_meta_ t))) 0 t s.

Section Build.
Context (desc : ObDataStoreDesc) (lo hi : Z) (Hfit : sizes_fit desc lo hi).

(** A macro block that can be decoded. *)
Definition block_ok (micros : list (list ObStoreRow)) : Prop :=
  micros_ok desc lo hi micros ∧ HEADER_RESERVE + micros_size micros ≤ d_macro_block_size_ desc.

Lemma block_ok_decode micros : block_ok micros →
  macro_block_rows (macro_block_of desc micros) = Done (rows_in micros, row_image <$> concat micros).
Proof.
  intros [Hm Hsz]. destruct Hfit as (_ & _ & HM & _). apply macro_block_decode; [|lia].
  eapply Forall_impl; [exact Hm|]. intros rows [Hr Hs]. split; [|unfold HEADER_RESERVE in *; lia].
  eapply Forall_impl; [exact Hr|]. by intros row [? _].
Qed.

Lemma blocks_rows_spec t s cs k : st_is_inited_ t = true →
  describes (st_meta_ t) (macro_block_of desc <$> cs) →
  holds (st_data_file_path_ t) (concat (macro_block_of desc <$> cs)) s → os_faults s = [] →
  Forall block_ok cs → (k ≤ length cs)%nat →
  blocks_rows (length cs - k) (Z.of_nat k) t s = Done (0, row_image <$> concat (concat (drop k cs))).
Proof.
  intros Hin Hd Hh Hf Hok. remember (length cs - k)%nat as n eqn:Hn. revert k Hn.
  induction n as [|n IH]; intros k Hn Hk.
  - rewrite drop_ge by lia. done.
  - destruct (lookup_lt_is_Some_2 cs k) as [micros Hc]; [lia|]. cbn [blocks_rows].
    rewrite (read_macro_block_ok t s (macro_block_of desc <$> cs) k (macro_block_of desc micros))
      by (done || by rewrite list_lookup_fmap, Hc).
    cbn [mbind outcome_bind Z.eqb negb].
    rewrite block_ok_decode by (eapply Forall_lookup_1; eauto). cbn [mbind outcome_bind].
    replace (Z.of_nat k + 1) with (Z.of_nat (S k)) by lia. rewrite IH by lia. cbn [mbind outcome_bind].
    rewrite (drop_S cs micros k) by done. cbn [concat]. by rewrite concat_app, fmap_app.
Qed.

Lemma sstable_rows_spec t s cs : st_is_inited_ t = true →
  describes (st_meta_ t) (macro_block_of desc <$> cs) →
  holds (st_data_file_path_ t) (concat (macro_block_of desc <$> cs)) s → os_faults s = [] →
  Forall block_ok cs → sstable_rows t s = Done (0, row_image <$> concat (concat cs)).
Proof.
  intros Hin Hd Hh Hf Hok. unfold sstable_rows. pose proof Hd as [Ho _]. rewrite Ho, length_offsets, length_fmap.
  pose proof (blocks_rows_spec t s cs 0 Hin Hd Hh Hf Hok ltac:(lia)) as E. by rewrite Nat.sub_0_r, drop_0 in E.
Qed.

(** ** The builder *)

(** Appending rows; like the loop of the mini merge it does not look at the
    codes. *)
Fixpoint builder_append_rows (rows : list ObStoreRow) (b : ObSSTableBuilder) : outcome ObSSTableBuilder :=
  match rows with
  | [] => Done b
  | row :: rows' =>
      x ← ObSSTableBuilder_append_row row b;
      let '(_, b) := x : Z * ObSSTableBuilder in builder_append_rows rows' b
  end.

(** The builder has handed out the blocks of [cs], is filling another one with
    [micros] and has the rows [pend] in its micro writer. *)
Definition builder_ok (b : ObSSTableBuilder) (cs : list (list (list ObStoreRow)))
    (micros : list (list ObStoreRow)) (pend : list ObStoreRow) : Prop :=
  writer_ok desc lo hi (sb_writer_ b) micros pend ∧ sb_is_closed_ b = false
  ∧ sb_macro_blocks_ b = macro_block_of desc <$> cs ∧ length (sb_macro_seqs_ b) = length cs
  ∧ Forall block_ok cs ∧ Forall (λ c, concat c ≠ []) cs.

Definition builder_rows (cs : list (list (list ObStoreRow))) (micros : list (list ObStoreRow))
    (pend : list ObStoreRow) : list ObStoreRow :=
  concat (concat cs) ++ concat micros ++ pend.

Lemma macro_block_nonempty micros : macro_block_of desc micros ≠ [].
Proof.
  intros E. pose proof (blen_macro_block desc micros) as Hl. rewrite E, blen_nil in Hl.
  pose proof (micros_size_nonneg micros). unfold HEADER_RESERVE in Hl. lia.
Qed.

Lemma builder_append_ok b cs micros pend row : builder_ok b cs micros pend → row_fits lo hi row →
  ∃ b' cs' micros' pend', ObSSTableBuilder_append_row row b = Done (0, b') ∧ builder_ok b' cs' micros' pend'
    ∧ builder_rows cs' micros' pend' = builder_rows cs micros pend ++ [row]
    ∧ sb_meta_ b' = sb_meta_ b ∧ sb_data_file_path_ b' = sb_data_file_path_ b
    ∧ sb_meta_file_path_ b' = sb_meta_file_path_ b.
Proof.
  intros (Hw & Hcl & Hb & Hs & Hok & Hne) Hrow. unfold ObSSTableBuilder_append_row.
  destruct (append_row_ok desc lo hi Hfit (sb_writer_ b) micros pend row [] 0 Hw Hrow)
    as (out & seq & w' & -> & _ & micros' & pend' & Hm' & Hcat & Hcase).
  cbn [mbind outcome_bind Z.eqb negb deref]. unfold builder_rows.
  destruct Hcase as [[-> Hw']|(-> & -> & Hw' & Hsz)].
  - rewrite bool_decide_true by done. eexists _, cs, micros', pend'. split; [done|]. split; [done|].
    split; [|done]. by rewrite Hcat, <-!app_assoc.
  - rewrite bool_decide_false by apply macro_block_nonempty.
    eexists _, (cs ++ [micros']), [], []. split; [done|]. unfold builder_ok. split_and!; try done.
    + cbn [sb_macro_blocks_]. by rewrite fmap_app, Hb.
    + cbn [sb_macro_seqs_]. rewrite !length_app, Hs. done.
    + apply Forall_app. split; [done|]. by repeat constructor.
    + apply Forall_app. split; [done|]. repeat constructor. rewrite app_nil_r in Hcat. rewrite Hcat.
      by destruct (concat micros), pend.
    + rewrite app_nil_r in Hcat. rewrite concat_app, concat_app. cbn [concat]. rewrite !app_nil_r, Hcat, <-!app_assoc.
      done.
Qed.

Lemma builder_append_rows_ok rows b cs micros pend : builder_ok b cs micros pend → Forall (row_fits lo hi) rows →
  ∃ b' cs' micros' pend', builder_append_rows rows b = Done b' ∧ builder_ok b' cs' micros' pend'
    ∧ builder_rows cs' micros' pend' = builder_rows cs micros pend ++ rows
    ∧ sb_meta_ b' = sb_meta_ b ∧ sb_data_file_path_ b' = sb_data_file_path_ b
    ∧ sb_meta_file_path_ b' = sb_meta_file_path_ b.
Proof.
  revert b cs micros pend. induction rows as [|row rows IH]; intros b cs micros pend Hb Hrows;
    cbn [builder_append_rows].
  - exists b, cs, micros, pend. by rewrite app_nil_r.
  - apply Forall_cons in Hrows as [Hrow Hrows].
    destruct (builder_append_ok b cs micros pend row Hb Hrow) as (b1 & c1 & m1 & p1 & -> & Hb1 & E1 & F1).
    cbn [mbind outcome_bind].
    destruct (IH b1 c1 m1 p1 Hb1 Hrows) as (b2 & c2 & m2 & p2 & -> & Hb2 & E2 & F2).
    exists b2, c2, m2, p2. split; [done|]. split; [done|]. rewrite E2, E1, <-app_assoc.
    destruct F2 as (-> & -> & ->), F1 as (-> & -> & ->). done.
Qed.

Lemma open_ok seq : ∃ w, ObMacroBlockWriter_open desc seq ObMacroBlockWriter_new = Done (0, w)
  ∧ writer_ok desc lo hi w [] [].
Proof.
  destruct Hfit as (_ & HF & HM & _). unfold HEADER_RESERVE in *.
  destruct (open_repr desc seq) as (w & E & Hw); [unfold HEADER_RESERVE; lia|]. exists w. split; [done|].
  split_and!; [done|by split; [constructor|left]|constructor|]. rewrite (repr_remain _ _ _ _ _ Hw).
  change (micros_size []) with 0. unfold HEADER_RESERVE. lia.
Qed.

(** The numbers of the description fit their fields. *)
Definition desc_i64 : Prop :=
  i64_range (d_column_count_ desc) ∧ i64_range (d_rowkey_column_count_ desc)
  ∧ i64_range (d_schema_version_ desc) ∧ i64_range (d_snapshot_version_ desc).

(** The meta of a new builder. *)
Definition builder_meta : ObSSTableMeta :=
  (ObSSTableMeta_init (d_tablet_id_ desc) (d_column_count_ desc) (d_rowkey_column_count_ desc)
     (d_schema_version_ desc) (d_snapshot_version_ desc) ObSSTableMeta_new).2.

Lemma builder_init_ok dp mp : ∃ b, ObSSTableBuilder_init desc dp mp ObSSTableBuilder_new = Done (0, b)
  ∧ builder_ok b [] [] [] ∧ sb_meta_ b = builder_meta ∧ sb_data_file_path_ b = dp
  ∧ sb_meta_file_path_ b = mp.
Proof.
  unfold ObSSTableBuilder_init. destruct (open_ok 0) as (w & E & Hw). cbn [sb_writer_ ObSSTableBuilder_new].
  rewrite E. cbn [mbind outcome_bind Z.eqb negb]. eexists. split; [done|]. by split_and!.
Qed.

Lemma builder_meta_wf : desc_i64 → meta_wf builder_meta.
Proof.
  intros (H1 & H2 & H3 & H4). unfold meta_wf, basic_meta_wf, i64_range in *. cbn. split_and!; lia || done.
Qed.

(** Sizes of the files a builder writes. *)
Lemma blocks_total cs : Forall block_ok cs →
  blen (concat (macro_block_of desc <$> cs)) ≤ blen cs * (2 ^ 31 + 112).
Proof.
  destruct Hfit as (_ & _ & HM & _).
  induction 1 as [|c cs [_ Hc] _ IH]; [done|]. rewrite fmap_cons. cbn [concat].
  rewrite blen_app, blen_macro_block, blen_cons. unfold HEADER_RESERVE in *. lia.
Qed.

Lemma blocks_count cs : Forall (λ c : list (list ObStoreRow), concat c ≠ []) cs →
  blen cs ≤ blen (concat (concat cs)).
Proof.
  induction 1 as [|c cs Hc _ IH]; [done|]. cbn [concat]. rewrite concat_app, blen_app, blen_cons.
  destruct (concat c); [done|]. rewrite blen_cons. pose proof (blen_nonneg l). lia.
Qed.

Lemma offsets_i64 blocks off : 0 ≤ off → off + blen (concat blocks) < 2 ^ 63 →
  (i64 <$> offsets_from off blocks) = offsets_from off blocks ∧ (i64 <$> (blen <$> blocks)) = blen <$> blocks.
Proof.
  revert off. induction blocks as [|b blocks IH]; intros off Ho Hlt; [done|]. cbn [offsets_from concat] in *.
  rewrite blen_app in Hlt. pose proof (blen_nonneg b). pose proof (blen_nonneg (concat blocks)).
  rewrite !fmap_cons. destruct (IH (off + blen b)) as [E1 E2]; [lia..|].
  rewrite E1, E2, !i64_small by (unfold i64_range; lia). done.
Qed.
End Build.

(** An SSTable whose files are on disk, and its meta file. *)
Definition table_on_disk (t : ObSSTable) (blocks : list bytes) (m : ObSSTableMeta) (s : os) : Prop :=
  holds (st_data_file_path_ t) (concat blocks) s ∧ holds (st_meta_file_path_ t) (meta_bytes m) s.

(** Writing the two files. *)
Lemma create_ok blocks seqs m dp mp t s : length seqs = length blocks → meta_wf m → sm_macro_ids_ m = [] →
  bm_data_macro_block_count_ (sm_basic_meta_ m) = 0 → bm_occupy_size_ (sm_basic_meta_ m) = 0 →
  blen blocks < 2 ^ 62 → blen (concat blocks) < 2 ^ 62 → dp ≠ mp → os_wf s → os_faults s = [] →
  ∃ s', ObSSTable_create_from_blocks blocks seqs m dp mp t s
        = Done (0, mkSSTable (meta_with m blocks seqs 0) dp mp true, s')
    ∧ os_wf s' ∧ os_faults s' = [] ∧ holds dp (concat blocks) s'
    ∧ holds mp (meta_bytes (meta_with m blocks seqs 0)) s'.
Proof.
  intros Hl Hm Hids Hc0 Ho0 Hn Hsz Hne Hwf Hf. unfold ObSSTable_create_from_blocks.
  destruct (ofstream_write_ok s dp (concat blocks) Hwf Hf) as (s1 & -> & Hwf1 & Hf1 & Hd1 & _). cbn [negb].
  assert (set_macros [] [] [] m = m) as ->.
  { destruct Hm as (_ & E1 & E2 & _). rewrite Hids in E1, E2. apply nil_length_inv in E1, E2.
    destruct m; cbn in *. by subst. }
  rewrite add_macro_blocks_spec by done. cbn [mbind outcome_bind]. unfold ObSSTableMeta_save_to_file.
  rewrite meta_serialize_spec by (by apply meta_wf_with). cbn [mbind outcome_bind app].
  destruct (ofstream_write_ok s1 mp (meta_bytes (meta_with m blocks seqs 0)) Hwf1 Hf1)
    as (s2 & -> & Hwf2 & Hf2 & Hd2 & Hoth). cbn [mbind outcome_bind].
  exists s2. split_and!; try done. eapply holds_same; [|exact Hd1]. by apply Hoth.
Qed.

(** Reopening from the meta file. *)
Lemma reopen_ok dp mp m s : meta_wf m → holds mp (meta_bytes m) s → os_faults s = [] →
  ObSSTable_init dp mp ObSSTable_new s = (0, mkSSTable (meta_reloaded m) dp mp true, s).
Proof.
  intros Hm Hh Hf. unfold ObSSTable_init, ObSSTableMeta_load_from_file. rewrite (sys_size_holds _ _ _ Hh).
  rewrite (ifstream_read_ok s mp (meta_bytes m)) by (done || lia || apply blen_nonneg). rewrite sub_all.
  rewrite Z.sub_diag. cbn [Z.to_nat replicate]. rewrite app_nil_r.
  cbn [st_meta_ ObSSTable_new]. by rewrite meta_deserialize_spec.
Qed.

(** Closing a builder that holds [rows]. *)
Lemma builder_close_ok desc lo hi b cs micros pend dp mp s : sizes_fit desc lo hi → desc_i64 desc →
  builder_ok desc lo hi b cs micros pend → sb_meta_ b = builder_meta desc → sb_data_file_path_ b = dp →
  sb_meta_file_path_ b = mp → blen (builder_rows cs micros pend) < 2 ^ 30 → dp ≠ mp → os_wf s →
  os_faults s = [] →
  ∃ b' s' cs' m, ObSSTableBuilder_close b s = Done (0, b', s') ∧ os_faults s' = []
    ∧ ObSSTableBuilder_get_sstable b' = mkSSTable m dp mp true
    ∧ m = meta_with (builder_meta desc) (macro_block_of desc <$> cs') (sm_macro_ids_ m) 0
    ∧ meta_wf m ∧ holds dp (concat (macro_block_of desc <$> cs')) s' ∧ holds mp (meta_bytes m) s'
    ∧ Forall (block_ok desc lo hi) cs' ∧ concat (concat cs') = builder_rows cs micros pend
    ∧ blen (concat (macro_block_of desc <$> cs')) < 2 ^ 62.
Proof.
  intros Hfit Hi64 (Hw & Hcl & Hb & Hs & Hok & Hne) Hm <- <- Hcnt Hpath Hwf Hf.
  unfold ObSSTableBuilder_close. rewrite Hcl.
  destruct (close_ok desc lo hi Hfit _ _ _ [] [] Hw) as (micros' & seq & w' & -> & Hcat & Hmok & Hsz).
  cbn [mbind outcome_bind Z.eqb negb app]. set (cs' := cs ++ [micros']).
  assert (Forall (block_ok desc lo hi) cs') as Hok' by (apply Forall_app; split; [done|by repeat constructor]).
  assert (concat (concat cs') = builder_rows cs micros pend) as Hrows.
  { unfold cs', builder_rows. rewrite concat_app, concat_app. cbn [concat]. by rewrite !app_nil_r, Hcat. }
  assert (blen cs' ≤ 2 ^ 30) as Hncs.
  { unfold cs'. rewrite blen_app. change (blen [micros']) with 1. pose proof (blocks_count _ Hne).
    unfold builder_rows in Hcnt. rewrite blen_app in Hcnt. pose proof (blen_nonneg (concat micros ++ pend)). lia. }
  pose proof (blocks_total desc lo hi Hfit cs' Hok') as Htot.
  assert (blen (concat (macro_block_of desc <$> cs')) < 2 ^ 62) as Htot' by nia.
  assert (sb_macro_blocks_ b ++ [macro_block_of desc micros'] = macro_block_of desc <$> cs') as ->
    by (unfold cs'; by rewrite fmap_app, Hb).
  set (seqs := sb_macro_seqs_ b ++ [seq]).
  assert (length seqs = length (macro_block_of desc <$> cs')) as Hl.
  { unfold seqs, cs'. rewrite length_fmap, !length_app, Hs. done. }
  assert (blen (macro_block_of desc <$> cs') < 2 ^ 62) as Hn by (unfold blen in *; rewrite length_fmap; lia).
  pose proof (builder_meta_wf desc Hi64) as Hmwf. rewrite Hm.
  destruct (create_ok (macro_block_of desc <$> cs') seqs (builder_meta desc) (sb_data_file_path_ b)
              (sb_meta_file_path_ b) (sb_sstable_ b) s) as (s' & -> & Hwf' & Hf' & Hd & Hmf); try done.
  cbn [mbind outcome_bind]. eexists _, s', cs', _. split; [done|]. split; [done|]. split; [done|].
  split_and!; try done. by apply meta_wf_with.
Qed.

(** Building an SSTable from rows. *)
Lemma build_rows_ok desc lo hi rows dp mp s :
  sizes_fit desc lo hi → desc_i64 desc → Forall (row_fits lo hi) rows → blen rows < 2 ^ 30 →
  dp ≠ mp → os_wf s → os_faults s = [] →
  ∃ b1 b2 b3 s', ObSSTableBuilder_init desc dp mp ObSSTableBuilder_new = Done (0, b1)
    ∧ builder_append_rows rows b1 = Done b2 ∧ ObSSTableBuilder_close b2 s = Done (0, b3, s')
    ∧ sstable_rows (ObSSTableBuilder_get_sstable b3) s' = Done (0, row_image <$> rows)
    ∧ ∀ s2, file_of dp s2 = file_of dp s' → file_of mp s2 = file_of mp s' → os_faults s2 = [] →
        ∃ t, ObSSTable_init dp mp ObSSTable_new s2 = (0, t, s2)
             ∧ sstable_rows t s2 = Done (0, row_image <$> rows).
Proof.
  intros Hfit Hi64 Hrows Hcnt Hpath Hwf Hf.
  destruct (builder_init_ok desc lo hi Hfit dp mp) as (b1 & E1 & Hb1 & Hm1 & Hd1 & Hp1).
  destruct (builder_append_rows_ok desc lo hi Hfit rows b1 _ _ _ Hb1 Hrows)
    as (b2 & cs & micros & pend & E2 & Hb2 & Hr2 & Hm2 & Hd2 & Hp2).
  assert (builder_rows cs micros pend = rows) as Hr by (by rewrite Hr2).
  destruct (builder_close_ok desc lo hi b2 cs micros pend dp mp s)
    as (b3 & s' & cs' & m & E3 & Hf' & Ht & Hm & Hmwf & Hdat & Hmeta & Hok & Hcat & Htot);
    [done|done|done|congruence|congruence|congruence|by rewrite Hr|done..|].
  exists b1, b2, b3, s'. split; [done|]. split; [done|]. split; [done|].
  assert (describes m (macro_block_of desc <$> cs')) as Hdes by (rewrite Hm; done).
  rewrite Ht. split.
  - rewrite <-Hr, <-Hcat. by apply (sstable_rows_spec desc lo hi Hfit).
  - intros s2 Es Em Hf2. eexists. split.
    + apply reopen_ok; [done| |done]. by eapply holds_same.
    + rewrite <-Hr, <-Hcat. apply (sstable_rows_spec desc lo hi Hfit); try done; [|by eapply holds_same].
      destruct Hdes as [Eo Ez]. unfold describes, meta_reloaded. cbn [st_meta_ sm_macro_offsets_ sm_macro_sizes_].
      rewrite Eo, Ez. apply offsets_i64; lia.
Qed.



(** ** Row counts *)

Lemma append_row_meta row b ret b' : ObSSTableBuilder_append_row row b = Done (ret, b') →
  sb_meta_ b' = sb_meta_ b ∧ sb_is_closed_ b' = sb_is_closed_ b.
Proof.
  unfold ObSSTableBuilder_append_row. intros H. inv_done.
  destruct x as [[[r f] q] w]. destruct (negb (r =? 0)); inv_done; [done|].
  by case_bool_decide.
Qed.

Lemma append_rows_meta rows b b' : builder_append_rows rows b = Done b' →
  sb_meta_ b' = sb_meta_ b ∧ sb_is_closed_ b' = sb_is_closed_ b.
Proof.
  revert b. induction rows as [|row rows IH]; intros b; cbn [builder_append_rows]; [by intros [= ->]|].
  intros H. inv_done. destruct x as [r b1]. destruct (IH b1) as [-> ->]; [done|]. by eapply append_row_meta.
Qed.

Lemma add_macro_blocks_rows blocks seqs off m m' : add_macro_blocks blocks seqs off m = Done m' →
  ObSSTableMeta_get_row_count m' = ObSSTableMeta_get_row_count m.
Proof.
  revert seqs off m. induction blocks as [|b blocks IH]; intros [|q seqs] off m; cbn [add_macro_blocks];
    try (by intros [= ->]).
  intros ->%IH. unfold ObSSTableMeta_get_row_count. cbn. lia.
Qed.

(** Every SSTable a builder makes says it is empty.  Whatever rows were
    appended, the SSTable of a closed builder has row count 0 and [is_empty()]
    is true, because [create_from_blocks] registers each macro block with 0
    rows. *)
Theorem built_sstable_claims_empty desc dp mp b1 rows b2 s b3 s' :
  ObSSTableBuilder_init desc dp mp ObSSTableBuilder_new = Done (0, b1) →
  builder_append_rows rows b1 = Done b2 → ObSSTableBuilder_close b2 s = Done (0, b3, s') →
  ObSSTable_get_row_count (ObSSTableBuilder_get_sstable b3) = 0
  ∧ ObSSTable_is_empty (ObSSTableBuilder_get_sstable b3) = true.
Proof.
  intros H1 H2 H3. enough (ObSSTable_get_row_count (ObSSTableBuilder_get_sstable b3) = 0) as E.
  { split; [done|]. unfold ObSSTable_is_empty. unfold ObSSTable_get_row_count in E. by rewrite E. }
  apply append_rows_meta in H2 as [Hm Hc].
  assert (ObSSTableMeta_get_row_count (sb_meta_ b1) = 0 ∧ sb_is_closed_ b1 = false) as [Hb1 Hc1].
  { clear -H1. unfold ObSSTableBuilder_init in H1. inv_done. destruct x as [r w].
    destruct (negb (r =? 0)) eqn:E; inv_done; by split. }
  rewrite <-Hm in Hb1. rewrite <-Hc in Hc1. clear H1 Hm Hc. unfold ObSSTableBuilder_close in H3. rewrite Hc1 in H3.
  inv_done. destruct x as [[[r blocks] seqs] w]. destruct (negb (r =? 0)) eqn:E; inv_done; [by rewrite E in *|].
  destruct x as [[r2 t] s2]. inv_done. unfold ObSSTable_create_from_blocks in *.
  destruct (ofstream_write _ _ s) as [ok s1]. destruct ok; cbn [negb] in *; [|inv_done; discriminate].
  inv_done. destruct x0 as [r3 s3]. inv_done. unfold ObSSTable_get_row_count. cbn.
  by erewrite add_macro_blocks_rows by done.
Qed.

Lemma built_sstable_claims_empty_witness :
  ∃ b1 b2 b3 s', ObSSTableBuilder_init (small_desc 4300) "data" "meta" ObSSTableBuilder_new = Done (0, b1)
    ∧ builder_append_rows [small_row 5] b1 = Done b2 ∧ ObSSTableBuilder_close b2 os_empty = Done (0, b3, s')
    ∧ ObSSTable_is_empty (ObSSTableBuilder_get_sstable b3) = true.
Proof.
  assert (sizes_fit (small_desc 4300) 10 20) as Hfit by (repeat split; vm_compute; congruence).
  assert (desc_i64 (small_desc 4300)) as Hd by (repeat split; vm_compute; congruence).
  assert (Forall (row_fits 10 20) [small_row 5]) as Hrows.
  { repeat constructor; try (vm_compute; discriminate); unfold is_byte; lia. }
  destruct (builder_init_ok _ _ _ Hfit "data" "meta") as (b1 & E1 & Hb1 & Hm1 & Hd1 & Hp1).
  destruct (builder_append_rows_ok _ _ _ Hfit _ b1 _ _ _ Hb1 Hrows)
    as (b2 & cs & micros & pend & E2 & Hb2 & Hr2 & Hm2 & Hd2 & Hp2).
  destruct (builder_close_ok _ _ _ b2 cs micros pend "data" "meta" os_empty Hfit Hd Hb2)
    as (b3 & s' & _ & _ & E3 & _); [congruence|congruence|congruence|by rewrite Hr2|done|apply os_empty_wf|done|].
  exists b1, b2, b3, s'. split_and!; try assumption.
  apply (built_sstable_claims_empty (small_desc 4300) "data" "meta" b1 [small_row 5] b2 os_empty b3 s' E1 E2 E3).
Defined.
