(* ===== verification/Slog.v ===== *)
(** * The storage log

    Models [src/src/storage/slog/ob_storage_logger.h/.cpp]: an append-only file
    of entries, a 24-byte header followed by the data.  [replay] reads the file
    with one [read] per header and one per payload; its loop takes the number of
    iterations it may use, and [slog_replay_terminates] shows that one more than
    a 24th of the file size is enough. *)

From S2P Require Import Prelude Pod Posix.

(** ** Entries *)

Record ObStorageLogParam := mkLogParam {
  lp_tenant_id_ : Z;
  lp_log_type_ : Z;
  lp_data_ : option bytes;
  lp_data_len_ : Z }.
Definition ObStorageLogParam_new : ObStorageLogParam := mkLogParam 1 0 None 0.

(** [se_data_] is the flexible array after the header. *)
Record ObStorageLogEntry := mkSlogEntry {
  se_magic_ : Z;
  se_total_size_ : Z;
  se_tenant_id_ : Z;
  se_log_type_ : Z;
  se_data_len_ : Z;
  se_data_ : bytes }.
Definition ObStorageLogEntry_MAGIC : Z := 0x534C4F47.
Definition ObStorageLogEntry_get_header_size : Z := 24.

Definition SLOG_INVALID : Z := 0.
Definition SLOG_CREATE_TABLET : Z := 1.
Definition SLOG_DELETE_TABLET : Z := 2.
Definition SLOG_CREATE_SSTABLE : Z := 3.
Definition SLOG_CREATE_DATABASE : Z := 4.
Definition SLOG_DROP_DATABASE : Z := 5.

(** The header in memory: the structure up to [data_]. *)
Definition slog_header_bytes (e : ObStorageLogEntry) : bytes :=
  le_enc 4 (se_magic_ e) ++ le_enc 4 (se_total_size_ e) ++ le_enc 8 (se_tenant_id_ e)
  ++ le_enc 4 (se_log_type_ e) ++ le_enc 4 (se_data_len_ e).
Definition slog_header_of (b : bytes) : ObStorageLogEntry :=
  mkSlogEntry (field 0 4 b) (field 4 4 b) (field 8 8 b) (i32 (field 16 4 b)) (i32 (field 20 4 b)) [].
Definition set_slog_data (d : bytes) (e : ObStorageLogEntry) : ObStorageLogEntry :=
  mkSlogEntry (se_magic_ e) (se_total_size_ e) (se_tenant_id_ e) (se_log_type_ e) (se_data_len_ e) d.

(** ** ObStorageLogger *)

Record ObStorageLogger := mkLogger {
  sl_slog_dir_ : string;
  sl_slog_file_path_ : string;
  sl_fd_ : option inode;
  sl_is_inited_ : bool }.
Definition ObStorageLogger_new : ObStorageLogger := mkLogger EmptyString EmptyString None false.

Definition ObStorageLogger_init (log_dir : string) (l : ObStorageLogger) (s : os) : Z * ObStorageLogger * os :=
  if sl_is_inited_ l then (0, l, s)
  else
    let path := (log_dir +:+ "/slog_0")%string in
    let '(fd, s) := sys_open path true false s in
    match fd with
    | None => (-1, mkLogger log_dir path None false, s)
    | Some i => (0, mkLogger log_dir path (Some i) true, s)
    end.

Definition ObStorageLogger_destroy (l : ObStorageLogger) : ObStorageLogger :=
  mkLogger (sl_slog_dir_ l) (sl_slog_file_path_ l) None false.

(** The header [write_log] fills in. *)
Definition write_header (param : ObStorageLogParam) (entry_size : Z) : ObStorageLogEntry :=
  mkSlogEntry ObStorageLogEntry_MAGIC (u32 entry_size) (lp_tenant_id_ param) (lp_log_type_ param)
    (i32 (lp_data_len_ param)) [].

Definition ObStorageLogger_write_log (param : ObStorageLogParam) (l : ObStorageLogger) (s : os) : outcome (Z * os) :=
  match sl_is_inited_ l, sl_fd_ l with
  | true, Some fd =>
      let header_size := ObStorageLogEntry_get_header_size in
      let entry_size := header_size + lp_data_len_ param in
      let '(buf, s) := sys_malloc entry_size s in
      buf ← mem_write 0 (slog_header_bytes (write_header param entry_size)) buf;
      buf ← match lp_data_ param with
            | Some data =>
                if 0 <? lp_data_len_ param
                then d ← mem_read 0 (lp_data_len_ param) data; mem_write header_size d buf
                else Done buf
            | None => Done buf
            end;
      let '(written, s) := sys_append fd buf s in
      Done (if negb (written =? entry_size) then -1 else 0, s)
  | _, _ => Done (-1, s)
  end.

(** [read(fd, buf, n)] with [n] converted to [size_t]: a negative count is
    refused and leaves the file position. *)
Definition sys_read_count (i : inode) (pos n : Z) (s : os) : Z * bytes * os :=
  if n <? 0 then (-1, [], s)
  else let '(d, s) := sys_read i pos n s in
       match d with None => (-1, [], s) | Some d => (blen d, d, s) end.

Section Replay.
Context {C : Type}.

(** One iteration of [replay]: the file position, [recovered], the context of
    the callback. *)
Definition slog_replay_body (callback : option (ObStorageLogEntry → C → C)) (fd : inode)
    (x : Z * Z * C * os) : outcome (Z * Z * C * os + Z * C * os) :=
  let '(pos, recovered, ctx, s) := x in
  let hsz := ObStorageLogEntry_get_header_size in
  let '(n, hb, s) := sys_read_count fd pos hsz s in
  if negb (n =? hsz) then Done (inr (recovered, ctx, s))
  else
    let hdr := slog_header_of hb in
    if negb (se_magic_ hdr =? ObStorageLogEntry_MAGIC) then Done (inr (recovered, ctx, s))
    else
      let data_len := se_data_len_ hdr in
      let '(n, data, s) := sys_read_count fd (pos + hsz) data_len s in
      if negb (n =? data_len) then Done (inr (recovered, ctx, s))
      else if 2 ^ 31 <=? hsz + data_len then UB
      else
        let '(full, s) := sys_malloc (hsz + data_len) s in
        full ← mem_write 0 hb full;
        full ← mem_write hsz data full;
        let entry := set_slog_data (drop (Z.to_nat hsz) full) (slog_header_of full) in
        let ctx := match callback with Some f => f entry ctx | None => ctx end in
        Done (inl (pos + hsz + data_len, recovered + 1, ctx, s)).

Definition ObStorageLogger_replay (fuel : nat) (ctx : C) (callback : option (ObStorageLogEntry → C → C))
    (l : ObStorageLogger) (s : os) : outcome (Z * C * os) :=
  let '(fd, s) := sys_open (sl_slog_file_path_ l) false false s in
  match fd with
  | None => Done (0, ctx, s)
  | Some i => loop (slog_replay_body callback i) fuel (0, 0, ctx, s)
  end.
End Replay.

(** ** Entries as bytes *)

Definition slog_entry_bytes (e : ObStorageLogEntry) : bytes := slog_header_bytes e ++ se_data_ e.
Definition slog_entry_wf (e : ObStorageLogEntry) : Prop :=
  se_magic_ e = ObStorageLogEntry_MAGIC ∧ 0 ≤ se_total_size_ e < 2 ^ 32 ∧ 0 ≤ se_tenant_id_ e < 2 ^ 64
  ∧ i32_range (se_log_type_ e) ∧ se_data_len_ e = blen (se_data_ e) ∧ 24 + se_data_len_ e < 2 ^ 31.

Lemma blen_slog_header e : blen (slog_header_bytes e) = 24.
Proof. done. Qed.

Lemma slog_header_enc e rest : slog_entry_wf e →
  slog_header_of (slog_header_bytes e ++ rest) = set_slog_data [] e.
Proof.
  destruct e as [m t n y d b]. intros (Hm & Ht & Hn & Hy & Hd & Hlt). cbn in *.
  unfold set_slog_data. cbn. subst m.
  assert (i32_range d) by (pose proof (blen_nonneg b); unfold i32_range; lia).
  unfold slog_header_of. f_equal; cbn.
  - exact (le_dec_enc_small 4 t Ht).
  - exact (le_dec_enc_small 8 n Hn).
  - exact (i32_enc y Hy).
  - by apply (i32_enc d).
Qed.

(** Bytes at which the replay stops: too few for a header, or another magic. *)
Definition no_entry (rest : bytes) : Prop :=
  blen rest < 24 ∨ field 0 4 (sub 0 24 rest) ≠ ObStorageLogEntry_MAGIC.

Section ReplaySpec.
Context {C : Type} (callback : option (ObStorageLogEntry → C → C)) (i : inode) (f : file) (data : bytes).
Context (Hsz : f_size f = blen data) (Hdata : file_bytes f = data).

Definition call (ctx : C) (e : ObStorageLogEntry) : C := match callback with Some g => g e ctx | None => ctx end.

Lemma read_count_ok s pos n : os_faults s = [] → os_inodes s !! i = Some f → 0 ≤ pos → 0 ≤ n →
  sys_read_count i pos n s = (blen (sub pos n data), sub pos n data, s).
Proof.
  intros Hf Hi Hp Hn. unfold sys_read_count. rewrite (proj2 (Z.ltb_ge _ _)) by lia.
  rewrite (sys_read_ok s i f) by done. by rewrite (file_read_sub f data).
Qed.

Lemma slog_body_entry s pre e post r ctx : os_faults s = [] → os_inodes s !! i = Some f →
  slog_entry_wf e → data = pre ++ slog_entry_bytes e ++ post →
  ∃ s', slog_replay_body callback i (blen pre, r, ctx, s)
        = Done (inl (blen (pre ++ slog_entry_bytes e), r + 1, call ctx e, s'))
        ∧ reboot s s'.
Proof.
  intros Hf Hi Hwf Hd. pose proof (blen_nonneg pre). pose proof (blen_nonneg (se_data_ e)).
  pose proof Hwf as (Hm & _ & _ & _ & Hl & Hlt). unfold slog_replay_body, ObStorageLogEntry_get_header_size.
  rewrite (read_count_ok s) by (done || lia).
  assert (sub (blen pre) 24 data = slog_header_bytes e) as ->.
  { rewrite Hd. unfold slog_entry_bytes. rewrite <-app_assoc.
    rewrite (sub_app_r pre _ 0) by lia. apply (sub_app_l (slog_header_bytes e)). }
  rewrite blen_slog_header. cbn [Z.eqb Pos.eqb negb]. 
  pose proof (slog_header_enc e [] Hwf) as He. rewrite app_nil_r in He. rewrite He. cbn [set_slog_data se_magic_ se_data_len_]. rewrite Hm, Z.eqb_refl. cbn [negb].
  rewrite (read_count_ok s) by (done || lia).
  assert (sub (blen pre + 24) (se_data_len_ e) data = se_data_ e) as ->.
  { rewrite Hd. unfold slog_entry_bytes. rewrite <-app_assoc, app_assoc.
    rewrite (sub_app_r (pre ++ slog_header_bytes e) _ 0) by (rewrite ?blen_app, ?blen_slog_header; lia).
    rewrite Hl. apply sub_app_l. }
  rewrite Hl, Z.eqb_refl. cbn [negb]. rewrite (proj2 (Z.leb_gt _ _)) by lia.
  rewrite (surjective_pairing (sys_malloc _ s)). set (mem := (sys_malloc _ s).1).
  assert (blen mem = 24 + blen (se_data_ e)) as Hmem by (apply sys_malloc_length; lia).
  destruct (split3 mem 0 24) as (x & o & y & Hmo & Hx & Ho); [lia..|].
  assert (x = []) as -> by (apply nil_length_inv; unfold blen in Hx; lia). cbn [app] in Hmo. rewrite Hmo in *.
  rewrite blen_app in Hmem. clear mem Hmo.
  rewrite mem_write_ok by (rewrite ?blen_app, ?blen_slog_header; lia). cbn [mbind outcome_bind].
  change (o ++ y) with ([] ++ o ++ y). rewrite splice_eq by (rewrite ?blen_slog_header; done). cbn [app].
  rewrite mem_write_ok by (rewrite ?blen_app, ?blen_slog_header; lia). cbn [mbind outcome_bind].
  rewrite <-(app_nil_r y), splice_eq by (rewrite ?blen_slog_header; lia).
  exists (sys_malloc (24 + blen (se_data_ e)) s).2. split; [|done]. rewrite app_nil_r, slog_header_enc by done.
  change (drop (Z.to_nat 24) (slog_header_bytes e ++ se_data_ e)) with (se_data_ e).
  rewrite blen_app. unfold slog_entry_bytes. rewrite blen_app, blen_slog_header, Z.add_assoc.
  by destruct e.
Qed.

Lemma slog_loop_spec es rest pre s r ctx fuel : os_faults s = [] → os_inodes s !! i = Some f →
  Forall slog_entry_wf es → data = pre ++ concat (slog_entry_bytes <$> es) ++ rest → no_entry rest →
  (length es < fuel)%nat →
  ∃ s', loop (slog_replay_body callback i) fuel (blen pre, r, ctx, s)
        = Done (r + Z.of_nat (length es), foldl call ctx es, s') ∧ reboot s s'.
Proof.
  intros Hf Hi Hes Hd Hno. revert pre s r ctx fuel Hf Hi Hd.
  induction Hes as [|e es He Hes IH]; intros pre s r ctx [|fuel] Hf Hi Hd Hfu; cbn [length] in Hfu; try lia.
  - rewrite loop_step. unfold slog_replay_body, ObStorageLogEntry_get_header_size.
    pose proof (blen_nonneg pre). rewrite (read_count_ok s) by (done || lia).
    assert (sub (blen pre) 24 data = sub 0 24 rest) as -> by (rewrite Hd; by rewrite (sub_app_r pre _ 0) by lia).
    cbn [length foldl]. rewrite Z.add_0_r. exists s.
    split; [|done]. destruct (Z.eqb_spec (blen (sub 0 24 rest)) 24) as [E|]; [|done]. cbn [negb].
    destruct Hno as [Hlt|Hm].
    { exfalso. unfold sub, blen in E, Hlt. rewrite length_take, length_drop in E. lia. }
    unfold slog_header_of. cbn [se_magic_]. by rewrite (proj2 (Z.eqb_neq _ _) Hm).
  - rewrite loop_step. rewrite fmap_cons in Hd. cbn [concat] in Hd. rewrite <-app_assoc in Hd.
    destruct (slog_body_entry s pre e _ r ctx Hf Hi He Hd) as (s1 & -> & Hr1). pose proof Hr1 as (_ & Hi1 & Hf1 & _).
    cbn [mbind outcome_bind]. rewrite app_assoc in Hd.
    destruct (IH (pre ++ slog_entry_bytes e) s1 (r + 1) (call ctx e) fuel Hf1 ltac:(by rewrite Hi1) Hd ltac:(lia)) as (s2 & -> & Hr2).
    exists s2. split; [|by eapply reboot_trans]. cbn [length foldl]. by replace (r + 1 + Z.of_nat (length es)) with (r + Z.of_nat (S (length es))) by lia.
Qed.
End ReplaySpec.

(** ** Writing *)

Definition slog_entry_of (p : ObStorageLogParam) : ObStorageLogEntry :=
  mkSlogEntry ObStorageLogEntry_MAGIC (24 + lp_data_len_ p) (lp_tenant_id_ p) (lp_log_type_ p) (lp_data_len_ p)
    (default [] (lp_data_ p)).
Definition log_param_wf (p : ObStorageLogParam) : Prop :=
  lp_data_len_ p = blen (default [] (lp_data_ p)) ∧ 24 + lp_data_len_ p < 2 ^ 31
  ∧ 0 ≤ lp_tenant_id_ p < 2 ^ 64 ∧ i32_range (lp_log_type_ p).

(** An open logger whose file holds [data]. *)
Definition slog_repr (l : ObStorageLogger) (s : os) (data : bytes) : Prop :=
  sl_is_inited_ l = true ∧ ∃ i f, sl_fd_ l = Some i ∧ os_dir s !! sl_slog_file_path_ l = Some i
    ∧ os_inodes s !! i = Some f ∧ f_size f = blen data ∧ file_bytes f = data.

Lemma slog_entry_of_wf p : log_param_wf p → slog_entry_wf (slog_entry_of p).
Proof.
  intros (Hl & Hlt & Ht & Hy). pose proof (blen_nonneg (default [] (lp_data_ p))).
  unfold slog_entry_wf, slog_entry_of. cbn. split_and!; (done || lia).
Qed.

(** The buffer [write_log] hands to [write] is the entry. *)
Lemma write_log_buffer p l s i : log_param_wf p → sl_is_inited_ l = true → sl_fd_ l = Some i →
  ObStorageLogger_write_log p l s
  = (let '(written, s') := sys_append i (slog_entry_bytes (slog_entry_of p)) (sys_malloc (24 + lp_data_len_ p) s).2 in
     Done (if negb (written =? 24 + lp_data_len_ p) then -1 else 0, s')).
Proof.
  intros (Hl & Hlt & Ht & Hy) Hin Hfd. unfold ObStorageLogger_write_log, ObStorageLogEntry_get_header_size.
  rewrite Hin, Hfd. pose proof (blen_nonneg (default [] (lp_data_ p))).
  assert (write_header p (24 + lp_data_len_ p) = set_slog_data [] (slog_entry_of p)) as ->.
  { unfold write_header, slog_entry_of, set_slog_data. cbn. rewrite u32_small, i32_small; [done| |lia].
    unfold i32_range. lia. }
  set (e := slog_entry_of p). change (slog_header_bytes (set_slog_data [] e)) with (slog_header_bytes e).
  rewrite (surjective_pairing (sys_malloc _ s)). set (mem := (sys_malloc _ s).1).
  assert (blen mem = 24 + lp_data_len_ p) as Hmem by (apply sys_malloc_length; lia).
  destruct (split3 mem 0 24) as (x & o & y & Hmo & Hx & Ho); [lia..|].
  assert (x = []) as -> by (apply nil_length_inv; unfold blen in Hx; lia). cbn [app] in Hmo. rewrite Hmo in *.
  rewrite blen_app in Hmem. clear mem Hmo.
  rewrite mem_write_ok by (rewrite ?blen_app, ?blen_slog_header; lia). cbn [mbind outcome_bind].
  change (o ++ y) with ([] ++ o ++ y). rewrite splice_eq by (rewrite ?blen_slog_header; done). cbn [app].
  assert (match lp_data_ p with
          | Some data => if 0 <? lp_data_len_ p
                         then d ← mem_read 0 (lp_data_len_ p) data; mem_write 24 d (slog_header_bytes e ++ y)
                         else Done (slog_header_bytes e ++ y)
          | None => Done (slog_header_bytes e ++ y)
          end = Done (slog_entry_bytes e)) as ->; [|done].
  unfold slog_entry_bytes, e. cbn [slog_entry_of se_data_]. fold e.
  destruct (lp_data_ p) as [d|]; cbn [default from_option id] in *.
  - destruct (Z.ltb_spec 0 (lp_data_len_ p)).
    + unfold mem_read. rewrite !(proj2 (Z.leb_le _ _)) by lia. cbn [andb mbind outcome_bind]. rewrite Hl, sub_all.
      rewrite mem_write_ok by (rewrite ?blen_app, ?blen_slog_header; lia).
      rewrite <-(app_nil_r y), splice_eq by (rewrite ?blen_slog_header; lia). by rewrite app_nil_r.
    + assert (y = []) as -> by (apply nil_length_inv; unfold blen in *; lia).
      assert (d = []) as -> by (apply nil_length_inv; unfold blen in *; lia). done.
  - assert (y = []) as -> by (apply nil_length_inv; unfold blen in *; lia). done.
Qed.

Lemma slog_write_ok p l s data : slog_repr l s data → os_faults s = [] → log_param_wf p →
  ∃ s', ObStorageLogger_write_log p l s = Done (0, s') ∧ os_faults s' = []
    ∧ slog_repr l s' (data ++ slog_entry_bytes (slog_entry_of p)).
Proof.
  intros (Hin & i & f & Hfd & Hd & Hi & Hsz & Hb) Hf Hp. rewrite (write_log_buffer p l s i) by done.
  unfold sys_append. cbn [sys_malloc snd os_inodes]. rewrite Hi, (sys_write_ok _ i f) by done.
  pose proof Hp as (Hl & _).
  assert (blen (slog_entry_bytes (slog_entry_of p)) = 24 + lp_data_len_ p) as ->.
  { unfold slog_entry_bytes. rewrite blen_app, blen_slog_header. cbn. lia. }
  rewrite Z.eqb_refl. cbn [negb]. eexists. split; [done|]. split; [done|]. split; [done|].
  exists i, (file_write f (f_size f) (slog_entry_bytes (slog_entry_of p))).
  destruct (file_append f data (slog_entry_bytes (slog_entry_of p)) Hsz Hb) as [E1 E2].
  cbn [set_inodes os_dir os_inodes]. by rewrite lookup_insert_eq.
Qed.

(** Writing several entries: the codes. *)
Fixpoint write_logs (ps : list ObStorageLogParam) (l : ObStorageLogger) (s : os) : outcome (list Z * os) :=
  match ps with
  | [] => Done ([], s)
  | p :: ps' =>
      x ← ObStorageLogger_write_log p l s;
      let '(ret, s) := x : Z * os in
      y ← write_logs ps' l s;
      let '(rets, s) := y : list Z * os in Done (ret :: rets, s)
  end.

Definition entries_bytes (ps : list ObStorageLogParam) : bytes := concat (slog_entry_bytes <$> (slog_entry_of <$> ps)).

Lemma write_logs_ok ps l s data : slog_repr l s data → os_faults s = [] → Forall log_param_wf ps →
  ∃ s', write_logs ps l s = Done (replicate (length ps) 0, s') ∧ os_faults s' = []
    ∧ slog_repr l s' (data ++ entries_bytes ps).
Proof.
  intros Hr Hf Hps. revert s data Hr Hf. induction Hps as [|p ps Hp Hps IH]; intros s data Hr Hf.
  - exists s. unfold entries_bytes. cbn. by rewrite app_nil_r.
  - destruct (slog_write_ok p l s data Hr Hf Hp) as (s1 & Hw & Hf1 & Hr1). cbn [write_logs]. rewrite Hw.
    destruct (IH s1 _ Hr1 Hf1) as (s2 & Hw2 & Hf2 & Hr2). cbn [mbind outcome_bind]. rewrite Hw2.
    exists s2. split_and!; [done..|]. unfold entries_bytes in *. cbn. by rewrite <-app_assoc in Hr2.
Qed.

(** ** Opening *)

Lemma slog_open_new dir s : os_faults s = [] → os_dir s !! (dir +:+ "/slog_0")%string = None →
  ∃ l s', ObStorageLogger_init dir ObStorageLogger_new s = (0, l, s') ∧ os_faults s' = [] ∧ slog_repr l s' []
    ∧ sl_slog_file_path_ l = (dir +:+ "/slog_0")%string ∧ (os_wf s → touches (dir +:+ "/slog_0")%string s s').
Proof.
  intros Hf Hd. unfold ObStorageLogger_init. cbn [ObStorageLogger_new sl_is_inited_].
  rewrite sys_open_create by done. do 2 eexists. split; [done|]. split; [done|].
  split; [|split; [done|intros Hw; by eapply touches_create]].
  split; [done|]. exists (os_next s), (mkFile 0 ∅). unfold os_created. cbn [sl_fd_ sl_slog_file_path_ os_dir os_inodes].
  rewrite !lookup_insert_eq. done.
Qed.

Lemma slog_open_existing dir l s s2 data : slog_repr l s data → sl_slog_file_path_ l = (dir +:+ "/slog_0")%string →
  reboot s s2 →
  ∃ l', ObStorageLogger_init dir ObStorageLogger_new s2 = (0, l', s2) ∧ slog_repr l' s2 data
    ∧ sl_slog_file_path_ l' = (dir +:+ "/slog_0")%string.
Proof.
  intros (_ & i & f & Hfd & Hd & Hi & Hsz & Hb) Hpath (Hrd & Hri & Hrf & _). rewrite Hpath, <-Hrd in Hd. rewrite <-Hri in Hi.
  unfold ObStorageLogger_init. cbn [ObStorageLogger_new sl_is_inited_]. rewrite (sys_open_ok _ _ _ i) by done.
  eexists. split; [done|]. split; [|done]. split; [done|]. by exists i, f.
Qed.

(** Replaying an open log. *)
Lemma slog_replay_spec {C} (cb : option (ObStorageLogEntry → C → C)) ctx l s ps rest fuel :
  slog_repr l s (entries_bytes ps ++ rest) → os_faults s = [] → Forall log_param_wf ps → no_entry rest →
  (length ps < fuel)%nat →
  ∃ s', ObStorageLogger_replay fuel ctx cb l s
        = Done (Z.of_nat (length ps), foldl (call cb) ctx (slog_entry_of <$> ps), s') ∧ reboot s s'.
Proof.
  intros (_ & i & f & _ & Hd & Hi & Hsz & Hb) Hf Hps Hno Hfu. unfold ObStorageLogger_replay.
  rewrite (sys_open_ok _ _ _ i) by done.
  destruct (slog_loop_spec cb i f _ Hsz Hb (slog_entry_of <$> ps) rest [] s 0 ctx fuel) as (s' & E & Hr); try done.
  - apply Forall_fmap. eapply Forall_impl; [done|]. apply slog_entry_of_wf.
  - by rewrite length_fmap.
  - change (blen []) with 0 in E. rewrite E. exists s'. by rewrite length_fmap.
Qed.

Lemma no_entry_nil : no_entry [].
Proof. by left. Qed.

(** C13: the storage log returns what was written.  Open a log in a directory
    without one and write any entries: each write succeeds.  Whenever the
    process is then restarted, opening the log again and replaying it calls the
    callback once for every entry, in order, with the tenant, type, length and
    data that were written, and returns their number. *)
Theorem slog_roundtrip {C} (g : ObStorageLogEntry → C → C) ctx dir s0 ps fuel :
  os_faults s0 = [] → os_dir s0 !! (dir +:+ "/slog_0")%string = None → Forall log_param_wf ps →
  (length ps < fuel)%nat →
  ∃ l s1 s2, ObStorageLogger_init dir ObStorageLogger_new s0 = (0, l, s1)
    ∧ write_logs ps l s1 = Done (replicate (length ps) 0, s2)
    ∧ ∀ s3, reboot s2 s3 →
      ∃ l' s4, ObStorageLogger_init dir ObStorageLogger_new s3 = (0, l', s3)
        ∧ ObStorageLogger_replay fuel ctx (Some g) l' s3
          = Done (Z.of_nat (length ps), foldl (λ c p, g (slog_entry_of p) c) ctx ps, s4).
Proof.
  intros Hf Hd Hps Hfu. destruct (slog_open_new dir s0 Hf Hd) as (l & s1 & Hi & Hf1 & Hr & Hpath & _).
  destruct (write_logs_ok ps l s1 [] Hr Hf1 Hps) as (s2 & Hw & _ & Hr2). exists l, s1, s2. split_and!; [done..|].
  intros s3 Hreb. destruct (slog_open_existing dir l s2 s3 _ Hr2 Hpath Hreb) as (l' & Hi' & Hr' & _).
  destruct (slog_replay_spec (Some g) ctx l' s3 ps [] fuel) as (s4 & E & _);
    [by rewrite app_nil_r|apply Hreb|done|apply no_entry_nil|done|].
  exists l', s4. split; [done|]. rewrite E. do 3 f_equal.
  clear. revert ctx. induction ps as [|p ps IH]; intros ctx; [done|]. apply IH.
Qed.

Lemma slog_roundtrip_witness :
  let ps := [mkLogParam 1 SLOG_CREATE_DATABASE (Some [100; 98]) 2; mkLogParam 1 SLOG_DROP_DATABASE None 0] in
  ∃ l s1 s2, ObStorageLogger_init "d" ObStorageLogger_new os_empty = (0, l, s1)
    ∧ write_logs ps l s1 = Done ([0; 0], s2)
    ∧ ∃ l' s4, ObStorageLogger_init "d" ObStorageLogger_new (set_faults [] s2) = (0, l', set_faults [] s2)
        ∧ ObStorageLogger_replay 3 [] (Some (λ e c, c ++ [(se_log_type_ e, se_data_ e)])) l' (set_faults [] s2)
          = Done (2, [(4, [100; 98]); (5, [])], s4).
Proof.
  intros ps. destruct (slog_roundtrip (λ e c, c ++ [(se_log_type_ e, se_data_ e)]) [] "d" os_empty ps 3)
    as (l & s1 & s2 & H1 & H2 & Hre); [done..| |cbn; lia|].
  - repeat apply Forall_cons_2; try done; unfold log_param_wf, i32_range; cbn; split_and!; done.
  - exists l, s1, s2. split; [exact H1|]. split; [exact H2|]. apply (Hre (set_faults [] s2)). repeat split.
Defined.

(** ** Replay ends *)

Lemma sys_read_count_short i pos n s f d c s' : sys_read_count i pos n s = (c, d, s') → 0 ≤ pos → 0 ≤ n →
  os_inodes s !! i = Some f → c = n → 0 < n → pos + n ≤ f_size f ∧ os_inodes s' = os_inodes s.
Proof.
  unfold sys_read_count. intros H Hp Hn Hi Hc Hpos. rewrite (proj2 (Z.ltb_ge _ _)) in H by lia.
  unfold sys_read, take_fault in H.
  assert (∀ k, blen (file_read f pos k) = n → k ≤ n → pos + n ≤ f_size f) as Hlen.
  { intros k. unfold file_read, region, blen. rewrite length_fmap, length_seqZ. lia. }
  destruct (os_faults s) as [|k ks]; cbn in H.
  - rewrite Hi in H. injection H as <- <- <-. split; [|done]. by apply (Hlen n).
  - destruct (k <? 0); [injection H as <- <- <-; lia|]. rewrite Hi in H. injection H as <- <- <-.
    split; [|done]. apply (Hlen (Z.min k n)); [done|lia].
Qed.

Lemma sys_read_count_inodes i pos n s c d s' : sys_read_count i pos n s = (c, d, s') → os_inodes s' = os_inodes s.
Proof.
  unfold sys_read_count, sys_read, take_fault. destruct (n <? 0); [by intros [= <- <- <-]|].
  destruct (os_faults s) as [|k ks]; cbn; [|destruct (k <? 0)]; try (by intros [= <- <- <-]);
    destruct (os_inodes s !! i); by intros [= <- <- <-].
Qed.

Lemma sys_read_count_none i pos n s c d s' : sys_read_count i pos n s = (c, d, s') → os_inodes s !! i = None → c = -1.
Proof.
  unfold sys_read_count, sys_read, take_fault. destruct (n <? 0); [by intros [= <- <- <-]|].
  destruct (os_faults s) as [|k ks]; cbn; [|destruct (k <? 0)]; intros H Hi; rewrite ?Hi in H; by injection H as <- <- <-.
Qed.

(** An iteration that goes on consumed a header inside the file and a payload
    whose length is not negative. *)
Lemma slog_body_progress {C} (cb : option (ObStorageLogEntry → C → C)) i pos r ctx s pos' r' ctx' s' :
  slog_replay_body cb i (pos, r, ctx, s) = Done (inl (pos', r', ctx', s')) → 0 ≤ pos →
  (∃ f, os_inodes s !! i = Some f ∧ pos + 24 ≤ f_size f) ∧ pos + 24 ≤ pos' ∧ r' = r + 1
  ∧ os_inodes s' = os_inodes s.
Proof.
  unfold slog_replay_body, ObStorageLogEntry_get_header_size. intros H Hp.
  destruct (sys_read_count i pos 24 s) as [[n hb] s1] eqn:E1.
  destruct (Z.eqb_spec n 24) as [->|]; [|done]. cbn [negb] in H.
  destruct (se_magic_ (slog_header_of hb) =? _); [|done]. cbn [negb] in H.
  set (dl := se_data_len_ (slog_header_of hb)) in *.
  destruct (sys_read_count i (pos + 24) dl s1) as [[n2 d] s2] eqn:E2.
  destruct (Z.eqb_spec n2 dl) as [Hn2|]; [|done]. cbn [negb] in H. destruct (2 ^ 31 <=? 24 + dl); [done|].
  rewrite (surjective_pairing (sys_malloc (24 + dl) s2)) in H.
  apply outcome_bind_inv in H as (full & Hw & H). apply outcome_bind_inv in H as (full2 & _ & H).
  injection H as <- <- <- <-. pose proof (sys_read_count_inodes _ _ _ _ _ _ _ E1) as Hs1.
  pose proof (sys_read_count_inodes _ _ _ _ _ _ _ E2) as Hs2.
  assert (0 ≤ dl).
  { destruct (Z_lt_ge_dec dl 0) as [Hneg|]; [|lia]. exfalso.
    assert (blen (sys_malloc (24 + dl) s2).1 < 24) as Hshort.
    { unfold sys_malloc, blen. cbn [fst]. rewrite length_fmap, length_seqZ. lia. }
    assert (blen hb = 24) as Hhb.
    { unfold sys_read_count in E1. cbn in E1. destruct (sys_read i pos 24 s) as [[x|] ?]; injection E1; intros; subst; lia. }
    rewrite mem_write_oob in Hw by lia. done. }
  split_and!; [|lia|done|cbn; congruence].
  destruct (os_inodes s !! i) as [f|] eqn:Hi.
  - exists f. split; [done|]. by destruct (sys_read_count_short _ _ _ _ _ _ _ _ E1 Hp ltac:(done) Hi eq_refl eq_refl).
  - by pose proof (sys_read_count_none _ _ _ _ _ _ _ E1 Hi).
Qed.

Lemma slog_body_outcome {C} (cb : option (ObStorageLogEntry → C → C)) i x :
  slog_replay_body cb i x = UB ∨ ∃ y, slog_replay_body cb i x = Done y.
Proof.
  assert (∀ o (a b : bytes), mem_write o a b = UB ∨ ∃ c, mem_write o a b = Done c) as Hw.
  { intros o a b. unfold mem_write. destruct (_ && _); eauto. }
  destruct x as [[[pos r] ctx] s]. unfold slog_replay_body. destruct (sys_read_count _ _ _ _) as [[a b] c].
  do 2 (destruct (negb _); [eauto|]). destruct (sys_read_count _ _ _ _) as [[a2 b2] c2].
  destruct (negb _); [eauto|]. destruct (_ <=? _); [eauto|]. rewrite (surjective_pairing (sys_malloc _ _)).
  do 2 (match goal with |- context [mem_write ?o ?x ?y] => destruct (Hw o x y) as [->|[? ->]] end;
        cbn [mbind outcome_bind]; [eauto|]). eauto.
Qed.

Lemma slog_loop_ends {C} (cb : option (ObStorageLogEntry → C → C)) i size fuel pos r ctx s :
  0 ≤ pos → 0 ≤ r → 24 * r ≤ pos → 24 * r ≤ size → (∀ f, os_inodes s !! i = Some f → f_size f = size) →
  (Z.to_nat ((size - pos) / 24) < fuel)%nat →
  loop (slog_replay_body cb i) fuel (pos, r, ctx, s) = UB
  ∨ ∃ n ctx' s', loop (slog_replay_body cb i) fuel (pos, r, ctx, s) = Done (n, ctx', s') ∧ 0 ≤ n ∧ 24 * n ≤ size.
Proof.
  revert pos r ctx s. induction fuel as [|fuel IH]; intros pos r ctx s Hp Hr Hrp Hrs Hsz Hfu; [lia|].
  rewrite loop_step.
  destruct (slog_replay_body cb i (pos, r, ctx, s)) as [[[[[pos' r'] ctx'] s']|[[n ctx'] s']]| | |] eqn:E; cbn [mbind outcome_bind].
  - destruct (slog_body_progress _ _ _ _ _ _ _ _ _ _ E Hp) as ((f & Hi & Hf) & Hpos & -> & Hin).
    pose proof (Hsz f Hi) as Hs. apply IH; [lia..|by rewrite Hin|].
    assert (1 ≤ (size - pos) / 24) as H0 by (apply Z.div_le_lower_bound; lia).
    assert ((size - pos') / 24 < (size - pos) / 24) as H1; [|clear -H0 H1 Hfu; lia].
    apply Z.lt_le_trans with ((size - pos - 24) / 24 + 1).
    + apply Z.lt_succ_r, Z.div_le_mono; lia.
    + replace (size - pos) with (size - pos - 24 + 1 * 24) at 2 by lia. rewrite Z.div_add by lia. lia.
  - right. exists n, ctx', s'. split; [done|]. enough (n = r) by (subst; lia). revert E.
    unfold slog_replay_body. destruct (sys_read_count _ _ _ _) as [[a b] c].
    destruct (negb _); [by intros [= -> _ _]|]. destruct (negb _); [by intros [= -> _ _]|].
    destruct (sys_read_count _ _ _ _) as [[a2 b2] c2].
    destruct (negb _); [by intros [= -> _ _]|]. destruct (_ <=? _); [done|].
    rewrite (surjective_pairing (sys_malloc _ _)). intros H.
    apply outcome_bind_inv in H as (? & _ & H). by apply outcome_bind_inv in H as (? & _ & H).
  - by left.
  - by destruct (slog_body_outcome cb i (pos, r, ctx, s)) as [H|[x H]]; rewrite E in H.
  - by destruct (slog_body_outcome cb i (pos, r, ctx, s)) as [H|[x H]]; rewrite E in H.
Qed.

(** C20: replay of the storage log ends.  Whatever the file holds and whichever
    reads fail, [replay] makes at most one iteration per 24 bytes of the file
    and one more: it returns a count of at most that many entries, unless a
    damaged header makes it overflow its heap buffer. *)
Theorem slog_replay_terminates {C} (cb : option (ObStorageLogEntry → C → C)) ctx l s i f fuel :
  os_dir s !! sl_slog_file_path_ l = Some i → os_inodes s !! i = Some f → 0 ≤ f_size f →
  (Z.to_nat (f_size f / 24) < fuel)%nat →
  ObStorageLogger_replay fuel ctx cb l s = UB
  ∨ ∃ n ctx' s', ObStorageLogger_replay fuel ctx cb l s = Done (n, ctx', s') ∧ 0 ≤ n ∧ 24 * n ≤ f_size f.
Proof.
  intros Hd Hi Hsz Hfu. unfold ObStorageLogger_replay, sys_open, take_fault.
  assert (∀ s', os_inodes s' = os_inodes s →
    loop (slog_replay_body cb i) fuel (0, 0, ctx, s') = UB
    ∨ ∃ n ctx' s'', loop (slog_replay_body cb i) fuel (0, 0, ctx, s') = Done (n, ctx', s'') ∧ 0 ≤ n ∧ 24 * n ≤ f_size f) as H.
  { intros s' Hs. apply slog_loop_ends; [lia..| |by rewrite Z.sub_0_r]. intros f'. rewrite Hs, Hi. by intros [= ->]. }
  destruct (os_faults s) as [|k ks]; cbn [failed].
  - rewrite Hd. by apply H.
  - destruct (k <? 0); [right; exists 0, ctx, (set_faults ks s); split_and!; (done || lia)|].
    cbn [os_dir set_faults]. rewrite Hd. by apply H.
Qed.

Lemma slog_replay_terminates_witness :
  let s := mkOs {["d/slog_0" := 1%positive]} {[1%positive := mkFile 3 ∅]} 2%positive [] (λ _, 0) 0 in
  let l := mkLogger "d" "d/slog_0" None false in
  ObStorageLogger_replay 1 tt None l s = UB
  ∨ ∃ n ctx' s', ObStorageLogger_replay 1 tt None l s = Done (n, ctx', s') ∧ 0 ≤ n ∧ 24 * n ≤ 3.
Proof.
  intros s l. apply (slog_replay_terminates None tt l s 1%positive (mkFile 3 ∅) 1); [reflexivity..|cbn; lia|vm_compute; lia].
Defined.

(** ** Damaged logs *)

(** A length of -1 overruns the heap.  [replay] compares the count [read]
    returned with the length of the header; a length of -1 equals the error
    code of the refused [read], so the header is then copied into a buffer of
    23 bytes. *)
Theorem slog_negative_length_overruns {C} (cb : option (ObStorageLogEntry → C → C)) ctx l s total tenant type rest fuel :
  slog_repr l s (slog_header_bytes (mkSlogEntry ObStorageLogEntry_MAGIC total tenant type (-1) []) ++ rest) →
  os_faults s = [] → (0 < fuel)%nat →
  ObStorageLogger_replay fuel ctx cb l s = UB.
Proof.
  set (e := mkSlogEntry _ total tenant type (-1) []).
  intros (_ & i & f & _ & Hd & Hi & Hsz & Hb) Hf Hfu. unfold ObStorageLogger_replay.
  rewrite (sys_open_ok _ _ _ i) by done. destruct fuel as [|fuel]; [lia|]. rewrite loop_step.
  enough (slog_replay_body cb i (0, 0, ctx, s) = UB) as -> by done.
  unfold slog_replay_body, ObStorageLogEntry_get_header_size. rewrite (read_count_ok i f _ Hsz Hb) by done.
  assert (sub 0 24 (slog_header_bytes e ++ rest) = slog_header_bytes e) as -> by apply (sub_app_l (slog_header_bytes e)).
  rewrite blen_slog_header. cbn [Z.eqb Pos.eqb negb].
  assert (se_magic_ (slog_header_of (slog_header_bytes e)) = ObStorageLogEntry_MAGIC) as -> by reflexivity.
  assert (se_data_len_ (slog_header_of (slog_header_bytes e)) = -1) as -> by exact (i32_enc (-1) ltac:(done)).
  rewrite Z.eqb_refl. cbn [negb]. unfold sys_read_count. cbn [Z.ltb Z.compare].
  change (negb (-1 =? -1)) with false. change (2 ^ 31 <=? 24 + -1) with false.
  rewrite (surjective_pairing (sys_malloc _ s)), mem_write_oob; [done|].
  rewrite blen_slog_header, sys_malloc_length by done. done.
Qed.

Lemma slog_negative_length_overruns_witness :
  let hdr := slog_header_bytes (mkSlogEntry ObStorageLogEntry_MAGIC 0 1 4 (-1) []) in
  let f := file_write (mkFile 0 ∅) 0 hdr in
  let s := mkOs {["d/slog_0" := 1%positive]} {[1%positive := f]} 2%positive [] (λ _, 0) 0 in
  ObStorageLogger_replay 1 tt None (mkLogger "d" "d/slog_0" (Some 1%positive) true) s = UB.
Proof.
  intros hdr f s. apply (slog_negative_length_overruns None tt _ s 0 1 4 [] 1); [|done|lia].
  split; [done|]. exists 1%positive, f. rewrite app_nil_r.
  destruct (file_write_empty (mkFile 0 ∅) hdr eq_refl) as [E1 E2]. split_and!; done.
Defined.

(** A write cut after [k] bytes. *)
Lemma torn_write_spec p l s data k : slog_repr l s data → log_param_wf p → 0 ≤ k < 24 →
  ∃ s', ObStorageLogger_write_log p l (set_faults [k] s) = Done (-1, s') ∧ os_faults s' = []
    ∧ slog_repr l s' (data ++ sub 0 k (slog_entry_bytes (slog_entry_of p))).
Proof.
  intros (Hin & i & f & Hfd & Hd & Hi & Hsz & Hb) Hp Hk. rewrite (write_log_buffer p l _ i) by done.
  set (bs := slog_entry_bytes (slog_entry_of p)). pose proof Hp as (Hl & _).
  assert (blen bs = 24 + lp_data_len_ p) as Hbs.
  { unfold bs, slog_entry_bytes. rewrite blen_app, blen_slog_header. cbn. lia. }
  pose proof (blen_nonneg (default [] (lp_data_ p))).
  unfold sys_append, sys_write, take_fault. cbn [sys_malloc snd os_inodes os_faults set_faults failed granted].
  rewrite Hi, (proj2 (Z.ltb_ge k 0)) by lia. rewrite Z.min_l by lia.
  rewrite (proj2 (Z.eqb_neq k _)) by lia. cbn [negb]. eexists. split; [done|]. split; [done|]. split; [done|].
  exists i, (file_write f (f_size f) (sub 0 k bs)). destruct (file_append f data (sub 0 k bs) Hsz Hb) as [E1 E2].
  cbn [set_inodes set_faults os_dir os_inodes]. rewrite lookup_alter_eq, Hi. done.
Qed.

(** A piece of a magic number followed by anything is not a header. *)
Lemma torn_magic p ps k : 0 < k < 4 → no_entry (sub 0 k (slog_entry_bytes (slog_entry_of p)) ++ entries_bytes ps).
Proof.
  intros Hk. assert (∀ q, ∃ r, slog_entry_bytes (slog_entry_of q) = 71 :: 79 :: 76 :: 83 :: r) as Hm
    by (intros q; eexists; reflexivity).
  destruct (Hm p) as [r ->]. destruct ps as [|q ps].
  { left. unfold entries_bytes. cbn. rewrite app_nil_r. unfold sub, blen. rewrite length_take. lia. }
  right. unfold entries_bytes. rewrite !fmap_cons. cbn [concat]. destruct (Hm q) as [r' ->].
  assert (k = 1 ∨ k = 2 ∨ k = 3) as [->|[->| ->]] by lia; by cbn.
Qed.

(** One interrupted write hides every later entry.  When a write is cut
    after one to three bytes, [write_log] reports the error but the bytes stay;
    entries written after that succeed, and the next replay stops at the damage:
    it returns only the entries written before it. *)
Theorem slog_torn_write_hides_later {C} (g : ObStorageLogEntry → C → C) ctx l s before p after k fuel :
  slog_repr l s (entries_bytes before) → os_faults s = [] → Forall log_param_wf before → log_param_wf p →
  Forall log_param_wf after → 0 < k < 4 → (length before < fuel)%nat →
  ∃ s1 s2 s3, ObStorageLogger_write_log p l (set_faults [k] s) = Done (-1, s1)
    ∧ write_logs after l s1 = Done (replicate (length after) 0, s2)
    ∧ ObStorageLogger_replay fuel ctx (Some g) l s2
      = Done (Z.of_nat (length before), foldl (λ c p, g (slog_entry_of p) c) ctx before, s3).
Proof.
  intros Hr Hf Hb Hp Ha Hk Hfu.
  destruct (torn_write_spec p l s (entries_bytes before) k Hr Hp ltac:(lia)) as (s1 & Hw & Hf1 & Hr1).
  destruct (write_logs_ok after l s1 _ Hr1 Hf1 Ha) as (s2 & Hw2 & Hf2 & Hr2). rewrite <-app_assoc in Hr2.
  destruct (slog_replay_spec (Some g) ctx l s2 before _ fuel Hr2 Hf2 Hb) as (s3 & E & _); [by apply torn_magic|done|].
  exists s1, s2, s3. split_and!; [done..|]. rewrite E. do 3 f_equal.
  clear. revert ctx. induction before as [|q ps IH]; intros ctx; [done|]. apply IH.
Qed.

Lemma slog_torn_write_hides_later_witness :
  let s := mkOs {["d/slog_0" := 1%positive]} {[1%positive := mkFile 0 ∅]} 2%positive [] (λ _, 0) 0 in
  let l := mkLogger "d" "d/slog_0" (Some 1%positive) true in
  let p := mkLogParam 1 SLOG_CREATE_DATABASE (Some [100]) 1 in
  ∃ s1 s2 s3, ObStorageLogger_write_log p l (set_faults [2] s) = Done (-1, s1)
    ∧ write_logs [p; p] l s1 = Done ([0; 0], s2)
    ∧ ObStorageLogger_replay 1 [] (Some (λ e c, c ++ [se_data_ e])) l s2 = Done (0, [], s3).
Proof.
  intros s l p. assert (log_param_wf p) by (unfold log_param_wf, i32_range; cbn; split_and!; done).
  apply (slog_torn_write_hides_later (λ e c, c ++ [se_data_ e]) [] l s [] p [p; p] 2 1);
    [|done|done|done|by repeat apply Forall_cons_2|done|cbn; lia].
  split; [done|]. exists 1%positive, (mkFile 0 ∅). split_and!; done.
Defined.
