(* ===== verification/Schema.v ===== *)
(** * Schemas: columns, tables, databases and the schema service

    Models [src/src/share/schema]: [ob_column_schema.h], [ob_table_schema.h],
    [ob_database_schema.h] and [ob_schema_service.h/.cpp] ([src/src/storage/schema]
    holds the same code).  A C string argument is its bytes without the
    terminator; a [char] array member is its 128 bytes.  An [unordered_map] is
    traversed in the order of [map_to_list], one of the orders it may have. *)

From S2P Require Import Prelude Pod.

(** ** C strings *)

(** The string at the start of an array; without a terminator the reader runs
    out of it. *)
Fixpoint cstr (b : bytes) : outcome bytes :=
  match b with
  | [] => UB
  | x :: b' => if x =? 0 then Done [] else r ← cstr b'; Done (x :: r)
  end.
(** [strncpy(dst, src, n)]. *)
Definition strncpy (dst src : bytes) (n : Z) : bytes :=
  sub 0 n (src ++ replicate (Z.to_nat n) 0) ++ drop (Z.to_nat n) dst.
Definition name_array : bytes := replicate 128 0.

(** ** ObColumnSchemaV2

    [cs_pad_] are the padding bytes after [data_type_], which [memcpy] copies;
    a new object's are taken to be zero. *)
Record ObColumnSchemaV2 := mkColumn {
  cs_column_id_ : Z;
  cs_column_name_ : bytes;
  cs_data_type_ : Z;
  cs_pad_ : bytes;
  cs_data_length_ : Z }.
Definition ObColumnSchemaV2_new : ObColumnSchemaV2 := mkColumn 0 name_array 0 [0; 0; 0; 0] 0.
Definition ObColumnSchemaV2_reset (_ : ObColumnSchemaV2) : ObColumnSchemaV2 := mkColumn 0 name_array 0 [0; 0; 0; 0] 0.
Definition ObColumnSchemaV2_set_column_id (id : Z) (c : ObColumnSchemaV2) : ObColumnSchemaV2 :=
  mkColumn id (cs_column_name_ c) (cs_data_type_ c) (cs_pad_ c) (cs_data_length_ c).
Definition ObColumnSchemaV2_set_column_name (name : option bytes) (c : ObColumnSchemaV2) : ObColumnSchemaV2 :=
  match name with
  | None => c
  | Some name =>
      mkColumn (cs_column_id_ c) (strncpy (cs_column_name_ c) name 127) (cs_data_type_ c) (cs_pad_ c) (cs_data_length_ c)
  end.
Definition ObColumnSchemaV2_set_data_type (t : Z) (c : ObColumnSchemaV2) : ObColumnSchemaV2 :=
  mkColumn (cs_column_id_ c) (cs_column_name_ c) t (cs_pad_ c) (cs_data_length_ c).
Definition ObColumnSchemaV2_set_data_length (n : Z) (c : ObColumnSchemaV2) : ObColumnSchemaV2 :=
  mkColumn (cs_column_id_ c) (cs_column_name_ c) (cs_data_type_ c) (cs_pad_ c) n.

Definition column_bytes (c : ObColumnSchemaV2) : bytes :=
  le_enc 8 (cs_column_id_ c) ++ sub 0 128 (cs_column_name_ c ++ name_array) ++ le_enc 4 (cs_data_type_ c)
  ++ sub 0 4 (cs_pad_ c ++ [0; 0; 0; 0]) ++ le_enc 8 (cs_data_length_ c).
Definition column_wf (c : ObColumnSchemaV2) : Prop :=
  0 ≤ cs_column_id_ c < 2 ^ 64 ∧ blen (cs_column_name_ c) = 128 ∧ i32_range (cs_data_type_ c)
  ∧ blen (cs_pad_ c) = 4 ∧ i64_range (cs_data_length_ c).
Definition column_of (b : bytes) : ObColumnSchemaV2 :=
  mkColumn (field 0 8 b) (sub 8 128 b) (i32 (field 136 4 b)) (sub 140 4 b) (i64 (field 144 8 b)).

Lemma sub_pad (n : Z) (a b : bytes) : 0 ≤ n → blen b = n → blen (sub 0 n (a ++ b)) = n.
Proof. intros Hn Hb. pose proof (blen_nonneg a). apply blen_sub; rewrite ?blen_app; lia. Qed.

Lemma sub_exact (n : Z) (a b : bytes) : blen a = n → sub 0 n (a ++ b) = a.
Proof. intros <-. apply sub_app_l. Qed.

Lemma blen_column_bytes c : blen (column_bytes c) = 152.
Proof. unfold column_bytes. rewrite !blen_app, !blen_le_enc, !sub_pad by done. done. Qed.

Lemma column_dec_enc c : column_wf c → column_of (column_bytes c) = c.
Proof.
  destruct c as [id nm ty pad ln]. intros (Hid & Hnm & Hty & Hpad & Hln). cbn in Hid, Hnm, Hty, Hpad, Hln.
  unfold column_bytes. cbn [cs_column_id_ cs_column_name_ cs_data_type_ cs_pad_ cs_data_length_].
  rewrite !sub_exact by done. unfold column_of, field. f_equal.
  - rewrite (sub_exact 8 (le_enc 8 id)) by done. by apply le_dec_enc_small.
  - rewrite (sub_app_r (le_enc 8 id) _ 0) by (rewrite ?blen_le_enc; lia). by apply sub_exact.
  - rewrite app_assoc, (sub_app_r (le_enc 8 id ++ nm) _ 0) by (rewrite ?blen_app, ?blen_le_enc; lia).
    rewrite (sub_exact 4 (le_enc 4 ty)) by done. by apply i32_enc.
  - rewrite (app_assoc (le_enc 8 id)), (app_assoc (_ ++ nm)), (sub_app_r ((_ ++ nm) ++ _) _ 0)
      by (rewrite ?blen_app, ?blen_le_enc; lia). by apply sub_exact.
  - rewrite (app_assoc (le_enc 8 id)), (app_assoc (_ ++ nm)), (app_assoc ((_ ++ nm) ++ _)),
      (sub_app_r (((_ ++ nm) ++ _) ++ pad) _ 0) by (rewrite ?blen_app, ?blen_le_enc; lia).
    rewrite <-(app_nil_r (le_enc 8 ln)), (sub_exact 8 (le_enc 8 ln)) by done. by apply i64_enc.
Qed.

#[export] Program Instance column_pod : Pod ObColumnSchemaV2 := {|
  pod_size := 152; pod_enc := column_bytes; pod_dec := column_of; pod_wf := column_wf |}.
Next Obligation. apply blen_column_bytes. Qed.
Next Obligation. apply column_dec_enc. Qed.

Definition ObColumnSchemaV2_get_serialize_size : Z := 152.
Definition ObColumnSchemaV2_serialize (c : ObColumnSchemaV2) (buf : bytes) (buf_len pos : Z) : outcome (Z * bytes * Z) :=
  pod_serialize c buf buf_len pos.
Definition ObColumnSchemaV2_deserialize (c : ObColumnSchemaV2) (buf : bytes) (data_len pos : Z)
    : outcome (Z * ObColumnSchemaV2 * Z) :=
  pod_deserialize c buf data_len pos.

(** ** ObTableSchema *)

Record ObTableSchema := mkTable {
  ts_table_id_ : Z;
  ts_table_name_ : bytes;
  ts_database_id_ : Z;
  ts_schema_version_ : Z;
  ts_column_count_ : Z;
  ts_columns_ : list ObColumnSchemaV2 }.
Definition ObTableSchema_new : ObTableSchema := mkTable 0 name_array 0 0 0 [].
Definition ObTableSchema_reset (t : ObTableSchema) : ObTableSchema :=
  mkTable 0 (0 :: drop 1 (ts_table_name_ t)) 0 0 0 [].
Definition ObTableSchema_set_table_id (id : Z) (t : ObTableSchema) : ObTableSchema :=
  mkTable id (ts_table_name_ t) (ts_database_id_ t) (ts_schema_version_ t) (ts_column_count_ t) (ts_columns_ t).
Definition ObTableSchema_set_table_name (name : option bytes) (t : ObTableSchema) : ObTableSchema :=
  match name with
  | None => t
  | Some name =>
      mkTable (ts_table_id_ t) (strncpy (ts_table_name_ t) name 127) (ts_database_id_ t) (ts_schema_version_ t)
        (ts_column_count_ t) (ts_columns_ t)
  end.
Definition ObTableSchema_set_database_id (id : Z) (t : ObTableSchema) : ObTableSchema :=
  mkTable (ts_table_id_ t) (ts_table_name_ t) id (ts_schema_version_ t) (ts_column_count_ t) (ts_columns_ t).
Definition ObTableSchema_set_schema_version (v : Z) (t : ObTableSchema) : ObTableSchema :=
  mkTable (ts_table_id_ t) (ts_table_name_ t) (ts_database_id_ t) v (ts_column_count_ t) (ts_columns_ t).
Definition ObTableSchema_get_table_name (t : ObTableSchema) : outcome bytes := cstr (ts_table_name_ t).

Definition ObTableSchema_add_column (c : ObColumnSchemaV2) (t : ObTableSchema) : Z * ObTableSchema :=
  let cols := ts_columns_ t ++ [c] in
  (0, mkTable (ts_table_id_ t) (ts_table_name_ t) (ts_database_id_ t) (ts_schema_version_ t) (blen cols) cols).
Definition ObTableSchema_get_column (idx : Z) (t : ObTableSchema) : outcome (option ObColumnSchemaV2) :=
  if (idx <? 0) || (ts_column_count_ t <=? idx) then Done None
  else c ← deref (ts_columns_ t !! Z.to_nat idx); Done (Some c).

Definition ObTableSchema_get_serialize_size (t : ObTableSchema) : Z :=
  5 * 8 + blen (ts_columns_ t) * ObColumnSchemaV2_get_serialize_size.

(** The loop of [serialize] over the columns [i, i + n). *)
Fixpoint serialize_columns (n : nat) (i : nat) (t : ObTableSchema) (buf : bytes) (buf_len pos : Z)
    : outcome (Z * bytes * Z) :=
  match n with
  | O => Done (0, buf, pos)
  | S n' =>
      c ← deref (ts_columns_ t !! i);
      x ← ObColumnSchemaV2_serialize c buf buf_len pos;
      let '(ret, buf, pos) := x : Z * bytes * Z in
      if negb (ret =? 0) then Done (-1, buf, pos) else serialize_columns n' (S i) t buf buf_len pos
  end.

Definition ObTableSchema_serialize (t : ObTableSchema) (buf : bytes) (buf_len pos : Z) : outcome (Z * bytes * Z) :=
  let total := ObTableSchema_get_serialize_size t in
  if buf_len - pos <? total then Done (-1, buf, pos)
  else
    buf ← write_fields pos [le_enc 8 (ts_table_id_ t); ts_table_name_ t; le_enc 8 (ts_database_id_ t);
                            le_enc 8 (ts_schema_version_ t); le_enc 8 (ts_column_count_ t)] buf;
    serialize_columns (Z.to_nat (ts_column_count_ t)) 0 t buf buf_len (pos + 160).

(** The loop of [deserialize]: every column read takes 152 bytes of the buffer,
    so the length of the buffer bounds the iterations. *)
Fixpoint deserialize_columns (fuel : nat) (i count : Z) (cols : list ObColumnSchemaV2) (buf : bytes)
    (data_len pos : Z) : outcome (Z * list ObColumnSchemaV2 * Z) :=
  if negb (i <? count) then Done (0, cols, pos)
  else match fuel with
       | O => OutOfFuel
       | S fuel' =>
           x ← ObColumnSchemaV2_deserialize ObColumnSchemaV2_new buf data_len pos;
           let '(ret, c, pos) := x : Z * ObColumnSchemaV2 * Z in
           if negb (ret =? 0) then Done (-1, cols, pos)
           else deserialize_columns fuel' (i + 1) count (cols ++ [c]) buf data_len pos
       end.

Definition ObTableSchema_deserialize (t : ObTableSchema) (buf : bytes) (data_len pos : Z)
    : outcome (Z * ObTableSchema * Z) :=
  if data_len - pos <? 5 * 8 then Done (-1, t, pos)
  else
    id ← mem_read pos 8 buf;
    name ← mem_read (pos + 8) 128 buf;
    db ← mem_read (pos + 136) 8 buf;
    ver ← mem_read (pos + 144) 8 buf;
    cnt ← mem_read (pos + 152) 8 buf;
    let count := i64 (le_dec cnt) in
    x ← deserialize_columns (S (length buf)) 0 count [] buf data_len (pos + 160);
    let '(ret, cols, pos) := x : Z * list ObColumnSchemaV2 * Z in
    Done (ret, mkTable (le_dec id) name (le_dec db) (i64 (le_dec ver)) count cols, pos).

(** ** ObDatabaseSchema *)

Record ObDatabaseSchema := mkDatabase {
  ds_database_id_ : Z;
  ds_database_name_ : bytes }.
Definition ObDatabaseSchema_new : ObDatabaseSchema := mkDatabase 0 name_array.
Definition ObDatabaseSchema_reset (_ : ObDatabaseSchema) : ObDatabaseSchema := mkDatabase 0 name_array.
Definition ObDatabaseSchema_set_database_id (id : Z) (d : ObDatabaseSchema) : ObDatabaseSchema :=
  mkDatabase id (ds_database_name_ d).
Definition ObDatabaseSchema_set_database_name (name : option bytes) (d : ObDatabaseSchema) : ObDatabaseSchema :=
  match name with
  | None => d
  | Some name => mkDatabase (ds_database_id_ d) (strncpy (ds_database_name_ d) name 127)
  end.
Definition ObDatabaseSchema_get_database_name (d : ObDatabaseSchema) : outcome bytes := cstr (ds_database_name_ d).

Definition database_bytes (d : ObDatabaseSchema) : bytes :=
  le_enc 8 (ds_database_id_ d) ++ sub 0 128 (ds_database_name_ d ++ name_array).
Definition database_wf (d : ObDatabaseSchema) : Prop :=
  0 ≤ ds_database_id_ d < 2 ^ 64 ∧ blen (ds_database_name_ d) = 128.

#[export] Program Instance database_pod : Pod ObDatabaseSchema := {|
  pod_size := 136; pod_enc := database_bytes;
  pod_dec b := mkDatabase (field 0 8 b) (sub 8 128 b); pod_wf := database_wf |}.
Next Obligation. intros d. unfold database_bytes. by rewrite blen_app, blen_le_enc, sub_pad. Qed.
Next Obligation.
  intros [id nm] [Hid Hnm]. cbn in Hid, Hnm. unfold database_bytes, field. cbn [ds_database_id_ ds_database_name_].
  rewrite (sub_exact 128 nm) by done. f_equal.
  - rewrite (sub_exact 8 (le_enc 8 id)) by done. by apply le_dec_enc_small.
  - rewrite (sub_app_r (le_enc 8 id) _ 0) by (rewrite ?blen_le_enc; lia). rewrite <-Hnm. apply sub_all.
Qed.

Definition ObDatabaseSchema_get_serialize_size : Z := 136.
Definition ObDatabaseSchema_serialize (d : ObDatabaseSchema) (buf : bytes) (buf_len pos : Z) : outcome (Z * bytes * Z) :=
  pod_serialize d buf buf_len pos.
Definition ObDatabaseSchema_deserialize (d : ObDatabaseSchema) (buf : bytes) (data_len pos : Z)
    : outcome (Z * ObDatabaseSchema * Z) :=
  pod_deserialize d buf data_len pos.

(** ** ObSchemaService *)

Record ObSchemaService := mkSchema {
  ss_next_database_id_ : Z;
  ss_next_table_id_ : Z;
  ss_databases_ : gmap Z ObDatabaseSchema;
  ss_tables_ : gmap Z ObTableSchema }.
Definition ObSchemaService_new : ObSchemaService := mkSchema 1 1 ∅ ∅.

(** The first entry of a list whose name is [name]. *)
Fixpoint find_named {A} (name_of : A → bytes) (name : bytes) (l : list (Z * A)) : outcome (option (Z * A)) :=
  match l with
  | [] => Done None
  | (k, x) :: l' =>
      n ← cstr (name_of x);
      if bool_decide (n = name) then Done (Some (k, x)) else find_named name_of name l'
  end.

Definition ObSchemaService_create_database (db_name : bytes) (v : ObSchemaService) : Z * Z * ObSchemaService :=
  let database_id := ss_next_database_id_ v in
  let db := ObDatabaseSchema_set_database_name (Some db_name)
              (ObDatabaseSchema_set_database_id database_id ObDatabaseSchema_new) in
  (0, database_id, mkSchema (u64 (database_id + 1)) (ss_next_table_id_ v) (<[database_id := db]> (ss_databases_ v))
                     (ss_tables_ v)).

Definition ObSchemaService_drop_database (db_name : bytes) (v : ObSchemaService) : outcome (Z * ObSchemaService) :=
  r ← find_named ds_database_name_ db_name (map_to_list (ss_databases_ v));
  match r with
  | None => Done (-1, v)
  | Some (k, _) => Done (0, mkSchema (ss_next_database_id_ v) (ss_next_table_id_ v) (delete k (ss_databases_ v)) (ss_tables_ v))
  end.

Definition ObSchemaService_get_database_schema (db_name : bytes) (v : ObSchemaService) : outcome (option ObDatabaseSchema) :=
  r ← find_named ds_database_name_ db_name (map_to_list (ss_databases_ v)); Done (option_map snd r).
Definition ObSchemaService_get_database_schema_by_id (id : Z) (v : ObSchemaService) : option ObDatabaseSchema :=
  ss_databases_ v !! id.

(** The names of a list of entries, appended to [out]. *)
Fixpoint append_names {A} (name_of : A → bytes) (l : list A) (out : list bytes) : outcome (list bytes) :=
  match l with
  | [] => Done out
  | x :: l' => n ← cstr (name_of x); append_names name_of l' (out ++ [n])
  end.
Definition ObSchemaService_get_all_databases (out : list bytes) (v : ObSchemaService) : outcome (Z * list bytes) :=
  r ← append_names ds_database_name_ ((map_to_list (ss_databases_ v)).*2) out; Done (0, r).

(** [create_table] also sets the id and version of the caller's schema. *)
Definition ObSchemaService_create_table (t : ObTableSchema) (v : ObSchemaService) : Z * ObTableSchema * ObSchemaService :=
  let table_id := ss_next_table_id_ v in
  let t := ObTableSchema_set_schema_version 1 (ObTableSchema_set_table_id table_id t) in
  (i32 table_id, t, mkSchema (ss_next_database_id_ v) (u64 (table_id + 1)) (ss_databases_ v)
                      (<[table_id := t]> (ss_tables_ v))).

Definition ObSchemaService_drop_table (_database_id : Z) (table_name : bytes) (v : ObSchemaService)
    : outcome (Z * ObSchemaService) :=
  r ← find_named ts_table_name_ table_name (map_to_list (ss_tables_ v));
  match r with
  | None => Done (-1, v)
  | Some (k, _) => Done (0, mkSchema (ss_next_database_id_ v) (ss_next_table_id_ v) (ss_databases_ v) (delete k (ss_tables_ v)))
  end.
Definition ObSchemaService_get_table_schema (table_name : bytes) (v : ObSchemaService) : outcome (option ObTableSchema) :=
  r ← find_named ts_table_name_ table_name (map_to_list (ss_tables_ v)); Done (option_map snd r).
Definition ObSchemaService_get_all_tables (database_id : Z) (out : list bytes) (v : ObSchemaService)
    : outcome (Z * list bytes) :=
  r ← append_names ts_table_name_
        (filter (λ t, ts_database_id_ t = database_id) ((map_to_list (ss_tables_ v)).*2)) out;
  Done (0, r).

(** [replay_ddl]: [buf] points to [buf_len] bytes. *)
Definition ObSchemaService_replay_ddl (buf : option bytes) (buf_len : Z) (v : ObSchemaService)
    : outcome (Z * ObSchemaService) :=
  match buf with
  | None => Done (-1, v)
  | Some buf =>
      if buf_len <=? 0 then Done (-1, v)
      else
        type ← mem_read 0 1 buf;
        let ptr := drop 1 buf in
        if le_dec type =? 0 then
          x ← ObDatabaseSchema_deserialize ObDatabaseSchema_new ptr (buf_len - 1) 0;
          let '(ret, db, _) := x : Z * ObDatabaseSchema * Z in
          if negb (ret =? 0) then Done (-1, v)
          else Done (0, mkSchema (ss_next_database_id_ v) (ss_next_table_id_ v)
                          (<[ds_database_id_ db := db]> (ss_databases_ v)) (ss_tables_ v))
        else if le_dec type =? 1 then
          x ← ObTableSchema_deserialize ObTableSchema_new ptr (buf_len - 1) 0;
          let '(ret, t, _) := x : Z * ObTableSchema * Z in
          if negb (ret =? 0) then Done (-1, v)
          else Done (0, mkSchema (ss_next_database_id_ v) (ss_next_table_id_ v) (ss_databases_ v)
                          (<[ts_table_id_ t := t]> (ss_tables_ v)))
        else Done (0, v)
  end.

(** ** Names *)

(** The bytes of a C string. *)
Definition cstr_wf (name : bytes) : Prop := Forall (λ b, 0 < b < 256) name.

Lemma cstr_app name rest : Forall (λ b, b ≠ 0) name → cstr (name ++ 0 :: rest) = Done name.
Proof.
  induction 1 as [|b name Hb Hn IH]; [done|]. cbn [app cstr]. rewrite (proj2 (Z.eqb_neq _ _) Hb), IH. done.
Qed.

(** What the array holds after [set_..._name] on a new object: the name, cut at
    127 bytes. *)
Lemma set_name_cstr name : cstr_wf name →
  cstr (strncpy name_array name 127) = Done (sub 0 127 name) ∧ blen (strncpy name_array name 127) = 128.
Proof.
  intros Hn. unfold strncpy. split.
  - change (drop (Z.to_nat 127) name_array) with [0].
    assert (Forall (λ b, b ≠ 0) (sub 0 127 name)) as Hs.
    { apply Forall_take, Forall_drop. eapply Forall_impl; [exact Hn|]. cbn. lia. }
    unfold sub in *. rewrite drop_0 in *. rewrite take_app.
    destruct (Z.to_nat 127 - length name)%nat as [|k].
    + rewrite take_0, app_nil_r. by apply cstr_app.
    + rewrite <-app_assoc. change (take (S k) _ ++ [0]) with (0 :: (take k (replicate 126 0) ++ [0])). by apply cstr_app.
  - rewrite blen_app, blen_sub; [done|done|done|]. rewrite blen_app. pose proof (blen_nonneg name).
    change (blen (replicate _ _)) with 127. lia.
Qed.

Lemma find_named_spec {A} (name_of : A → bytes) (names : Z → bytes) name l :
  Forall (λ e, cstr (name_of e.2) = Done (names e.1)) l →
  find_named name_of name l = Done (list_find (λ e, names e.1 = name) l ≫= λ p, Some p.2).
Proof.
  induction 1 as [|[k x] l Hx Hl IH]; [done|]. cbn [find_named]. cbn in Hx. rewrite Hx. cbn [mbind outcome_bind].
  cbn [list_find]. case_decide as E; [by rewrite bool_decide_true|]. rewrite bool_decide_false by done. rewrite IH.
  cbn. by destruct (list_find _ l).
Qed.

(** ** Table schemas as bytes *)

Definition table_wf (t : ObTableSchema) : Prop :=
  0 ≤ ts_table_id_ t < 2 ^ 64 ∧ blen (ts_table_name_ t) = 128 ∧ 0 ≤ ts_database_id_ t < 2 ^ 64
  ∧ i64_range (ts_schema_version_ t) ∧ ts_column_count_ t = blen (ts_columns_ t)
  ∧ Forall column_wf (ts_columns_ t).
Definition columns_bytes (cols : list ObColumnSchemaV2) : bytes := concat (column_bytes <$> cols).
Definition table_head (t : ObTableSchema) : bytes :=
  le_enc 8 (ts_table_id_ t) ++ ts_table_name_ t ++ le_enc 8 (ts_database_id_ t) ++ le_enc 8 (ts_schema_version_ t)
  ++ le_enc 8 (ts_column_count_ t).

Lemma blen_columns_bytes cols : blen (columns_bytes cols) = 152 * blen cols.
Proof.
  induction cols as [|c cols IH]; [done|]. unfold columns_bytes in *. rewrite fmap_cons. cbn [concat].
  rewrite blen_app, blen_column_bytes, IH, blen_cons. lia.
Qed.

Lemma blen_table_head t : blen (ts_table_name_ t) = 128 → blen (table_head t) = 160.
Proof. intros H. unfold table_head. rewrite !blen_app, !blen_le_enc, H. done. Qed.

Lemma serialize_columns_prefix t cols rest done_ a o b buf_len : ts_columns_ t = done_ ++ cols ++ rest →
  blen o = 152 * blen cols → blen a + 152 * blen cols ≤ buf_len → buf_len ≤ blen (a ++ o ++ b) →
  serialize_columns (length cols) (length done_) t (a ++ o ++ b) buf_len (blen a)
  = Done (0, a ++ columns_bytes cols ++ b, blen a + 152 * blen cols).
Proof.
  revert done_ a o. induction cols as [|c cols IH]; intros done_ a o Hc Ho Hfit Hb.
  - change (blen []) with 0 in *. assert (o = []) as -> by (apply nil_length_inv; unfold blen in Ho; lia).
    cbn. by rewrite Z.add_0_r.
  - cbn [length serialize_columns]. rewrite Hc, lookup_app_r, Nat.sub_diag by lia. cbn [app lookup list_lookup deref mbind outcome_bind].
    rewrite blen_cons in *. pose proof (blen_nonneg cols). pose proof (blen_nonneg a). pose proof (blen_nonneg b).
    destruct (split3 o 0 152) as (x & o1 & o2 & -> & Hx & Ho1); [lia..|].
    assert (x = []) as -> by (apply nil_length_inv; unfold blen in Hx; lia). cbn [app] in *.
    unfold ObColumnSchemaV2_serialize. rewrite pod_serialize_ok by (cbn [pod_size column_pod]; lia).
    cbn [mbind outcome_bind Z.eqb negb pod_enc pod_size column_pod]. rewrite <-(app_assoc o1).
    rewrite splice_eq by (rewrite ?blen_column_bytes; done). rewrite (app_assoc a).
    replace (S (length done_)) with (length (done_ ++ [c])) by (rewrite length_app; cbn; lia).
    replace (blen a + 152) with (blen (a ++ column_bytes c)) by (rewrite blen_app, blen_column_bytes; lia).
    rewrite IH.
    + unfold columns_bytes. rewrite fmap_cons. cbn [concat]. rewrite <-!app_assoc, blen_app, blen_column_bytes.
      do 2 f_equal. lia.
    + by rewrite <-app_assoc.
    + rewrite blen_app in Ho. lia.
    + rewrite blen_app, blen_column_bytes. lia.
    + rewrite !blen_app, blen_column_bytes in *. lia.
Qed.

Lemma deserialize_columns_spec cols cols0 a b i count data_len fuel : Forall column_wf cols →
  count = i + blen cols → blen a + 152 * blen cols ≤ data_len → (length cols ≤ fuel)%nat →
  deserialize_columns fuel i count cols0 (a ++ columns_bytes cols ++ b) data_len (blen a)
  = Done (0, cols0 ++ cols, blen a + 152 * blen cols).
Proof.
  intros Hc. revert cols0 a i fuel. induction Hc as [|c cols Hc0 Hc IH]; intros cols0 a i fuel Hcnt Hfit Hfu.
  - change (blen []) with 0 in *. destruct fuel; cbn [deserialize_columns]; rewrite (proj2 (Z.ltb_ge _ _)) by lia;
      cbn [negb]; rewrite app_nil_r; do 2 f_equal; lia.
  - destruct fuel as [|fuel]; [cbn in Hfu; lia|]. cbn [deserialize_columns length] in *. rewrite blen_cons in *.
    pose proof (blen_nonneg cols). rewrite (proj2 (Z.ltb_lt _ _)) by lia. cbn [negb].
    unfold columns_bytes. rewrite fmap_cons. cbn [concat]. rewrite <-app_assoc. unfold ObColumnSchemaV2_deserialize.
    change (column_bytes c) with (pod_enc c). rewrite pod_deserialize_app by (done || (cbn [pod_size column_pod]; lia)).
    cbn [mbind outcome_bind Z.eqb negb pod_enc pod_size column_pod]. rewrite (app_assoc a).
    replace (blen a + 152) with (blen (a ++ column_bytes c)) by (rewrite blen_app, blen_column_bytes; lia).
    fold (columns_bytes cols). rewrite IH; [|lia|rewrite blen_app, blen_column_bytes; lia|lia].
    rewrite <-app_assoc, blen_app, blen_column_bytes. cbn [app]. do 2 f_equal. lia.
Qed.

Lemma serialize_head t buf buf_len pos : blen (ts_table_name_ t) = 128 → 0 ≤ pos → pos + 160 ≤ blen buf →
  ObTableSchema_get_serialize_size t ≤ buf_len - pos →
  ObTableSchema_serialize t buf buf_len pos
  = serialize_columns (Z.to_nat (ts_column_count_ t)) 0 t (splice pos (table_head t) buf) buf_len (pos + 160).
Proof.
  intros Hn Hp Hfit Hlen. unfold ObTableSchema_serialize. rewrite (proj2 (Z.ltb_ge _ _)) by lia.
  set (fs := [_; _; _; _; _]). assert (concat fs = table_head t) as Hc.
  { unfold fs, table_head. cbn [concat]. by rewrite app_nil_r. }
  rewrite (write_fields_spec pos fs) by (rewrite ?Hc, ?blen_table_head by done; lia). by rewrite Hc.
Qed.

Lemma table_head_read t a b : table_wf t → let buf := a ++ table_head t ++ b in
  mem_read (blen a) 8 buf = Done (le_enc 8 (ts_table_id_ t))
  ∧ mem_read (blen a + 8) 128 buf = Done (ts_table_name_ t)
  ∧ mem_read (blen a + 136) 8 buf = Done (le_enc 8 (ts_database_id_ t))
  ∧ mem_read (blen a + 144) 8 buf = Done (le_enc 8 (ts_schema_version_ t))
  ∧ mem_read (blen a + 152) 8 buf = Done (le_enc 8 (ts_column_count_ t)).
Proof.
  intros (_ & Hn & _) buf. unfold buf, table_head. rewrite <-!app_assoc. set (i8 := le_enc 8 (ts_table_id_ t)).
  split_and!.
  - by apply mem_read_app.
  - rewrite (app_assoc a). apply mem_read_app; rewrite ?blen_app, ?blen_le_enc; done.
  - rewrite (app_assoc a), (app_assoc (a ++ _)). apply mem_read_app; rewrite ?blen_app, ?blen_le_enc, ?Hn; [|done].
    unfold i8. rewrite blen_le_enc. lia.
  - rewrite (app_assoc a), (app_assoc (a ++ _)), (app_assoc ((a ++ _) ++ _)).
    apply mem_read_app; rewrite ?blen_app, ?blen_le_enc, ?Hn; [|done]. unfold i8. rewrite blen_le_enc. lia.
  - rewrite (app_assoc a), (app_assoc (a ++ _)), (app_assoc ((a ++ _) ++ _)), (app_assoc (((a ++ _) ++ _) ++ _)).
    apply mem_read_app; rewrite ?blen_app, ?blen_le_enc, ?Hn; [|done]. unfold i8. rewrite blen_le_enc. lia.
Qed.

(** C21: a table schema survives being written and read back: with room for it,
    [serialize] succeeds and [deserialize] at the same position gives the ids,
    the name, the version and every column, whatever the reading object held. *)
Theorem table_schema_roundtrip t t0 buf pos :
  table_wf t → 0 ≤ pos → pos + 160 + 152 * blen (ts_columns_ t) ≤ blen buf → blen buf < 2 ^ 63 →
  ∃ buf', ObTableSchema_serialize t buf (blen buf) pos = Done (0, buf', pos + 160 + 152 * blen (ts_columns_ t))
    ∧ blen buf' = blen buf
    ∧ ObTableSchema_deserialize t0 buf' (blen buf') pos = Done (0, t, pos + 160 + 152 * blen (ts_columns_ t)).
Proof.
  intros Hwf Hp Hfit Hmax. pose proof Hwf as (Hid & Hn & Hdb & Hv & Hcnt & Hcols).
  set (n := blen (ts_columns_ t)) in *. assert (0 ≤ n) by apply blen_nonneg.
  destruct (split3 buf pos (160 + 152 * n)) as (a & o & b & -> & Ha & Ho); [lia..|].
  destruct (split3 o 0 160) as (x & o1 & o2 & -> & Hx & Ho1); [lia..|].
  assert (x = []) as -> by (apply nil_length_inv; unfold blen in Hx; lia). cbn [app] in *.
  rewrite blen_app in Ho. pose proof (blen_nonneg b).
  rewrite serialize_head by (rewrite ?Hn; try done; try lia; unfold ObTableSchema_get_serialize_size, ObColumnSchemaV2_get_serialize_size; fold n; lia).
  rewrite <-app_assoc, splice_eq by (rewrite ?blen_table_head by done; lia).
  rewrite Hcnt. fold n. replace (Z.to_nat n) with (length (ts_columns_ t)) by (unfold n, blen; lia).
  rewrite (app_assoc a (table_head t)).
  replace (pos + 160) with (blen (a ++ table_head t)) by (rewrite blen_app, blen_table_head by done; lia).
  change 0%nat with (length (@nil ObColumnSchemaV2)).
  rewrite (serialize_columns_prefix t (ts_columns_ t) [] [] _ o2 b) by
    (try done; rewrite ?app_nil_r; try done; rewrite ?blen_app, ?blen_table_head by done; fold n; lia).
  fold n. eexists. split; [done|]. split.
  { rewrite !blen_app, blen_table_head, blen_columns_bytes by done. fold n. lia. }
  rewrite <-app_assoc. unfold ObTableSchema_deserialize. rewrite (proj2 (Z.ltb_ge _ _)).
  2:{ rewrite !blen_app, blen_table_head, blen_columns_bytes by done. fold n. pose proof (blen_nonneg b). lia. }
  destruct (table_head_read t a (columns_bytes (ts_columns_ t) ++ b) Hwf) as (H1 & H2 & H3 & H4 & H5).
  rewrite <-Ha, H1, H2, H3, H4, H5. cbn [mbind outcome_bind].
  rewrite Hcnt, (i64_enc n), (i64_enc (ts_schema_version_ t)), !(le_dec_enc_small 8) by
    (done || (unfold i64_range; fold n; rewrite !blen_app in Hmax; lia)).
  replace (blen a + 160) with (blen (a ++ table_head t)) by (rewrite blen_app, blen_table_head by done; lia).
  rewrite (app_assoc a). set (full := (a ++ table_head t) ++ columns_bytes (ts_columns_ t) ++ b).
  unfold full at 2. rewrite deserialize_columns_spec.
  - cbn [mbind outcome_bind app]. fold n. rewrite <-Hcnt at 1. by destruct t.
  - done.
  - lia.
  - unfold full. rewrite !blen_app, blen_columns_bytes. pose proof (blen_nonneg b). lia.
  - unfold full. pose proof (blen_columns_bytes (ts_columns_ t)). rewrite !length_app. unfold blen in *. lia.
Qed.

(** The loop over the columns, in two parts. *)
Lemma serialize_columns_split n m i t buf buf_len pos :
  serialize_columns (n + m) i t buf buf_len pos
  = (x ← serialize_columns n i t buf buf_len pos;
     let '(ret, buf, pos) := x : Z * bytes * Z in
     if negb (ret =? 0) then Done (-1, buf, pos) else serialize_columns m (i + n) t buf buf_len pos).
Proof.
  revert i buf pos. induction n as [|n IH]; intros i buf pos; cbn [Nat.add serialize_columns].
  - by rewrite Nat.add_0_r.
  - destruct (ts_columns_ t !! i) as [c|]; [|done]. cbn [deref mbind outcome_bind].
    destruct (ObColumnSchemaV2_serialize c buf buf_len pos) as [[[ret b] p]| | |]; [|done..]. cbn [mbind outcome_bind].
    destruct (ret =? 0) eqn:E; cbn [negb]; [|done]. rewrite IH. by replace (S i + n)%nat with (i + S n)%nat by lia.
Qed.

(** A buffer of the size [get_serialize_size] asks for is too small.  It
    counts 8 bytes for the table name, which takes 128.  Serializing a table
    without columns into such a buffer overruns it; with columns the last of
    them does not fit and the call fails. *)
Theorem table_schema_size_too_small t buf : table_wf t → blen buf = ObTableSchema_get_serialize_size t →
  (ts_columns_ t = [] → ObTableSchema_serialize t buf (blen buf) 0 = UB)
  ∧ (ts_columns_ t ≠ [] → ∃ buf' pos', ObTableSchema_serialize t buf (blen buf) 0 = Done (-1, buf', pos')).
Proof.
  intros (_ & Hn & _ & _ & Hcnt & _) Hlen. unfold ObTableSchema_get_serialize_size, ObColumnSchemaV2_get_serialize_size in Hlen.
  split; intros Hc.
  - unfold ObTableSchema_serialize, ObTableSchema_get_serialize_size. rewrite Hc in *. change (blen []) with 0 in *.
    rewrite (proj2 (Z.ltb_ge _ _)) by lia. cbn [write_fields].
    rewrite mem_write_ok by (rewrite ?blen_le_enc; lia). cbn [mbind outcome_bind].
    by rewrite mem_write_oob by (rewrite blen_splice by (rewrite ?blen_le_enc; lia); rewrite Hn, blen_le_enc; lia).
  - destruct (exists_last Hc) as (cols & c & Hcols). rewrite Hcols, blen_app in Hlen. change (blen [c]) with 1 in Hlen.
    pose proof (blen_nonneg cols).
    rewrite serialize_head by (rewrite ?Hn; try done; try lia; unfold ObTableSchema_get_serialize_size,
      ObColumnSchemaV2_get_serialize_size; rewrite Hcols, blen_app; change (blen [c]) with 1; lia).
    assert (blen (splice 0 (table_head t) buf) = blen buf) as Hb by (apply blen_splice; rewrite ?blen_table_head by done; lia).
    destruct (split3 (splice 0 (table_head t) buf) 160 (152 * blen cols)) as (a & o & b & Hs & Ha & Ho); [lia..|].
    rewrite Hs in *. rewrite Hcnt, Hcols, blen_app. change (blen [c]) with 1.
    replace (Z.to_nat (blen cols + 1)) with (length cols + 1)%nat by (unfold blen; lia).
    pose proof (serialize_columns_split (length cols) 1 0 t (a ++ o ++ b) (blen buf) (blen a)) as Hsp.
    change (0 + 160) with 160. rewrite <-Ha, Hsp. clear Hsp.
    change 0%nat with (length (@nil ObColumnSchemaV2)) at 1.
    rewrite (serialize_columns_prefix t cols [c] [] a o b) by (try done; lia). cbn [mbind outcome_bind Z.eqb negb serialize_columns].
    rewrite Nat.add_0_l, Hcols, lookup_app_r, Nat.sub_diag by lia. cbn [lookup list_lookup deref mbind outcome_bind].
    unfold ObColumnSchemaV2_serialize. rewrite pod_serialize_short by (cbn [pod_size column_pod]; lia). by do 2 eexists.
Qed.

Definition demo_table : ObTableSchema :=
  (ObTableSchema_add_column (ObColumnSchemaV2_set_column_name (Some [99]) ObColumnSchemaV2_new)
     (ObTableSchema_set_table_name (Some [116]) ObTableSchema_new)).2.

Lemma demo_table_wf : table_wf demo_table.
Proof.
  unfold table_wf, i64_range. cbn -[Z.pow]. split_and!; try done; try lia.
  apply Forall_singleton. unfold column_wf, i32_range, i64_range. cbn -[Z.pow]. split_and!; done || lia.
Qed.

Lemma table_schema_roundtrip_witness :
  ∃ buf', ObTableSchema_serialize demo_table (replicate 400 7) 400 5 = Done (0, buf', 317)
    ∧ ObTableSchema_deserialize ObTableSchema_new buf' (blen buf') 5 = Done (0, demo_table, 317).
Proof.
  destruct (table_schema_roundtrip demo_table ObTableSchema_new (replicate 400 7) 5 demo_table_wf) as (b & H1 & _ & H2);
    [lia|discriminate|reflexivity|]. exists b. exact (conj H1 H2).
Defined.

Lemma table_schema_size_too_small_witness :
  ∃ buf' pos', ObTableSchema_serialize demo_table (replicate 192 0) 192 0 = Done (-1, buf', pos').
Proof. apply (table_schema_size_too_small demo_table (replicate 192 0) demo_table_wf); [reflexivity|discriminate]. Defined.

(** ** Databases by name *)

(** Stored names are C strings of at most 127 bytes, ids are below the next one. *)
Definition db_inv (v : ObSchemaService) : Prop :=
  0 ≤ ss_next_database_id_ v < 2 ^ 63
  ∧ ∀ k d, ss_databases_ v !! k = Some d →
      0 ≤ k < ss_next_database_id_ v ∧ ∃ n, cstr (ds_database_name_ d) = Done n ∧ blen n ≤ 127.
Definition has_db (v : ObSchemaService) (name : bytes) : Prop :=
  ∃ k d, ss_databases_ v !! k = Some d ∧ cstr (ds_database_name_ d) = Done name.

Lemma db_inv_new : db_inv ObSchemaService_new.
Proof. split; [done|]. intros k d H. cbn in H. by rewrite lookup_empty in H. Qed.

(** The search by name finds a database of that name if there is one. *)
Lemma find_database_spec name v : db_inv v →
  (∃ k d, find_named ds_database_name_ name (map_to_list (ss_databases_ v)) = Done (Some (k, d))
        ∧ cstr (ds_database_name_ d) = Done name ∧ ss_databases_ v !! k = Some d)
  ∨ (find_named ds_database_name_ name (map_to_list (ss_databases_ v)) = Done None ∧ ¬ has_db v name).
Proof.
  intros [_ Hinv].
  set (nm := λ k, match ss_databases_ v !! k with
                  | Some d => match cstr (ds_database_name_ d) with Done n => n | _ => [] end
                  | None => []
                  end).
  rewrite (find_named_spec _ nm).
  2:{ apply Forall_forall. intros [k d] Hkd%elem_of_map_to_list. cbn. unfold nm. rewrite Hkd.
      destruct (Hinv k d Hkd) as (_ & n & Hn & _). by rewrite Hn. }
  destruct (list_find _ _) as [[i [k d]]|] eqn:E; cbn.
  - left. exists k, d. apply list_find_Some in E as (Hk & Hnm & _). split; [done|].
    apply list_elem_of_lookup_2, elem_of_map_to_list in Hk. cbn in Hnm. unfold nm in Hnm. rewrite Hk in Hnm.
    destruct (Hinv k d Hk) as (_ & n & Hn & _). rewrite Hn in Hnm |- *. subst n. eauto.
  - right. split; [done|]. intros (k & d & Hk & Hd). apply list_find_None in E.
    rewrite Forall_forall in E. apply (E (k, d)); [by apply elem_of_map_to_list|].
    cbn. unfold nm. by rewrite Hk, Hd.
Qed.

Lemma get_database_spec name v : db_inv v →
  (∃ d, ObSchemaService_get_database_schema name v = Done (Some d)
        ∧ cstr (ds_database_name_ d) = Done name ∧ ∃ k, ss_databases_ v !! k = Some d)
  ∨ (ObSchemaService_get_database_schema name v = Done None ∧ ¬ has_db v name).
Proof.
  intros Hv. unfold ObSchemaService_get_database_schema.
  destruct (find_database_spec name v Hv) as [(k & d & -> & Hd & Hk)|[-> Hno]]; [left; eauto|by right].
Qed.

(** No two databases have the same name. *)
Definition unique_names (v : ObSchemaService) : Prop :=
  ∀ k1 k2 d1 d2 n, ss_databases_ v !! k1 = Some d1 → ss_databases_ v !! k2 = Some d2 →
    cstr (ds_database_name_ d1) = Done n → cstr (ds_database_name_ d2) = Done n → k1 = k2.

Lemma drop_database_spec name v : db_inv v → unique_names v → has_db v name →
  ∃ v', ObSchemaService_drop_database name v = Done (0, v') ∧ db_inv v' ∧ ∀ n, has_db v' n ↔ n ≠ name ∧ has_db v n.
Proof.
  intros Hv Hu Hhas. unfold ObSchemaService_drop_database.
  destruct (find_database_spec name v Hv) as [(k & d & -> & Hd & Hk)|[_ Hno]]; [|done]. cbn [mbind outcome_bind].
  destruct Hv as [Hn Hv]. eexists. split; [done|]. split.
  { split; [exact Hn|]. cbn [ss_databases_ ss_next_database_id_]. intros k' d' [_ H]%lookup_delete_Some. by apply Hv. }
  intros n. unfold has_db. cbn [ss_databases_]. split.
  - intros (k' & d' & [Hne H]%lookup_delete_Some & Hn'). split; [|by exists k', d'].
    intros ->. by apply Hne, (Hu k k' d d' name).
  - intros [Hne (k' & d' & H & Hn')]. exists k', d'. split; [|done]. apply lookup_delete_Some. split; [|done].
    intros <-. rewrite Hk in H. injection H as <-. rewrite Hd in Hn'. by injection Hn'.
Qed.

(** Creating a database adds its name, cut at 127 bytes. *)
Lemma create_database_inv name v : db_inv v → cstr_wf name → ss_next_database_id_ v + 1 < 2 ^ 63 →
  let '(ret, id, v') := ObSchemaService_create_database name v in
  ret = 0 ∧ id = ss_next_database_id_ v ∧ db_inv v' ∧ ss_next_database_id_ v' = id + 1
  ∧ ∀ n, has_db v' n ↔ n = sub 0 127 name ∨ has_db v n.
Proof.
  intros [Hnext Hinv] Hname Hlt. destruct (set_name_cstr name Hname) as [Hc _]. cbn.
  rewrite u64_small by lia. do 2 (split; [done|]). split; [split; cbn; [lia|]|split; [done|]].
  - intros k d. rewrite lookup_insert_Some. intros [[<- <-]|[_ Hk]].
    + split; [lia|]. exists (sub 0 127 name). split; [done|]. unfold sub, blen. rewrite length_take. lia.
    + destruct (Hinv k d Hk) as (? & Hn). split; [lia|done].
  - intros n. unfold has_db. cbn. split.
    + intros (k & d & Hk & Hd). apply lookup_insert_Some in Hk as [[<- <-]|[_ Hk]]; [|eauto].
      left. assert (Done n = Done (sub 0 127 name)) as E by (rewrite <-Hc; symmetry; exact Hd). congruence.
    + intros [->|(k & d & Hk & Hd)]; [exists (ss_next_database_id_ v); eexists; by rewrite lookup_insert_eq|].
      exists k, d. rewrite lookup_insert_ne; [done|]. intros <-. destruct (Hinv _ _ Hk). lia.
Qed.
