(* ===== verification/LogEntry.v ===== *)
(** * Log sequence numbers, log entry headers and their codecs

    Models, under [src/src/storage/logservice]: [palf/lsn.h],
    [palf/log_define.h], [palf/log_entry.h/.cpp], [palf/log_meta.h/.cpp],
    [palf/log_meta_entry.h/.cpp], [ob_log_base_type.h] and
    [ob_log_base_header.h].  A serializer takes the buffer, the length the
    caller claims for it and the position, and returns the code, the buffer and
    the position; a write outside the buffer is [UB]. *)

From S2P Require Import Prelude Pod.

(** ** log_define.h *)

Definition MAX_INFO_BLOCK_SIZE : Z := 4 * 1024.
Definition PALF_PHY_BLOCK_SIZE : Z := Z.shiftl 1 26.
Definition PALF_BLOCK_SIZE : Z := PALF_PHY_BLOCK_SIZE - MAX_INFO_BLOCK_SIZE.
Definition INVALID_PALF_ID : Z := -1.
Definition LOG_INVALID_LSN_VAL : Z := UINT64_MAX.
Definition LOG_MAX_LSN_VAL : Z := LOG_INVALID_LSN_VAL - 1.
Definition PALF_INITIAL_LSN_VAL : Z := 0.
Definition LOG_MAX_BLOCK_ID : Z := UINT64_MAX / PALF_BLOCK_SIZE - 1.
Definition LOG_INVALID_BLOCK_ID : Z := LOG_MAX_BLOCK_ID + 1.
Definition FIRST_VALID_LOG_ID : Z := 1.

Definition is_valid_log_id (log_id : Z) : bool := 0 <? log_id.
Definition is_valid_block_id (block_id : Z) : bool := (0 <=? block_id) && (block_id <? LOG_MAX_BLOCK_ID).
Definition is_valid_palf_id (id : Z) : bool := 0 <=? id.

(** ** lsn.h: an LSN is its [uint64_t] value. *)

Abbreviation LSN := Z (only parsing).
Definition LSN_default : LSN := PALF_INITIAL_LSN_VAL.
Definition LSN_is_valid (lsn : LSN) : bool := lsn <? LOG_INVALID_LSN_VAL.
Definition LSN_add (lsn : LSN) (len : Z) : LSN := u64 (lsn + len).
Definition LSN_sub (lsn : LSN) (len : Z) : LSN := u64 (lsn - len).
Definition lsn_2_block (lsn : LSN) (block_size : Z) : Z := lsn / block_size.
Definition lsn_2_offset (lsn : LSN) (block_size : Z) : Z := lsn mod block_size.

(** ** LogEntryHeader *)

Record LogEntryHeader := mkLogEntryHeader {
  leh_magic_ : Z;
  leh_version_ : Z;
  leh_data_len_ : Z;
  leh_data_checksum_ : Z }.
Definition LogEntryHeader_MAGIC : Z := 0x4C48.
Definition LogEntryHeader_default : LogEntryHeader := mkLogEntryHeader LogEntryHeader_MAGIC 1 0 0.
Definition LogEntryHeader_reset (_ : LogEntryHeader) : LogEntryHeader :=
  mkLogEntryHeader LogEntryHeader_MAGIC 1 0 0.
Definition LogEntryHeader_is_valid (h : LogEntryHeader) : bool := leh_magic_ h =? LogEntryHeader_MAGIC.

Definition LogEntryHeader_bytes (h : LogEntryHeader) : bytes :=
  le_enc 2 (leh_magic_ h) ++ le_enc 2 (leh_version_ h) ++ le_enc 4 (leh_data_len_ h)
  ++ le_enc 4 (leh_data_checksum_ h).
Definition LogEntryHeader_wf (h : LogEntryHeader) : Prop :=
  0 ≤ leh_magic_ h < 2 ^ 16 ∧ 0 ≤ leh_version_ h < 2 ^ 16 ∧ 0 ≤ leh_data_len_ h < 2 ^ 32
  ∧ 0 ≤ leh_data_checksum_ h < 2 ^ 32.

#[export] Program Instance LogEntryHeader_pod : Pod LogEntryHeader := {|
  pod_size := 12;
  pod_enc := LogEntryHeader_bytes;
  pod_dec b := mkLogEntryHeader (field 0 2 b) (field 2 2 b) (field 4 4 b) (field 8 4 b);
  pod_wf := LogEntryHeader_wf |}.
Next Obligation. done. Qed.
Next Obligation.
  intros [m v l c] (Hm & Hv & Hl & Hc). cbn in *. f_equal.
  - exact (le_dec_enc_small 2 m Hm).
  - exact (le_dec_enc_small 2 v Hv).
  - exact (le_dec_enc_small 4 l Hl).
  - exact (le_dec_enc_small 4 c Hc).
Qed.

Definition LogEntryHeader_get_serialize_size : Z := 12.
Definition LogEntryHeader_serialize (h : LogEntryHeader) := pod_serialize h.
Definition LogEntryHeader_deserialize (h : LogEntryHeader) := pod_deserialize h.

(** ** ObLogBaseHeader *)

Definition INVALID_LOG_BASE_TYPE : Z := 0.
Definition TRANS_SERVICE_LOG_BASE_TYPE : Z := 1.
Definition TABLET_OP_LOG_BASE_TYPE : Z := 2.
Definition STORAGE_SCHEMA_LOG_BASE_TYPE : Z := 3.
Definition DDL_LOG_BASE_TYPE : Z := 5.
Definition GC_LS_LOG_BASE_TYPE : Z := 9.
Definition MAJOR_FREEZE_LOG_BASE_TYPE : Z := 10.
Definition PADDING_LOG_BASE_TYPE : Z := 25.
Definition MAX_LOG_BASE_TYPE : Z := 26.
Definition is_valid_log_base_type (type : Z) : bool :=
  (INVALID_LOG_BASE_TYPE <? type) && (type <? MAX_LOG_BASE_TYPE).

Record ObLogBaseHeader := mkBaseHeader {
  bh_version_ : Z;
  bh_log_type_ : Z;
  bh_flag_ : Z;
  bh_replay_hint_ : Z }.
Definition BASE_HEADER_VERSION : Z := 1.
Definition NO_NEED_BARRIER : Z := 0.
Definition NEED_PRE_REPLAY_BARRIER : Z := 0x01.
Definition NEED_POST_REPLAY_BARRIER : Z := 0x02.
Definition PAYLOAD_IS_COMPRESSED : Z := 0x04.
Definition STRICT_BARRIER : Z := Z.lor NEED_PRE_REPLAY_BARRIER NEED_POST_REPLAY_BARRIER.
Definition ObLogBaseHeader_default : ObLogBaseHeader :=
  mkBaseHeader BASE_HEADER_VERSION INVALID_LOG_BASE_TYPE NO_NEED_BARRIER 0.
Definition ObLogBaseHeader_new (type flag : Z) : ObLogBaseHeader :=
  mkBaseHeader BASE_HEADER_VERSION (i16 type) flag 0.
Definition ObLogBaseHeader_reset (_ : ObLogBaseHeader) : ObLogBaseHeader := ObLogBaseHeader_default.
Definition ObLogBaseHeader_is_valid (h : ObLogBaseHeader) : bool := bh_version_ h =? BASE_HEADER_VERSION.

Definition ObLogBaseHeader_bytes (h : ObLogBaseHeader) : bytes :=
  le_enc 2 (bh_version_ h) ++ le_enc 2 (bh_log_type_ h) ++ le_enc 4 (bh_flag_ h)
  ++ le_enc 8 (bh_replay_hint_ h).
Definition ObLogBaseHeader_wf (h : ObLogBaseHeader) : Prop :=
  - 2 ^ 15 ≤ bh_version_ h < 2 ^ 15 ∧ - 2 ^ 15 ≤ bh_log_type_ h < 2 ^ 15
  ∧ - 2 ^ 31 ≤ bh_flag_ h < 2 ^ 31 ∧ - 2 ^ 63 ≤ bh_replay_hint_ h < 2 ^ 63.

#[export] Program Instance ObLogBaseHeader_pod : Pod ObLogBaseHeader := {|
  pod_size := 16;
  pod_enc := ObLogBaseHeader_bytes;
  pod_dec b := mkBaseHeader (i16 (field 0 2 b)) (i16 (field 2 2 b)) (i32 (field 4 4 b))
                 (i64 (field 8 8 b));
  pod_wf := ObLogBaseHeader_wf |}.
Next Obligation. done. Qed.
Next Obligation.
  intros [v t f r] (Hv & Ht & Hf & Hr). cbn in *. f_equal.
  - exact (sint_le_dec_enc 2 v ltac:(lia) Hv).
  - exact (sint_le_dec_enc 2 t ltac:(lia) Ht).
  - exact (sint_le_dec_enc 4 f ltac:(lia) Hf).
  - exact (sint_le_dec_enc 8 r ltac:(lia) Hr).
Qed.

(** [sizeof(ObLogBaseHeader)]: 2 + 2 + 4 + 8. *)
Definition ObLogBaseHeader_get_serialize_size : Z := 16.
Definition ObLogBaseHeader_serialize (h : ObLogBaseHeader) := pod_serialize h.
Definition ObLogBaseHeader_deserialize (h : ObLogBaseHeader) := pod_deserialize h.

(** ** LogGroupEntryHeader *)

Record LogGroupEntryHeader := mkGroupHeader {
  gh_magic_ : Z;
  gh_version_ : Z;
  gh_group_entry_size_ : Z;
  gh_log_id_ : Z;
  gh_log_proposal_id_ : Z;
  gh_prev_lsn_ : LSN;
  gh_committed_end_lsn_ : LSN;
  gh_data_checksum_ : Z }.
Definition LogGroupEntryHeader_MAGIC : Z := 0x4752.
Definition LogGroupEntryHeader_default : LogGroupEntryHeader :=
  mkGroupHeader LogGroupEntryHeader_MAGIC 1 0 0 1 0 0 0.
Definition LogGroupEntryHeader_reset (_ : LogGroupEntryHeader) : LogGroupEntryHeader :=
  LogGroupEntryHeader_default.
Definition LogGroupEntryHeader_is_valid (h : LogGroupEntryHeader) : bool :=
  gh_magic_ h =? LogGroupEntryHeader_MAGIC.

(** [sizeof(LogGroupEntryHeader)]: the checksum at offset 40 is followed by 4
    bytes of padding. *)
Definition LogGroupEntryHeader_get_serialize_size : Z := 48.

(** [serialize]: after the [uint32_t] at offset 4 has been written, [pu32]
    points to offset 8 and is not advanced any more; the checksum is stored
    through it. *)
Definition LogGroupEntryHeader_serialize (h : LogGroupEntryHeader) (buf : bytes) (buf_len pos : Z)
    : outcome (Z * bytes * Z) :=
  let sz := LogGroupEntryHeader_get_serialize_size in
  if buf_len - pos <? sz then Done (-1, buf, pos)
  else
    buf ← write_fields pos
      [le_enc 2 (gh_magic_ h); le_enc 2 (gh_version_ h); le_enc 4 (gh_group_entry_size_ h);
       le_enc 8 (gh_log_id_ h); le_enc 8 (gh_log_proposal_id_ h);
       le_enc 8 (gh_prev_lsn_ h); le_enc 8 (gh_committed_end_lsn_ h)] buf;
    let pu32 := pos + 2 + 2 + 4 in
    buf ← mem_write pu32 (le_enc 4 (gh_data_checksum_ h)) buf;
    Done (0, buf, pos + sz).

(** The fields read at their offsets, 44 bytes in all. *)
Definition group_header_of (b : bytes) : LogGroupEntryHeader :=
  mkGroupHeader (field 0 2 b) (field 2 2 b) (field 4 4 b) (i64 (field 8 8 b)) (i64 (field 16 8 b))
    (field 24 8 b) (field 32 8 b) (field 40 4 b).
Definition LogGroupEntryHeader_deserialize (h : LogGroupEntryHeader) (buf : bytes) (data_len pos : Z)
    : outcome (Z * LogGroupEntryHeader * Z) :=
  let sz := LogGroupEntryHeader_get_serialize_size in
  if data_len - pos <? sz then Done (-1, h, pos)
  else b ← mem_read pos 44 buf; Done (0, group_header_of b, pos + sz).

(** ** LogEntry *)

Record LogEntry := mkLogEntry {
  le_header_ : LogEntryHeader;
  le_buf_ : option bytes;
  le_buf_len_ : Z }.
Definition LogEntry_new : LogEntry := mkLogEntry LogEntryHeader_default None 0.
Definition LogEntry_reset (e : LogEntry) : LogEntry :=
  mkLogEntry (LogEntryHeader_reset (le_header_ e)) None 0.

(** [init(data, data_len)] with [data] pointing at [off] in [buf]. *)
Definition LogEntry_init (buf : bytes) (off data_len : Z) (e : LogEntry) : outcome (Z * LogEntry) :=
  let e := LogEntry_reset e in
  d ← mem_read off data_len buf;
  let h := le_header_ e in
  Done (0, mkLogEntry (mkLogEntryHeader (leh_magic_ h) (leh_version_ h) (u32 data_len)
                         (leh_data_checksum_ h)) (Some d) data_len).

Definition LogEntry_serialize (e : LogEntry) (buf : bytes) (buf_len pos : Z)
    : outcome (Z * bytes * Z) :=
  x ← LogEntryHeader_serialize (le_header_ e) buf buf_len pos;
  let '(ret, buf, pos) := x in
  if negb (ret =? 0) then Done (ret, buf, pos)
  else if buf_len - pos <? le_buf_len_ e then Done (-1, buf, pos)
  else
    d ← mem_read 0 (le_buf_len_ e) (default [] (le_buf_ e));
    buf ← mem_write pos d buf;
    Done (0, buf, pos + le_buf_len_ e).

Definition LogEntry_deserialize (e : LogEntry) (buf : bytes) (data_len pos : Z)
    : outcome (Z * LogEntry * Z) :=
  x ← LogEntryHeader_deserialize (le_header_ e) buf data_len pos;
  let '(ret, h, pos) := x in
  let e := mkLogEntry h (le_buf_ e) (le_buf_len_ e) in
  if negb (ret =? 0) then Done (ret, e, pos)
  else
    let payload_len := leh_data_len_ h in
    if data_len - pos <? payload_len then Done (-1, e, pos)
    else y ← LogEntry_init buf pos payload_len e; let '(ret, e) := y in Done (ret, e, pos).

Definition LogEntry_get_serialize_size (e : LogEntry) : Z :=
  LogEntryHeader_get_serialize_size + le_buf_len_ e.

(** ** LogMeta

    [member_data_] is left out: the code never reads it, and writes only its
    terminator in the constructor. *)

Record LogConfigMeta := mkConfigMeta {
  cm_proposal_id_ : Z;
  cm_prev_lsn_ : LSN;
  cm_prev_log_proposal_id_ : Z;
  cm_prev_mode_pid_ : Z;
  cm_config_version_ : Z;
  cm_config_seq_ : Z;
  cm_member_count_ : Z }.
Definition LogConfigMeta_default : LogConfigMeta := mkConfigMeta 0 0 0 0 0 0 0.
Definition LogConfigMeta_init (proposal_id : Z) (prev_lsn : LSN) (prev_log_proposal_id prev_mode_pid
    config_version config_seq : Z) (_ : LogConfigMeta) : Z * LogConfigMeta :=
  (0, mkConfigMeta proposal_id prev_lsn prev_log_proposal_id prev_mode_pid config_version config_seq 1).
Definition LogConfigMeta_reset (_ : LogConfigMeta) : LogConfigMeta := LogConfigMeta_default.
Definition LogConfigMeta_is_valid (c : LogConfigMeta) : bool := 0 <? cm_proposal_id_ c.

Record LogMeta := mkLogMeta {
  lm_config_meta_ : LogConfigMeta;
  lm_snapshot_lsn_ : LSN;
  lm_snapshot_version_ : Z;
  lm_mode_proposal_id_ : Z;
  lm_access_mode_ : Z;
  lm_is_applied_mode_meta_ : bool;
  lm_log_snapshot_lsn_ : LSN }.
Definition LogMeta_new : LogMeta := mkLogMeta LogConfigMeta_default 0 0 0 0 false 0.
Definition LogMeta_reset (_ : LogMeta) : LogMeta := LogMeta_new.

(** [sizeof(LogConfigMeta) = 4152], [sizeof(LogSnapshotMeta) = 16],
    [sizeof(LogModeMeta) = 16], [sizeof(LSN) = 8]. *)
Definition LogMeta_get_serialize_size : Z := 4152 + 16 + 16 + 8.

Record LogMetaEntryHeader := mkMetaEntryHeader {
  meh_magic_ : Z;
  meh_meta_size_ : Z;
  meh_checksum_ : Z }.
Definition LogMetaEntryHeader_MAGIC : Z := 0x4D48.
Definition LogMetaEntryHeader_default : LogMetaEntryHeader := mkMetaEntryHeader LogMetaEntryHeader_MAGIC 0 0.
Definition LogMetaEntryHeader_is_valid (h : LogMetaEntryHeader) : bool :=
  meh_magic_ h =? LogMetaEntryHeader_MAGIC.
Definition sizeof_LogMetaEntryHeader : Z := 12.

Record LogMetaEntry := mkMetaEntry { me_header_ : LogMetaEntryHeader; me_meta_ : LogMeta }.
Definition LogMetaEntry_new : LogMetaEntry := mkMetaEntry LogMetaEntryHeader_default LogMeta_new.
Definition LogMetaEntry_init (meta : LogMeta) (e : LogMetaEntry) : Z * LogMetaEntry :=
  (0, mkMetaEntry (mkMetaEntryHeader (meh_magic_ (me_header_ e)) (u32 LogMeta_get_serialize_size)
                     (meh_checksum_ (me_header_ e))) meta).
Definition LogMetaEntry_get_serialize_size (e : LogMetaEntry) : Z :=
  sizeof_LogMetaEntryHeader + meh_meta_size_ (me_header_ e).

(** [pos] is assigned, not advanced, so the body goes to offset 12. *)
Definition LogMetaEntry_serialize (e : LogMetaEntry) (buf : bytes) (buf_len pos : Z)
    : outcome (Z * bytes * Z) :=
  let total := LogMetaEntry_get_serialize_size e in
  if buf_len - pos <? total then Done (-1, buf, pos)
  else
    let h := me_header_ e in
    buf ← write_fields pos
      [le_enc 4 (meh_magic_ h); le_enc 4 (meh_meta_size_ h); le_enc 4 (meh_checksum_ h)] buf;
    let pos := 12 in
    let cm := lm_config_meta_ (me_meta_ e) in
    buf ← write_fields pos
      [le_enc 8 (cm_proposal_id_ cm); le_enc 8 (cm_prev_lsn_ cm);
       le_enc 8 (cm_prev_log_proposal_id_ cm); le_enc 8 (cm_prev_mode_pid_ cm);
       le_enc 8 (cm_config_version_ cm); le_enc 8 (cm_config_seq_ cm);
       le_enc 4 (cm_member_count_ cm)] buf;
    Done (0, buf, total).

(** The configuration fields read from the body. *)
Definition config_meta_of (b : bytes) : LogConfigMeta :=
  mkConfigMeta (i64 (field 0 8 b)) (field 8 8 b) (i64 (field 16 8 b)) (i64 (field 24 8 b))
    (i64 (field 32 8 b)) (i64 (field 40 8 b)) (i32 (field 48 4 b)).
Definition LogMetaEntry_deserialize (e : LogMetaEntry) (buf : bytes) (data_len pos : Z)
    (meta : LogMeta) : outcome (Z * LogMetaEntry * LogMeta * Z) :=
  if data_len - pos <? sizeof_LogMetaEntryHeader then Done (-1, e, meta, pos)
  else
    hb ← mem_read pos 12 buf;
    let h := mkMetaEntryHeader (field 0 4 hb) (field 4 4 hb) (field 8 4 hb) in
    let e := mkMetaEntry h (me_meta_ e) in
    let pos := 12 in
    if negb (LogMetaEntryHeader_is_valid h) then Done (-1, e, meta, pos)
    else if data_len - pos <? meh_meta_size_ h then Done (-1, e, meta, pos)
    else
      b ← mem_read pos 52 buf;
      Done (0, e,
            mkLogMeta (config_meta_of b) (lm_snapshot_lsn_ meta) (lm_snapshot_version_ meta)
              (lm_mode_proposal_id_ meta) (lm_access_mode_ meta) (lm_is_applied_mode_meta_ meta)
              (lm_log_snapshot_lsn_ meta),
            data_len).

(** ** The group header on disk *)

Definition group_header_wf (h : LogGroupEntryHeader) : Prop :=
  0 ≤ gh_magic_ h < 2 ^ 16 ∧ 0 ≤ gh_version_ h < 2 ^ 16 ∧ 0 ≤ gh_group_entry_size_ h < 2 ^ 32
  ∧ 0 ≤ gh_log_id_ h < 2 ^ 63 ∧ 0 ≤ gh_log_proposal_id_ h < 2 ^ 63
  ∧ 0 ≤ gh_prev_lsn_ h < 2 ^ 64 ∧ 0 ≤ gh_committed_end_lsn_ h < 2 ^ 64
  ∧ 0 ≤ gh_data_checksum_ h < 2 ^ 32.

(** What [serialize] leaves in the first 40 bytes. *)
Definition group_header_bytes (h : LogGroupEntryHeader) : bytes :=
  le_enc 2 (gh_magic_ h) ++ le_enc 2 (gh_version_ h) ++ le_enc 4 (gh_group_entry_size_ h)
  ++ (le_enc 4 (gh_data_checksum_ h) ++ le_enc 4 (gh_log_id_ h / 2 ^ 32))
  ++ le_enc 8 (gh_log_proposal_id_ h) ++ le_enc 8 (gh_prev_lsn_ h)
  ++ le_enc 8 (gh_committed_end_lsn_ h).

Lemma blen_group_header_bytes h : blen (group_header_bytes h) = 40.
Proof. done. Qed.

Lemma group_header_serialize h buf buf_len pos : 0 ≤ pos → pos + 48 ≤ buf_len → buf_len ≤ blen buf →
  LogGroupEntryHeader_serialize h buf buf_len pos
  = Done (0, splice pos (group_header_bytes h) buf, pos + 48).
Proof.
  intros Hp Hl Hb. unfold LogGroupEntryHeader_serialize, LogGroupEntryHeader_get_serialize_size.
  destruct (Z.ltb_spec (buf_len - pos) 48); [lia|].
  rewrite write_fields_spec by (cbn [concat]; autorewrite with blen; lia).
  cbn [mbind outcome_bind]. replace (pos + 2 + 2 + 4) with (pos + 8) by lia.
  rewrite mem_write_ok
    by (rewrite ?blen_splice by (cbn [concat]; autorewrite with blen; lia); autorewrite with blen; lia).
  rewrite splice_in by (cbn [concat]; autorewrite with blen; lia).
  cbn [mbind outcome_bind]. do 3 f_equal. cbn [concat]. rewrite app_nil_r.
  change (le_enc 8 (gh_log_id_ h)) with (le_enc (4 + 4) (gh_log_id_ h)). rewrite le_enc_app.
  done.
Qed.

(** What [deserialize] makes of those bytes followed by [pad]: the checksum has
    replaced the low half of the log id, and the checksum read is whatever the
    buffer held at offset 40. *)
Definition group_header_read (h : LogGroupEntryHeader) (pad : bytes) : LogGroupEntryHeader :=
  mkGroupHeader (gh_magic_ h) (gh_version_ h) (gh_group_entry_size_ h)
    (gh_log_id_ h - gh_log_id_ h mod 2 ^ 32 + gh_data_checksum_ h)
    (gh_log_proposal_id_ h) (gh_prev_lsn_ h) (gh_committed_end_lsn_ h) (le_dec pad).

Lemma group_header_of_bytes h pad : group_header_wf h → blen pad = 4 →
  group_header_of (group_header_bytes h ++ pad) = group_header_read h pad.
Proof.
  intros (Hm & Hv & Hs & Hi & Hp & Hl & He & Hc) Hpad. unfold group_header_read.
  assert (∃ a b c d, pad = [a; b; c; d]) as (a & b & c & d & ->).
  { unfold blen in Hpad. destruct pad as [|a [|b [|c [|d [|]]]]]; cbn in *; try lia. by exists a, b, c, d. }
  unfold group_header_of. f_equal.
  - exact (le_dec_enc_small 2 _ Hm).
  - exact (le_dec_enc_small 2 _ Hv).
  - exact (le_dec_enc_small 4 _ Hs).
  - change (field 8 8 _) with (le_dec (le_enc 4 (gh_data_checksum_ h) ++ le_enc 4 (gh_log_id_ h / 2 ^ 32))).
    assert (gh_log_id_ h / 2 ^ 32 < 2 ^ 31) by (apply Z.div_lt_upper_bound; lia).
    assert (0 ≤ gh_log_id_ h / 2 ^ 32) by (apply Z.div_pos; lia).
    rewrite le_dec_app, length_le_enc, !le_dec_enc_small by (cbn; lia).
    pose proof (Z.div_mod (gh_log_id_ h) (2 ^ 32) ltac:(lia)). change (8 * Z.of_nat 4) with 32.
    unfold i64. rewrite sint_small; lia.
  - apply (sint_le_dec_enc 8); cbn; lia.
  - exact (le_dec_enc_small 8 _ Hl).
  - exact (le_dec_enc_small 8 _ He).
Qed.

(** Reading a header at its place in a buffer. *)
Lemma group_header_deserialize h0 h pre pad post data_len : group_header_wf h → blen pad = 8 →
  blen pre + 48 ≤ data_len →
  LogGroupEntryHeader_deserialize h0 (pre ++ group_header_bytes h ++ pad ++ post) data_len (blen pre)
  = Done (0, group_header_read h (take 4 pad), blen pre + 48).
Proof.
  intros Hwf Hpad Hl. unfold LogGroupEntryHeader_deserialize, LogGroupEntryHeader_get_serialize_size.
  destruct (Z.ltb_spec (data_len - blen pre) 48); [lia|].
  assert (group_header_bytes h ++ pad ++ post
          = (group_header_bytes h ++ take 4 pad) ++ drop 4 pad ++ post) as ->.
  { rewrite <-app_assoc. f_equal. by rewrite app_assoc, take_drop. }
  unfold blen in Hpad. rewrite (mem_read_app _ 44 pre); [|done|].
  - cbn [mbind outcome_bind]. rewrite group_header_of_bytes; [done..|].
    unfold blen. rewrite length_take. lia.
  - rewrite blen_app, blen_group_header_bytes. unfold blen. rewrite length_take. lia.
Qed.

(** ** Round trips *)

(** The group header loses its log id.  Writing a group header into a
    buffer and reading it back restores the magic, version, entry size, proposal
    id and both LSNs, which is what recovery and replay use.  But [serialize]
    stores the checksum over the low 32 bits of the log id and never writes the
    checksum field itself: the log id read back keeps only its upper half, with
    the checksum below, and the checksum read back is what the buffer held. *)
Theorem group_header_roundtrip h h0 buf pos : group_header_wf h → 0 ≤ pos → pos + 48 ≤ blen buf →
  ∃ buf' h', LogGroupEntryHeader_serialize h buf (blen buf) pos = Done (0, buf', pos + 48)
    ∧ LogGroupEntryHeader_deserialize h0 buf' (blen buf') pos = Done (0, h', pos + 48)
    ∧ gh_magic_ h' = gh_magic_ h ∧ gh_version_ h' = gh_version_ h
    ∧ gh_group_entry_size_ h' = gh_group_entry_size_ h ∧ gh_log_proposal_id_ h' = gh_log_proposal_id_ h
    ∧ gh_prev_lsn_ h' = gh_prev_lsn_ h ∧ gh_committed_end_lsn_ h' = gh_committed_end_lsn_ h
    ∧ gh_log_id_ h' = 2 ^ 32 * (gh_log_id_ h / 2 ^ 32) + gh_data_checksum_ h
    ∧ gh_data_checksum_ h' = le_dec (sub (pos + 40) 4 buf).
Proof.
  intros Hwf Hp Hl. rewrite group_header_serialize by lia.
  destruct (split3 buf pos 48) as (x & o & y & -> & <- & Ho); [lia..|].
  rewrite <-(take_drop 40 o). assert (blen (take 40 o) = 40 ∧ blen (drop 40 o) = 8) as [H1 H2].
  { unfold blen in *. rewrite length_take, length_drop. lia. }
  rewrite <-app_assoc, splice_eq by (by rewrite ?H1).
  eexists _, _. split; [done|]. split.
  { apply group_header_deserialize; [done|exact H2|].
    rewrite !blen_app, blen_group_header_bytes. pose proof (blen_nonneg y). lia. }
  split_and!; try done; cbn.
  - pose proof (Z.div_mod (gh_log_id_ h) (2 ^ 32) ltac:(lia)). lia.
  - f_equal. rewrite (sub_app_r x _ 40) by lia. rewrite (sub_app_r (take 40 o) _ 0) by lia.
    unfold sub. cbn [Z.to_nat]. change (Pos.to_nat 4) with 4%nat. rewrite drop_0, take_app_le; [done|].
    unfold blen in H2. lia.
Qed.

(** A log entry round-trips, but its end is not reported.  An entry made
    from [data], written at [pos] and read back, gives the same header and the
    same payload; [serialize] leaves [pos] after the payload, while
    [deserialize] leaves it after the header, so entries cannot be read one
    after the other with it. *)
Theorem log_entry_roundtrip data e0 e1 buf pos : blen data < 2 ^ 32 → 0 ≤ pos →
  pos + 12 + blen data ≤ blen buf →
  ∃ e buf', LogEntry_init data 0 (blen data) e0 = Done (0, e)
    ∧ LogEntry_serialize e buf (blen buf) pos = Done (0, buf', pos + LogEntry_get_serialize_size e)
    ∧ LogEntry_deserialize e1 buf' (blen buf') pos = Done (0, e, pos + LogEntryHeader_get_serialize_size)
    ∧ le_buf_ e = Some data.
Proof.
  intros Hd Hp Hl. pose proof (blen_nonneg data) as Hd0. unfold LogEntry_init. rewrite mem_read_ok by lia.
  cbn [mbind outcome_bind]. rewrite sub_all. set (h := mkLogEntryHeader _ _ _ _).
  assert (LogEntryHeader_wf h) as Hwf.
  { unfold h. cbn. rewrite u32_small by lia. unfold LogEntryHeader_wf, LogEntryHeader_MAGIC. cbn. lia. }
  exists (mkLogEntry h (Some data) (blen data)). unfold LogEntry_serialize. cbn [le_header_ le_buf_len_ le_buf_ default].
  unfold LogEntryHeader_serialize. rewrite pod_serialize_ok; [|lia|change pod_size with 12; lia|lia].
  cbn [mbind outcome_bind Z.eqb negb]. change (pod_size (A:=LogEntryHeader)) with 12.
  rewrite (proj2 (Z.ltb_ge _ _)) by lia. cbn [id]. rewrite mem_read_ok by lia. rewrite sub_all.
  cbn [mbind outcome_bind].
  destruct (split3 buf pos (12 + blen data)) as (x & o & y & -> & <- & Ho); [lia..|].
  assert (blen (pod_enc h) = 12) as Hh by exact (pod_len h). replace (blen x + 12) with (blen x + blen (pod_enc h)) by lia.
  rewrite mem_write_ok; [|lia|rewrite blen_splice; rewrite ?Hh; lia].
  rewrite splice_next by lia. cbn [mbind outcome_bind]. rewrite splice_eq by (rewrite ?blen_app; lia).
  eexists. split; [done|]. split; [by rewrite <-Z.add_assoc|]. split; [|done].
  unfold LogEntry_deserialize, LogEntryHeader_deserialize. rewrite <-app_assoc.
  rewrite (pod_deserialize_app h) by (done || (change pod_size with 12; rewrite !blen_app, Hh; pose proof (blen_nonneg y); lia)).
  cbn [mbind outcome_bind Z.eqb negb]. change (pod_size (A:=LogEntryHeader)) with 12.
  assert (leh_data_len_ h = blen data) as -> by (unfold h; cbn; apply u32_small; lia).
  rewrite (proj2 (Z.ltb_ge _ _)) by (rewrite !blen_app, Hh; pose proof (blen_nonneg y); lia).
  unfold LogEntry_init. rewrite (app_assoc x), (mem_read_app _ _ (x ++ pod_enc h) data) by (rewrite ?blen_app; lia || done).
  cbn [mbind outcome_bind]. done.
Qed.

Lemma group_header_roundtrip_witness :
  let h := mkGroupHeader LogGroupEntryHeader_MAGIC 1 52 7 1 0 52 0 in
  ∃ buf' h', LogGroupEntryHeader_serialize h (replicate 48 0) 48 0 = Done (0, buf', 48)
    ∧ LogGroupEntryHeader_deserialize LogGroupEntryHeader_default buf' (blen buf') 0 = Done (0, h', 48)
    ∧ gh_log_id_ h = 7 ∧ gh_log_id_ h' = 0 ∧ gh_committed_end_lsn_ h' = 52.
Proof.
  destruct (group_header_roundtrip (mkGroupHeader LogGroupEntryHeader_MAGIC 1 52 7 1 0 52 0)
              LogGroupEntryHeader_default (replicate 48 0) 0) as (b & h' & H1 & H2 & _ & _ & _ & _ & _ & H3 & H4 & _);
    [unfold group_header_wf, LogGroupEntryHeader_MAGIC; cbn; lia|lia|vm_compute; discriminate|].
  exists b, h'. split_and!; [exact H1|exact H2|reflexivity|exact H4|exact H3].
Defined.

Lemma log_entry_roundtrip_witness :
  ∃ e buf', LogEntry_init [1; 2; 3] 0 3 LogEntry_new = Done (0, e)
    ∧ LogEntry_serialize e (replicate 20 0) 20 2 = Done (0, buf', 17)
    ∧ LogEntry_deserialize LogEntry_new buf' (blen buf') 2 = Done (0, e, 14) ∧ le_buf_ e = Some [1; 2; 3].
Proof.
  destruct (log_entry_roundtrip [1; 2; 3] LogEntry_new LogEntry_new (replicate 20 0) 2)
    as (e & b & H1 & H2 & H3 & H4); [reflexivity|lia|vm_compute; discriminate|].
  exists e, b. split_and!; [exact H1| |exact H3|exact H4].
  transitivity (Done (0, b, 2 + LogEntry_get_serialize_size e)); [exact H2|]. injection H1 as <-. reflexivity.
Defined.
