(* ===== verification/LogStorage.v ===== *)
(** * LogStorage: log blocks on disk

    Models [src/src/storage/logservice/palf/log_storage.h/.cpp],
    [log_storage_interface.h] and [log_io_adapter.cpp].  Block [id] is the file
    [log_dir_/id]; the log byte at offset [o] of a block is the file byte at
    [o + MAX_INFO_BLOCK_SIZE]. *)

From S2P Require Import Prelude Pod Posix LogEntry.

Record LogStorage := mkLogStorage {
  ls_log_dir_ : string;
  ls_block_size_ : Z;
  ls_cur_fd_ : option inode;
  ls_cur_block_id_ : Z;
  ls_max_block_id_ : Z;
  ls_min_block_id_ : Z;
  ls_is_inited_ : bool }.

Definition LogStorage_new : LogStorage :=
  mkLogStorage EmptyString PALF_BLOCK_SIZE None LOG_INVALID_BLOCK_ID LOG_INVALID_BLOCK_ID
    LOG_INVALID_BLOCK_ID false.

Definition set_cur (fd : option inode) (id : Z) (ls : LogStorage) : LogStorage :=
  mkLogStorage (ls_log_dir_ ls) (ls_block_size_ ls) fd id (ls_max_block_id_ ls)
    (ls_min_block_id_ ls) (ls_is_inited_ ls).
Definition set_range (lo hi : Z) (ls : LogStorage) : LogStorage :=
  mkLogStorage (ls_log_dir_ ls) (ls_block_size_ ls) (ls_cur_fd_ ls) (ls_cur_block_id_ ls) hi lo
    (ls_is_inited_ ls).
Definition set_inited (b : bool) (ls : LogStorage) : LogStorage :=
  mkLogStorage (ls_log_dir_ ls) (ls_block_size_ ls) (ls_cur_fd_ ls) (ls_cur_block_id_ ls)
    (ls_max_block_id_ ls) (ls_min_block_id_ ls) b.

(** [log_dir_ + "/" + block_id]. *)
Definition block_path (dir : string) (block_id : Z) : string :=
  (dir +:+ "/" +:+ pretty (Z.to_N block_id))%string.
Definition LogStorage_block_file_path_ (ls : LogStorage) (block_id : Z) : string :=
  block_path (ls_log_dir_ ls) block_id.

Definition LogStorage_close_current_block_ (ls : LogStorage) : LogStorage :=
  set_cur None LOG_INVALID_BLOCK_ID ls.

Definition LogStorage_open_block_ (block_id : Z) (ls : LogStorage) (s : os) : Z * LogStorage * os :=
  let ls := LogStorage_close_current_block_ ls in
  let '(fd, s) := sys_open (LogStorage_block_file_path_ ls block_id) true false s in
  match fd with
  | None => (-1, ls, s)
  | Some i => (0, set_cur (Some i) block_id ls, s)
  end.

Definition LogStorage_create_next_block_ (ls : LogStorage) (s : os) : Z * LogStorage * os :=
  let next_id := u64 (ls_max_block_id_ ls + 1) in
  let '(fd, s) := sys_open (LogStorage_block_file_path_ ls next_id) true true s in
  match fd with
  | None => (-1, ls, s)
  | Some i =>
      let '(ret, s) := sys_ftruncate i PALF_PHY_BLOCK_SIZE s in
      if negb (ret =? 0) then (-1, ls, s)
      else (0, set_range (ls_min_block_id_ ls) next_id ls, s)
  end.

(** One step of the scan for existing block files: [id], [min], [max]. *)
Definition scan_blocks_body (dir : string) (s : os) (x : Z * Z * Z) : outcome (Z * Z * Z + Z * Z) :=
  let '(id, mn, mx) := x in
  if sys_exists (block_path dir id) s
  then Done (inl (u64 (id + 1), if mn =? LOG_INVALID_BLOCK_ID then id else mn, id))
  else Done (inr (mn, mx)).

(** [init].  The scan meets at most one existing file per directory entry. *)
Definition LogStorage_init (log_dir : string) (block_size : Z) (ls : LogStorage) (s : os)
    : outcome (Z * LogStorage * os) :=
  if ls_is_inited_ ls then Done (-1, ls, s)
  else
    let ls := mkLogStorage log_dir block_size (ls_cur_fd_ ls) (ls_cur_block_id_ ls)
                LOG_INVALID_BLOCK_ID LOG_INVALID_BLOCK_ID false in
    r ← loop (scan_blocks_body log_dir s) (S (size (os_dir s)))
             (0, LOG_INVALID_BLOCK_ID, LOG_INVALID_BLOCK_ID);
    let '(mn, mx) := r : Z * Z in
    let ls := set_range mn mx ls in
    if mn =? LOG_INVALID_BLOCK_ID then
      let ls := set_range 0 (u64 (-1)) ls in
      let '(ret, ls, s) := LogStorage_create_next_block_ ls s in
      if negb (ret =? 0) then Done (ret, ls, s)
      else
        let '(ret, ls, s) := LogStorage_open_block_ 0 ls s in
        if negb (ret =? 0) then Done (ret, ls, s) else Done (0, set_inited true ls, s)
    else Done (0, set_inited true ls, s).

Definition LogStorage_destroy (ls : LogStorage) : LogStorage :=
  set_inited false (LogStorage_close_current_block_ ls).

Definition LogStorage_append (lsn : LSN) (buf : bytes) (ls : LogStorage) (s : os)
    : Z * LogStorage * os :=
  if negb (ls_is_inited_ ls) then (-1, ls, s)
  else if blen buf <=? 0 then (0, ls, s)
  else
    let target_block := lsn_2_block lsn (ls_block_size_ ls) in
    let target_offset := lsn_2_offset lsn (ls_block_size_ ls) in
    let '(ret, ls, s) :=
      if negb (ls_cur_block_id_ ls =? target_block) then LogStorage_open_block_ target_block ls s
      else (0, ls, s) in
    if negb (ret =? 0) then (ret, ls, s)
    else match ls_cur_fd_ ls with
         | None => (-1, ls, s)
         | Some i =>
             let '(written, s) := sys_write i (target_offset + MAX_INFO_BLOCK_SIZE) buf s in
             if written <? 0 then (-1, ls, s)
             else if negb (written =? blen buf) then (-1, ls, s)
             else
               (0, if ls_max_block_id_ ls <? target_block
                   then set_range (ls_min_block_id_ ls) target_block ls else ls, s)
         end.

(** [read] into [read_buf]: the code, the buffer and [out_read_size]. *)
Definition LogStorage_read (lsn : LSN) (in_read_size : Z) (read_buf : bytes) (ls : LogStorage) (s : os)
    : outcome (Z * bytes * Z * os) :=
  if negb (ls_is_inited_ ls) then Done (-1, read_buf, 0, s)
  else
    let target_block := lsn_2_block lsn (ls_block_size_ ls) in
    let target_offset := lsn_2_offset lsn (ls_block_size_ ls) in
    let '(fd, s) := sys_open (LogStorage_block_file_path_ ls target_block) false false s in
    match fd with
    | None => Done (-1, read_buf, 0, s)
    | Some i =>
        let to_read := in_read_size in
        let to_read := if blen read_buf <? to_read then blen read_buf else to_read in
        let to_read := if u64 (ls_block_size_ ls) <? u64 (target_offset + to_read)
                       then ls_block_size_ ls - target_offset else to_read in
        let '(n, s) := sys_read i (target_offset + MAX_INFO_BLOCK_SIZE) to_read s in
        match n with
        | None => Done (-1, read_buf, 0, s)
        | Some data => read_buf ← mem_write 0 data read_buf; Done (0, read_buf, blen data, s)
        end
    end.

(** [read_block_]: [offset] is the file offset. *)
Definition LogStorage_read_block_ (block_id offset : Z) (buf : bytes) (out_read_size : Z)
    (ls : LogStorage) (s : os) : outcome (Z * bytes * Z * os) :=
  let '(fd, s) := sys_open (LogStorage_block_file_path_ ls block_id) false false s in
  match fd with
  | None => Done (-1, buf, out_read_size, s)
  | Some i =>
      let '(n, s) := sys_read i offset (blen buf) s in
      match n with
      | None => Done (-1, buf, out_read_size, s)
      | Some data => buf ← mem_write 0 data buf; Done (0, buf, blen data, s)
      end
  end.

(** [read_group_entry_header] reads over the object [header] itself, whose
    representation is [raw] (48 bytes). *)
Definition LogStorage_read_group_entry_header (lsn : LSN) (raw : bytes) (ls : LogStorage) (s : os)
    : outcome (Z * LogGroupEntryHeader * os) :=
  x ← LogStorage_read lsn LogGroupEntryHeader_get_serialize_size raw ls s;
  let '(ret, raw, out_size, s) := x : Z * bytes * Z * os in
  let header := group_header_of raw in
  if negb (ret =? 0) then Done (ret, header, s)
  else if out_size <? LogGroupEntryHeader_get_serialize_size then Done (-1, header, s)
  else Done (if LogGroupEntryHeader_is_valid header then 0 else -1, header, s).

(** Unlinking the block files [lo .. lo + n). *)
Definition unlink_blocks (dir : string) (ids : list Z) (s : os) : os :=
  foldl (λ s id, sys_unlink (block_path dir id) s) s ids.

Definition LogStorage_truncate (lsn : LSN) (ls : LogStorage) (s : os) : Z * LogStorage * os :=
  let block := lsn_2_block lsn (ls_block_size_ ls) in
  let offset := lsn_2_offset lsn (ls_block_size_ ls) in
  let '(fd, s) := sys_open (LogStorage_block_file_path_ ls block) false false s in
  match fd with
  | None => (-1, ls, s)
  | Some i =>
      let '(ret, s) := sys_ftruncate i (offset + MAX_INFO_BLOCK_SIZE) s in
      if negb (ret =? 0) then (-1, ls, s)
      else
        let s := unlink_blocks (ls_log_dir_ ls) (seqZ (block + 1) (ls_max_block_id_ ls - block)) s in
        (0, set_range (ls_min_block_id_ ls) block ls, s)
  end.

Definition LogStorage_truncate_prefix_blocks (lsn : LSN) (ls : LogStorage) (s : os)
    : Z * LogStorage * os :=
  let block := lsn_2_block lsn (ls_block_size_ ls) in
  let s := unlink_blocks (ls_log_dir_ ls)
             (seqZ (ls_min_block_id_ ls) (block - ls_min_block_id_ ls)) s in
  (0, set_range block (ls_max_block_id_ ls) ls, s).

Definition LogStorage_get_begin_lsn (ls : LogStorage) : LSN :=
  u64 (ls_min_block_id_ ls * ls_block_size_ ls).
Definition LogStorage_get_block_id_range (ls : LogStorage) : Z * Z :=
  (ls_min_block_id_ ls, ls_max_block_id_ ls).

(** ** LogIOAdapter *)

Record LogIOAdapter := mkIOAdapter { ioa_log_dir_ : string; ioa_is_inited_ : bool }.
Definition LogIOAdapter_init (log_dir : string) : Z * LogIOAdapter := (0, mkIOAdapter log_dir true).
Definition LogIOAdapter_destroy (a : LogIOAdapter) : LogIOAdapter := mkIOAdapter (ioa_log_dir_ a) false.
Definition LogIOAdapter_pwrite (file_id : Z) (buf : bytes) (offset : Z) (a : LogIOAdapter) (s : os)
    : Z * os :=
  let '(fd, s) := sys_open (ioa_log_dir_ a +:+ "/" +:+ pretty file_id)%string true false s in
  match fd with
  | None => (-1, s)
  | Some i =>
      if offset <? 0 then (-1, s)
      else
        let '(written, s) := sys_write i offset buf s in
        (if written =? blen buf then 0 else -1, s)
  end.
Definition LogIOAdapter_pread (file_id : Z) (buf : bytes) (offset : Z) (a : LogIOAdapter) (s : os)
    : outcome (Z * bytes * Z * os) :=
  let '(fd, s) := sys_open (ioa_log_dir_ a +:+ "/" +:+ pretty file_id)%string false false s in
  match fd with
  | None => Done (-1, buf, 0, s)
  | Some i =>
      if offset <? 0 then Done (-1, buf, 0, s)
      else
        let '(n, s) := sys_read i offset (blen buf) s in
        match n with
        | None => Done (-1, buf, 0, s)
        | Some data => buf ← mem_write 0 data buf; Done (0, buf, blen data, s)
        end
  end.

(** ** Lemmas *)

Lemma block_path_inj dir a b : 0 ≤ a → 0 ≤ b → block_path dir a = block_path dir b → a = b.
Proof.
  unfold block_path. intros Ha Hb H. apply (inj (String.app dir)) in H.
  apply (inj (String.app "/")) in H. apply (inj pretty) in H. lia.
Qed.

(** The current descriptor, when there is one, is the file of the current
    block. *)
Definition ls_inv (ls : LogStorage) (s : os) : Prop :=
  ls_is_inited_ ls = true ∧ ls_block_size_ ls = PALF_BLOCK_SIZE
  ∧ (ls_cur_block_id_ ls ≠ LOG_INVALID_BLOCK_ID →
     ∃ i, ls_cur_fd_ ls = Some i
          ∧ os_dir s !! block_path (ls_log_dir_ ls) (ls_cur_block_id_ ls) = Some i).

Lemma ls_inv_write ls s i f : ls_inv ls s → ls_inv ls (set_inodes (<[i := f]> (os_inodes s)) s).
Proof. done. Qed.

Lemma LogStorage_append_ok lsn buf ls s i f :
  let b := lsn_2_block lsn PALF_BLOCK_SIZE in
  let o := lsn_2_offset lsn PALF_BLOCK_SIZE in
  ls_inv ls s → os_faults s = [] → b ≠ LOG_INVALID_BLOCK_ID →
  os_dir s !! block_path (ls_log_dir_ ls) b = Some i → os_inodes s !! i = Some f → 0 < blen buf →
  ∃ ls', LogStorage_append lsn buf ls s
         = (0, ls', set_inodes (<[i := file_write f (o + MAX_INFO_BLOCK_SIZE) buf]> (os_inodes s)) s)
    ∧ ls_inv ls' s ∧ ls_log_dir_ ls' = ls_log_dir_ ls
    ∧ ls_min_block_id_ ls' = ls_min_block_id_ ls
    ∧ ls_max_block_id_ ls' = Z.max (ls_max_block_id_ ls) b.
Proof.
  intros b o Hinv0 Hf Hb Hd Hi Hl. pose proof Hinv0 as (Hin & Hbs & Hcur). unfold LogStorage_append. rewrite Hin, Hbs.
  fold b o. cbn [negb]. destruct (Z.leb_spec (blen buf) 0); [lia|].
  unfold LogStorage_open_block_. cbn [LogStorage_block_file_path_ ls_log_dir_ LogStorage_close_current_block_ set_cur].
  rewrite (sys_open_ok _ _ _ i) by done.
  assert (∃ ls1, (if negb (ls_cur_block_id_ ls =? b)
            then (0, set_cur (Some i) b (LogStorage_close_current_block_ ls), s) else (0, ls, s))
          = (0, ls1, s) ∧ ls_cur_fd_ ls1 = Some i ∧ ls_cur_block_id_ ls1 = b ∧ ls_inv ls1 s
          ∧ ls_log_dir_ ls1 = ls_log_dir_ ls ∧ ls_min_block_id_ ls1 = ls_min_block_id_ ls
          ∧ ls_max_block_id_ ls1 = ls_max_block_id_ ls) as (ls1 & -> & Hfd & Hcb & Hinv & Hdir & Hmn & Hmx).
  { destruct (Z.eqb_spec (ls_cur_block_id_ ls) b) as [He|]; cbn [negb].
    - exists ls. destruct Hcur as (i' & Hi' & Hd'); [congruence|]. rewrite He, Hd in Hd'.
      split_and!; try done; congruence.
    - eexists. split_and!; [done..| |done|done|done]. split_and!; [done..|]. intros _. by exists i. }
  cbn [negb Z.eqb]. rewrite Hfd, (sys_write_ok _ _ f) by done.
  destruct (Z.ltb_spec (blen buf) 0); [lia|]. rewrite Z.eqb_refl. cbn [negb]. rewrite Hmx.
  eexists. split; [done|]. destruct (Z.ltb_spec (ls_max_block_id_ ls) b); cbn; rewrite ?Hmx; (split_and!; [|done|done|lia]).
  - destruct Hinv as (? & ? & ?). by split_and!.
  - done.
Qed.

(** A read inside a block, of at most what the buffer holds. *)
Lemma LogStorage_read_ok lsn n rb ls s i f :
  let o := lsn_2_offset lsn PALF_BLOCK_SIZE in
  ls_inv ls s → os_faults s = [] →
  os_dir s !! block_path (ls_log_dir_ ls) (lsn_2_block lsn PALF_BLOCK_SIZE) = Some i →
  os_inodes s !! i = Some f → n = blen rb →
  n ≤ PALF_BLOCK_SIZE - o → n + o + MAX_INFO_BLOCK_SIZE ≤ f_size f →
  LogStorage_read lsn n rb ls s
  = Done (0, region f (o + MAX_INFO_BLOCK_SIZE) n, n, s).
Proof.
  intros o (Hin & Hbs & _) Hf Hd Hi Hn Hbl Hsz. unfold LogStorage_read. rewrite Hin, Hbs. fold o.
  cbn [negb]. unfold LogStorage_block_file_path_. rewrite (sys_open_ok _ _ _ i) by done.
  rewrite <-Hn, Z.ltb_irrefl. pose proof (blen_nonneg rb).
  assert (0 ≤ o < PALF_BLOCK_SIZE) by (apply Z.mod_pos_bound; done).
  change (u64 PALF_BLOCK_SIZE) with PALF_BLOCK_SIZE.
  rewrite u64_small by (change PALF_BLOCK_SIZE with 67104768 in *; lia).
  destruct (Z.ltb_spec PALF_BLOCK_SIZE (o + n)); [lia|].
  rewrite (sys_read_ok _ _ f) by done. unfold file_read. rewrite Z.min_l by lia.
  rewrite mem_write_ok by (rewrite ?blen_region by lia; lia). cbn [mbind outcome_bind].
  rewrite blen_region by lia. do 4 f_equal.
  rewrite <-(app_nil_r rb). rewrite <-(app_nil_r (region _ _ _)) at 2.
  rewrite (splice_eq [] rb []) by (rewrite ?blen_region by lia; done || lia). done.
Qed.

(** Block files [0 .. n) exist and block [n] does not. *)
Definition blocks_exactly (dir : string) (n : Z) (s : os) : Prop :=
  (∀ id, 0 ≤ id < n → sys_exists (block_path dir id) s = true)
  ∧ sys_exists (block_path dir n) s = false.

Lemma blocks_size dir n s : 0 ≤ n → (∀ id, 0 ≤ id < n → sys_exists (block_path dir id) s = true) →
  (Z.to_nat n ≤ size (os_dir s))%nat.
Proof.
  intros Hn H. rewrite <-size_dom.
  assert (NoDup (block_path dir <$> seqZ 0 n)) as Hnd.
  { apply NoDup_fmap_2_strong; [|apply NoDup_seqZ]. intros a b Ha%elem_of_seqZ Hb%elem_of_seqZ.
    apply block_path_inj; lia. }
  assert (list_to_set (block_path dir <$> seqZ 0 n) ⊆@{gset string} dom (os_dir s)) as Hs.
  { intros p (id & -> & Hid%elem_of_seqZ)%elem_of_list_to_set%list_elem_of_fmap.
    apply elem_of_dom. specialize (H id ltac:(lia)). by apply bool_decide_eq_true in H. }
  apply subseteq_size in Hs. rewrite size_list_to_set, length_fmap, length_seqZ in Hs by done. done.
Qed.

Lemma LOG_INVALID_BLOCK_ID_small : 0 < LOG_INVALID_BLOCK_ID < 2 ^ 63.
Proof. by vm_compute. Qed.

Lemma scan_blocks_loop dir s n id mn mx fuel : blocks_exactly dir n s → n ≤ LOG_INVALID_BLOCK_ID → 0 ≤ id ≤ n →
  (Z.to_nat (n - id) < fuel)%nat →
  loop (scan_blocks_body dir s) fuel (id, mn, mx)
  = Done (if id =? n then (mn, mx) else (if mn =? LOG_INVALID_BLOCK_ID then id else mn, n - 1)).
Proof.
  pose proof LOG_INVALID_BLOCK_ID_small. intros [Hex Hno] Hn. revert id mn mx. induction fuel as [|fuel IH]; intros id mn mx Hid Hf; [lia|].
  rewrite loop_step. cbn [scan_blocks_body]. destruct (Z.eqb_spec id n) as [->|].
  - by rewrite Hno.
  - rewrite Hex by lia. cbn [mbind outcome_bind]. rewrite u64_small by lia. rewrite IH by lia.
    destruct (Z.eqb_spec (id + 1) n); [f_equal; f_equal; lia|].
    destruct (Z.eqb_spec mn LOG_INVALID_BLOCK_ID) as [_|Hmn].
    + by destruct (Z.eqb_spec id LOG_INVALID_BLOCK_ID); [lia|].
    + by destruct (Z.eqb_spec mn LOG_INVALID_BLOCK_ID).
Qed.

(** [init] over existing blocks [0 .. n): the range is found and no file is
    touched. *)
Lemma LogStorage_init_existing dir n s ls : ls_is_inited_ ls = false →
  0 < n ≤ LOG_INVALID_BLOCK_ID → blocks_exactly dir n s →
  LogStorage_init dir PALF_BLOCK_SIZE ls s
  = Done (0, mkLogStorage dir PALF_BLOCK_SIZE (ls_cur_fd_ ls) (ls_cur_block_id_ ls) (n - 1) 0 true, s).
Proof.
  intros Hin Hn Hb. unfold LogStorage_init. rewrite Hin.
  rewrite (scan_blocks_loop dir s n); [|done|lia|lia|].
  - destruct (Z.eqb_spec 0 n); [lia|]. done.
  - pose proof (blocks_size dir n s ltac:(lia) (proj1 Hb)). lia.
Qed.

(** A block of zeros. *)
Definition zero_block : file := mkFile PALF_PHY_BLOCK_SIZE ∅.

Lemma byte_at_zero_block i : byte_at zero_block i = 0.
Proof. done. Qed.

(** [init] in an empty directory creates block 0, all zeros, and opens it. *)
Lemma LogStorage_init_fresh dir s ls : ls_is_inited_ ls = false → os_faults s = [] →
  sys_exists (block_path dir 0) s = false →
  ∃ ls' s', LogStorage_init dir PALF_BLOCK_SIZE ls s = Done (0, ls', s')
    ∧ ls_inv ls' s' ∧ ls_log_dir_ ls' = dir ∧ ls_min_block_id_ ls' = 0 ∧ ls_max_block_id_ ls' = 0
    ∧ os_faults s' = [] ∧ file_of (block_path dir 0) s' = Some zero_block
    ∧ os_dir s' = <[block_path dir 0 := os_next s]> (os_dir s)
    ∧ os_inodes s' = <[os_next s := zero_block]> (os_inodes s)
    ∧ os_next s' = Pos.succ (os_next s).
Proof.
  intros Hin Hf Hno. unfold LogStorage_init. rewrite Hin.
  rewrite (scan_blocks_loop dir s 0); [|split; [lia|done]|done|lia|lia].
  cbn [Z.eqb mbind outcome_bind]. rewrite Z.eqb_refl.
  apply sys_exists_false in Hno. unfold LogStorage_create_next_block_, LogStorage_block_file_path_.
  cbn [set_range ls_max_block_id_ ls_log_dir_ ls_min_block_id_]. change (u64 (u64 (-1) + 1)) with 0.
  rewrite sys_open_create by done.
  rewrite (sys_ftruncate_ok _ _ (mkFile 0 ∅)); [|done|unfold os_created; cbn; by lk].
  cbn [Z.eqb negb]. unfold LogStorage_open_block_, LogStorage_block_file_path_.
  rewrite (sys_open_ok _ _ _ (os_next s)); [|done|unfold os_created; cbn; by lk].
  cbn [Z.eqb negb]. do 2 eexists. split; [done|]. unfold file_of. cbn -[PALF_PHY_BLOCK_SIZE block_path].
  rewrite insert_insert_eq. lk. cbn -[PALF_PHY_BLOCK_SIZE block_path]. lk. unfold file_truncate. cbn -[PALF_PHY_BLOCK_SIZE block_path].
  split_and!; try done. split_and!; try done. intros _. cbn -[block_path]. eexists. split; [done|]. by lk.
Qed.

(** Some prefix of the block numbers is exactly what exists. *)
Lemma blocks_exactly_ex dir s : ∃ n, 0 ≤ n ≤ Z.of_nat (size (os_dir s)) ∧ blocks_exactly dir n s.
Proof.
  assert (∀ k : nat, (∃ n, 0 ≤ n < Z.of_nat k ∧ blocks_exactly dir n s)
            ∨ ∀ id, 0 ≤ id < Z.of_nat k → sys_exists (block_path dir id) s = true) as H.
  { induction k as [|k [(n & Hn & Hb)|Hall]]; [right; lia|left; exists n; split; [lia|done]|].
    destruct (sys_exists (block_path dir (Z.of_nat k)) s) eqn:E.
    - right. intros id Hid. destruct (decide (id = Z.of_nat k)) as [->|]; [done|]. apply Hall. lia.
    - left. exists (Z.of_nat k). split; [lia|]. by split. }
  destruct (H (S (size (os_dir s)))) as [(n & Hn & Hb)|Hall].
  - exists n. split; [lia|done].
  - pose proof (blocks_size dir (Z.of_nat (S (size (os_dir s)))) s ltac:(lia) Hall). lia.
Qed.

(** [init] always returns, and only looks at the directory to decide what to
    do. *)
Lemma LogStorage_init_returns dir s ls : Z.of_nat (size (os_dir s)) ≤ LOG_INVALID_BLOCK_ID →
  ∃ x, LogStorage_init dir PALF_BLOCK_SIZE ls s = Done x.
Proof.
  intros Hsz. unfold LogStorage_init. destruct (ls_is_inited_ ls); [eauto|].
  destruct (blocks_exactly_ex dir s) as (n & Hn & Hb).
  rewrite (scan_blocks_loop dir s n); [|done|lia|lia|lia]. cbn [mbind outcome_bind].
  set (x := if 0 =? n then _ else _). destruct x as [mn mx]. destruct (mn =? LOG_INVALID_BLOCK_ID); [|eauto].
  destruct (LogStorage_create_next_block_ _ _) as [[ret ls1] s1]. destruct (negb (ret =? 0)); [eauto|].
  destruct (LogStorage_open_block_ _ _ _) as [[ret' ls2] s2]. destruct (negb (ret' =? 0)); eauto.
Qed.

(** Bytes stay bytes. *)
Definition os_bytes (s : os) : Prop :=
  (∀ i f k, os_inodes s !! i = Some f → is_byte (byte_at f k)) ∧ ∀ k, is_byte (os_heap s k).

Lemma is_byte_0 : is_byte 0.
Proof. done. Qed.

Lemma take_fault_bytes s : os_bytes s → os_bytes (take_fault s).2.
Proof. unfold take_fault. by destruct (os_faults s). Qed.

Lemma file_truncate_bytes f n : (∀ k, is_byte (byte_at f k)) → ∀ k, is_byte (byte_at (file_truncate f n) k).
Proof.
  intros H k. unfold byte_at, file_truncate. cbn [f_data]. specialize (H k). unfold byte_at in H.
  destruct (filter _ _ !! k) as [b|] eqn:E; [|exact is_byte_0]. apply map_lookup_filter_Some in E as [E _].
  by rewrite E in H.
Qed.

Lemma alter_bytes s g i : os_bytes s → (∀ f, (∀ k, is_byte (byte_at f k)) → ∀ k, is_byte (byte_at (g f) k)) →
  os_bytes (set_inodes (alter g i (os_inodes s)) s).
Proof.
  intros [Hf Hh] Hg. split; [|done]. cbn. intros j f k. rewrite lookup_alter. case_decide; [subst j|eauto].
  destruct (os_inodes s !! i) as [f0|] eqn:E; [|done]. intros [= <-]. apply Hg. eauto.
Qed.

Lemma sys_open_bytes path c t s : os_bytes s → os_bytes (sys_open path c t s).2.
Proof.
  intros Hs%take_fault_bytes. unfold sys_open. destruct (take_fault s) as [o s1]. cbn in Hs.
  destruct (failed o); [done|]. destruct (os_dir s1 !! path) as [i|].
  - destruct t; [|done]. cbn. apply alter_bytes; [done|]. intros f Hf. by apply file_truncate_bytes.
  - destruct c; [|done]. destruct Hs as [Hf Hh]. split; [|done]. cbn. intros i f k.
    rewrite lookup_insert. case_decide; [intros [= <-]; exact is_byte_0|eauto].
Qed.

Lemma sys_ftruncate_bytes i n s : os_bytes s → os_bytes (sys_ftruncate i n s).2.
Proof.
  intros Hs%take_fault_bytes. unfold sys_ftruncate. destruct (take_fault s) as [o s1]. cbn in Hs.
  destruct (failed o); [done|]. cbn. apply alter_bytes; [done|]. intros f Hf. by apply file_truncate_bytes.
Qed.

Lemma LogStorage_init_bytes dir bs s ls x : LogStorage_init dir bs ls s = Done x →
  os_bytes s → os_bytes x.2.
Proof.
  unfold LogStorage_init. intros H Hs. destruct (ls_is_inited_ ls); [inv_done; done|].
  apply outcome_bind_inv in H as ([mn mx] & _ & H). destruct (mn =? _); [|inv_done; done].
  unfold LogStorage_create_next_block_ in H.
  match type of H with context [sys_open ?p true true s] =>
    pose proof (sys_open_bytes p true true s Hs) as H1; destruct (sys_open p true true s) as [fd s1] end.
  cbn in H1. destruct fd as [i|]; [|cbn [Z.eqb negb] in H; inv_done; done].
  pose proof (sys_ftruncate_bytes i PALF_PHY_BLOCK_SIZE s1 H1) as H2.
  destruct (sys_ftruncate i PALF_PHY_BLOCK_SIZE s1) as [ret s2]. cbn in H2.
  destruct (negb (ret =? 0)); [cbn [Z.eqb negb] in H; inv_done; done|].
  cbn [Z.eqb negb] in H. unfold LogStorage_open_block_ in H.
  match type of H with context [sys_open ?p true false s2] =>
    pose proof (sys_open_bytes p true false s2 H2) as H3; destruct (sys_open p true false s2) as [fd s3] end.
  cbn in H3. destruct fd as [j|]; cbn [Z.eqb negb] in H; inv_done; done.
Qed.

(** ** Appending and reading back *)

(** The log returns what was appended.  Appending [buf] at a log position
    inside an existing block succeeds, and a read of that range then returns
    exactly [buf]; every range of the same block that does not overlap it reads
    as it did before. *)
Theorem log_append_read_back lsn buf rb ls s i f :
  let b := lsn_2_block lsn PALF_BLOCK_SIZE in
  let o := lsn_2_offset lsn PALF_BLOCK_SIZE in
  ls_inv ls s → os_faults s = [] → b ≠ LOG_INVALID_BLOCK_ID →
  os_dir s !! block_path (ls_log_dir_ ls) b = Some i → os_inodes s !! i = Some f →
  f_size f = PALF_PHY_BLOCK_SIZE → 0 < blen buf → blen rb = blen buf → o + blen buf ≤ PALF_BLOCK_SIZE →
  ∃ ls' s', LogStorage_append lsn buf ls s = (0, ls', s')
    ∧ LogStorage_read lsn (blen buf) rb ls' s' = Done (0, buf, blen buf, s')
    ∧ ∀ lsn' n rb', lsn_2_block lsn' PALF_BLOCK_SIZE = b → n = blen rb' →
        let o' := lsn_2_offset lsn' PALF_BLOCK_SIZE in
        o' + n ≤ PALF_BLOCK_SIZE → o' + n ≤ o ∨ o + blen buf ≤ o' →
        ∃ d, LogStorage_read lsn' n rb' ls s = Done (0, d, n, s)
             ∧ LogStorage_read lsn' n rb' ls' s' = Done (0, d, n, s').
Proof.
  intros b o Hinv Hf Hb Hd Hi Hsz Hbuf Hrb Hfit.
  destruct (LogStorage_append_ok lsn buf ls s i f Hinv Hf Hb Hd Hi Hbuf) as (ls' & Ha & Hinv' & Hdir & _ & _).
  fold o in Ha. set (f' := file_write f (o + MAX_INFO_BLOCK_SIZE) buf) in *.
  set (s' := set_inodes (<[i := f']> (os_inodes s)) s) in *. exists ls', s'.
  assert (f_size f' = PALF_PHY_BLOCK_SIZE) as Hsz'.
  { unfold f'. cbn [file_write f_size]. rewrite Hsz. unfold PALF_BLOCK_SIZE in Hfit. lia. }
  assert (ls_inv ls' s') as Hinv'' by (by apply ls_inv_write).
  assert (os_inodes s' !! i = Some f') as Hi' by (cbn; by lk).
  split; [done|]. split.
  - rewrite (LogStorage_read_ok lsn (blen buf) rb ls' s' i f'); try done;
      [|by rewrite Hdir|fold o; lia|fold o; rewrite Hsz'; unfold PALF_BLOCK_SIZE in Hfit; lia].
    fold o. unfold f'. by rewrite region_write_same.
  - intros lsn' n rb' Hb' Hn o' Hfit' Hdis. exists (region f (o' + MAX_INFO_BLOCK_SIZE) n).
    rewrite (LogStorage_read_ok lsn' n rb' ls s i f), (LogStorage_read_ok lsn' n rb' ls' s' i f');
      fold o'; rewrite ?Hb', ?Hdir, ?Hsz, ?Hsz'; try done; try lia;
      try (unfold PALF_BLOCK_SIZE in Hfit'; lia).
    split; [done|]. unfold f'. rewrite region_write_disjoint by lia. done.
Qed.

Lemma log_append_read_back_witness :
  ∃ ls s ls' s', LogStorage_init "d" PALF_BLOCK_SIZE LogStorage_new os_empty = Done (0, ls, s)
    ∧ LogStorage_append 70 [4; 5; 6] ls s = (0, ls', s')
    ∧ LogStorage_read 70 3 [0; 0; 0] ls' s' = Done (0, [4; 5; 6], 3, s').
Proof.
  destruct (LogStorage_init_fresh "d" os_empty LogStorage_new eq_refl eq_refl eq_refl)
    as (ls & s & Hi & Hinv & Hdir & _ & _ & Hf & _ & Hd & Hino & _).
  destruct (log_append_read_back 70 [4; 5; 6] [0; 0; 0] ls s (os_next os_empty) zero_block Hinv Hf)
    as (ls' & s' & Ha & Hr & _).
  - intros H. discriminate H.
  - rewrite Hd, Hdir. apply lookup_insert_eq.
  - rewrite Hino. apply lookup_insert_eq.
  - reflexivity.
  - reflexivity.
  - reflexivity.
  - vm_compute. discriminate.
  - exists ls, s, ls', s'. split_and!; assumption.
Defined.

(** ** Truncating a prefix *)

Lemma unlink_blocks_dir dir ids s p :
  os_dir (unlink_blocks dir ids s) !! p
  = if bool_decide (p ∈ (block_path dir <$> ids)) then None else os_dir s !! p.
Proof.
  unfold unlink_blocks. revert s. induction ids as [|id ids IH]; intros s; cbn [foldl].
  { by rewrite bool_decide_eq_false_2 by (intros H; by apply elem_of_nil in H). }
  rewrite IH, fmap_cons. cbn [sys_unlink set_dir os_dir].
  destruct (decide (p ∈ (block_path dir <$> ids))) as [Hin|Hin].
  - rewrite !bool_decide_eq_true_2 by (done || by apply list_elem_of_further). done.
  - rewrite (bool_decide_eq_false_2 (p ∈ (block_path dir <$> ids))) by done.
    destruct (decide (p = block_path dir id)) as [->|Hne].
    + rewrite bool_decide_eq_true_2 by apply list_elem_of_here. apply lookup_delete_eq.
    + rewrite lookup_delete_ne, bool_decide_eq_false_2 by (done || by rewrite not_elem_of_cons). done.
Qed.

Lemma unlink_blocks_faults dir ids s : os_faults (unlink_blocks dir ids s) = os_faults s.
Proof. unfold unlink_blocks. revert s. induction ids as [|id ids IH]; intros s; cbn; [done|]. by rewrite IH. Qed.

(** A log whose first blocks were reclaimed is lost at the next start.
    [init] looks for block files from number 0 upwards and stops at the first
    one missing.  After [truncate_prefix_blocks] has removed block 0, the next
    [init] in that directory finds nothing, creates an empty block 0 and reports
    a log that starts at 0 and has this one block, whatever later blocks are
    still in the directory. *)
Theorem truncated_prefix_forgets_log lsn ls s :
  ls_block_size_ ls = PALF_BLOCK_SIZE → ls_min_block_id_ ls = 0 → 0 < lsn_2_block lsn PALF_BLOCK_SIZE →
  os_faults s = [] →
  ∃ ls1 s1 ls2 s2, LogStorage_truncate_prefix_blocks lsn ls s = (0, ls1, s1)
    ∧ LogStorage_get_begin_lsn ls1 = u64 (lsn_2_block lsn PALF_BLOCK_SIZE * PALF_BLOCK_SIZE)
    ∧ (∀ id, lsn_2_block lsn PALF_BLOCK_SIZE ≤ id →
         sys_exists (block_path (ls_log_dir_ ls) id) s1 = sys_exists (block_path (ls_log_dir_ ls) id) s)
    ∧ LogStorage_init (ls_log_dir_ ls) PALF_BLOCK_SIZE LogStorage_new s1 = Done (0, ls2, s2)
    ∧ LogStorage_get_begin_lsn ls2 = 0 ∧ LogStorage_get_block_id_range ls2 = (0, 0)
    ∧ file_of (block_path (ls_log_dir_ ls) 0) s2 = Some zero_block.
Proof.
  intros Hbs Hmin Hb Hf. unfold LogStorage_truncate_prefix_blocks. rewrite Hbs, Hmin, Z.sub_0_r.
  set (b := lsn_2_block lsn PALF_BLOCK_SIZE) in *. set (dir := ls_log_dir_ ls).
  set (s1 := unlink_blocks dir (seqZ 0 b) s).
  assert (sys_exists (block_path dir 0) s1 = false) as H0.
  { unfold sys_exists. apply bool_decide_eq_false_2. unfold s1. rewrite unlink_blocks_dir.
    rewrite bool_decide_eq_true_2; [by intros [? ?]|].
    apply list_elem_of_fmap. exists 0. split; [done|]. apply elem_of_seqZ. lia. }
  destruct (LogStorage_init_fresh dir s1 LogStorage_new) as (ls2 & s2 & Hi & Hinv & _ & Hmn & Hmx & _ & Hz & _);
    [done|by unfold s1; rewrite unlink_blocks_faults|done|].
  eexists _, s1, ls2, s2. split; [done|]. split; [unfold LogStorage_get_begin_lsn; cbn; by rewrite Hbs|].
  split_and!; try done.
  - intros id Hid. unfold sys_exists, s1. rewrite unlink_blocks_dir.
    rewrite (bool_decide_eq_false_2 (block_path dir id ∈ _)); [done|].
    intros (k & Hk & Hin)%list_elem_of_fmap. apply elem_of_seqZ in Hin. apply block_path_inj in Hk; lia.
  - unfold LogStorage_get_begin_lsn. by rewrite Hmn.
  - unfold LogStorage_get_block_id_range. by rewrite Hmn, Hmx.
Qed.

Lemma truncated_prefix_forgets_log_witness :
  let s := set_dir {["d/0" := 1%positive; "d/1" := 2%positive]} os_empty in
  let ls := mkLogStorage "d" PALF_BLOCK_SIZE None LOG_INVALID_BLOCK_ID 1 0 true in
  ∃ ls1 s1 ls2 s2, LogStorage_truncate_prefix_blocks (PALF_BLOCK_SIZE + 5) ls s = (0, ls1, s1)
    ∧ LogStorage_init "d" PALF_BLOCK_SIZE LogStorage_new s1 = Done (0, ls2, s2)
    ∧ LogStorage_get_block_id_range ls2 = (0, 0).
Proof.
  destruct (truncated_prefix_forgets_log (PALF_BLOCK_SIZE + 5)
              (mkLogStorage "d" PALF_BLOCK_SIZE None LOG_INVALID_BLOCK_ID 1 0 true)
              (set_dir {["d/0" := 1%positive; "d/1" := 2%positive]} os_empty))
    as (ls1 & s1 & ls2 & s2 & H1 & _ & _ & H2 & _ & H3 & _); [reflexivity..|].
  exists ls1, s1, ls2, s2. split_and!; assumption.
Defined.
