(* ===== verification/Palf.v ===== *)
(** * The log stream: LogCache, PalfHandleImpl, PalfHandle, PalfEnvImpl

    Models, under [src/src/storage/logservice/palf]: [log_cache.h],
    [palf_handle_impl.h/.cpp], [palf_handle.h/.cpp] and
    [palf_env_impl.h/.cpp].  Operations thread the operating system state.  The
    scans over the log take the number of iterations they may use;
    [palf_init_terminates] shows that they always finish, and the recovery
    theorem that one more than the number of entries is enough. *)

From S2P Require Import Prelude Pod Posix LogEntry LogStorage.

(** ** LogCache *)

Record LogCache := mkLogCache {
  lc_buf_ : option bytes;
  lc_buf_len_ : Z;
  lc_begin_lsn_ : LSN;
  lc_end_lsn_ : LSN;
  lc_is_inited_ : bool }.
Definition LogCache_new : LogCache := mkLogCache None 0 0 0 false.
(** [init]: [mem] is the block [malloc(capacity)] returned. *)
Definition LogCache_init (mem : bytes) (c : LogCache) : Z * LogCache :=
  (0, mkLogCache (Some mem) (blen mem) (lc_begin_lsn_ c) (lc_end_lsn_ c) true).
Definition LogCache_destroy (c : LogCache) : LogCache :=
  mkLogCache None 0 (lc_begin_lsn_ c) (lc_end_lsn_ c) false.
Definition LogCache_put (lsn : LSN) (data : bytes) (c : LogCache) : outcome (Z * LogCache) :=
  if lc_buf_len_ c <? blen data then Done (-1, c)
  else
    buf ← mem_write 0 data (default [] (lc_buf_ c));
    Done (0, mkLogCache ((λ _, buf) <$> lc_buf_ c) (lc_buf_len_ c) lsn (u64 (lsn + blen data)) (lc_is_inited_ c)).
(** [get] copies into the caller's buffer. *)
Definition LogCache_get (lsn : LSN) (read_size : Z) (buf : bytes) (out_size : Z) (c : LogCache)
    : outcome (Z * bytes * Z) :=
  if negb (lc_is_inited_ c) then Done (-1, buf, out_size)
  else if (lc_begin_lsn_ c <=? lsn) && (lsn <? lc_end_lsn_ c) then
    let offset := lsn - lc_begin_lsn_ c in
    let remain := lc_end_lsn_ c - lsn in
    let out_size := if read_size <? remain then read_size else remain in
    d ← mem_read offset out_size (default [] (lc_buf_ c));
    buf ← mem_write 0 d buf;
    Done (0, buf, out_size)
  else Done (-1, buf, out_size).

(** ** PalfHandleImpl *)

Record PalfHandleImpl := mkPalf {
  ph_palf_id_ : Z;
  ph_epoch_ : Z;
  ph_log_dir_ : string;
  ph_log_storage_ : LogStorage;
  ph_log_meta_ : LogMeta;
  ph_log_cache_ : LogCache;
  ph_end_lsn_ : LSN;
  ph_max_lsn_ : LSN;
  ph_log_id_ : Z;
  ph_proposal_id_ : Z;
  ph_role_ : Z;
  ph_is_inited_ : bool }.

Definition PalfHandleImpl_new : PalfHandleImpl :=
  mkPalf INVALID_PALF_ID 0 EmptyString LogStorage_new LogMeta_new LogCache_new
    LSN_default LSN_default FIRST_VALID_LOG_ID 1 1 false.

Definition set_storage (ls : LogStorage) (p : PalfHandleImpl) : PalfHandleImpl :=
  mkPalf (ph_palf_id_ p) (ph_epoch_ p) (ph_log_dir_ p) ls (ph_log_meta_ p) (ph_log_cache_ p)
    (ph_end_lsn_ p) (ph_max_lsn_ p) (ph_log_id_ p) (ph_proposal_id_ p) (ph_role_ p) (ph_is_inited_ p).
Definition set_lsns (end_lsn max_lsn : LSN) (p : PalfHandleImpl) : PalfHandleImpl :=
  mkPalf (ph_palf_id_ p) (ph_epoch_ p) (ph_log_dir_ p) (ph_log_storage_ p) (ph_log_meta_ p)
    (ph_log_cache_ p) end_lsn max_lsn (ph_log_id_ p) (ph_proposal_id_ p) (ph_role_ p) (ph_is_inited_ p).
Definition set_log_id (id : Z) (p : PalfHandleImpl) : PalfHandleImpl :=
  mkPalf (ph_palf_id_ p) (ph_epoch_ p) (ph_log_dir_ p) (ph_log_storage_ p) (ph_log_meta_ p)
    (ph_log_cache_ p) (ph_end_lsn_ p) (ph_max_lsn_ p) id (ph_proposal_id_ p) (ph_role_ p)
    (ph_is_inited_ p).

(** Size of the stack buffers of the scans. *)
Definition SCAN_BUF : Z := 4096.

(** One iteration of the scan of [init]: the buffer, [scan_lsn],
    [last_valid_lsn]. *)
Definition init_scan_body (ls : LogStorage) (x : bytes * LSN * LSN * os)
    : outcome (bytes * LSN * LSN * os + LSN * os) :=
  let '(buf, scan_lsn, last_valid_lsn, s) := x in
  r ← LogStorage_read scan_lsn SCAN_BUF buf ls s;
  let '(ret, buf, out_size, s) := r : Z * bytes * Z * os in
  if negb (ret =? 0) || (out_size <? LogGroupEntryHeader_get_serialize_size)
  then Done (inr (last_valid_lsn, s))
  else
    h ← LogGroupEntryHeader_deserialize LogGroupEntryHeader_default buf out_size 0;
    let '(ret, hdr, pos) := h : Z * LogGroupEntryHeader * Z in
    if negb (ret =? 0) || negb (LogGroupEntryHeader_is_valid hdr)
    then Done (inr (last_valid_lsn, s))
    else
      let last_valid_lsn := gh_committed_end_lsn_ hdr in
      if last_valid_lsn <=? scan_lsn then Done (inr (last_valid_lsn, s))
      else Done (inl (buf, last_valid_lsn, last_valid_lsn, s)).

Definition PalfHandleImpl_init (fuel : nat) (palf_id : Z) (log_dir : string) (p : PalfHandleImpl)
    (s : os) : outcome (Z * PalfHandleImpl * os) :=
  if ph_is_inited_ p then Done (-1, p, s)
  else
    let p0 := mkPalf palf_id 1 log_dir (ph_log_storage_ p) (ph_log_meta_ p) (ph_log_cache_ p)
                (ph_end_lsn_ p) (ph_max_lsn_ p) (ph_log_id_ p) (ph_proposal_id_ p) (ph_role_ p) false in
    x ← LogStorage_init log_dir PALF_BLOCK_SIZE (ph_log_storage_ p0) s;
    let '(ret, ls, s) := x : Z * LogStorage * os in
    if negb (ret =? 0) then Done (ret, set_storage ls p0, s)
    else
      let scan_lsn := LogStorage_get_begin_lsn ls in
      let '(buf, s) := sys_malloc SCAN_BUF s in
      y ← loop (init_scan_body ls) fuel (buf, scan_lsn, scan_lsn, s);
      let '(last_valid_lsn, s) := y : LSN * os in
      Done (0, mkPalf palf_id 1 log_dir ls (ph_log_meta_ p) (ph_log_cache_ p)
                 last_valid_lsn last_valid_lsn
                 (if 0 <? last_valid_lsn then 2 else FIRST_VALID_LOG_ID)
                 (ph_proposal_id_ p) (ph_role_ p) true, s).

(** The scan of [load]: it has no progress test but [scan_lsn.val_ <= 0]. *)
Definition load_scan_body (ls : LogStorage) (x : bytes * LSN * os)
    : outcome (bytes * LSN * os + LSN * os) :=
  let '(buf, scan_lsn, s) := x in
  r ← LogStorage_read scan_lsn SCAN_BUF buf ls s;
  let '(ret, buf, out_size, s) := r : Z * bytes * Z * os in
  if negb (ret =? 0) || (out_size <? LogGroupEntryHeader_get_serialize_size)
  then Done (inr (scan_lsn, s))
  else
    h ← LogGroupEntryHeader_deserialize LogGroupEntryHeader_default buf out_size 0;
    let '(ret, hdr, pos) := h : Z * LogGroupEntryHeader * Z in
    if negb (ret =? 0) || negb (LogGroupEntryHeader_is_valid hdr) then Done (inr (scan_lsn, s))
    else
      let scan_lsn := gh_committed_end_lsn_ hdr in
      if scan_lsn <=? 0 then Done (inr (scan_lsn, s)) else Done (inl (buf, scan_lsn, s)).

Definition PalfHandleImpl_load (fuel : nat) (palf_id : Z) (log_dir : string) (p : PalfHandleImpl)
    (s : os) : outcome (Z * PalfHandleImpl * os) :=
  x ← PalfHandleImpl_init fuel palf_id log_dir p s;
  let '(ret, p, s) := x : Z * PalfHandleImpl * os in
  if negb (ret =? 0) then Done (ret, p, s)
  else
    let ls := ph_log_storage_ p in
    let '(min_id, max_id) := LogStorage_get_block_id_range ls in
    if (min_id =? max_id) && (min_id =? 0) && (LogStorage_get_begin_lsn ls =? 0)
    then Done (0, set_lsns 0 0 p, s)
    else
      let '(buf, s) := sys_malloc SCAN_BUF s in
      y ← loop (load_scan_body ls) fuel (buf, LogStorage_get_begin_lsn ls, s);
      let '(scan_lsn, s) := y : LSN * os in
      Done (0, set_lsns scan_lsn scan_lsn p, s).

(** The header [do_append_] builds. *)
Definition append_header (p : PalfHandleImpl) (buf_len : Z) : LogGroupEntryHeader :=
  let sz := LogGroupEntryHeader_get_serialize_size in
  mkGroupHeader LogGroupEntryHeader_MAGIC 1 (u32 (sz + buf_len)) (ph_log_id_ p) (ph_proposal_id_ p)
    (if 0 <? ph_end_lsn_ p then ph_end_lsn_ p else 0) (u64 (ph_max_lsn_ p + buf_len + sz)) 0.

(** [do_append_]: the code, [lsn], the handle.  [log_id_] is incremented first;
    the code of [serialize] is ignored. *)
Definition PalfHandleImpl_do_append_ (buf : bytes) (p : PalfHandleImpl) (s : os)
    : outcome (Z * LSN * PalfHandleImpl * os) :=
  let lsn := ph_max_lsn_ p in
  let group_header := append_header p (blen buf) in
  let p := set_log_id (ph_log_id_ p + 1) p in
  let total_size := gh_group_entry_size_ group_header in
  let '(write_buf, s) := sys_malloc total_size s in
  x ← LogGroupEntryHeader_serialize group_header write_buf total_size 0;
  let '(_, write_buf, pos) := x : Z * bytes * Z in
  write_buf ← mem_write pos buf write_buf;
  let '(ret, ls, s) := LogStorage_append lsn write_buf (ph_log_storage_ p) s in
  let p := set_storage ls p in
  if negb (ret =? 0) then Done (ret, lsn, p, s)
  else
    let end_lsn := u64 (lsn + total_size) in
    Done (0, lsn, set_lsns end_lsn end_lsn p, s).

(** [append]: code, [lsn], [scn]. *)
Definition PalfHandleImpl_append (buf : bytes) (lsn : LSN) (scn : Z) (p : PalfHandleImpl) (s : os)
    : outcome (Z * LSN * Z * PalfHandleImpl * os) :=
  if negb (ph_is_inited_ p) then Done (-1, lsn, scn, p, s)
  else
    x ← PalfHandleImpl_do_append_ buf p s;
    let '(ret, lsn, p, s) := x : Z * LSN * PalfHandleImpl * os in
    Done (ret, lsn, if ret =? 0 then ph_log_id_ p - 1 else scn, p, s).

Definition PalfHandleImpl_read (lsn : LSN) (read_size : Z) (read_buf : bytes) (out_size : Z)
    (p : PalfHandleImpl) (s : os) : outcome (Z * bytes * Z * os) :=
  if negb (ph_is_inited_ p) then Done (-1, read_buf, out_size, s)
  else
    c ← LogCache_get lsn read_size read_buf out_size (ph_log_cache_ p);
    let '(ret, buf, out) := c : Z * bytes * Z in
    if ret =? 0 then Done (0, buf, out, s)
    else LogStorage_read lsn read_size read_buf (ph_log_storage_ p) s.

Definition PalfHandleImpl_seek (lsn : LSN) (p : PalfHandleImpl) : Z * PalfHandleImpl :=
  if negb (ph_is_inited_ p) then (-1, p) else (0, set_lsns lsn (ph_max_lsn_ p) p).
Definition PalfHandleImpl_get_end_lsn (p : PalfHandleImpl) : LSN := ph_end_lsn_ p.
Definition PalfHandleImpl_get_max_lsn (p : PalfHandleImpl) : LSN := ph_max_lsn_ p.
Definition PalfHandleImpl_get_begin_lsn (p : PalfHandleImpl) : LSN :=
  LogStorage_get_begin_lsn (ph_log_storage_ p).
Definition PalfHandleImpl_get_palf_id (p : PalfHandleImpl) : Z := ph_palf_id_ p.
Definition PalfHandleImpl_get_role (p : PalfHandleImpl) : Z := ph_role_ p.

(** ** PalfEnvImpl

    [pe_heap] holds the handle objects, [pe_handles_] the pointers.  An object
    whose pointer was overwritten in [handles_] stays in the heap. *)
Record PalfEnvImpl := mkEnv {
  pe_base_dir_ : string;
  pe_log_dir_ : string;
  pe_handles_ : gmap Z positive;
  pe_heap : gmap positive PalfHandleImpl;
  pe_next : positive;
  pe_is_inited_ : bool;
  pe_is_running_ : bool }.

Definition PalfEnvImpl_new : PalfEnvImpl := mkEnv EmptyString EmptyString ∅ ∅ 1%positive false false.
Definition set_env_handles (hs : gmap Z positive) (heap : gmap positive PalfHandleImpl) (nx : positive)
    (e : PalfEnvImpl) : PalfEnvImpl :=
  mkEnv (pe_base_dir_ e) (pe_log_dir_ e) hs heap nx (pe_is_inited_ e) (pe_is_running_ e).
Definition set_env_running (b : bool) (e : PalfEnvImpl) : PalfEnvImpl :=
  mkEnv (pe_base_dir_ e) (pe_log_dir_ e) (pe_handles_ e) (pe_heap e) (pe_next e) (pe_is_inited_ e) b.

Definition PalfEnvImpl_init (base_dir : string) (e : PalfEnvImpl) : Z * PalfEnvImpl :=
  if pe_is_inited_ e then (-1, e)
  else (0, mkEnv base_dir (base_dir +:+ "/logdata")%string (pe_handles_ e) (pe_heap e) (pe_next e) true
             (pe_is_running_ e)).
Definition PalfEnvImpl_start (e : PalfEnvImpl) : Z * PalfEnvImpl :=
  if negb (pe_is_inited_ e) || pe_is_running_ e then (-1, e) else (0, set_env_running true e).
Definition PalfEnvImpl_stop (e : PalfEnvImpl) : PalfEnvImpl := set_env_running false e.

(** [delete] of every handle in the map. *)
Definition delete_handles (hs : gmap Z positive) (heap : gmap positive PalfHandleImpl)
    : gmap positive PalfHandleImpl :=
  foldr delete heap ((map_to_list hs).*2).
Definition PalfEnvImpl_destroy (e : PalfEnvImpl) : PalfEnvImpl :=
  let e := PalfEnvImpl_stop e in
  mkEnv (pe_base_dir_ e) (pe_log_dir_ e) ∅ (delete_handles (pe_handles_ e) (pe_heap e)) (pe_next e)
    false (pe_is_running_ e).

Definition ls_log_dir (e : PalfEnvImpl) (palf_id : Z) : string :=
  (pe_log_dir_ e +:+ "/" +:+ pretty palf_id)%string.

(** Storing a handle object under [palf_id]. *)
Definition env_store (palf_id : Z) (h : PalfHandleImpl) (e : PalfEnvImpl) : positive * PalfEnvImpl :=
  (pe_next e, set_env_handles (<[palf_id := pe_next e]> (pe_handles_ e))
                (<[pe_next e := h]> (pe_heap e)) (Pos.succ (pe_next e)) e).

Definition PalfEnvImpl_create_palf_handle_impl (fuel : nat) (palf_id : Z) (impl : option positive)
    (e : PalfEnvImpl) (s : os) : outcome (Z * option positive * PalfEnvImpl * os) :=
  x ← PalfHandleImpl_init fuel palf_id (ls_log_dir e palf_id) PalfHandleImpl_new s;
  let '(ret, h, s) := x : Z * PalfHandleImpl * os in
  if negb (ret =? 0) then Done (ret, impl, e, s)
  else let '(l, e) := env_store palf_id h e in Done (0, Some l, e, s).

Definition PalfEnvImpl_get_palf_handle_impl (palf_id : Z) (impl : option positive) (e : PalfEnvImpl)
    : Z * option positive :=
  match pe_handles_ e !! palf_id with None => (-1, impl) | Some l => (0, Some l) end.

Definition PalfEnvImpl_remove_palf_handle_impl (palf_id : Z) (e : PalfEnvImpl) : Z * PalfEnvImpl :=
  match pe_handles_ e !! palf_id with
  | None => (-1, e)
  | Some l => (0, set_env_handles (delete palf_id (pe_handles_ e)) (delete l (pe_heap e)) (pe_next e) e)
  end.

Definition PalfEnvImpl_reload_palf_handle_impl (fuel : nat) (palf_id : Z) (e : PalfEnvImpl) (s : os)
    : outcome (Z * PalfEnvImpl * os) :=
  x ← PalfHandleImpl_load fuel palf_id (ls_log_dir e palf_id) PalfHandleImpl_new s;
  let '(ret, h, s) := x : Z * PalfHandleImpl * os in
  if negb (ret =? 0) then Done (ret, e, s)
  else Done (0, (env_store palf_id h e).2, s).

(** ** PalfHandle: a pointer to a handle object *)

Record PalfHandle := mkHandle { impl_ : option positive }.
Definition PalfHandle_new : PalfHandle := mkHandle None.
Definition PalfHandle_init (impl : option positive) (_ : PalfHandle) : Z * PalfHandle :=
  (if bool_decide (impl = None) then -1 else 0, mkHandle impl).
Definition PalfHandle_reset (_ : PalfHandle) : PalfHandle := mkHandle None.

Definition set_impl (l : positive) (p : PalfHandleImpl) (e : PalfEnvImpl) : PalfEnvImpl :=
  set_env_handles (pe_handles_ e) (<[l := p]> (pe_heap e)) (pe_next e) e.

Definition PalfHandle_append (h : PalfHandle) (buf : bytes) (lsn : LSN) (scn : Z) (e : PalfEnvImpl)
    (s : os) : outcome (Z * LSN * Z * PalfEnvImpl * os) :=
  match impl_ h with
  | None => Done (-1, lsn, scn, e, s)
  | Some l =>
      p ← deref (pe_heap e !! l);
      x ← PalfHandleImpl_append buf lsn scn p s;
      let '(ret, lsn, scn, p, s) := x : Z * LSN * Z * PalfHandleImpl * os in
      Done (ret, lsn, scn, set_impl l p e, s)
  end.
Definition PalfHandle_read (h : PalfHandle) (lsn : LSN) (read_size : Z) (read_buf : bytes)
    (out_size : Z) (e : PalfEnvImpl) (s : os) : outcome (Z * bytes * Z * os) :=
  match impl_ h with
  | None => Done (-1, read_buf, out_size, s)
  | Some l => p ← deref (pe_heap e !! l); PalfHandleImpl_read lsn read_size read_buf out_size p s
  end.
Definition PalfHandle_seek (h : PalfHandle) (lsn : LSN) (e : PalfEnvImpl) : outcome (Z * PalfEnvImpl) :=
  match impl_ h with
  | None => Done (-1, e)
  | Some l =>
      p ← deref (pe_heap e !! l);
      let '(ret, p) := PalfHandleImpl_seek lsn p in Done (ret, set_impl l p e)
  end.
(** [get_end_lsn], [get_max_lsn], [get_begin_lsn]: code and value. *)
Definition PalfHandle_get (get : PalfHandleImpl → LSN) (h : PalfHandle) (lsn : LSN) (e : PalfEnvImpl)
    : outcome (Z * LSN) :=
  match impl_ h with
  | None => Done (-1, lsn)
  | Some l => p ← deref (pe_heap e !! l); Done (0, get p)
  end.
Definition PalfHandle_get_end_lsn := PalfHandle_get PalfHandleImpl_get_end_lsn.
Definition PalfHandle_get_max_lsn := PalfHandle_get PalfHandleImpl_get_max_lsn.
Definition PalfHandle_get_begin_lsn := PalfHandle_get PalfHandleImpl_get_begin_lsn.
Definition PalfHandle_get_palf_id (h : PalfHandle) (e : PalfEnvImpl) : outcome Z :=
  match impl_ h with
  | None => Done INVALID_PALF_ID
  | Some l => p ← deref (pe_heap e !! l); Done (PalfHandleImpl_get_palf_id p)
  end.

(** ** The log on disk

    An entry as [do_append_] lays it out at [lsn]: the header, 8 bytes the
    header serializer does not write, the payload. *)
Record entry := mkEntry {
  en_log_id : Z;
  en_proposal : Z;
  en_prev : LSN;
  en_pad : bytes;
  en_payload : bytes }.

Definition entry_size (e : entry) : Z := 48 + blen (en_payload e).
Definition entry_header (lsn : LSN) (e : entry) : LogGroupEntryHeader :=
  mkGroupHeader LogGroupEntryHeader_MAGIC 1 (entry_size e) (en_log_id e) (en_proposal e) (en_prev e)
    (lsn + entry_size e) 0.
Definition frame (lsn : LSN) (e : entry) : bytes :=
  group_header_bytes (entry_header lsn e) ++ en_pad e ++ en_payload e.

(** [frames_at f lsn es endl]: the log bytes of block 0 from [lsn] on are the
    frames of [es], which end at [endl], and zeros after that. *)
Fixpoint frames_at (f : file) (lsn : LSN) (es : list entry) (endl : LSN) : Prop :=
  match es with
  | [] => endl = lsn ∧ ∀ i, lsn ≤ i → byte_at f (MAX_INFO_BLOCK_SIZE + i) = 0
  | e :: es' =>
      region f (MAX_INFO_BLOCK_SIZE + lsn) (entry_size e) = frame lsn e
      ∧ group_header_wf (entry_header lsn e) ∧ blen (en_pad e) = 8
      ∧ frames_at f (lsn + entry_size e) es' endl
  end.

(** The log of directory [dir] holds [es]: one block file, whose last 4 KB are
    still free. *)
Definition disk_repr (dir : string) (s : os) (es : list entry) (endl : LSN) : Prop :=
  os_faults s = [] ∧ blocks_exactly dir 1 s ∧ 0 ≤ endl ≤ PALF_BLOCK_SIZE - SCAN_BUF
  ∧ ∃ i f, os_dir s !! block_path dir 0 = Some i ∧ os_inodes s !! i = Some f
           ∧ f_size f = PALF_PHY_BLOCK_SIZE ∧ frames_at f 0 es endl.

(** An open log stream on it. *)
Definition palf_repr (p : PalfHandleImpl) (s : os) (es : list entry) : Prop :=
  ph_is_inited_ p = true ∧ lc_is_inited_ (ph_log_cache_ p) = false
  ∧ ls_inv (ph_log_storage_ p) s ∧ ls_min_block_id_ (ph_log_storage_ p) = 0
  ∧ ls_max_block_id_ (ph_log_storage_ p) = 0
  ∧ ph_max_lsn_ p = ph_end_lsn_ p ∧ 0 ≤ ph_log_id_ p < 2 ^ 62 ∧ 0 ≤ ph_proposal_id_ p < 2 ^ 62
  ∧ disk_repr (ls_log_dir_ (ph_log_storage_ p)) s es (ph_end_lsn_ p).

Lemma entry_size_pos e : 48 ≤ entry_size e.
Proof. unfold entry_size. pose proof (blen_nonneg (en_payload e)). lia. Qed.

Lemma blen_frame lsn e : blen (en_pad e) = 8 → blen (frame lsn e) = entry_size e.
Proof. intros H. unfold frame. rewrite !blen_app, blen_group_header_bytes, H. unfold entry_size. lia. Qed.

Lemma frames_at_le f lsn es endl : frames_at f lsn es endl → lsn ≤ endl.
Proof.
  revert lsn. induction es as [|e es IH]; intros lsn; [intros [-> _]; lia|].
  intros (_ & _ & _ & H). apply IH in H. pose proof (entry_size_pos e). lia.
Qed.

Lemma frames_at_zero f lsn es endl i : frames_at f lsn es endl → endl ≤ i →
  byte_at f (MAX_INFO_BLOCK_SIZE + i) = 0.
Proof.
  revert lsn. induction es as [|e es IH]; intros lsn; [intros [-> H] Hi; auto|].
  intros (_ & _ & _ & H). by eapply IH.
Qed.

(** Writing the next frame at the end. *)
Lemma frames_at_snoc f lsn es endl e : frames_at f lsn es endl →
  group_header_wf (entry_header endl e) → blen (en_pad e) = 8 →
  frames_at (file_write f (endl + MAX_INFO_BLOCK_SIZE) (frame endl e)) lsn (es ++ [e])
    (endl + entry_size e).
Proof.
  intros Hf Hwf Hp. pose proof (blen_frame endl e Hp) as Hfr.
  revert lsn Hf. induction es as [|e' es IH]; intros lsn Hf; cbn [app frames_at].
  - destruct Hf as [-> Hz]. split_and!; [|done|done|done|].
    + rewrite <-Hfr, (Z.add_comm MAX_INFO_BLOCK_SIZE). apply region_write_same.
    + intros i Hi. rewrite byte_at_write, bool_decide_false by (rewrite Hfr; lia).
      apply Hz. pose proof (entry_size_pos e). lia.
  - destruct Hf as (Hr & Hw & Hpd & Hf). split_and!; [|done|done|by apply IH].
    rewrite region_write_disjoint; [done|]. apply frames_at_le in Hf. lia.
Qed.

(** *** Reading entries back *)

Lemma lsn_block0 lsn : 0 ≤ lsn < PALF_BLOCK_SIZE →
  lsn_2_block lsn PALF_BLOCK_SIZE = 0 ∧ lsn_2_offset lsn PALF_BLOCK_SIZE = lsn.
Proof. intros. split; [by apply Z.div_small|by apply Z.mod_small]. Qed.

Section Scan.
Context (ls : LogStorage) (s : os) (i : inode) (f : file).
Context (Hinv : ls_inv ls s) (Hfl : os_faults s = []).
Context (Hdir : os_dir s !! block_path (ls_log_dir_ ls) 0 = Some i).
Context (Hino : os_inodes s !! i = Some f) (Hsz : f_size f = PALF_PHY_BLOCK_SIZE).

Lemma scan_read lsn buf : 0 ≤ lsn ≤ PALF_BLOCK_SIZE - SCAN_BUF → blen buf = SCAN_BUF →
  LogStorage_read lsn SCAN_BUF buf ls s
  = Done (0, region f (MAX_INFO_BLOCK_SIZE + lsn) SCAN_BUF, SCAN_BUF, s).
Proof.
  intros Hl Hb. destruct (lsn_block0 lsn) as [Hb0 Ho]; [unfold SCAN_BUF in *; lia|].
  rewrite (LogStorage_read_ok lsn SCAN_BUF buf ls s i f); rewrite ?Hb0, ?Ho; auto.
  - by rewrite (Z.add_comm lsn).
  - lia.
  - rewrite Hsz. change PALF_PHY_BLOCK_SIZE with (PALF_BLOCK_SIZE + MAX_INFO_BLOCK_SIZE). lia.
Qed.

(** At an entry, the header read back from the scan buffer. *)
Lemma scan_header lsn e es endl buf_len : frames_at f lsn (e :: es) endl → 0 ≤ lsn →
  buf_len = SCAN_BUF →
  LogGroupEntryHeader_deserialize LogGroupEntryHeader_default
    (region f (MAX_INFO_BLOCK_SIZE + lsn) SCAN_BUF) buf_len 0
  = Done (0, group_header_read (entry_header lsn e) (take 4 (en_pad e)), 48).
Proof.
  intros (Hr & Hwf & Hpad & _) Hl ->.
  pose proof (entry_size_pos e).
  assert (region f (MAX_INFO_BLOCK_SIZE + lsn) 48
          = group_header_bytes (entry_header lsn e) ++ en_pad e) as H48.
  { assert (frame lsn e = (group_header_bytes (entry_header lsn e) ++ en_pad e) ++ en_payload e) as Hfr
      by (unfold frame; by rewrite app_assoc).
    rewrite Hfr in Hr. replace (entry_size e) with (48 + blen (en_payload e)) in Hr by done.
    rewrite region_app in Hr by auto with mystorage lia.
    apply app_inj_1 in Hr as [Hr _]; [done|].
    apply Nat2Z.inj. change (blen (region f (MAX_INFO_BLOCK_SIZE + lsn) 48)
      = blen (group_header_bytes (entry_header lsn e) ++ en_pad e)).
    rewrite blen_region, blen_app, blen_group_header_bytes, Hpad by lia. done. }
  change SCAN_BUF with (48 + (SCAN_BUF - 48)). rewrite region_app by done.
  rewrite H48, <-app_assoc. by apply (group_header_deserialize _ _ []).
Qed.

(** Past the last entry there is no valid header. *)
Lemma scan_no_header lsn endl buf_len : frames_at f lsn [] endl → buf_len = SCAN_BUF →
  ∃ h, LogGroupEntryHeader_deserialize LogGroupEntryHeader_default
         (region f (MAX_INFO_BLOCK_SIZE + lsn) SCAN_BUF) buf_len 0 = Done (0, h, 48)
       ∧ LogGroupEntryHeader_is_valid h = false.
Proof.
  intros [-> Hz] ->. rewrite region_zero.
  2:{ intros j Hj. replace j with (MAX_INFO_BLOCK_SIZE + (j - MAX_INFO_BLOCK_SIZE)) by lia.
      apply Hz. lia. }
  eexists. split; [vm_compute; reflexivity|done].
Qed.

(** The recovery scan of [init] stops at the end of the log. *)
Lemma init_scan_loop es lsn buf endl fuel : frames_at f lsn es endl → 0 ≤ lsn →
  endl ≤ PALF_BLOCK_SIZE - SCAN_BUF → blen buf = SCAN_BUF → (length es < fuel)%nat →
  loop (init_scan_body ls) fuel (buf, lsn, lsn, s) = Done (endl, s).
Proof.
  revert lsn buf fuel. induction es as [|e es IH]; intros lsn buf fuel Hf Hl He Hb Hfu;
    (destruct fuel as [|fuel]; [cbn in Hfu; lia|]); rewrite loop_step; cbn [init_scan_body];
    pose proof (frames_at_le _ _ _ _ Hf); rewrite scan_read by lia || done;
    cbn [mbind outcome_bind Z.eqb negb orb].
  - destruct (scan_no_header lsn endl SCAN_BUF Hf eq_refl) as (h & Hh & Hv).
    change (SCAN_BUF <? LogGroupEntryHeader_get_serialize_size) with false. cbn iota.
    rewrite Hh. cbn [mbind outcome_bind Z.eqb negb orb]. rewrite Hv. destruct Hf as [-> _]. done.
  - change (SCAN_BUF <? LogGroupEntryHeader_get_serialize_size) with false. cbn iota.
    rewrite (scan_header lsn e es endl) by done. cbn [mbind outcome_bind Z.eqb negb orb].
    change (LogGroupEntryHeader_is_valid _) with true. cbn [negb].
    cbn [gh_committed_end_lsn_ group_header_read entry_header].
    pose proof (entry_size_pos e). destruct (Z.leb_spec (lsn + entry_size e) lsn); [lia|].
    cbn [mbind outcome_bind]. apply IH; [apply Hf|lia|done| |cbn in Hfu; lia].
    by apply blen_region.
Qed.
End Scan.

(** *** Appending *)

(** The entry an append makes of [buf], given the uninitialised bytes left in
    the header. *)
Definition appended (p : PalfHandleImpl) (s : os) (buf : bytes) : entry :=
  mkEntry (ph_log_id_ p) (ph_proposal_id_ p) (if 0 <? ph_end_lsn_ p then ph_end_lsn_ p else 0)
    (sub 40 8 (sys_malloc (48 + blen buf) s).1) buf.

(** The buffer [do_append_] hands to the storage is the frame. *)
Lemma append_buffer h mem buf : blen mem = 48 + blen buf →
  (x ← LogGroupEntryHeader_serialize h mem (blen mem) 0;
   let '(_, wb, pos) := x : Z * bytes * Z in mem_write pos buf wb)
  = Done (group_header_bytes h ++ sub 40 8 mem ++ buf).
Proof.
  intros Hm. pose proof (blen_nonneg buf).
  rewrite group_header_serialize by lia. cbn [mbind outcome_bind Z.add].
  destruct (split3 mem 40 8) as (a & o & c & -> & Ha & Ho); [lia..|].
  rewrite !blen_app in Hm.
  rewrite (sub_app_r a (o ++ c) 0) by lia. rewrite <-Ho, sub_app_l.
  change (a ++ o ++ c) with ([] ++ a ++ o ++ c).
  rewrite (splice_eq [] a (o ++ c)) by (rewrite ?blen_group_header_bytes; done || lia).
  cbn [app]. rewrite mem_write_ok by (rewrite ?blen_app, ?blen_group_header_bytes; lia).
  f_equal. rewrite <-(app_nil_r c), (app_assoc _ o), splice_eq
    by (rewrite ?blen_app, ?blen_group_header_bytes; lia).
  by rewrite app_nil_r, <-app_assoc.
Qed.

Lemma disk_repr_malloc dir s es endl n : disk_repr dir s es endl → disk_repr dir (sys_malloc n s).2 es endl.
Proof. done. Qed.

Lemma disk_repr_reboot dir s s' es endl : reboot s s' → disk_repr dir s es endl →
  disk_repr dir s' es endl.
Proof.
  intros (Hd & Hi & Hf & _) (_ & Hb & He & i & f & H1 & H2 & H3). 
  split; [done|]. split; [unfold blocks_exactly, sys_exists in *; by rewrite Hd|]. split; [done|]. exists i, f. by rewrite Hd, Hi.
Qed.

(** An append is the write of the frame of its entry. *)
Lemma palf_append_frame p s buf lsn0 scn0 : ph_is_inited_ p = true → ph_max_lsn_ p = ph_end_lsn_ p →
  0 ≤ ph_end_lsn_ p → ph_end_lsn_ p + 48 + blen buf < 2 ^ 32 →
  PalfHandleImpl_append buf lsn0 scn0 p s
  = (let lsn := ph_end_lsn_ p in
     let '(ret, ls, s') := LogStorage_append lsn (frame lsn (appended p s buf)) (ph_log_storage_ p)
                             (sys_malloc (48 + blen buf) s).2 in
     let p' := set_storage ls (set_log_id (ph_log_id_ p + 1) p) in
     if ret =? 0
     then Done (0, lsn, ph_log_id_ p, set_lsns (lsn + 48 + blen buf) (lsn + 48 + blen buf) p', s')
     else Done (ret, lsn, scn0, p', s')).
Proof.
  intros Hin Hmax H0 Hlt. pose proof (blen_nonneg buf). cbn zeta.
  assert (append_header p (blen buf) = entry_header (ph_end_lsn_ p) (appended p s buf)) as Hh.
  { unfold append_header, entry_header, LogGroupEntryHeader_get_serialize_size, entry_size. cbn.
    rewrite u32_small, u64_small by lia. rewrite Hmax. f_equal; lia. }
  unfold PalfHandleImpl_append, PalfHandleImpl_do_append_. rewrite Hin, Hmax, Hh. cbn [negb].
  change (gh_group_entry_size_ (entry_header _ _)) with (48 + blen buf).
  pose proof (append_buffer (entry_header (ph_end_lsn_ p) (appended p s buf))
                (sys_malloc (48 + blen buf) s).1 buf ltac:(by apply sys_malloc_length; lia)) as Hbuf.
  rewrite sys_malloc_length in Hbuf by lia. rewrite (surjective_pairing (sys_malloc (48 + blen buf) s)).
  destruct (LogGroupEntryHeader_serialize _ _ _ _) as [[[r wb] pos]| | |]; try done.
  cbn [mbind outcome_bind] in Hbuf |- *. rewrite Hbuf. cbn [mbind outcome_bind set_log_id ph_log_storage_].
  change (group_header_bytes _ ++ _ ++ buf) with (frame (ph_end_lsn_ p) (appended p s buf)).
  destruct (LogStorage_append _ _ _ _) as [[ret ls] s1].
  destruct (Z.eqb_spec ret 0) as [->|Hr]; cbn [negb mbind outcome_bind].
  - cbn [Z.eqb set_lsns set_storage ph_log_id_ set_log_id]. rewrite u64_small by lia.
    by rewrite Z.add_assoc, Z.add_simpl_r.
  - rewrite (proj2 (Z.eqb_neq _ _) Hr). done.
Qed.

Lemma appended_wf p s buf : 0 ≤ ph_end_lsn_ p → ph_end_lsn_ p + 48 + blen buf < 2 ^ 32 →
  0 ≤ ph_log_id_ p < 2 ^ 62 → 0 ≤ ph_proposal_id_ p < 2 ^ 62 →
  group_header_wf (entry_header (ph_end_lsn_ p) (appended p s buf)) ∧ blen (en_pad (appended p s buf)) = 8.
Proof.
  intros H0 Hlt Hid Hpr. pose proof (blen_nonneg buf). split.
  - unfold group_header_wf, entry_header, entry_size.
    cbn [gh_magic_ gh_version_ gh_group_entry_size_ gh_log_id_ gh_log_proposal_id_ gh_prev_lsn_
         gh_committed_end_lsn_ gh_data_checksum_ en_log_id en_proposal en_prev en_payload appended].
    destruct (Z.ltb_spec 0 (ph_end_lsn_ p)); split_and!; done || lia.
  - change (en_pad _) with (sub 40 8 (sys_malloc (48 + blen buf) s).1).
    rewrite blen_sub; rewrite ?sys_malloc_length by lia; lia.
Qed.

Lemma palf_append_ok p s es buf lsn0 scn0 : palf_repr p s es → 0 < blen buf →
  ph_end_lsn_ p + 48 + blen buf ≤ PALF_BLOCK_SIZE - SCAN_BUF →
  ∃ p' s', PalfHandleImpl_append buf lsn0 scn0 p s = Done (0, ph_end_lsn_ p, ph_log_id_ p, p', s')
    ∧ (ph_log_id_ p + 1 < 2 ^ 62 → palf_repr p' s' (es ++ [appended p s buf]))
    ∧ ph_end_lsn_ p' = ph_end_lsn_ p + 48 + blen buf ∧ ph_log_id_ p' = ph_log_id_ p + 1
    ∧ ls_log_dir_ (ph_log_storage_ p') = ls_log_dir_ (ph_log_storage_ p)
    ∧ (os_wf s → touches (block_path (ls_log_dir_ (ph_log_storage_ p)) 0) s s').
Proof.
  intros (Hin & Hc & Hls & Hmn & Hmx & Hmax & Hid & Hpr & Hdisk) Hb Hfit.
  destruct Hdisk as (Hfl & Hbl & Hend & i & f & Hdir & Hino & Hsz & Hfr).
  assert (PALF_BLOCK_SIZE < 2 ^ 27) as Hbs by done. unfold SCAN_BUF in *.
  rewrite palf_append_frame by (done || lia). cbn zeta.
  destruct (appended_wf p s buf ltac:(lia) ltac:(lia) Hid Hpr) as [Hwf Hpad].
  set (e := appended p s buf) in *. set (s1 := (sys_malloc (48 + blen buf) s).2).
  destruct (lsn_block0 (ph_end_lsn_ p)) as [Hb0 Ho]; [lia|].
  destruct (LogStorage_append_ok (ph_end_lsn_ p) (frame (ph_end_lsn_ p) e) (ph_log_storage_ p) s1 i f)
    as (ls' & -> & Hls' & Hd' & Hmn' & Hmx'); rewrite ?Hb0; try done.
  rewrite Hb0, Ho, Hmx in *. cbn [Z.eqb]. do 2 eexists. split; [done|].
  cbn [set_lsns set_storage ph_log_id_ set_log_id ph_end_lsn_ ph_log_storage_].
  split_and!; [|lia|done|done|].
  2:{ intros Hwf'. eapply touches_trans; [by apply touches_malloc|]. by apply touches_insert. }
  intros Hid'. split_and!; try done; cbn [set_lsns set_storage ph_log_id_ set_log_id ph_end_lsn_ ph_log_storage_ ph_proposal_id_]; try lia.
  rewrite Hd'. split; [done|]. split; [done|]. split; [unfold SCAN_BUF; lia|].
  exists i, (file_write f (ph_end_lsn_ p + MAX_INFO_BLOCK_SIZE) (frame (ph_end_lsn_ p) e)).
  split_and!; [done|cbn; by lk| |].
  - cbn [file_write f_size]. rewrite blen_frame, Hsz by done. unfold entry_size. cbn [en_payload e appended].
    change PALF_PHY_BLOCK_SIZE with (PALF_BLOCK_SIZE + MAX_INFO_BLOCK_SIZE). lia.
  - replace (ph_end_lsn_ p + 48 + blen buf) with (ph_end_lsn_ p + entry_size e) by (cbn; unfold entry_size; cbn; lia).
    by apply frames_at_snoc.
Qed.

(** *** Opening *)

(** A new log stream in a directory without blocks is empty. *)
Lemma palf_init_fresh fuel id dir s : os_faults s = [] →
  sys_exists (block_path dir 0) s = false → sys_exists (block_path dir 1) s = false →
  (0 < fuel)%nat →
  ∃ p s', PalfHandleImpl_init fuel id dir PalfHandleImpl_new s = Done (0, p, s')
    ∧ palf_repr p s' [] ∧ ph_end_lsn_ p = 0 ∧ ls_log_dir_ (ph_log_storage_ p) = dir
    ∧ (os_wf s → touches (block_path dir 0) s s').
Proof.
  intros Hf H0 H1 Hfu. unfold PalfHandleImpl_init. cbn [PalfHandleImpl_new ph_is_inited_ ph_log_storage_].
  destruct (LogStorage_init_fresh dir s LogStorage_new) as
    (ls & s1 & -> & Hls & Hd & Hmn & Hmx & Hf1 & Hfile & Hdir & Hino & Hnext); [done..|].
  cbn [mbind outcome_bind Z.eqb negb].
  assert (frames_at zero_block 0 [] 0) as Hz by done.
  assert (os_dir s1 !! block_path (ls_log_dir_ ls) 0 = Some (os_next s)) as Hd1
    by (rewrite Hdir, Hd; by lk).
  assert (os_inodes s1 !! os_next s = Some zero_block) as Hi1 by (rewrite Hino; by lk).
  unfold LogStorage_get_begin_lsn. rewrite Hmn. change (u64 (0 * _)) with 0.
  set (s2 := (sys_malloc SCAN_BUF s1).2).
  assert (sys_malloc SCAN_BUF s1 = ((sys_malloc SCAN_BUF s1).1, s2)) as -> by done.
  rewrite (init_scan_loop ls s2 (os_next s) zero_block Hls Hf1 Hd1 Hi1 eq_refl [] 0 _ 0)
    by (done || by apply sys_malloc_length).
  cbn [mbind outcome_bind]. do 2 eexists. split; [done|]. split; [|split; [done|]; split; [done|]].
  2:{ intros Hwf. eapply (touches_create _ zero_block); try done; [by apply sys_exists_false|].
      change (os_faults s2) with (os_faults s1). congruence. }
  unfold palf_repr. cbn [ph_is_inited_ ph_log_cache_ PalfHandleImpl_new ph_log_storage_ ph_max_lsn_ ph_end_lsn_ ph_log_id_ ph_proposal_id_].
  rewrite Hd in *. do 2 (split; [done|]). split; [exact Hls|]. do 5 (split; [done|]).
  split; [done|]. split; [split|].
  - intros id' Hid'. replace id' with 0 by lia. apply bool_decide_eq_true. cbn. rewrite Hd1. eauto.
  - apply sys_exists_false. cbn. rewrite Hdir. rewrite lookup_insert_ne; [by apply sys_exists_false|].
    intros Heq%block_path_inj; lia.
  - split; [done|]. by exists (os_next s), zero_block.
Qed.

(** The log id a successful [init] starts from. *)
Lemma palf_init_log_id fuel id dir p0 s p s' :
  PalfHandleImpl_init fuel id dir p0 s = Done (0, p, s') → ph_is_inited_ p0 = false →
  ph_log_id_ p = if 0 <? ph_end_lsn_ p then 2 else FIRST_VALID_LOG_ID.
Proof.
  unfold PalfHandleImpl_init. intros H Hin. rewrite Hin in H.
  apply outcome_bind_inv in H as ([[ret ls] s1] & _ & H). destruct (Z.eqb_spec ret 0); cbn [negb] in H.
  - rewrite (surjective_pairing (sys_malloc SCAN_BUF s1)) in H.
    apply outcome_bind_inv in H as ([lv s3] & _ & H). injection H as <- _. done.
  - injection H as -> _ _. done.
Qed.

(** Recovery: opening a log that holds [es] finds exactly its end. *)
Lemma palf_recover fuel id dir s es endl : disk_repr dir s es endl → (length es < fuel)%nat →
  ∃ p s', PalfHandleImpl_init fuel id dir PalfHandleImpl_new s = Done (0, p, s')
    ∧ palf_repr p s' es ∧ ph_end_lsn_ p = endl ∧ ls_log_dir_ (ph_log_storage_ p) = dir
    ∧ reboot s s'.
Proof.
  intros Hdisk Hfu. pose proof Hdisk as (Hf & Hbl & Hend & i & f & Hdir & Hino & Hsz & Hfr).
  unfold PalfHandleImpl_init. cbn [PalfHandleImpl_new ph_is_inited_ ph_log_storage_].
  rewrite (LogStorage_init_existing dir 1); [|done|pose proof LOG_INVALID_BLOCK_ID_small; lia|done].
  cbn [mbind outcome_bind Z.eqb negb].
  set (ls := mkLogStorage dir PALF_BLOCK_SIZE _ _ _ _ _).
  assert (ls_inv ls s) as Hls by (split_and!; done).
  change (LogStorage_get_begin_lsn ls) with 0.
  set (s2 := (sys_malloc SCAN_BUF s).2).
  assert (sys_malloc SCAN_BUF s = ((sys_malloc SCAN_BUF s).1, s2)) as -> by done.
  rewrite (init_scan_loop ls s2 i f Hls Hf Hdir Hino Hsz es 0 _ endl);
    [|done|lia|lia|by apply sys_malloc_length|done].
  cbn [mbind outcome_bind]. do 2 eexists. split; [done|]. split; [|done].
  split_and!; try done; cbn; destruct (Z.ltb_spec 0 endl); done.
Qed.

(** [load] of a log that lives in its first block: the end found by [init] is
    thrown away. *)
Lemma palf_load_first_block fuel id dir s p s' :
  PalfHandleImpl_init fuel id dir PalfHandleImpl_new s = Done (0, p, s') →
  ls_min_block_id_ (ph_log_storage_ p) = 0 → ls_max_block_id_ (ph_log_storage_ p) = 0 →
  PalfHandleImpl_load fuel id dir PalfHandleImpl_new s = Done (0, set_lsns 0 0 p, s').
Proof.
  intros Hinit Hmn Hmx. unfold PalfHandleImpl_load. rewrite Hinit. cbn [mbind outcome_bind Z.eqb negb].
  unfold LogStorage_get_block_id_range, LogStorage_get_begin_lsn. by rewrite Hmn, Hmx.
Qed.

(** *** Termination of [init] on arbitrary disk contents *)

Lemma region_is_bytes f off n : (∀ k, is_byte (byte_at f k)) → is_bytes (region f off n).
Proof. intros H. apply Forall_fmap, Forall_true. intros k. apply H. Qed.

Lemma sub_is_bytes off n b : is_bytes b → is_bytes (sub off n b).
Proof. intros. by apply Forall_take, Forall_drop. Qed.

Lemma splice_is_bytes off s b : is_bytes s → is_bytes b → is_bytes (splice off s b).
Proof. intros. repeat apply Forall_app_2; auto using sub_is_bytes. Qed.

Lemma field8_range off b : is_bytes b → 0 ≤ field off 8 b < 2 ^ 64.
Proof.
  intros Hb. unfold field. pose proof (le_dec_bound _ (sub_is_bytes off 8 b Hb)) as H.
  assert (length (sub off 8 b) ≤ 8)%nat by (unfold sub; rewrite length_take; lia).
  assert (2 ^ (8 * Z.of_nat (length (sub off 8 b))) ≤ 2 ^ 64) by (apply Z.pow_le_mono_r; lia). lia.
Qed.

(** Opening for reading and reading change no file. *)
Lemma sys_read_bytes i off n s : os_bytes s →
  os_bytes (sys_read i off n s).2 ∧ (∀ d, (sys_read i off n s).1 = Some d → is_bytes d).
Proof.
  intros Hs%take_fault_bytes. unfold sys_read. destruct (take_fault s) as [o s1]. cbn in Hs.
  destruct (failed o); [done|]. destruct (os_inodes s1 !! i) as [f|] eqn:Hi; [|done].
  split; [done|]. intros d [= <-]. apply region_is_bytes. intros k. by eapply Hs.
Qed.

Lemma mem_write_is_bytes off s b b' : mem_write off s b = Done b' → is_bytes s → is_bytes b →
  is_bytes b'.
Proof. unfold mem_write. destruct (_ && _); [|done]. intros [= <-]. apply splice_is_bytes. Qed.

Lemma LogStorage_read_inv lsn n rb ls s ret rb' out s' :
  LogStorage_read lsn n rb ls s = Done (ret, rb', out, s') → os_bytes s → is_bytes rb →
  os_bytes s' ∧ is_bytes rb'.
Proof.
  unfold LogStorage_read. intros H Hs Hb. destruct (negb _); [inv_done; auto|].
  pose proof (sys_open_bytes (LogStorage_block_file_path_ ls (lsn_2_block lsn (ls_block_size_ ls)))
                false false s Hs) as Ho.
  destruct (sys_open _ _ _ s) as [fd s1]. cbn in Ho. destruct fd as [i|]; [|inv_done; auto].
  match type of H with context [sys_read i ?o ?k s1] =>
    pose proof (sys_read_bytes i o k s1 Ho) as [Hr Hd]; destruct (sys_read i o k s1) as [d s2] end.
  cbn in Hr, Hd. destruct d as [d|]; [|inv_done; auto].
  inv_done. split; [done|]. by eapply mem_write_is_bytes; eauto.
Qed.

Lemma deserialize_range h buf n pos ret h' pos' :
  LogGroupEntryHeader_deserialize h buf n pos = Done (ret, h', pos') → is_bytes buf → ret = 0 →
  0 ≤ gh_committed_end_lsn_ h' < 2 ^ 64.
Proof.
  unfold LogGroupEntryHeader_deserialize. intros H Hb Hr. destruct (_ <? _); [inv_done; done|].
  inv_done. unfold mem_read in *. destruct (_ && _); [|done]. inv_done. by apply field8_range, sub_is_bytes.
Qed.

(** Each iteration moves [scan_lsn] up, and it is a 64-bit number. *)
Lemma init_scan_step ls buf lsn last s buf' lsn' last' s' :
  init_scan_body ls (buf, lsn, last, s) = Done (inl (buf', lsn', last', s')) →
  os_bytes s → is_bytes buf →
  os_bytes s' ∧ is_bytes buf' ∧ lsn < lsn' < 2 ^ 64.
Proof.
  cbn [init_scan_body]. intros H Hs Hb. apply outcome_bind_inv in H as ([[[ret b] out] s1] & Hr & H).
  destruct (LogStorage_read_inv _ _ _ _ _ _ _ _ _ Hr Hs Hb) as [Hs1 Hb1].
  destruct (_ || _); [done|]. apply outcome_bind_inv in H as ([[ret' hdr] pos] & Hd & H).
  destruct (Z.eqb_spec ret' 0); [|done]. destruct (LogGroupEntryHeader_is_valid hdr); [|done].
  cbn [negb orb] in H. destruct (Z.leb_spec (gh_committed_end_lsn_ hdr) lsn); [done|].
  injection H as -> <- <- ->. split_and!; [done..|lia|].
  by eapply (deserialize_range _ _ _ _ _ _ _ Hd).
Qed.

Lemma init_scan_terminates ls buf lsn last s fuel : os_bytes s → is_bytes buf → 0 ≤ lsn →
  (Z.to_nat (2 ^ 64 - lsn) < fuel)%nat →
  loop (init_scan_body ls) fuel (buf, lsn, last, s) ≠ OutOfFuel.
Proof.
  intros Hs Hb Hl Hf.
  apply (loop_terminates _ (λ x, Z.to_nat (2 ^ 64 - x.1.1.2))
           (λ x, os_bytes x.2 ∧ is_bytes x.1.1.1 ∧ 0 ≤ x.1.1.2)); [| |done|done].
  - intros [[[b l] la] s0] _. cbn [init_scan_body].
    destruct (LogStorage_read l SCAN_BUF b ls s0) as [[[[r b1] o] s1]| | |] eqn:E; try done.
    + cbn [mbind outcome_bind]. destruct (_ || _); [done|]. unfold LogGroupEntryHeader_deserialize.
      destruct (_ <? _); [done|]. unfold mem_read. destruct (_ && _); [|done]. cbn [mbind outcome_bind].
      destruct (_ || _); [done|]. by destruct (_ <=? _).
    + exfalso. revert E. unfold LogStorage_read. destruct (negb _); [done|].
      destruct (sys_open _ _ _ _) as [[i|] ?]; [|done]. destruct (sys_read _ _ _ _) as [[d|] ?]; [|done].
      unfold mem_write. by destruct (_ && _).
  - intros [[[b l] la] s0] [[[b' l'] la'] s1] (Hs0 & Hb0 & Hl0) Hstep. cbn in *.
    destruct (init_scan_step _ _ _ _ _ _ _ _ _ Hstep Hs0 Hb0) as (? & ? & ?). split_and!; try done; lia.
Qed.

Lemma sys_malloc_bytes n s : os_bytes s → os_bytes (sys_malloc n s).2 ∧ is_bytes (sys_malloc n s).1.
Proof.
  intros Hs. split; [done|]. apply Forall_fmap, Forall_true. intros k. apply Hs.
Qed.

(** The fuel that is always enough: LSNs are 64-bit. *)
Lemma palf_init_returns fuel id dir p s : os_bytes s →
  Z.of_nat (size (os_dir s)) ≤ LOG_INVALID_BLOCK_ID → (Z.to_nat (2 ^ 64) < fuel)%nat →
  PalfHandleImpl_init fuel id dir p s ≠ OutOfFuel.
Proof.
  intros Hs Hsz Hf. unfold PalfHandleImpl_init. destruct (ph_is_inited_ p); [done|].
  destruct (LogStorage_init_returns dir s (ph_log_storage_ p) Hsz) as [[[ret ls] s1] Hi].
  cbn [ph_log_storage_]. pose proof (LogStorage_init_bytes _ _ _ _ _ Hi Hs) as Hs1. cbn in Hs1.
  rewrite Hi. cbn [mbind outcome_bind]. destruct (negb (ret =? 0)); [done|].
  rewrite (surjective_pairing (sys_malloc SCAN_BUF s1)).
  destruct (sys_malloc_bytes SCAN_BUF s1 Hs1) as [Hs2 Hb].
  set (buf := (sys_malloc SCAN_BUF s1).1) in *. set (s2 := (sys_malloc SCAN_BUF s1).2) in *.
  clearbody buf s2. pose proof (u64_range (ls_min_block_id_ ls * ls_block_size_ ls)).
  pose proof (init_scan_terminates ls buf (LogStorage_get_begin_lsn ls) (LogStorage_get_begin_lsn ls)
                s2 fuel Hs2 Hb ltac:(unfold LogStorage_get_begin_lsn; lia)
                ltac:(unfold LogStorage_get_begin_lsn; lia)) as Ht.
  destruct (loop _ _ _) as [[lv s3]| | |]; done.
Qed.
