(* ===== verification/LogIOWorker.v ===== *)
(** * The log I/O thread

    Models [src/src/storage/logservice/palf/log_io_worker.h/.cpp] as a
    transition system: the worker thread of [run_], the threads that call
    [submit_io_task] and the thread that calls [init] and [destroy].  A step is
    what one thread does between two points where another can intervene; the
    code under the mutex of [submit_io_task] is one step.  [stop_] is atomic and
    [destroy] sets it without the mutex. *)

From S2P Require Import Prelude.

(** A task: a callable, or an empty [std::function]. *)
Abbreviation IOTask := (option nat) (only parsing).

(** Where the worker is in [run_]. *)
Inductive worker_pc :=
  | AtLoop                (* before the test [!stop_] *)
  | AtLock                (* before [unique_lock lock(mutex_)] *)
  | AtTest                (* in [wait], holding the mutex, before the predicate *)
  | AtWait                (* the predicate was false, still holding the mutex *)
  | Blocked               (* in [wait], mutex released *)
  | Woken                 (* notified, to take the mutex again *)
  | Running (t : IOTask)  (* mutex released, before [if (task) task()] *)
  | Exited.

(** Where the owner is: not initialised, initialised, in [destroy] after
    [stop_ = true], in [destroy] after [notify_all]. *)
Inductive owner_pc := Uninit | Inited | Stopping | Joining.

Record LogIOWorker := mkWorker {
  iw_task_queue_ : list IOTask;
  iw_stop_ : bool;
  iw_worker : worker_pc;
  iw_owner : owner_pc;
  iw_notify : nat;             (* [submit_io_task] calls before [notify_one] *)
  iw_submitted : list IOTask;  (* history: tasks in the order of submission *)
  iw_handled : list IOTask }.  (* history: tasks the worker is done with *)
Definition LogIOWorker_new : LogIOWorker := mkWorker [] false Exited Uninit 0 [] [].

Definition set_worker (w : worker_pc) (st : LogIOWorker) : LogIOWorker :=
  mkWorker (iw_task_queue_ st) (iw_stop_ st) w (iw_owner st) (iw_notify st) (iw_submitted st) (iw_handled st).
Definition set_owner (o : owner_pc) (st : LogIOWorker) : LogIOWorker :=
  mkWorker (iw_task_queue_ st) (iw_stop_ st) (iw_worker st) o (iw_notify st) (iw_submitted st) (iw_handled st).

(** The worker holds the mutex. *)
Definition mutex_held (st : LogIOWorker) : bool :=
  match iw_worker st with AtTest | AtWait => true | _ => false end.
Definition wake (w : worker_pc) : worker_pc := match w with Blocked => Woken | _ => w end.

(** Who takes a step. *)
Inductive label :=
  | LInit | LDestroy            (* the owner *)
  | LSubmit (t : IOTask)        (* a client: lock, push, unlock *)
  | LNotify                     (* a client: [notify_one] *)
  | LWorker                     (* the worker *)
  | LSpurious.                  (* [wait] returns on its own *)

(** The steps of the threads; [None] when the thread cannot take one.  Calls
    that return at once and change nothing ([init] twice, [destroy] without
    [init]) are no steps.

    [init]: a new thread, when not initialised. *)
Definition LogIOWorker_init (st : LogIOWorker) : option LogIOWorker :=
  match iw_owner st with
  | Uninit => Some (mkWorker (iw_task_queue_ st) false AtLoop Inited (iw_notify st) (iw_submitted st) (iw_handled st))
  | _ => None
  end.

(** [destroy], in three steps: [stop_ = true], [notify_all], [join]. *)
Definition LogIOWorker_destroy (st : LogIOWorker) : option LogIOWorker :=
  match iw_owner st with
  | Uninit => None
  | Inited => Some (mkWorker (iw_task_queue_ st) true (iw_worker st) Stopping (iw_notify st) (iw_submitted st) (iw_handled st))
  | Stopping => Some (set_owner Joining (set_worker (wake (iw_worker st)) st))
  | Joining => match iw_worker st with Exited => Some (set_owner Uninit st) | _ => None end
  end.

Definition LogIOWorker_submit_io_task (task : IOTask) (st : LogIOWorker) : option LogIOWorker :=
  if mutex_held st then None
  else Some (mkWorker (iw_task_queue_ st ++ [task]) (iw_stop_ st) (iw_worker st) (iw_owner st) (S (iw_notify st))
               (iw_submitted st ++ [task]) (iw_handled st)).
Definition submit_notify (st : LogIOWorker) : option LogIOWorker :=
  match iw_notify st with
  | O => None
  | S n => Some (mkWorker (iw_task_queue_ st) (iw_stop_ st) (wake (iw_worker st)) (iw_owner st) n (iw_submitted st) (iw_handled st))
  end.

(** [run_]. *)
Definition LogIOWorker_run_ (st : LogIOWorker) : option LogIOWorker :=
  match iw_worker st with
  | AtLoop => Some (set_worker (if iw_stop_ st then Exited else AtLock) st)
  | AtLock => Some (set_worker AtTest st)
  | AtTest =>
      match iw_task_queue_ st with
      | [] => Some (set_worker (if iw_stop_ st then Exited else AtWait) st)
      | t :: q => Some (mkWorker q (iw_stop_ st) (Running t) (iw_owner st) (iw_notify st) (iw_submitted st) (iw_handled st))
      end
  | AtWait => Some (set_worker Blocked st)
  | Blocked => None
  | Woken => Some (set_worker AtTest st)
  | Running t =>
      Some (mkWorker (iw_task_queue_ st) (iw_stop_ st) AtLoop (iw_owner st) (iw_notify st) (iw_submitted st)
              (iw_handled st ++ [t]))
  | Exited => None
  end.
Definition spurious (st : LogIOWorker) : option LogIOWorker :=
  match iw_worker st with Blocked => Some (set_worker Woken st) | _ => None end.

Definition fire (l : label) : LogIOWorker → option LogIOWorker :=
  match l with
  | LInit => LogIOWorker_init
  | LDestroy => LogIOWorker_destroy
  | LSubmit t => LogIOWorker_submit_io_task t
  | LNotify => submit_notify
  | LWorker => LogIOWorker_run_
  | LSpurious => spurious
  end.

(** The step relation and what it reaches. *)
Inductive step (st st' : LogIOWorker) : Prop :=
  | step_by l : fire l st = Some st' → step st st'.
Definition reachable (st : LogIOWorker) : Prop := rtc step LogIOWorker_new st.

Fixpoint fire_all (ls : list label) (st : LogIOWorker) : option LogIOWorker :=
  match ls with [] => Some st | l :: ls' => fire l st ≫= fire_all ls' end.

Lemma fire_all_steps ls st st' : fire_all ls st = Some st' → rtc step st st'.
Proof.
  revert st. induction ls as [|l ls IH]; intros st; [by intros [= ->]|]. cbn. intros (st1 & H1 & H2)%bind_Some.
  eapply rtc_l; [by apply (step_by _ _ l)|]. by apply IH.
Qed.

(** ** Invariants *)

Definition in_flight (st : LogIOWorker) : list IOTask := match iw_worker st with Running t => [t] | _ => [] end.

Record worker_inv (st : LogIOWorker) : Prop := {
  inv_fifo : iw_submitted st = iw_handled st ++ in_flight st ++ iw_task_queue_ st;
  inv_wait : iw_worker st = AtWait → iw_task_queue_ st = [];
  inv_wakeup : iw_worker st = Blocked → iw_task_queue_ st ≠ [] → (0 < iw_notify st)%nat;
  inv_uninit : iw_owner st = Uninit → iw_worker st = Exited;
  inv_running : iw_owner st = Inited → iw_stop_ st = false ∧ iw_worker st ≠ Exited }.

Lemma worker_inv_new : worker_inv LogIOWorker_new.
Proof. by constructor. Qed.

Lemma worker_inv_step st st' : step st st' → worker_inv st → worker_inv st'.
Proof.
  intros [l H] [Hf Hw Hn Hu Hr]. destruct st as [q stop w o n sub hd].
  unfold in_flight, mutex_held, set_worker, set_owner in *; cbn in *.
  destruct l; cbn in H; unfold LogIOWorker_init, LogIOWorker_destroy, LogIOWorker_submit_io_task, submit_notify, LogIOWorker_run_, spurious,
    mutex_held, set_worker, set_owner in H; cbn in H; repeat case_match; simplify_eq; constructor; cbn in *;
    unfold in_flight; cbn; try done; intros; simplify_eq/=; rewrite <-?app_assoc in *; try done; try lia; eauto; try tauto;
    try (destruct (Hr eq_refl); done); try discriminate (Hu eq_refl).
Qed.

Lemma reachable_inv st : reachable st → worker_inv st.
Proof. intros H. pose proof worker_inv_new as H0. revert H0. induction H; eauto using worker_inv_step. Qed.

(** A queued task is handled by steps of the worker and pending notifications
    alone. *)
Lemma worker_progress st t q : worker_inv st → iw_owner st = Inited → iw_task_queue_ st = t :: q →
  ∃ ls st', Forall (λ l, l = LWorker ∨ l = LNotify) ls ∧ fire_all ls st = Some st'
    ∧ iw_handled st' = iw_handled st ++ in_flight st ++ [t].
Proof.
  intros [Hf Hw Hn Hu Hr] Ho Hq. destruct (Hr Ho) as [Hs Hne]. destruct st as [q0 stop w o n sub hd]. cbn in *. subst.
  destruct w.
  - exists (replicate 4 LWorker). eexists. split; [repeat constructor; by left|]. by split.
  - exists (replicate 3 LWorker). eexists. split; [repeat constructor; by left|]. by split.
  - exists (replicate 2 LWorker). eexists. split; [repeat constructor; by left|]. by split.
  - discriminate (Hw eq_refl).
  - destruct n as [|n]; [specialize (Hn eq_refl ltac:(done)); lia|].
    exists (LNotify :: replicate 3 LWorker). eexists. split; [constructor; [by right|]; repeat constructor; by left|]. by split.
  - exists (replicate 3 LWorker). eexists. split; [repeat constructor; by left|]. by split.
  - exists (replicate 5 LWorker). eexists. split; [repeat constructor; by left|]. split; [done|]. cbn. by rewrite <-app_assoc.
  - done.
Qed.

(** C14: the I/O thread handles the tasks in order.  However the worker, the
    submitting threads and the owner interleave, and whenever [wait] returns
    spuriously: the tasks submitted so far are those handled, then the one being
    run, then the queue, in this order, so none is lost, repeated or overtaken;
    when [destroy] has returned the thread has ended; and while the worker
    is initialised the first task of the queue gets handled by steps of the worker
    and of pending notifications alone (no wake-up of a submission is lost). *)
Theorem io_worker_fifo st : reachable st →
  iw_submitted st = iw_handled st ++ in_flight st ++ iw_task_queue_ st
  ∧ (iw_owner st = Uninit → iw_worker st = Exited)
  ∧ ∀ t q, iw_owner st = Inited → iw_task_queue_ st = t :: q →
      ∃ ls st', Forall (λ l, l = LWorker ∨ l = LNotify) ls ∧ fire_all ls st = Some st'
        ∧ iw_handled st' = iw_handled st ++ in_flight st ++ [t].
Proof.
  intros H%reachable_inv. split; [apply H|]. split; [apply H|]. intros t q. by apply worker_progress.
Qed.

Lemma io_worker_fifo_witness :
  ∃ st, fire_all [LInit; LWorker; LWorker; LWorker; LWorker; LSubmit (Some 1%nat); LSubmit (Some 2%nat); LNotify; LWorker; LWorker;
                  LWorker] LogIOWorker_new = Some st
    ∧ iw_handled st = [Some 1%nat] ∧ iw_task_queue_ st = [Some 2%nat]
    ∧ iw_submitted st = iw_handled st ++ in_flight st ++ iw_task_queue_ st.
Proof.
  eexists. split; [vm_compute; reflexivity|]. split; [reflexivity|]. split; [reflexivity|].
  refine (proj1 (io_worker_fifo _ _)).
  apply (fire_all_steps [LInit; LWorker; LWorker; LWorker; LWorker; LSubmit (Some 1%nat); LSubmit (Some 2%nat); LNotify; LWorker;
                         LWorker; LWorker]). vm_compute. reflexivity.
Defined.

(** C40: [destroy] can hang.  [stop_] is set and the condition variable notified
    without the mutex: when both happen after the worker found nothing to do and
    before it blocks, the notification is lost.  The worker then sleeps and [destroy]
    waits for it; neither can take a step any more, only an unrelated submission or a
    spurious wake-up would help. *)
Theorem io_worker_lost_wakeup st : reachable st → iw_owner st = Inited → iw_worker st = AtWait → iw_notify st = 0%nat →
  ∃ st', fire_all [LDestroy; LDestroy; LWorker] st = Some st' ∧ iw_owner st' = Joining ∧ iw_worker st' = Blocked
    ∧ ∀ l st'', fire l st' = Some st'' → l = LSpurious ∨ ∃ t, l = LSubmit t.
Proof.
  intros _ Ho Hw Hn. destruct st as [q stop w o n sub hd]. cbn in *. subst. eexists. split; [reflexivity|].
  do 2 (split; [reflexivity|]). intros [| |t| | |] st'' H; cbn in H; try discriminate H; eauto.
Qed.

Lemma io_worker_lost_wakeup_witness :
  ∃ st', fire_all ([LInit; LWorker; LWorker; LWorker] ++ [LDestroy; LDestroy; LWorker]) LogIOWorker_new = Some st'
    ∧ iw_owner st' = Joining ∧ ∀ l st'', fire l st' = Some st'' → l = LSpurious ∨ ∃ t, l = LSubmit t.
Proof.
  destruct (io_worker_lost_wakeup (mkWorker [] false AtWait Inited 0 [] [])) as (st' & H1 & H2 & _ & H3);
    [apply (fire_all_steps [LInit; LWorker; LWorker; LWorker]); vm_compute; reflexivity|reflexivity..|].
  exists st'. split; [exact H1|]. split; [exact H2|exact H3].
Defined.

(** A task that is queued when the worker is destroyed is not run. *)
Lemma destroy_leaves_tasks :
  ∃ st, fire_all [LInit; LSubmit (Some 1%nat); LDestroy; LDestroy; LWorker; LDestroy] LogIOWorker_new = Some st
    ∧ iw_owner st = Uninit ∧ iw_task_queue_ st = [Some 1%nat].
Proof. eexists. split; [vm_compute; reflexivity|]. done. Qed.
