(* ===== verification/LogService.v ===== *)
(** * ObLogHandler and ObLogService

    Models [src/src/storage/logservice/ob_log_handler.h/.cpp] and
    [ob_log_service.h/.cpp].  Modules that replay the log register a handler
    for their log type; [ReplaySubHandlers St] is what the log service needs of
    them, [St] being the state of all the registered objects. *)

From S2P Require Import Prelude Pod Posix LogEntry LogStorage Palf.

(** [ObIReplaySubHandler::replay]: the handler object, the memory the buffer
    pointer points into, [nbytes], [lsn], [scn]. *)
Class ReplaySubHandlers (St : Type) :=
  replay_sub : positive → bytes → Z → LSN → Z → St → outcome (Z * St).

(** [ObIRoleChangeSubHandler]: the two calls the log handler makes. *)
Class RoleChangeSubHandlers (St : Type) := {
  sub_switch_to_leader : positive → St → Z * St;
  sub_switch_to_follower_gracefully : positive → St → Z * St }.

(** ** ObLogHandler *)

Record ObLogHandler := mkLogHandler {
  lh_ls_id_ : Z;
  lh_palf_handle_ : PalfHandle;
  lh_palf_handle_impl_ : option positive;
  lh_replay_handlers_ : gmap Z positive;
  lh_role_change_handlers_ : gmap Z positive;
  lh_is_inited_ : bool }.

Definition ObLogHandler_new : ObLogHandler := mkLogHandler (-1) PalfHandle_new None ∅ ∅ false.

Definition ObLogHandler_init (fuel : nat) (ls_id : Z) (h : ObLogHandler) (env : PalfEnvImpl) (s : os)
    : outcome (Z * ObLogHandler * PalfEnvImpl * os) :=
  if lh_is_inited_ h then Done (-1, h, env, s)
  else
    x ← PalfEnvImpl_create_palf_handle_impl fuel ls_id (lh_palf_handle_impl_ h) env s;
    let '(ret, impl, env, s) := x : Z * option positive * PalfEnvImpl * os in
    let h := mkLogHandler ls_id (lh_palf_handle_ h) impl (lh_replay_handlers_ h)
               (lh_role_change_handlers_ h) false in
    if negb (ret =? 0) then Done (ret, h, env, s)
    else
      let '(ret, ph) := PalfHandle_init impl (lh_palf_handle_ h) in
      let h := mkLogHandler ls_id ph impl (lh_replay_handlers_ h) (lh_role_change_handlers_ h)
                 (ret =? 0) in
      Done (ret, h, env, s).

Definition ObLogHandler_register_replay_handler (type : Z) (handler : positive) (h : ObLogHandler)
    : Z * ObLogHandler :=
  (0, mkLogHandler (lh_ls_id_ h) (lh_palf_handle_ h) (lh_palf_handle_impl_ h)
        (<[i16 type := handler]> (lh_replay_handlers_ h)) (lh_role_change_handlers_ h) (lh_is_inited_ h)).
Definition ObLogHandler_register_role_change_handler (type : Z) (handler : positive)
    (h : ObLogHandler) : Z * ObLogHandler :=
  (0, mkLogHandler (lh_ls_id_ h) (lh_palf_handle_ h) (lh_palf_handle_impl_ h)
        (lh_replay_handlers_ h) (<[i16 type := handler]> (lh_role_change_handlers_ h)) (lh_is_inited_ h)).

(** [append]: code, [lsn], [scn].  The code of the header's [serialize] is
    ignored. *)
Definition ObLogHandler_append (h : ObLogHandler) (buf : option bytes) (buf_len type : Z) (lsn : LSN)
    (scn : Z) (env : PalfEnvImpl) (s : os) : outcome (Z * LSN * Z * PalfEnvImpl * os) :=
  if negb (lh_is_inited_ h) then Done (-1, lsn, scn, env, s)
  else match buf with
       | None => Done (-1, lsn, scn, env, s)
       | Some buf =>
           if buf_len <=? 0 then Done (-1, lsn, scn, env, s)
           else
             let total_len := ObLogBaseHeader_get_serialize_size + buf_len in
             let '(log_buf, s) := sys_malloc total_len s in
             x ← ObLogBaseHeader_serialize (ObLogBaseHeader_new type NO_NEED_BARRIER) log_buf total_len 0;
             let '(_, log_buf, pos) := x : Z * bytes * Z in
             d ← mem_read 0 buf_len buf;
             log_buf ← mem_write pos d log_buf;
             PalfHandle_append (lh_palf_handle_ h) log_buf lsn scn env s
       end.

Section Replay.
Context {St : Type} `{!ReplaySubHandlers St}.

(** [replay]: [buf] is the memory the pointer points into; it may be longer
    than [buf_len]. *)
Definition ObLogHandler_replay (h : ObLogHandler) (buf : option bytes) (buf_len : Z) (lsn : LSN)
    (scn : Z) (st : St) : outcome (Z * St) :=
  match buf with
  | None => Done (-1, st)
  | Some buf =>
      if buf_len <=? 0 then Done (-1, st)
      else
        x ← ObLogBaseHeader_deserialize ObLogBaseHeader_default buf buf_len 0;
        let '(ret, base_header, pos) := x : Z * ObLogBaseHeader * Z in
        if negb (ret =? 0) then Done (ret, st)
        else match lh_replay_handlers_ h !! bh_log_type_ base_header with
             | None => Done (0, st)
             | Some it => replay_sub it (drop (Z.to_nat pos) buf) (buf_len - pos) lsn scn st
             end
  end.
End Replay.

Section RoleChange.
Context {St : Type} `{!RoleChangeSubHandlers St}.

(** The order in which an [unordered_map] is traversed is unspecified;
    [map_to_list] is one of them. *)
Definition ObLogHandler_switch_to_leader (h : ObLogHandler) (st : St) : Z * St :=
  (0, foldl (λ st p, (sub_switch_to_leader p.2 st).2) st (map_to_list (lh_role_change_handlers_ h))).
Definition ObLogHandler_switch_to_follower (h : ObLogHandler) (st : St) : Z * St :=
  (0, foldl (λ st p, (sub_switch_to_follower_gracefully p.2 st).2) st
        (map_to_list (lh_role_change_handlers_ h))).
End RoleChange.

(** ** ObLogService

    The handler objects live in [svc_heap]. *)
Record ObLogService := mkLogService {
  svc_base_dir_ : string;
  svc_palf_env_ : PalfEnvImpl;
  svc_handlers_ : gmap Z positive;
  svc_heap : gmap positive ObLogHandler;
  svc_next : positive;
  svc_is_inited_ : bool;
  svc_is_running_ : bool }.

Definition ObLogService_new : ObLogService :=
  mkLogService EmptyString PalfEnvImpl_new ∅ ∅ 1%positive false false.
Definition set_svc_env (env : PalfEnvImpl) (v : ObLogService) : ObLogService :=
  mkLogService (svc_base_dir_ v) env (svc_handlers_ v) (svc_heap v) (svc_next v) (svc_is_inited_ v)
    (svc_is_running_ v).
Definition set_svc_heap (heap : gmap positive ObLogHandler) (v : ObLogService) : ObLogService :=
  mkLogService (svc_base_dir_ v) (svc_palf_env_ v) (svc_handlers_ v) heap (svc_next v)
    (svc_is_inited_ v) (svc_is_running_ v).

Definition ObLogService_init (base_dir : string) (v : ObLogService) : Z * ObLogService :=
  if svc_is_inited_ v then (-1, v)
  else
    let '(ret, env) := PalfEnvImpl_init base_dir (svc_palf_env_ v) in
    let v := mkLogService base_dir env (svc_handlers_ v) (svc_heap v) (svc_next v)
               (svc_is_inited_ v) (svc_is_running_ v) in
    if negb (ret =? 0) then (ret, v)
    else (0, mkLogService base_dir env (svc_handlers_ v) (svc_heap v) (svc_next v) true
               (svc_is_running_ v)).

Definition ObLogService_start (v : ObLogService) : Z * ObLogService :=
  if negb (svc_is_inited_ v) || svc_is_running_ v then (-1, v)
  else
    let '(ret, env) := PalfEnvImpl_start (svc_palf_env_ v) in
    if negb (ret =? 0) then (ret, set_svc_env env v)
    else (0, mkLogService (svc_base_dir_ v) env (svc_handlers_ v) (svc_heap v) (svc_next v)
               (svc_is_inited_ v) true).
Definition ObLogService_stop (v : ObLogService) : ObLogService :=
  mkLogService (svc_base_dir_ v) (PalfEnvImpl_stop (svc_palf_env_ v)) (svc_handlers_ v) (svc_heap v)
    (svc_next v) (svc_is_inited_ v) false.
Definition ObLogService_destroy (v : ObLogService) : ObLogService :=
  let v := ObLogService_stop v in
  mkLogService (svc_base_dir_ v) (PalfEnvImpl_destroy (svc_palf_env_ v)) ∅
    (foldr delete (svc_heap v) ((map_to_list (svc_handlers_ v)).*2)) (svc_next v) false
    (svc_is_running_ v).

(** [open_ls]: code and handler pointer. *)
Definition ObLogService_open_ls (fuel : nat) (ls_id : Z) (handler : option positive)
    (v : ObLogService) (s : os) : outcome (Z * option positive * ObLogService * os) :=
  match svc_handlers_ v !! ls_id with
  | Some l => Done (0, Some l, v, s)
  | None =>
      x ← ObLogHandler_init fuel ls_id ObLogHandler_new (svc_palf_env_ v) s;
      let '(ret, h, env, s) := x : Z * ObLogHandler * PalfEnvImpl * os in
      if negb (ret =? 0) then Done (ret, handler, set_svc_env env v, s)
      else
        let l := svc_next v in
        Done (0, Some l,
              mkLogService (svc_base_dir_ v) env (<[ls_id := l]> (svc_handlers_ v))
                (<[l := h]> (svc_heap v)) (Pos.succ l) (svc_is_inited_ v) (svc_is_running_ v), s)
  end.

Definition ObLogService_remove_ls (ls_id : Z) (v : ObLogService) : Z * ObLogService :=
  match svc_handlers_ v !! ls_id with
  | None => (-1, v)
  | Some l =>
      let '(_, env) := PalfEnvImpl_remove_palf_handle_impl ls_id (svc_palf_env_ v) in
      (0, mkLogService (svc_base_dir_ v) env (delete ls_id (svc_handlers_ v)) (delete l (svc_heap v))
            (svc_next v) (svc_is_inited_ v) (svc_is_running_ v))
  end.

Section ReplayLs.
Context {St : Type} `{!ReplaySubHandlers St}.

(** One iteration of [replay_ls]: the buffer, [current], the OS, the state of
    the sub-handlers. *)
Definition replay_body (h : ObLogHandler) (env : PalfEnvImpl) (begin_lsn end_lsn : LSN)
    (x : bytes * LSN * os * St) : outcome (bytes * LSN * os * St + os * St) :=
  let '(read_buf, current, s, st) := x in
  if negb (current <? end_lsn) then Done (inr (s, st))
  else
    r ← PalfHandle_read (lh_palf_handle_ h) current SCAN_BUF read_buf 0 env s;
    let '(ret, read_buf, out_size, s) := r : Z * bytes * Z * os in
    if negb (ret =? 0) then Done (inr (s, st))
    else if out_size =? 0 then Done (inr (s, st))
    else if out_size <? LogGroupEntryHeader_get_serialize_size then Done (inr (s, st))
    else
      g ← LogGroupEntryHeader_deserialize LogGroupEntryHeader_default read_buf out_size 0;
      let '(ret, group_header, pos) := g : Z * LogGroupEntryHeader * Z in
      if negb (ret =? 0) then Done (inr (s, st))
      else if negb (LogGroupEntryHeader_is_valid group_header) then Done (inr (s, st))
      else
        let payload_len := gh_group_entry_size_ group_header - pos in
        y ← (if 0 <? payload_len
             then ObLogHandler_replay h (Some (drop (Z.to_nat pos) read_buf)) payload_len current 0 st
             else Done (0, st));
        let '(_, st) := y : Z * St in
        let current := gh_committed_end_lsn_ group_header in
        if current <=? begin_lsn then Done (inr (s, st)) else Done (inl (read_buf, current, s, st)).

Definition ObLogService_replay_ls (fuel : nat) (ls_id : Z) (v : ObLogService) (s : os) (st : St)
    : outcome (Z * os * St) :=
  match svc_handlers_ v !! ls_id with
  | None => Done (-1, s, st)
  | Some l =>
      h ← deref (svc_heap v !! l);
      let env := svc_palf_env_ v in
      b ← PalfHandle_get_begin_lsn (lh_palf_handle_ h) 0 env;
      let '(ret, begin_lsn) := b : Z * LSN in
      if negb (ret =? 0) then Done (ret, s, st)
      else
        e ← PalfHandle_get_end_lsn (lh_palf_handle_ h) 0 env;
        let '(ret, end_lsn) := e : Z * LSN in
        if negb (ret =? 0) then Done (ret, s, st)
        else
          let '(read_buf, s) := sys_malloc SCAN_BUF s in
          r ← loop (replay_body h env begin_lsn end_lsn) fuel (read_buf, begin_lsn, s, st);
          let '(s, st) := r : os * St in
          Done (0, s, st)
  end.
End ReplayLs.

(** ** Appending through a handler *)

(** The handler's log stream holds [es] and ends at [endl]; [id] is the next
    log id. *)
Definition handler_repr (h : ObLogHandler) (env : PalfEnvImpl) (s : os) (dir : string)
    (es : list entry) (endl : LSN) (id : Z) : Prop :=
  lh_is_inited_ h = true ∧
  ∃ l p, impl_ (lh_palf_handle_ h) = Some l ∧ pe_heap env !! l = Some p ∧ palf_repr p s es
         ∧ ph_end_lsn_ p = endl ∧ ph_log_id_ p = id ∧ ls_log_dir_ (ph_log_storage_ p) = dir.

Lemma handler_repr_disk h env s dir es endl id : handler_repr h env s dir es endl id →
  disk_repr dir s es endl.
Proof.
  intros (_ & l & p & _ & _ & Hp & <- & _ & <-). by destruct Hp as (_ & _ & _ & _ & _ & _ & _ & _ & Hd).
Qed.

(** A payload: the base header, then the caller's bytes. *)
Definition log_payload (type : Z) (buf : bytes) : bytes :=
  ObLogBaseHeader_bytes (ObLogBaseHeader_new type NO_NEED_BARRIER) ++ buf.

Lemma blen_base_header h : blen (ObLogBaseHeader_bytes h) = 16.
Proof. done. Qed.

Lemma blen_log_payload type buf : blen (log_payload type buf) = 16 + blen buf.
Proof. unfold log_payload. rewrite blen_app. done. Qed.

Lemma base_header_wf type : ObLogBaseHeader_wf (ObLogBaseHeader_new type NO_NEED_BARRIER).
Proof.
  unfold ObLogBaseHeader_wf, i16. cbn [ObLogBaseHeader_new bh_version_ bh_log_type_ bh_flag_ bh_replay_hint_].
  pose proof (sint_range 16 type). unfold i16, BASE_HEADER_VERSION, NO_NEED_BARRIER. lia.
Qed.

Lemma log_append_ok h env s dir es endl id buf type lsn0 scn0 :
  handler_repr h env s dir es endl id → 0 < blen buf → id + 1 < 2 ^ 62 →
  endl + 64 + blen buf ≤ PALF_BLOCK_SIZE - SCAN_BUF →
  ∃ env' s' e, ObLogHandler_append h (Some buf) (blen buf) type lsn0 scn0 env s
               = Done (0, endl, id, env', s')
    ∧ en_payload e = log_payload type buf
    ∧ handler_repr h env' s' dir (es ++ [e]) (endl + 64 + blen buf) (id + 1)
    ∧ (os_wf s → touches (block_path dir 0) s s').
Proof.
  intros (Hin & l & p & Hl & Hp & Hrep & <- & <- & <-) Hb Hid Hfit. unfold ObLogHandler_append.
  rewrite Hin. cbn [negb]. destruct (Z.leb_spec (blen buf) 0); [lia|].
  unfold ObLogBaseHeader_get_serialize_size. set (s1 := (sys_malloc (16 + blen buf) s).2).
  set (mem := (sys_malloc (16 + blen buf) s).1).
  assert (blen mem = 16 + blen buf) as Hmem by (apply sys_malloc_length; lia).
  assert (sys_malloc (16 + blen buf) s = (mem, s1)) as -> by done.
  unfold ObLogBaseHeader_serialize. rewrite pod_serialize_ok by (cbn [pod_size ObLogBaseHeader_pod]; lia).
  cbn [mbind outcome_bind pod_size ObLogBaseHeader_pod pod_enc Z.add].
  rewrite mem_read_ok, sub_all by lia. cbn [mbind outcome_bind].
  destruct (split3 mem 16 (blen buf)) as (a & o & c & Hm & Ha & Ho); [lia..|].
  assert (c = []) as ->.
  { rewrite Hm, !blen_app in Hmem. destruct c; [done|]. rewrite blen_cons in Hmem.
    pose proof (blen_nonneg c). lia. }
  rewrite Hm, app_nil_r in *. change (a ++ o) with ([] ++ a ++ o).
  rewrite (splice_eq [] a o) by done. cbn [app].
  rewrite mem_write_ok by (rewrite ?blen_app, ?Ho, ?blen_base_header; lia).
  cbn [mbind outcome_bind]. rewrite <-(app_nil_r o), splice_eq by done. rewrite app_nil_r.
  fold (log_payload type buf).
  assert (palf_repr p s1 es) as Hrep1 by exact Hrep.
  destruct (palf_append_ok p s1 es (log_payload type buf) lsn0 scn0 Hrep1) as
    (p' & s' & Happ & Hrep' & Hend' & Hid' & Hdir' & Ht); rewrite ?blen_log_payload; [lia..|].
  unfold PalfHandle_append. rewrite Hl, Hp. cbn [deref mbind outcome_bind]. rewrite Happ.
  cbn [mbind outcome_bind]. eexists _, s', (appended p s1 (log_payload type buf)). split; [done|]. split; [done|].
  split; [|intros Hw; apply (touches_trans _ s s1 s'); [by apply touches_malloc|by apply Ht]]. split; [done|].
  exists l, p'. rewrite blen_log_payload in Hend'. split_and!; [done|cbn; by lk|by apply Hrep'|lia|done|done].
Qed.

(** ** Replay *)

Section ReplaySpec.
Context {St : Type} `{!ReplaySubHandlers St}.
Context (Inv : St → Prop) (step : bytes → St → St).

(** [step] is what replaying a payload does, whatever follows it in memory. *)
Definition replays (h : ObLogHandler) (payload : bytes) : Prop :=
  ∀ lsn junk st, Inv st → ∃ ret,
    ObLogHandler_replay h (Some (payload ++ junk)) (blen payload) lsn 0 st
    = Done (ret, step payload st) ∧ Inv (step payload st).

Definition replay_all (es : list entry) (st : St) : St :=
  foldl (λ st e, step (en_payload e) st) st es.

(** A record goes to the handler of its type, without the base header. *)
Lemma handler_replay_payload h type buf junk lsn scn st : 0 < blen buf →
  ObLogHandler_replay h (Some (log_payload type buf ++ junk)) (16 + blen buf) lsn scn st
  = match lh_replay_handlers_ h !! i16 type with
    | None => Done (0, st)
    | Some it => replay_sub it (buf ++ junk) (blen buf) lsn scn st
    end.
Proof.
  intros Hb. unfold ObLogHandler_replay. rewrite (proj2 (Z.leb_gt _ _)) by lia.
  unfold ObLogBaseHeader_deserialize, log_payload. rewrite <-app_assoc.
  pose proof (pod_deserialize_app (ObLogBaseHeader_new type NO_NEED_BARRIER)
    ObLogBaseHeader_default [] (buf ++ junk) (16 + blen buf)
    (base_header_wf _) ltac:(cbn [pod_size ObLogBaseHeader_pod]; rewrite blen_nil; lia)) as Hd.
  cbn [app] in Hd. change (@blen Z []) with 0 in Hd. cbn [pod_enc ObLogBaseHeader_pod] in Hd. rewrite Hd.
  cbn [mbind outcome_bind Z.eqb negb pod_size ObLogBaseHeader_pod Z.add].
  change (bh_log_type_ _) with (i16 type). change (0 + 16) with 16.
  change (drop (Z.to_nat 16) _) with (buf ++ junk). by rewrite Z.add_simpl_l.
Qed.

Lemma replay_read h l env p s i f lsn buf : impl_ (lh_palf_handle_ h) = Some l →
  pe_heap env !! l = Some p → ph_is_inited_ p = true → lc_is_inited_ (ph_log_cache_ p) = false →
  ls_inv (ph_log_storage_ p) s → os_faults s = [] →
  os_dir s !! block_path (ls_log_dir_ (ph_log_storage_ p)) 0 = Some i →
  os_inodes s !! i = Some f → f_size f = PALF_PHY_BLOCK_SIZE →
  0 ≤ lsn ≤ PALF_BLOCK_SIZE - SCAN_BUF → blen buf = SCAN_BUF →
  PalfHandle_read (lh_palf_handle_ h) lsn SCAN_BUF buf 0 env s
  = Done (0, region f (MAX_INFO_BLOCK_SIZE + lsn) SCAN_BUF, SCAN_BUF, s).
Proof.
  intros Hl Hp Hin Hc Hls Hf Hd Hi Hsz Hlsn Hb. unfold PalfHandle_read. rewrite Hl, Hp.
  cbn [deref mbind outcome_bind]. unfold PalfHandleImpl_read, LogCache_get. rewrite Hin, Hc.
  cbn [negb mbind outcome_bind Z.eqb]. by apply (scan_read _ s i f).
Qed.

(** The part of the scan buffer after the header starts with the payload. *)
Lemma scan_payload f lsn e es endl : frames_at f lsn (e :: es) endl → entry_size e ≤ SCAN_BUF →
  drop (Z.to_nat 48) (region f (MAX_INFO_BLOCK_SIZE + lsn) SCAN_BUF)
  = en_payload e ++ region f (MAX_INFO_BLOCK_SIZE + lsn + entry_size e) (SCAN_BUF - entry_size e).
Proof.
  intros (Hr & _ & Hpad & _) Hsz. pose proof (entry_size_pos e).
  replace SCAN_BUF with (entry_size e + (SCAN_BUF - entry_size e)) at 1 by lia.
  rewrite region_app, Hr by lia. unfold frame. rewrite app_assoc, <-app_assoc.
  apply drop_app_length'. rewrite length_app. unfold blen in Hpad.
  change (length (group_header_bytes _)) with 40%nat. lia.
Qed.

Section ReplayLoop.
Context (h : ObLogHandler) (l : positive) (env : PalfEnvImpl) (p : PalfHandleImpl) (s : os) (i : inode) (f : file)
  (begin_lsn endl : LSN).
Context (Hl : impl_ (lh_palf_handle_ h) = Some l) (Hp : pe_heap env !! l = Some p) (Hin : ph_is_inited_ p = true)
  (Hc : lc_is_inited_ (ph_log_cache_ p) = false) (Hls : ls_inv (ph_log_storage_ p) s) (Hfl : os_faults s = [])
  (Hd : os_dir s !! block_path (ls_log_dir_ (ph_log_storage_ p)) 0 = Some i) (Hi : os_inodes s !! i = Some f)
  (Hsz : f_size f = PALF_PHY_BLOCK_SIZE) (Hend : endl ≤ PALF_BLOCK_SIZE - SCAN_BUF).

(** An iteration at an entry: its payload goes to the handler. *)
Lemma replay_body_entry e es lsn buf st : frames_at f lsn (e :: es) endl → 0 ≤ begin_lsn ≤ lsn → blen buf = SCAN_BUF →
  entry_size e ≤ SCAN_BUF → 0 < blen (en_payload e) →
  ∃ junk buf', blen buf' = SCAN_BUF ∧ replay_body h env begin_lsn endl (buf, lsn, s, st)
    = (y ← ObLogHandler_replay h (Some (en_payload e ++ junk)) (blen (en_payload e)) lsn 0 st;
       Done (inl (buf', lsn + entry_size e, s, y.2))).
Proof.
  intros Hfr Hbeg Hb Hsize Hpos. pose proof (frames_at_le _ _ _ _ (proj2 (proj2 (proj2 Hfr)))) as Hle.
  pose proof (entry_size_pos e). cbn [replay_body]. destruct (Z.ltb_spec lsn endl); [|lia]. cbn [negb].
  rewrite (replay_read h l env p s i f) by (done || lia). cbn [mbind outcome_bind Z.eqb negb].
  change (SCAN_BUF =? 0) with false. change (SCAN_BUF <? _) with false. cbn iota.
  rewrite (scan_header f lsn e es endl) by (done || lia). cbn [mbind outcome_bind Z.eqb negb].
  change (LogGroupEntryHeader_is_valid _) with true. cbn [negb].
  cbn [gh_group_entry_size_ gh_committed_end_lsn_ group_header_read entry_header].
  destruct (Z.ltb_spec 0 (entry_size e - 48)); [|unfold entry_size in *; lia].
  rewrite (scan_payload f lsn e es endl) by done.
  replace (entry_size e - 48) with (blen (en_payload e)) by (unfold entry_size; lia).
  exists (region f (MAX_INFO_BLOCK_SIZE + lsn + entry_size e) (SCAN_BUF - entry_size e)),
    (region f (MAX_INFO_BLOCK_SIZE + lsn) SCAN_BUF). split; [by apply blen_region|].
  destruct (ObLogHandler_replay _ _ _ _ _ _) as [[ret st']| | |]; try reflexivity. cbn [mbind outcome_bind snd].
  destruct (Z.leb_spec (lsn + entry_size e) begin_lsn); [lia|reflexivity].
Qed.

Lemma replay_loop_spec es lsn buf fuel st : frames_at f lsn es endl → 0 ≤ begin_lsn ≤ lsn →
  blen buf = SCAN_BUF → (length es < fuel)%nat → Inv st →
  Forall (λ e, replays h (en_payload e) ∧ entry_size e ≤ SCAN_BUF ∧ 0 < blen (en_payload e)) es →
  loop (replay_body h env begin_lsn endl) fuel (buf, lsn, s, st) = Done (s, replay_all es st)
  ∧ Inv (replay_all es st).
Proof.
  revert lsn buf fuel st. induction es as [|e es IH]; intros lsn buf fuel st Hfr Hbeg Hb Hfu Hst Hall;
    (destruct fuel as [|fuel]; [cbn in Hfu; lia|]); rewrite loop_step.
  - destruct Hfr as [-> _]. cbn [replay_body]. rewrite Z.ltb_irrefl. done.
  - apply Forall_cons in Hall as [(Hrep & Hsize & Hpos) Hall]. pose proof (entry_size_pos e).
    destruct (replay_body_entry e es lsn buf st Hfr Hbeg Hb Hsize Hpos) as (junk & buf' & Hb' & ->).
    destruct (Hrep lsn junk st Hst) as (ret & -> & Hst'). cbn [mbind outcome_bind snd].
    apply IH; try done; [apply Hfr|lia|cbn in Hfu; lia].
Qed.

(** A payload on which the handler has no defined behaviour stops the replay
    there. *)
Lemma replay_loop_ub es1 e es2 lsn buf fuel st : frames_at f lsn (es1 ++ e :: es2) endl → 0 ≤ begin_lsn ≤ lsn →
  blen buf = SCAN_BUF → (length es1 < fuel)%nat → Inv st →
  Forall (λ e, replays h (en_payload e) ∧ entry_size e ≤ SCAN_BUF ∧ 0 < blen (en_payload e)) es1 →
  (∀ lsn junk st, Inv st → ObLogHandler_replay h (Some (en_payload e ++ junk)) (blen (en_payload e)) lsn 0 st = UB) →
  entry_size e ≤ SCAN_BUF → 0 < blen (en_payload e) →
  loop (replay_body h env begin_lsn endl) fuel (buf, lsn, s, st) = UB.
Proof.
  intros Hfr Hbeg Hb Hfu Hst Hall Hub He1 He2. revert lsn buf fuel st Hfr Hbeg Hb Hfu Hst.
  induction Hall as [|e1 es1 (Hrep & Hsize & Hpos) Hall IH]; intros lsn buf fuel st Hfr Hbeg Hb Hfu Hst;
    (destruct fuel as [|fuel]; [cbn in Hfu; lia|]); rewrite loop_step.
  - destruct (replay_body_entry e es2 lsn buf st Hfr Hbeg Hb He1 He2) as (junk & buf' & _ & ->). by rewrite Hub.
  - pose proof (entry_size_pos e1).
    destruct (replay_body_entry e1 _ lsn buf st Hfr Hbeg Hb Hsize Hpos) as (junk & buf' & Hb' & ->).
    destruct (Hrep lsn junk st Hst) as (ret & -> & Hst'). cbn [mbind outcome_bind snd].
    apply IH; try done; [apply Hfr|lia|cbn in Hfu; lia].
Qed.
End ReplayLoop.

(** [replay_ls] is the loop over the entries of the log. *)
Lemma replay_ls_loop fuel ls_id v l h s st dir es endl id :
  svc_handlers_ v !! ls_id = Some l → svc_heap v !! l = Some h →
  handler_repr h (svc_palf_env_ v) s dir es endl id →
  ∃ lp p i f buf, let s1 := (sys_malloc SCAN_BUF s).2 in
    impl_ (lh_palf_handle_ h) = Some lp ∧ pe_heap (svc_palf_env_ v) !! lp = Some p ∧ ph_is_inited_ p = true
    ∧ lc_is_inited_ (ph_log_cache_ p) = false ∧ ls_inv (ph_log_storage_ p) s1 ∧ os_faults s1 = []
    ∧ os_dir s1 !! block_path (ls_log_dir_ (ph_log_storage_ p)) 0 = Some i ∧ os_inodes s1 !! i = Some f
    ∧ f_size f = PALF_PHY_BLOCK_SIZE ∧ endl ≤ PALF_BLOCK_SIZE - SCAN_BUF ∧ frames_at f 0 es endl
    ∧ blen buf = SCAN_BUF
    ∧ ObLogService_replay_ls fuel ls_id v s st
      = (r ← loop (replay_body h (svc_palf_env_ v) 0 endl) fuel (buf, 0, s1, st); let '(s, st) := r : os * St in Done (0, s, st)).
Proof.
  intros Hv Hh (Hin & lp & p & Hl & Hp & Hrep & Hend & _ & Hdir).
  destruct Hrep as (Hpi & Hc & Hls & Hmn & _ & _ & _ & _ & Hdisk).
  destruct Hdisk as (Hfl & _ & Hen & i & f & Hd & Hi & Hsz & Hfr).
  exists lp, p, i, f, (sys_malloc SCAN_BUF s).1. rewrite Hend in *.
  do 9 (split; [done|]). split; [apply Hen|]. split; [done|]. split; [by apply sys_malloc_length|].
  unfold ObLogService_replay_ls, PalfHandle_get_begin_lsn, PalfHandle_get_end_lsn, PalfHandle_get.
  rewrite Hv, Hh. cbn [deref mbind outcome_bind]. rewrite Hl, Hp. cbn [deref mbind outcome_bind Z.eqb negb].
  unfold PalfHandleImpl_get_begin_lsn, PalfHandleImpl_get_end_lsn, LogStorage_get_begin_lsn.
  rewrite Hmn, Hend. change (u64 (0 * _)) with 0. by rewrite (surjective_pairing (sys_malloc SCAN_BUF s)).
Qed.

(** [replay_ls] hands every entry of the log to its handler, in order, once. *)
Lemma replay_ls_spec fuel ls_id v l h s st dir es endl id :
  svc_handlers_ v !! ls_id = Some l → svc_heap v !! l = Some h →
  handler_repr h (svc_palf_env_ v) s dir es endl id → (length es < fuel)%nat → Inv st →
  Forall (λ e, replays h (en_payload e) ∧ entry_size e ≤ SCAN_BUF ∧ 0 < blen (en_payload e)) es →
  ∃ s', ObLogService_replay_ls fuel ls_id v s st = Done (0, s', replay_all es st)
        ∧ Inv (replay_all es st) ∧ reboot s s'.
Proof.
  intros Hv Hh Hrep Hfu Hst Hall.
  destruct (replay_ls_loop fuel ls_id v l h s st dir es endl id Hv Hh Hrep)
    as (lp & p & i & f & buf & Hl & Hp & Hpi & Hc & Hls & Hfl & Hd & Hi & Hsz & Hen & Hfr & Hb & ->).
  destruct (replay_loop_spec h lp (svc_palf_env_ v) p _ i f 0 endl Hl Hp Hpi Hc Hls Hfl Hd Hi Hsz Hen es 0 buf fuel st)
    as [-> HI]; try done.
  cbn [mbind outcome_bind]. exists (sys_malloc SCAN_BUF s).2. by split.
Qed.

Lemma replay_ls_ub fuel ls_id v l h s st dir es1 e es2 endl id :
  svc_handlers_ v !! ls_id = Some l → svc_heap v !! l = Some h →
  handler_repr h (svc_palf_env_ v) s dir (es1 ++ e :: es2) endl id → (length es1 < fuel)%nat → Inv st →
  Forall (λ e, replays h (en_payload e) ∧ entry_size e ≤ SCAN_BUF ∧ 0 < blen (en_payload e)) es1 →
  (∀ lsn junk st, Inv st → ObLogHandler_replay h (Some (en_payload e ++ junk)) (blen (en_payload e)) lsn 0 st = UB) →
  entry_size e ≤ SCAN_BUF → 0 < blen (en_payload e) →
  ObLogService_replay_ls fuel ls_id v s st = UB.
Proof.
  intros Hv Hh Hrep Hfu Hst Hall Hub He1 He2.
  destruct (replay_ls_loop fuel ls_id v l h s st dir _ endl id Hv Hh Hrep)
    as (lp & p & i & f & buf & Hl & Hp & Hpi & Hc & Hls & Hfl & Hd & Hi & Hsz & Hen & Hfr & Hb & ->).
  by rewrite (replay_loop_ub h lp (svc_palf_env_ v) p _ i f 0 endl Hl Hp Hpi Hc Hls Hfl Hd Hi Hsz Hen es1 e es2 0 buf fuel st).
Qed.
End ReplaySpec.

(** ** Opening a log stream *)

(** Opening a log that is on disk gives a handler on it. *)
Lemma open_ls_spec fuel ls_id v s es endl h0 : svc_handlers_ v !! ls_id = None →
  disk_repr (ls_log_dir (svc_palf_env_ v) ls_id) s es endl → (length es < fuel)%nat →
  ∃ l v' s' h, ObLogService_open_ls fuel ls_id h0 v s = Done (0, Some l, v', s')
    ∧ svc_handlers_ v' !! ls_id = Some l ∧ svc_heap v' !! l = Some h
    ∧ handler_repr h (svc_palf_env_ v') s' (ls_log_dir (svc_palf_env_ v) ls_id) es endl
        (if 0 <? endl then 2 else FIRST_VALID_LOG_ID)
    ∧ lh_replay_handlers_ h = ∅ ∧ reboot s s'.
Proof.
  intros Hv Hd Hf. unfold ObLogService_open_ls. rewrite Hv. unfold ObLogHandler_init.
  cbn [ObLogHandler_new lh_is_inited_ lh_palf_handle_impl_ lh_palf_handle_ lh_replay_handlers_ lh_role_change_handlers_].
  unfold PalfEnvImpl_create_palf_handle_impl.
  destruct (palf_recover fuel ls_id _ s es endl Hd Hf) as (p & s' & Hi & Hp & He & Hdir & Hreb).
  pose proof Hi as Hi'. rewrite Hi. cbn [mbind outcome_bind Z.eqb negb env_store PalfHandle_init].
  rewrite bool_decide_false by done. cbn [mbind outcome_bind Z.eqb negb].
  do 4 eexists. split; [done|]. cbn. lk. split_and!; [done..| |done|exact Hreb].
  split; [done|].
  eexists _, p. split_and!; [done|cbn; by lk|done|done| |done].
  by rewrite (palf_init_log_id _ _ _ _ _ _ _ Hi'), He by done.
Qed.

(** Opening a log stream whose directory has no blocks yet. *)
Lemma open_ls_fresh fuel ls_id v s h0 : svc_handlers_ v !! ls_id = None → os_faults s = [] →
  sys_exists (block_path (ls_log_dir (svc_palf_env_ v) ls_id) 0) s = false →
  sys_exists (block_path (ls_log_dir (svc_palf_env_ v) ls_id) 1) s = false → (0 < fuel)%nat →
  ∃ l v' s' h id, ObLogService_open_ls fuel ls_id h0 v s = Done (0, Some l, v', s')
    ∧ svc_handlers_ v' !! ls_id = Some l ∧ svc_heap v' !! l = Some h
    ∧ handler_repr h (svc_palf_env_ v') s' (ls_log_dir (svc_palf_env_ v) ls_id) [] 0 id
    ∧ id ≤ 2 ∧ lh_replay_handlers_ h = ∅
    ∧ (os_wf s → touches (block_path (ls_log_dir (svc_palf_env_ v) ls_id) 0) s s').
Proof.
  intros Hv Hf H0 H1 Hfu. unfold ObLogService_open_ls. rewrite Hv. unfold ObLogHandler_init.
  cbn [ObLogHandler_new lh_is_inited_ lh_palf_handle_impl_ lh_palf_handle_ lh_replay_handlers_ lh_role_change_handlers_].
  unfold PalfEnvImpl_create_palf_handle_impl.
  destruct (palf_init_fresh fuel ls_id _ s Hf H0 H1 Hfu) as (p & s' & Hi & Hp & He & Hdir & Htouch).
  pose proof (palf_init_log_id _ _ _ _ _ _ _ Hi) as Hid.
  rewrite Hi. cbn [mbind outcome_bind Z.eqb negb env_store PalfHandle_init].
  rewrite bool_decide_false by done. cbn [mbind outcome_bind Z.eqb negb].
  do 4 eexists. exists (ph_log_id_ p). split; [done|]. cbn. lk. split_and!; [done..| | | |].
  - split; [done|]. eexists _, p. split_and!; [done|cbn; by lk|done..].
  - rewrite Hid by done. destruct (0 <? ph_end_lsn_ p); unfold FIRST_VALID_LOG_ID; lia.
  - done.
  - done.
Qed.

(** ** The interface of a log to its clients

    [AppendLog L]: a log object that records can be appended to.
    [DurableLog L]: what it promises; [log_holds lg ops room] says that the log
    holds the records [ops] (type and bytes) and has room for [room] more
    bytes, 64 of which each record needs for its headers. *)
Class AppendLog (L : Type) := log_append : bytes → Z → L → outcome (Z * L).

Class DurableLog (L : Type) `{!AppendLog L} := {
  log_holds : L → list (Z * bytes) → Z → Prop;
  log_append_law lg ops room type buf :
    log_holds lg ops room → 0 < blen buf → 64 + blen buf ≤ room →
    ∃ lg', log_append buf type lg = Done (0, lg')
           ∧ log_holds lg' (ops ++ [(type, buf)]) (room - 64 - blen buf) }.

(** A log handler, the environment and the operating system it works in. *)
Record log_ctx := mkLogCtx { lc_handler : ObLogHandler; lc_env : PalfEnvImpl; lc_os : os }.

#[export] Instance log_ctx_append : AppendLog log_ctx := λ buf type lg,
  x ← ObLogHandler_append (lc_handler lg) (Some buf) (blen buf) type LSN_default 0 (lc_env lg) (lc_os lg);
  let '(ret, _, _, env, s) := x : Z * LSN * Z * PalfEnvImpl * os in
  Done (ret, mkLogCtx (lc_handler lg) env s).

(** The records [ops] are the payloads of the entries on disk. *)
Definition records (es : list entry) (ops : list (Z * bytes)) : Prop :=
  (en_payload <$> es) = (λ op, log_payload op.1 op.2) <$> ops.

Lemma records_length es ops : records es ops → length es = length ops.
Proof. unfold records. intros H%(f_equal length). by rewrite !length_fmap in H. Qed.

Definition log_ctx_holds (dir : string) (lg : log_ctx) (ops : list (Z * bytes)) (room : Z) : Prop :=
  ∃ es endl id, handler_repr (lc_handler lg) (lc_env lg) (lc_os lg) dir es endl id ∧ records es ops
    ∧ room = PALF_BLOCK_SIZE - SCAN_BUF - endl ∧ id + room < 2 ^ 62.

Lemma log_ctx_append_law dir lg ops room type buf :
  log_ctx_holds dir lg ops room → 0 < blen buf → 64 + blen buf ≤ room →
  ∃ lg', log_append buf type lg = Done (0, lg') ∧ lc_handler lg' = lc_handler lg
         ∧ log_ctx_holds dir lg' (ops ++ [(type, buf)]) (room - 64 - blen buf).
Proof.
  intros (es & endl & id & Hh & Hr & -> & Hid) Hb Hroom.
  destruct (log_append_ok _ _ _ _ _ _ _ buf type LSN_default 0 Hh) as (env' & s' & e & Ha & He & Hh' & _);
    [lia..|].
  unfold log_append, log_ctx_append. rewrite Ha. cbn [mbind outcome_bind]. eexists. split; [done|].
  split; [done|]. exists (es ++ [e]), (endl + 64 + blen buf), (id + 1). split_and!; [done| |lia|lia].
  unfold records in *. rewrite !fmap_app, Hr. cbn. by rewrite He.
Qed.

(** The log of directory [dir] as a durable log. *)
Definition log_ctx_durable (dir : string) : DurableLog log_ctx.
Proof.
  refine {| log_holds := log_ctx_holds dir |}. intros lg ops room type buf H1 H2 H3.
  destruct (log_ctx_append_law dir lg ops room type buf H1 H2 H3) as (lg' & Ha & _ & Hh). eauto.
Defined.

(** A started log service over [base_dir]. *)
Definition service_at (base_dir : string) : ObLogService :=
  (ObLogService_init base_dir ObLogService_new).2.
Definition ls_dir (base_dir : string) (ls_id : Z) : string :=
  ls_log_dir (svc_palf_env_ (service_at base_dir)) ls_id.
