(* ===== verification/LogRecovery.v ===== *)
(** * Recovery of a log stream

    Theorems about [PalfHandleImpl] (file Palf) and [ObLogService] (file
    LogService) across restarts: what was appended is found and read back;
    opening ends on any disk contents; a failed append may come back; [load]
    forgets the log; replay gives every record to its handler once. *)

From S2P Require Import Prelude Pod Posix LogEntry LogStorage Palf LogService.

(** ** Appending, restarting, reading *)

(** Appends in sequence: the code, LSN and SCN of each. *)
Fixpoint palf_appends (bufs : list bytes) (p : PalfHandleImpl) (s : os)
    : outcome (list (Z * LSN * Z) * PalfHandleImpl * os) :=
  match bufs with
  | [] => Done ([], p, s)
  | buf :: bufs' =>
      x ← PalfHandleImpl_append buf 0 0 p s;
      let '(ret, lsn, scn, p, s) := x : Z * LSN * Z * PalfHandleImpl * os in
      y ← palf_appends bufs' p s;
      let '(out, p, s) := y : list (Z * LSN * Z) * PalfHandleImpl * os in
      Done ((ret, lsn, scn) :: out, p, s)
  end.

(** Bytes of log the payloads take, and the answers of their appends. *)
Definition log_size (bufs : list bytes) : Z := foldr (λ b n, 48 + blen b + n) 0 bufs.
Fixpoint append_answers (lsn id : Z) (bufs : list bytes) : list (Z * LSN * Z) :=
  match bufs with
  | [] => []
  | buf :: bufs' => (0, lsn, id) :: append_answers (lsn + 48 + blen buf) (id + 1) bufs'
  end.

Lemma log_size_nonneg bufs : 48 * Z.of_nat (length bufs) ≤ log_size bufs.
Proof.
  induction bufs as [|b bufs IH]; cbn [log_size foldr length]; [lia|].
  change (foldr _ 0 bufs) with (log_size bufs). pose proof (blen_nonneg b). lia.
Qed.

Lemma palf_appends_spec bufs p s es : palf_repr p s es → Forall (λ b, 0 < blen b) bufs →
  ph_end_lsn_ p + log_size bufs ≤ PALF_BLOCK_SIZE - SCAN_BUF →
  ph_log_id_ p + Z.of_nat (length bufs) < 2 ^ 62 →
  ∃ p' s' es', palf_appends bufs p s = Done (append_answers (ph_end_lsn_ p) (ph_log_id_ p) bufs, p', s')
    ∧ palf_repr p' s' (es ++ es') ∧ en_payload <$> es' = bufs
    ∧ ph_end_lsn_ p' = ph_end_lsn_ p + log_size bufs
    ∧ ls_log_dir_ (ph_log_storage_ p') = ls_log_dir_ (ph_log_storage_ p).
Proof.
  revert p s es. induction bufs as [|b bufs IH]; intros p s es Hp Hb Hfit Hid.
  - exists p, s, []. rewrite app_nil_r. cbn. split_and!; try done. lia.
  - apply Forall_cons in Hb as [Hb0 Hb]. cbn [log_size foldr length] in *.
    change (foldr _ 0 bufs) with (log_size bufs) in *. pose proof (log_size_nonneg bufs).
    destruct (palf_append_ok p s es b 0 0 Hp Hb0 ltac:(lia)) as (p1 & s1 & Ha & Hr & He & Hi & Hd & _).
    destruct (IH p1 s1 _ (Hr ltac:(lia)) Hb ltac:(lia) ltac:(lia)) as (p2 & s2 & es2 & Ha2 & Hr2 & Hpl & He2 & Hd2).
    exists p2, s2, (appended p s b :: es2). cbn [palf_appends append_answers]. rewrite Ha. cbn [mbind outcome_bind].
    rewrite Ha2. cbn [mbind outcome_bind]. rewrite <-app_assoc in Hr2. cbn [fmap list_fmap]. rewrite Hpl.
    split_and!; try done; try lia; [|congruence]. rewrite He, Hi. repeat f_equal; lia.
Qed.

(** Where the entries are. *)
Lemma frames_at_lookup f lsn es endl k e : frames_at f lsn es endl → es !! k = Some e →
  let l := lsn + log_size (en_payload <$> take k es) in
  region f (MAX_INFO_BLOCK_SIZE + l) (entry_size e) = frame l e ∧ blen (en_pad e) = 8
  ∧ lsn ≤ l ∧ l + entry_size e ≤ endl.
Proof.
  revert lsn k. induction es as [|e' es IH]; intros lsn [|k] Hf Hk; cbn in Hk; try done.
  - injection Hk as ->. destruct Hf as (Hr & _ & Hp & Hf). cbn. rewrite Z.add_0_r.
    apply frames_at_le in Hf. split_and!; try done; lia.
  - destruct Hf as (_ & _ & _ & Hf). specialize (IH _ _ Hf Hk). cbn in IH |- *.
    change (foldr _ 0 (en_payload <$> take k es)) with (log_size (en_payload <$> take k es)).
    pose proof (entry_size_pos e'). unfold entry_size in *.
    replace (lsn + (48 + blen (en_payload e') + log_size (en_payload <$> take k es)))
      with (lsn + (48 + blen (en_payload e')) + log_size (en_payload <$> take k es)) by lia.
    destruct IH as (? & ? & ? & ?). split_and!; try done; lia.
Qed.

Lemma append_answers_lookup lsn id bufs k buf : bufs !! k = Some buf →
  append_answers lsn id bufs !! k = Some (0, lsn + log_size (take k bufs), id + Z.of_nat k).
Proof.
  revert lsn id k. induction bufs as [|b bufs IH]; intros lsn id [|k] Hk; cbn in Hk |- *; try done.
  - by rewrite !Z.add_0_r.
  - rewrite IH by done. change (foldr _ 0 (take k bufs)) with (log_size (take k bufs)).
    apply f_equal, f_equal2; [apply f_equal|]; lia.
Qed.

(** The payload of an entry is read back from the position after its header. *)
Lemma palf_read_payload p s es k e rb : palf_repr p s es → es !! k = Some e →
  blen rb = blen (en_payload e) →
  PalfHandleImpl_read (log_size (en_payload <$> take k es) + 48) (blen (en_payload e)) rb 0 p s
  = Done (0, en_payload e, blen (en_payload e), s).
Proof.
  intros (Hin & Hc & Hls & _ & _ & _ & _ & _ & Hfl & _ & Hend & i & f & Hd & Hi & Hsz & Hfr) Hk Hrb.
  destruct (frames_at_lookup _ _ _ _ _ _ Hfr Hk) as (Hreg & Hpad & Hlo & Hhi). cbn zeta in *.
  set (l := 0 + log_size (en_payload <$> take k es)) in *.
  replace (log_size (en_payload <$> take k es)) with l by (unfold l; lia).
  unfold PalfHandleImpl_read, LogCache_get. rewrite Hin, Hc. cbn [negb mbind outcome_bind Z.eqb].
  unfold entry_size, SCAN_BUF in *. pose proof (blen_nonneg (en_payload e)).
  destruct (lsn_block0 (l + 48)) as [Hb0 Ho0]; [lia|].
  rewrite (LogStorage_read_ok _ _ _ _ _ i f Hls Hfl); rewrite ?Hb0, ?Ho0; try done; try lia.
  2:{ unfold PALF_BLOCK_SIZE in *. lia. }
  do 4 f_equal. replace (l + 48 + MAX_INFO_BLOCK_SIZE) with (MAX_INFO_BLOCK_SIZE + l + 48) by lia.
  rewrite <-(region_sub f (MAX_INFO_BLOCK_SIZE + l) (48 + blen (en_payload e))) by lia.
  rewrite Hreg. unfold frame. rewrite app_assoc, (sub_app_r _ _ 0); [by rewrite sub_all| |lia].
  rewrite blen_app, blen_group_header_bytes. lia.
Qed.

(** C11: a log stream survives a restart.  Open a log stream in a directory
    without blocks and append payloads that fit the first block: each append
    succeeds and returns the LSN where the previous one ended and the next log
    id.  Whenever the process is then restarted, opening the directory again
    finds the same end, and reading after the header at any of the LSNs returns
    the payload appended there. *)
Theorem palf_log_roundtrip fuel id dir s0 bufs :
  os_faults s0 = [] → sys_exists (block_path dir 0) s0 = false → sys_exists (block_path dir 1) s0 = false →
  Forall (λ b, 0 < blen b) bufs → log_size bufs ≤ PALF_BLOCK_SIZE - SCAN_BUF → (length bufs < fuel)%nat →
  ∃ p1 s1 p2 s2, PalfHandleImpl_init fuel id dir PalfHandleImpl_new s0 = Done (0, p1, s1)
    ∧ palf_appends bufs p1 s1 = Done (append_answers 0 FIRST_VALID_LOG_ID bufs, p2, s2)
    ∧ PalfHandleImpl_get_end_lsn p2 = log_size bufs
    ∧ ∀ s3, reboot s2 s3 →
      ∃ p3 s4, PalfHandleImpl_init fuel id dir PalfHandleImpl_new s3 = Done (0, p3, s4)
        ∧ PalfHandleImpl_get_end_lsn p3 = log_size bufs
        ∧ ∀ k buf rb, bufs !! k = Some buf → blen rb = blen buf →
            ∃ lsn, append_answers 0 FIRST_VALID_LOG_ID bufs !! k = Some (0, lsn, FIRST_VALID_LOG_ID + Z.of_nat k)
              ∧ PalfHandleImpl_read (lsn + 48) (blen buf) rb 0 p3 s4 = Done (0, buf, blen buf, s4).
Proof.
  intros Hf H0 H1 Hb Hfit Hfuel.
  destruct (palf_init_fresh fuel id dir s0 Hf H0 H1 ltac:(lia)) as (p1 & s1 & Hi & Hr & He & Hd & _).
  pose proof (palf_init_log_id _ _ _ _ _ _ _ Hi eq_refl) as Hlid. rewrite He in Hlid. cbn [Z.ltb Z.compare] in Hlid.
  pose proof (log_size_nonneg bufs) as Hn. assert (PALF_BLOCK_SIZE < 2 ^ 27) by done. unfold SCAN_BUF in *.
  assert (FIRST_VALID_LOG_ID = 1) as E1 by done.
  destruct (palf_appends_spec bufs p1 s1 [] Hr Hb) as (p2 & s2 & es & Ha & Hr2 & Hpl & He2 & Hd2);
    [unfold SCAN_BUF; lia|lia|]. rewrite He, Hlid in Ha. rewrite He in He2.
  exists p1, s1, p2, s2. split_and!; [done..|]. intros s3 Hreb. cbn [app] in Hr2.
  assert (disk_repr dir s3 es (log_size bufs)) as Hdisk.
  { eapply disk_repr_reboot; [exact Hreb|]. destruct Hr2 as (_ & _ & _ & _ & _ & _ & _ & _ & Hdk).
    by rewrite Hd2, Hd, He2 in Hdk. }
  assert (length es = length bufs) as Hlen by (by rewrite <-Hpl, length_fmap).
  destruct (palf_recover fuel id dir s3 es _ Hdisk ltac:(lia)) as (p3 & s4 & Hi3 & Hr3 & He3 & _).
  exists p3, s4. split_and!; [done..|]. intros k buf rb Hk Hrb.
  exists (log_size (take k bufs)). split; [by rewrite (append_answers_lookup _ _ _ _ buf)|].
  rewrite <-Hpl in Hk. apply list_lookup_fmap_Some in Hk as (e & -> & Hk).
  rewrite <-Hpl, <-fmap_take. by eapply palf_read_payload.
Qed.

Lemma palf_log_roundtrip_witness :
  ∃ p1 s1 p2 s2, PalfHandleImpl_init 3 7 "d" PalfHandleImpl_new os_empty = Done (0, p1, s1)
    ∧ palf_appends [[1; 2]; [3]] p1 s1 = Done ([(0, 0, 1); (0, 50, 2)], p2, s2)
    ∧ PalfHandleImpl_get_end_lsn p2 = 99.
Proof.
  destruct (palf_log_roundtrip 3 7 "d" os_empty [[1; 2]; [3]]) as (p1 & s1 & p2 & s2 & H1 & H2 & H3 & _);
    [done..|by repeat apply Forall_cons_2|done|cbn; lia|].
  exists p1, s1, p2, s2. exact (conj H1 (conj H2 H3)).
Defined.

(** ** Opening ends *)

(** A read into a buffer of the size asked for stays inside it. *)
Lemma sys_read_length i off n s d s' : 0 ≤ n → sys_read i off n s = (Some d, s') → blen d ≤ n.
Proof.
  intros Hn. unfold sys_read. destruct (take_fault s) as [o s1].
  destruct (failed o) eqn:Ho; [done|]. destruct (os_inodes s1 !! i) as [f|]; [|done]. intros [= <- _].
  assert (granted o n ≤ n) by (destruct o; cbn; lia).
  unfold file_read, region, blen. rewrite length_fmap, length_seqZ. lia.
Qed.

Lemma LogStorage_read_done lsn n rb ls s : blen rb = n → n < 2 ^ 62 → ls_block_size_ ls = PALF_BLOCK_SIZE →
  ∃ ret rb' out s', LogStorage_read lsn n rb ls s = Done (ret, rb', out, s')
    ∧ blen rb' = n ∧ 0 ≤ out ≤ n.
Proof.
  intros Hn Hlt Hbs. pose proof (blen_nonneg rb). unfold LogStorage_read.
  destruct (negb _); [do 4 eexists; split_and!; [done|lia..]|].
  destruct (sys_open _ _ _ _) as [[i|] s1]; [|do 4 eexists; split_and!; [done|lia..]].
  cbv zeta. rewrite Hbs, (proj2 (Z.ltb_ge (blen rb) n)) by lia.
  set (o := lsn_2_offset lsn PALF_BLOCK_SIZE).
  assert (0 ≤ o < PALF_BLOCK_SIZE) as Ho by (apply Z.mod_pos_bound; done).
  assert (PALF_BLOCK_SIZE < 2 ^ 27) by done. rewrite !u64_small by lia.
  set (k := if _ <? _ then _ else _). assert (0 ≤ k ≤ n) as Hk.
  { unfold k. destruct (Z.ltb_spec PALF_BLOCK_SIZE (o + n)); lia. }
  destruct (sys_read _ _ k s1) as [[d|] s2] eqn:E; [|do 4 eexists; split_and!; [done|lia..]].
  apply sys_read_length in E; [|lia]. pose proof (blen_nonneg d).
  rewrite mem_write_ok by lia. do 4 eexists. split_and!; [done| |lia..].
  rewrite blen_splice; lia.
Qed.

(** No step of the scan goes wrong, whatever the disk holds. *)
Lemma init_scan_body_done ls buf lsn last s : ls_block_size_ ls = PALF_BLOCK_SIZE → blen buf = SCAN_BUF →
  ∃ r, init_scan_body ls (buf, lsn, last, s) = Done r
       ∧ match r with inl (buf', _, _, _) => blen buf' = SCAN_BUF | inr _ => True end.
Proof.
  intros Hbs Hb. cbn [init_scan_body].
  destruct (LogStorage_read_done lsn SCAN_BUF buf ls s Hb eq_refl Hbs) as (ret & b & out & s1 & -> & Hb' & Ho).
  cbn [mbind outcome_bind]. destruct (negb (ret =? 0) || _) eqn:E; [by eexists|].
  apply orb_false_iff in E as [_ E%Z.ltb_ge]. unfold LogGroupEntryHeader_get_serialize_size in E.
  unfold LogGroupEntryHeader_deserialize. destruct (_ <? _); [by eexists|].
  unfold mem_read. rewrite !(proj2 (Z.leb_le _ _)) by lia. cbn [andb mbind outcome_bind].
  destruct (_ || _); [by eexists|]. destruct (_ <=? _); by eexists.
Qed.

(** [init] of the storage sets the block size. *)
Lemma create_next_block_size ls s : ls_block_size_ (LogStorage_create_next_block_ ls s).1.2 = ls_block_size_ ls.
Proof.
  unfold LogStorage_create_next_block_. destruct (sys_open _ _ _ _) as [[i|] s1]; [|done].
  destruct (sys_ftruncate _ _ _) as [ret s2]. by destruct (negb _).
Qed.

Lemma open_block_size id ls s : ls_block_size_ (LogStorage_open_block_ id ls s).1.2 = ls_block_size_ ls.
Proof. unfold LogStorage_open_block_. by destruct (sys_open _ _ _ _) as [[i|] s1]. Qed.

Lemma LogStorage_init_block_size dir bs ls s ls' s' : LogStorage_init dir bs ls s = Done (0, ls', s') →
  ls_block_size_ ls' = bs.
Proof.
  unfold LogStorage_init. destruct (ls_is_inited_ ls); [done|]. intros ([mn mx] & _ & H)%outcome_bind_inv.
  destruct (mn =? LOG_INVALID_BLOCK_ID); [|by inv_done]. revert H.
  set (l0 := set_range 0 _ _). pose proof (create_next_block_size l0 s) as H1.
  destruct (LogStorage_create_next_block_ l0 s) as [[r l1] s1]. cbn in H1.
  destruct (negb (r =? 0)); [intros [= _ <- _]; by rewrite H1|]. pose proof (open_block_size 0 l1 s1) as H2.
  destruct (LogStorage_open_block_ 0 l1 s1) as [[r2 l2] s2]. cbn in H2.
  destruct (negb (r2 =? 0)); intros H; injection H as ?; subst; cbn in *; congruence.
Qed.

(** C19: opening a log always ends.  Whatever bytes the block files hold (headers
    are trusted without a checksum) and whichever calls of the operating system
    fail, [init] of a log stream neither loops nor touches memory outside its
    buffer: it returns, and the result does not depend on the iterations
    allowed once there are enough. *)
Theorem palf_init_total id dir p s : os_bytes s → Z.of_nat (size (os_dir s)) ≤ LOG_INVALID_BLOCK_ID →
  ∃ fuel0 r, ∀ fuel, (fuel0 ≤ fuel)%nat → PalfHandleImpl_init fuel id dir p s = Done r.
Proof.
  intros Hs Hsz. unfold PalfHandleImpl_init. destruct (ph_is_inited_ p); [by exists 0%nat; eexists|].
  cbn [ph_log_storage_]. destruct (LogStorage_init_returns dir s (ph_log_storage_ p) Hsz) as [[[ret ls] s1] Hi].
  rewrite Hi. cbn [mbind outcome_bind]. destruct (Z.eqb_spec ret 0) as [->|]; [|by exists 0%nat; eexists].
  cbn [negb]. pose proof (LogStorage_init_block_size _ _ _ _ _ _ Hi) as Hbs.
  pose proof (LogStorage_init_bytes _ _ _ _ _ Hi Hs) as Hs1. cbn in Hs1.
  rewrite (surjective_pairing (sys_malloc SCAN_BUF s1)).
  destruct (sys_malloc_bytes SCAN_BUF s1 Hs1) as [Hs2 Hb].
  assert (blen (sys_malloc SCAN_BUF s1).1 = SCAN_BUF) as Hlen by (by apply sys_malloc_length).
  set (buf := (sys_malloc SCAN_BUF s1).1) in *. set (s2 := (sys_malloc SCAN_BUF s1).2) in *. clearbody buf s2.
  set (b0 := LogStorage_get_begin_lsn ls). assert (0 ≤ b0) by apply u64_range.
  destruct (loop_total (init_scan_body ls) (λ x, Z.to_nat (2 ^ 64 - x.1.1.2))
              (λ x, blen x.1.1.1 = SCAN_BUF ∧ os_bytes x.2 ∧ is_bytes x.1.1.1 ∧ 0 ≤ x.1.1.2)
              (S (Z.to_nat (2 ^ 64 - b0))) (buf, b0, b0, s2)) as [[lv s3] Hl].
  - intros [[[b l] la] s0] (Hlb & Hs0 & Hb0 & Hl0). cbn in Hlb, Hs0, Hb0, Hl0.
    destruct (init_scan_body_done ls b l la s0 Hbs Hlb) as (r & Hr & Hlr). exists r. split; [done|].
    intros [[[b' l'] la'] s0'] ->. cbn in *.
    destruct (init_scan_step _ _ _ _ _ _ _ _ _ Hr Hs0 Hb0) as (? & ? & ?). split_and!; try done; lia.
  - done.
  - cbn. lia.
  - eexists _, _. intros fuel Hf. rewrite (loop_mono _ _ _ _ _ Hl Hf). done.
Qed.

Lemma palf_init_total_witness :
  ∃ fuel0 r, ∀ fuel, (fuel0 ≤ fuel)%nat →
    PalfHandleImpl_init fuel 1 "d" PalfHandleImpl_new os_empty = Done r.
Proof.
  apply palf_init_total; [|discriminate].
  split; [|intros k; exact is_byte_0]. intros i f k H. cbn in H. by rewrite lookup_empty in H.
Defined.

(** ** Torn appends *)

Lemma frames_at_ext f g lsn es endl : (∀ i, byte_at f i = byte_at g i) → frames_at f lsn es endl →
  frames_at g lsn es endl.
Proof.
  intros Hfg. revert lsn. induction es as [|e es IH]; intros lsn; cbn [frames_at].
  - intros [-> Hz]. split; [done|]. intros i Hi. rewrite <-Hfg. auto.
  - intros (Hr & Hw & Hp & Hf). split_and!; auto. rewrite <-Hr. by apply region_ext.
Qed.

(** Writing only [k] bytes of the next frame leaves a log whose last entry has
    the payload that was cut, filled up with zeros. *)
Definition torn (k : Z) (e : entry) : entry :=
  mkEntry (en_log_id e) (en_proposal e) (en_prev e) (en_pad e)
    (sub 0 (k - 48) (en_payload e) ++ replicate (Z.to_nat (entry_size e - k)) 0).

Lemma torn_size k e : 48 ≤ k ≤ entry_size e → entry_size (torn k e) = entry_size e.
Proof.
  intros Hk. unfold entry_size, torn in *. cbn [en_payload]. rewrite blen_app, blen_sub by lia.
  unfold blen at 1. rewrite length_replicate. unfold entry_size. lia.
Qed.

Lemma torn_frame lsn k e : blen (en_pad e) = 8 → 48 ≤ k ≤ entry_size e →
  frame lsn (torn k e) = sub 0 k (frame lsn e) ++ replicate (Z.to_nat (entry_size e - k)) 0.
Proof.
  intros Hp Hk. unfold frame at 1, entry_header. rewrite torn_size by done. cbn [torn en_payload en_pad en_log_id en_proposal en_prev].
  rewrite (app_assoc (group_header_bytes _)), app_assoc. f_equal.
  unfold frame. rewrite (app_assoc (group_header_bytes _)). unfold sub. rewrite !drop_0.
  change (mkGroupHeader _ _ _ _ _ _ _ _) with (entry_header lsn e).
  pose proof (blen_group_header_bytes (entry_header lsn e)) as Hg.
  assert (length (group_header_bytes (entry_header lsn e) ++ en_pad e) = 48)%nat as Hl.
  { rewrite length_app. unfold blen in *. lia. }
  rewrite take_app, Hl, (take_ge (_ ++ _)) by lia. do 2 f_equal. lia.
Qed.

Lemma frames_at_torn f lsn es endl e k : frames_at f lsn es endl →
  group_header_wf (entry_header endl e) → blen (en_pad e) = 8 → 48 ≤ k ≤ entry_size e →
  frames_at (file_write f (endl + MAX_INFO_BLOCK_SIZE) (sub 0 k (frame endl e))) lsn (es ++ [torn k e])
    (endl + entry_size e).
Proof.
  intros Hf Hw Hp Hk. rewrite <-(torn_size k e Hk).
  apply (frames_at_ext (file_write f (endl + MAX_INFO_BLOCK_SIZE) (frame endl (torn k e)))).
  2:{ apply frames_at_snoc; [done| |done]. unfold entry_header. by rewrite torn_size. }
  intros i. rewrite !byte_at_write, torn_frame by done.
  pose proof (blen_frame endl e Hp) as Hfl.
  assert (blen (sub 0 k (frame endl e)) = k) as Hs by (apply blen_sub; lia).
  rewrite blen_app, Hs. change (blen (replicate ?n _)) with (Z.of_nat (length (replicate n 0))).
  rewrite length_replicate, Z2Nat.id by lia.
  set (o := endl + MAX_INFO_BLOCK_SIZE).
  destruct (decide (o ≤ i < o + k)).
  - rewrite !bool_decide_true by lia. rewrite app_nth1; [done|]. unfold blen in Hs. lia.
  - rewrite (bool_decide_false (o ≤ i < o + k)) by lia. case_bool_decide; [|done].
    rewrite app_nth2 by (unfold blen in Hs; lia). trans 0.
    { rewrite nth_lookup. destruct (replicate _ 0 !! _) eqn:E; [|done]. by apply lookup_replicate in E as [-> _]. }
    replace i with (MAX_INFO_BLOCK_SIZE + (i - MAX_INFO_BLOCK_SIZE)) by lia.
    symmetry. apply (frames_at_zero f lsn es endl); [done|unfold o in *; lia].
Qed.

(** The end of the log is the sum of the sizes. *)
Lemma frames_at_end f lsn es endl : frames_at f lsn es endl → lsn + log_size (en_payload <$> es) = endl.
Proof.
  revert lsn. induction es as [|e es IH]; intros lsn; cbn [frames_at]; [intros [-> _]; cbn; lia|].
  intros (_ & _ & _ & Hf%IH). cbn. change (foldr _ 0 (en_payload <$> es)) with (log_size (en_payload <$> es)).
  unfold entry_size in Hf. lia.
Qed.

(** A write cut after [k] bytes. *)
Lemma append_torn lsn buf ls s i f k :
  let b := lsn_2_block lsn PALF_BLOCK_SIZE in
  ls_inv ls s → ls_cur_block_id_ ls = b → ls_cur_fd_ ls = Some i → os_inodes s !! i = Some f →
  os_faults s = [k] → 0 ≤ k < blen buf →
  LogStorage_append lsn buf ls s
  = (-1, ls, set_inodes (<[i := file_write f (lsn_2_offset lsn PALF_BLOCK_SIZE + MAX_INFO_BLOCK_SIZE) (sub 0 k buf)]>
                          (os_inodes s)) (set_faults [] s)).
Proof.
  intros b (Hini & Hbs & _) Hcur Hfd Hi Hf Hk. unfold LogStorage_append. rewrite Hini, Hbs. cbn [negb].
  rewrite (proj2 (Z.leb_gt _ _)) by lia. fold b. rewrite Hcur, Z.eqb_refl. cbn [negb Z.eqb]. rewrite Hfd.
  unfold sys_write, take_fault. rewrite Hf. cbn [failed granted]. rewrite (proj2 (Z.ltb_ge _ _)) by lia.
  rewrite Z.min_l by lia. rewrite (proj2 (Z.ltb_ge _ _)) by lia.
  rewrite (proj2 (Z.eqb_neq _ _)) by lia. cbn [negb]. do 2 f_equal.
  apply map_eq. intros j. cbn. destruct (decide (i = j)) as [<-|]; lk; [by rewrite Hi|done].
Qed.

(** C37: an append that failed may come back.  Let the write of an append be
    interrupted after its header, anywhere in the payload: the append reports
    an error and the stream keeps its end.  But nothing checks the data
    checksum: after a restart [init] counts the entry, the log ends after it, and
    the payload read there is the part that was written followed by zeros. *)
Theorem torn_append_recovered fuel id p s es buf k lsn0 scn0 :
  palf_repr p s es → ls_cur_block_id_ (ph_log_storage_ p) = 0 → 0 < blen buf →
  ph_end_lsn_ p + 48 + blen buf ≤ PALF_BLOCK_SIZE - SCAN_BUF → 48 ≤ k < 48 + blen buf →
  (S (length es) < fuel)%nat →
  let lsn := PalfHandleImpl_get_end_lsn p in
  ∃ p' s', PalfHandleImpl_append buf lsn0 scn0 p (set_faults [k] s) = Done (-1, lsn, scn0, p', s')
    ∧ PalfHandleImpl_get_end_lsn p' = lsn
    ∧ ∀ s2, reboot s' s2 →
      ∃ p2 s3, PalfHandleImpl_init fuel id (ls_log_dir_ (ph_log_storage_ p)) PalfHandleImpl_new s2 = Done (0, p2, s3)
        ∧ PalfHandleImpl_get_end_lsn p2 = lsn + 48 + blen buf
        ∧ ∀ rb, blen rb = blen buf →
            PalfHandleImpl_read (lsn + 48) (blen buf) rb 0 p2 s3
            = Done (0, sub 0 (k - 48) buf ++ replicate (Z.to_nat (48 + blen buf - k)) 0, blen buf, s3).
Proof.
  intros Hrep Hcur Hb Hfit Hk Hfuel lsn. unfold lsn, PalfHandleImpl_get_end_lsn in *.
  destruct Hrep as (Hin & Hc & Hls & Hmn & Hmx & Hmax & Hid & Hpr & Hfl & Hbl & Hend & i & f & Hd & Hi & Hsz & Hfr).
  assert (PALF_BLOCK_SIZE < 2 ^ 27) by done. pose proof Hls as (Hini & Hbs & Hfd).
  destruct (Hfd ltac:(rewrite Hcur; done)) as (i' & Hfd' & Hd'). rewrite Hcur, Hd in Hd'. injection Hd' as <-.
  unfold SCAN_BUF in Hfit. rewrite palf_append_frame by (done || lia). cbn zeta.
  destruct (appended_wf p (set_faults [k] s) buf ltac:(lia) ltac:(lia) Hid Hpr) as [Hwf Hpad].
  set (e := appended p (set_faults [k] s) buf) in *. assert (entry_size e = 48 + blen buf) as Hes by done.
  destruct (lsn_block0 (ph_end_lsn_ p)) as [Hb0 Ho]; [lia|].
  rewrite (append_torn _ _ _ _ i f k); rewrite ?Hb0, ?blen_frame by done; try done; [|lia].
  rewrite Ho. cbn [Z.eqb]. do 2 eexists. split_and!; [done..|]. intros s2 Hreb.
  set (f' := file_write f (ph_end_lsn_ p + MAX_INFO_BLOCK_SIZE) (sub 0 k (frame (ph_end_lsn_ p) e))) in *.
  set (dir := ls_log_dir_ (ph_log_storage_ p)) in *.
  destruct (palf_recover fuel id dir s2 (es ++ [torn k e]) (ph_end_lsn_ p + entry_size e))
    as (p2 & s3 & Hi2 & Hr2 & He2 & Hd2 & _).
  - destruct Hreb as (Hrd & Hri & Hrf & _). split; [done|]. split; [unfold blocks_exactly, sys_exists in *; by rewrite Hrd|].
    split; [unfold SCAN_BUF; lia|]. exists i, f'. rewrite Hrd, Hri. cbn [os_dir os_inodes set_inodes].
    rewrite lookup_insert_eq. split_and!; [done..| |].
    + unfold f'. cbn [file_write f_size]. rewrite blen_sub by (rewrite ?blen_frame by done; lia). rewrite Hsz.
      change PALF_PHY_BLOCK_SIZE with (PALF_BLOCK_SIZE + MAX_INFO_BLOCK_SIZE). lia.
    + apply frames_at_torn; [done..|lia].
  - rewrite length_app. cbn. lia.
  - exists p2, s3. split; [done|]. split; [lia|]. intros rb Hrb.
    assert (blen (en_payload (torn k e)) = blen buf) as Hpl.
    { pose proof (torn_size k e ltac:(lia)) as Ht. unfold entry_size in Ht at 1. lia. }
    pose proof (palf_read_payload p2 s3 _ (length es) (torn k e) rb Hr2
                  ltac:(by rewrite lookup_app_r, Nat.sub_diag by lia) ltac:(congruence)) as Hread.
    rewrite take_app_length, Hpl in Hread. apply frames_at_end in Hfr. rewrite Z.add_0_l in Hfr.
    rewrite Hfr in Hread. exact Hread.
Qed.

Lemma torn_append_recovered_witness :
  let s := mkOs {["d/0" := 1%positive]} {[1%positive := zero_block]} 2%positive [] (λ _, 0) 0 in
  let p := mkPalf 1 1 "d" (mkLogStorage "d" PALF_BLOCK_SIZE (Some 1%positive) 0 0 0 true) LogMeta_new LogCache_new
             0 0 1 1 1 true in
  ∃ p' s', PalfHandleImpl_append [5; 6; 7] 0 0 p (set_faults [49] s) = Done (-1, 0, 0, p', s')
    ∧ ∃ p2 s3, PalfHandleImpl_init 3 1 "d" PalfHandleImpl_new (set_faults [] s') = Done (0, p2, s3)
        ∧ PalfHandleImpl_get_end_lsn p2 = 51
        ∧ PalfHandleImpl_read 48 3 [1; 1; 1] 0 p2 s3 = Done (0, [5; 0; 0], 3, s3).
Proof.
  intros s p. assert (palf_repr p s []) as Hp.
  { split; [done|]. split; [done|]. split; [split_and!; [done..|]; intros _; by exists 1%positive|].
    do 5 (split; [done|]). split; [done|]. split; [split; [|done]|].
    - intros id' Hid'. by replace id' with 0 by lia.
    - split; [done|]. exists 1%positive, zero_block. split_and!; done. }
  destruct (torn_append_recovered 3 1 p s [] [5; 6; 7] 49 0 0 Hp eq_refl eq_refl ltac:(done) ltac:(done) ltac:(cbn; lia))
    as (p' & s' & Ha & _ & Hre). exists p', s'. split; [exact Ha|].
  destruct (Hre (set_faults [] s')) as (p2 & s3 & Hi & He & Hr); [repeat split|].
  exists p2, s3. split; [exact Hi|]. split; [exact He|]. apply (Hr [1; 1; 1]). reflexivity.
Defined.

(** ** Reloading *)

(** The frame just written is read back. *)
Lemma read_written_payload ls s i f lsn e rb : ls_inv ls s → os_faults s = [] →
  os_dir s !! block_path (ls_log_dir_ ls) 0 = Some i →
  os_inodes s !! i = Some (file_write f (lsn + MAX_INFO_BLOCK_SIZE) (frame lsn e)) →
  f_size f = PALF_PHY_BLOCK_SIZE → 0 ≤ lsn → lsn + entry_size e < PALF_BLOCK_SIZE → blen (en_pad e) = 8 →
  blen rb = blen (en_payload e) →
  LogStorage_read (lsn + 48) (blen (en_payload e)) rb ls s = Done (0, en_payload e, blen (en_payload e), s).
Proof.
  intros Hls Hf Hd Hi Hsz H0 Hfit Hpad Hrb. pose proof (blen_nonneg (en_payload e)). unfold entry_size in Hfit.
  destruct (lsn_block0 (lsn + 48)) as [Hb0 Ho0]; [lia|].
  rewrite (LogStorage_read_ok _ _ _ _ _ i (file_write f (lsn + MAX_INFO_BLOCK_SIZE) (frame lsn e)) Hls Hf);
    rewrite ?Hb0, ?Ho0; try done; try lia.
  2:{ cbn [file_write f_size]. rewrite blen_frame by done. unfold PALF_BLOCK_SIZE, entry_size in *. lia. }
  do 4 f_equal. replace (lsn + 48 + MAX_INFO_BLOCK_SIZE) with (lsn + MAX_INFO_BLOCK_SIZE + 48) by lia.
  rewrite <-(region_sub _ _ (blen (frame lsn e))) by (rewrite ?blen_frame by done; unfold entry_size; lia).
  rewrite region_write_same. unfold frame. rewrite app_assoc, (sub_app_r _ _ 0); [by rewrite sub_all| |lia].
  rewrite blen_app, blen_group_header_bytes. lia.
Qed.

(** [load] forgets the log.  For a log that lives in its first block, [init]
    finds the end of its entries, but [load] then takes the block for an empty
    one: it reports a log that ends at 0, and the next append overwrites the
    log from its beginning. *)
Theorem load_overwrites_log fuel id dir s es endl buf rb : disk_repr dir s es endl → (length es < fuel)%nat →
  0 < blen buf → 48 + blen buf ≤ PALF_BLOCK_SIZE - SCAN_BUF → blen rb = blen buf →
  ∃ p1 s1 p2 s2 scn p3 s3,
    PalfHandleImpl_init fuel id dir PalfHandleImpl_new s = Done (0, p1, s1)
    ∧ PalfHandleImpl_get_end_lsn p1 = endl
    ∧ PalfHandleImpl_load fuel id dir PalfHandleImpl_new s = Done (0, p2, s2)
    ∧ PalfHandleImpl_get_end_lsn p2 = 0
    ∧ PalfHandleImpl_append buf 0 0 p2 s2 = Done (0, 0, scn, p3, s3)
    ∧ PalfHandleImpl_read 48 (blen buf) rb 0 p3 s3 = Done (0, buf, blen buf, s3).
Proof.
  intros Hdk Hf Hb Hfit Hrb. destruct (palf_recover fuel id dir s es endl Hdk Hf) as (p & s' & Hi & Hr & He & Hd & _).
  destruct Hr as (Hin & Hc & Hls & Hmn & Hmx & Hmax & Hid & Hpr & Hfl & Hbl & Hend & i & f & Hdi & Hino & Hsz & Hfr).
  assert (PALF_BLOCK_SIZE < 2 ^ 27) by done. unfold SCAN_BUF in Hfit.
  pose proof (palf_load_first_block _ _ _ _ _ _ Hi Hmn Hmx) as Hload.
  set (p2 := set_lsns 0 0 p) in *.
  assert (PalfHandleImpl_append buf 0 0 p2 s' = _) as Happ
    by (apply palf_append_frame; cbn; done || lia).
  destruct (appended_wf p2 s' buf ltac:(done) ltac:(cbn; lia) Hid Hpr) as [_ Hpad]. cbn zeta in Happ.
  change (ph_end_lsn_ p2) with 0 in *. change (ph_log_storage_ p2) with (ph_log_storage_ p) in *.
  set (e := appended p2 s' buf) in *. set (s1 := (sys_malloc (48 + blen buf) s').2) in *.
  destruct (lsn_block0 0) as [Hb0 Ho]; [done|].
  destruct (LogStorage_append_ok 0 (frame 0 e) (ph_log_storage_ p) s1 i f)
    as (ls' & Hla & Hls' & Hd' & _ & _); rewrite ?Hb0; try done.
  rewrite Ho in Hla. rewrite Hla in Happ. cbn [Z.eqb] in Happ.
  do 7 eexists. split; [exact Hi|]. split; [exact He|]. split; [exact Hload|]. split; [done|]. split; [exact Happ|].
  unfold PalfHandleImpl_read, LogCache_get. cbn [set_lsns set_storage set_log_id ph_is_inited_ ph_log_cache_ ph_log_storage_ p2].
  rewrite Hin, Hc. cbn [negb mbind outcome_bind Z.eqb].
  apply (read_written_payload ls' _ i f 0 e rb); try done.
  - by rewrite Hd'.
  - cbn [os_inodes set_inodes]. by rewrite lookup_insert_eq.
  - unfold entry_size. cbn. lia.
Qed.

Lemma load_overwrites_log_witness :
  ∃ s p1 s1 p2 s2 scn p3 s3, PalfHandleImpl_init 2 1 "d" PalfHandleImpl_new s = Done (0, p1, s1)
    ∧ PalfHandleImpl_get_end_lsn p1 = 50
    ∧ PalfHandleImpl_load 2 1 "d" PalfHandleImpl_new s = Done (0, p2, s2)
    ∧ PalfHandleImpl_append [5; 6] 0 0 p2 s2 = Done (0, 0, scn, p3, s3)
    ∧ PalfHandleImpl_read 48 2 [1; 1] 0 p3 s3 = Done (0, [5; 6], 2, s3).
Proof.
  destruct (palf_init_fresh 2 1 "d" os_empty) as (p & s & Hi & Hp & He & Hd & _); [done..|lia|].
  pose proof (palf_init_log_id _ _ _ _ _ _ _ Hi eq_refl) as Hid. rewrite He in Hid.
  destruct (palf_append_ok p s [] [8; 9] 0 0 Hp eq_refl) as (p' & s' & _ & Hp' & He' & _ & Hd' & _); [by rewrite He|].
  rewrite Hid in Hp'. destruct (Hp' eq_refl) as (_ & _ & _ & _ & _ & _ & _ & _ & Hdk).
  rewrite Hd', Hd, He', He in Hdk.
  destruct (load_overwrites_log 2 1 "d" s' _ _ [5; 6] [1; 1] Hdk)
    as (p1 & s1 & p2 & s2 & scn & p3 & s3 & H0 & H0' & H1 & _ & H2 & H3); [cbn; lia|done..|].
  exists s', p1, s1, p2, s2, scn, p3, s3. exact (conj H0 (conj H0' (conj H1 (conj H2 H3)))).
Defined.

(** ** Replay through the log service *)

(** Appending records through a handler: the codes. *)
Fixpoint log_appends (recs : list (Z * bytes)) (lg : log_ctx) : outcome (list Z * log_ctx) :=
  match recs with
  | [] => Done ([], lg)
  | (type, buf) :: recs' =>
      x ← log_append buf type lg;
      let '(ret, lg) := x : Z * log_ctx in
      y ← log_appends recs' lg;
      let '(rets, lg) := y : list Z * log_ctx in Done (ret :: rets, lg)
  end.
Definition recs_size (recs : list (Z * bytes)) : Z := foldr (λ r n, 64 + blen r.2 + n) 0 recs.

Lemma recs_size_nonneg recs : 0 ≤ recs_size recs.
Proof.
  induction recs as [|r recs IH]; [done|]. cbn. change (foldr _ 0 recs) with (recs_size recs).
  pose proof (blen_nonneg r.2). lia.
Qed.

Lemma log_appends_spec dir recs lg ops room : log_ctx_holds dir lg ops room →
  Forall (λ r, 0 < blen r.2) recs → recs_size recs ≤ room →
  ∃ lg', log_appends recs lg = Done (replicate (length recs) 0, lg')
    ∧ log_ctx_holds dir lg' (ops ++ recs) (room - recs_size recs).
Proof.
  revert lg ops room. induction recs as [|[t b] recs IH]; intros lg ops room Hh Hb Hr.
  - exists lg. rewrite app_nil_r, Z.sub_0_r. by split.
  - apply Forall_cons in Hb as [Hb0 Hb]. cbn [recs_size foldr snd] in Hr, Hb0.
    change (foldr _ 0 recs) with (recs_size recs) in Hr. pose proof (recs_size_nonneg recs).
    destruct (log_ctx_append_law dir lg ops room t b Hh Hb0 ltac:(lia)) as (lg1 & Ha & _ & Hh1).
    destruct (IH lg1 _ _ Hh1 Hb ltac:(lia)) as (lg2 & Ha2 & Hh2). exists lg2.
    cbn [log_appends]. rewrite Ha. cbn [mbind outcome_bind]. rewrite Ha2. split; [done|].
    rewrite <-app_assoc in Hh2. cbn [recs_size foldr snd]. change (foldr _ 0 recs) with (recs_size recs).
    by replace (room - (64 + blen b + recs_size recs)) with (room - 64 - blen b - recs_size recs) by lia.
Qed.

(** Handlers that record what they are given and answer [code]. *)
Definition recorder (code : Z) : ReplaySubHandlers (list (positive * bytes)) :=
  λ it mem n _ _ st, d ← mem_read 0 n mem; Done (code, st ++ [(it, d)]).

Definition register_all (hs : list (Z * positive)) (h : ObLogHandler) : ObLogHandler :=
  foldl (λ h p, (ObLogHandler_register_replay_handler p.1 p.2 h).2) h hs.
Definition svc_register_all (l : positive) (hs : list (Z * positive)) (v : ObLogService) : ObLogService :=
  set_svc_heap (alter (register_all hs) l (svc_heap v)) v.

(** The handlers a registration leaves, and what a record makes them see. *)
Definition handler_table (hs : list (Z * positive)) : gmap Z positive :=
  foldl (λ m p, <[i16 p.1 := p.2]> m) ∅ hs.
Definition delivery (hs : list (Z * positive)) (r : Z * bytes) : option (positive * bytes) :=
  (λ it, (it, r.2)) <$> handler_table hs !! i16 r.1.

Lemma register_all_table hs h : lh_replay_handlers_ h = ∅ →
  lh_replay_handlers_ (register_all hs h) = handler_table hs.
Proof.
  unfold handler_table. intros <-. revert h.
  induction hs as [|p hs IH]; intros h; cbn [register_all foldl]; [done|]. apply IH.
Qed.

Lemma register_all_repr hs h env s dir es endl id : handler_repr h env s dir es endl id →
  handler_repr (register_all hs h) env s dir es endl id.
Proof. revert h. induction hs as [|p hs IH]; intros h Hh; cbn [register_all foldl]; [done|]. by apply IH. Qed.

(** What replaying one payload appends to the recording. *)
Definition record_step (code : Z) (h : ObLogHandler) (payload : bytes) (st : list (positive * bytes))
    : list (positive * bytes) :=
  match @ObLogHandler_replay _ (recorder code) h (Some payload) (blen payload) 0 0 st with
  | Done (_, st') => st'
  | _ => st
  end.

Lemma recorder_replay code h hs r lsn junk st : lh_replay_handlers_ h = handler_table hs → 0 < blen r.2 →
  ∃ ret, @ObLogHandler_replay _ (recorder code) h (Some (log_payload r.1 r.2 ++ junk)) (16 + blen r.2) lsn 0 st
         = Done (ret, st ++ option_list (delivery hs r)).
Proof.
  intros Hh Hb. rewrite handler_replay_payload, Hh by done. unfold delivery.
  destruct (handler_table hs !! i16 r.1) as [it|]; cbn [fmap option_fmap option_map option_list].
  - unfold replay_sub, recorder, mem_read. pose proof (blen_nonneg junk).
    rewrite blen_app, !(proj2 (Z.leb_le _ _)) by lia. cbn [andb mbind outcome_bind]. rewrite sub_app_l. by eexists.
  - rewrite app_nil_r. by eexists.
Qed.

Lemma record_step_spec code h hs r st : lh_replay_handlers_ h = handler_table hs → 0 < blen r.2 →
  record_step code h (log_payload r.1 r.2) st = st ++ option_list (delivery hs r).
Proof.
  intros Hh Hb. destruct (recorder_replay code h hs r 0 [] st Hh Hb) as [ret E].
  unfold record_step. rewrite blen_log_payload. by rewrite app_nil_r in E; rewrite E.
Qed.

Lemma replay_all_records code h hs es recs st : lh_replay_handlers_ h = handler_table hs → records es recs →
  Forall (λ r, 0 < blen r.2) recs →
  replay_all (record_step code h) es st = st ++ omap (delivery hs) recs.
Proof.
  intros Hh Hrec Hb. unfold records in Hrec. revert es st Hrec.
  induction Hb as [|r recs Hb0 Hb IH]; intros [|e es] st Hrec; try done; [by rewrite app_nil_r|].
  rewrite !fmap_cons in Hrec. injection Hrec as He Hrec. cbn [replay_all foldl]. rewrite He.
  rewrite (record_step_spec _ _ hs) by done. etrans; [apply (IH es _ Hrec)|].
  rewrite <-app_assoc. f_equal. cbn. by destruct (delivery hs r).
Qed.


