(* ===== verification/Ddl.v ===== *)
(** * The DDL service

    Models [src/src/rootserver]: [ob_ddl_operator.h/.cpp] and
    [ob_ddl_service.h/.cpp].  A database is created by appending a record to
    the log stream of DDL operations, adding it to the schema service, appending
    a block that describes it to [block_file] and writing a storage log entry;
    after a restart [recover_schema] replays the two logs.  The schema service
    is a singleton: it is an argument and a result of the operations. *)

From S2P Require Import Prelude Pod Posix BlockFormat Schema Slog LogEntry LogStorage Palf LogService.

(** ** ObDDLOperator *)

(** [create_database]: the code, [database_id]. *)
Definition ObDDLOperator_create_database (db_name : bytes) (database_id : Z) (v : ObSchemaService)
    : outcome (Z * Z * ObSchemaService) :=
  r ← ObSchemaService_get_database_schema db_name v;
  match r with
  | Some _ => Done (-1, database_id, v)
  | None => Done (ObSchemaService_create_database db_name v)
  end.

(** [create_table]: the code, [table_schema], [table_id]. *)
Definition ObDDLOperator_create_table (t : ObTableSchema) (table_id : Z) (v : ObSchemaService)
    : Z * ObTableSchema * Z * ObSchemaService :=
  let '(ret, t, v) := ObSchemaService_create_table t v in
  if ret <? 0 then (ret, t, table_id, v) else (0, t, ret, v).

(** ** ObDDLService *)

Record ObDDLService := mkDdl {
  dd_log_service_ : option ObLogService;
  dd_log_handler_ : option positive;
  dd_slog_logger_ : ObStorageLogger;
  dd_base_dir_ : string;
  dd_is_inited_ : bool }.
Definition ObDDLService_new : ObDDLService := mkDdl None None ObStorageLogger_new EmptyString false.
Definition DDL_LS_ID : Z := 1.

(** The object registered as replay handler. *)
Definition ddl_this : positive := 1.

(** [init].  Making the directories is not modelled; the failure of an [open]
    in a missing one is a fault of the operating system. *)
Definition ObDDLService_init (fuel : nat) (base_dir : string) (d : ObDDLService) (s : os)
    : outcome (Z * ObDDLService * os) :=
  if dd_is_inited_ d then Done (0, d, s)
  else
    let '(ret, svc) := ObLogService_init base_dir ObLogService_new in
    if negb (ret =? 0) then Done (ret, mkDdl (Some svc) (dd_log_handler_ d) (dd_slog_logger_ d) base_dir false, s)
    else
      let '(ret, svc) := ObLogService_start svc in
      if negb (ret =? 0) then Done (ret, mkDdl (Some svc) (dd_log_handler_ d) (dd_slog_logger_ d) base_dir false, s)
      else
        x ← ObLogService_open_ls fuel DDL_LS_ID (dd_log_handler_ d) svc s;
        let '(ret, handler, svc, s) := x : Z * option positive * ObLogService * os in
        if negb (ret =? 0) then Done (ret, mkDdl (Some svc) handler (dd_slog_logger_ d) base_dir false, s)
        else
          l ← deref handler;
          h ← deref (svc_heap svc !! l);
          let '(_, h) := ObLogHandler_register_replay_handler DDL_LOG_BASE_TYPE ddl_this h in
          let svc := set_svc_heap (<[l := h]> (svc_heap svc)) svc in
          let '(_, slog, s) := ObStorageLogger_init (base_dir +:+ "/slog")%string (dd_slog_logger_ d) s in
          Done (0, mkDdl (Some svc) handler slog base_dir true, s).

(** Appending a record through [log_handler_]. *)
Definition ddl_append (log_buf : bytes) (d : ObDDLService) (s : os) : outcome (Z * ObDDLService * os) :=
  svc ← deref (dd_log_service_ d);
  l ← deref (dd_log_handler_ d);
  h ← deref (svc_heap svc !! l);
  x ← ObLogHandler_append h (Some log_buf) (blen log_buf) DDL_LOG_BASE_TYPE LSN_default 0 (svc_palf_env_ svc) s;
  let '(ret, _, _, env, s) := x : Z * LSN * Z * PalfEnvImpl * os in
  Done (ret, mkDdl (Some (set_svc_env env svc)) (dd_log_handler_ d) (dd_slog_logger_ d) (dd_base_dir_ d) (dd_is_inited_ d), s).

(** The block written for a database: [calloc]'ed, with the three headers, the
    schema of the database and the payload size patched in at the end. *)
Definition MACRO_SIZE : Z := 2 * 1024 * 1024.
Definition calloc (n : Z) : bytes := replicate (Z.to_nat n) 0.
Definition db_micro_header (len : Z) : ObMicroBlockHeader :=
  let h := ObMicroBlockHeader_reset ObMicroBlockHeader_default in
  mkMicroHeader MICRO_BLOCK_HEADER_MAGIC (mh_version_ h) 56 (mh_header_checksum_ h) 1 (mh_rowkey_column_count_ h)
    (mh_flags h) 1 0 (mh_flat h) (mh_compressor_type_ h) (mh_cs_reserved_ h) (u32 len) (mh_original_length_ h)
    (mh_max_merged_trans_version_ h) (i32 len) (i32 len) (mh_data_checksum_ h).
Definition db_common_header : ObMacroBlockCommonHeader :=
  let h := ObMacroBlockCommonHeader_default in
  mkCommonHeader 24 MACRO_BLOCK_COMMON_HEADER_VERSION MACRO_BLOCK_COMMON_HEADER_MAGIC MacroBlockType_SSTableData
    (ch_payload_size_ h) (ch_payload_checksum_ h).
Definition db_fixed_header (database_id len : Z) : FixedHeader :=
  let h := FixedHeader_default in
  mkFixedHeader 88 (fh_version_ h) SSTABLE_MACRO_BLOCK_HEADER_MAGIC database_id (fh_logical_version_ h) (fh_data_seq_ h)
    1 (fh_rowkey_column_count_ h) 0 1 (i32 len) 1 (24 + 88) (i32 (56 + len)) (fh_idx_block_offset_ h)
    (fh_idx_block_size_ h) (fh_meta_block_offset_ h) (fh_meta_block_size_ h) (fh_data_checksum_ h).

Definition db_macro_block (db_name : bytes) (database_id : Z) : outcome bytes :=
  let db_schema := ObDatabaseSchema_set_database_name (Some db_name)
                     (ObDatabaseSchema_set_database_id database_id ObDatabaseSchema_new) in
  x ← ObDatabaseSchema_serialize db_schema (calloc ObDatabaseSchema_get_serialize_size)
        ObDatabaseSchema_get_serialize_size 0;
  let '(_, schema_buf, _) := x : Z * bytes * Z in
  let len := blen schema_buf in
  let macro_buf := calloc MACRO_SIZE in
  x ← ObMacroBlockCommonHeader_serialize db_common_header macro_buf MACRO_SIZE 0;
  let '(_, macro_buf, offset) := x : Z * bytes * Z in
  x ← ObSSTableMacroBlockHeader_serialize (mkMacroHeader (db_fixed_header database_id len)) macro_buf MACRO_SIZE offset;
  let '(_, macro_buf, offset) := x : Z * bytes * Z in
  x ← ObMicroBlockHeader_serialize (db_micro_header len) macro_buf MACRO_SIZE offset;
  let '(_, macro_buf, offset) := x : Z * bytes * Z in
  macro_buf ← mem_write offset schema_buf macro_buf;
  let payload_size := offset + len - 24 in
  mem_write 16 (le_enc 4 (i32 payload_size)) macro_buf.

Definition block_file_path (base_dir : string) : string := (base_dir +:+ "/sstable/block/block_file")%string.

(** Appending it to [block_file]; the result of [write] is ignored. *)
Definition write_db_block (db_name : bytes) (database_id : Z) (d : ObDDLService) (s : os) : outcome os :=
  let '(fd, s) := sys_open (block_file_path (dd_base_dir_ d)) true false s in
  match fd with
  | None => Done s
  | Some i => macro_buf ← db_macro_block db_name database_id; Done (sys_append i macro_buf s).2
  end.

(** The record of CREATE DATABASE. *)
Definition db_log_record (db_name : bytes) : bytes := le_enc 8 1 ++ le_enc 8 (blen db_name) ++ db_name.

(** [create_database]: the code, [database_id]. *)
Definition ObDDLService_create_database (db_name : bytes) (database_id : Z) (d : ObDDLService) (v : ObSchemaService)
    (s : os) : outcome (Z * Z * ObDDLService * ObSchemaService * os) :=
  if negb (dd_is_inited_ d) || bool_decide (dd_log_handler_ d = None) then Done (-1, database_id, d, v, s)
  else
    x ← ddl_append (db_log_record db_name) d s;
    let '(ret, d, s) := x : Z * ObDDLService * os in
    if negb (ret =? 0) then Done (ret, database_id, d, v, s)
    else
      x ← ObDDLOperator_create_database db_name database_id v;
      let '(ret, database_id, v) := x : Z * Z * ObSchemaService in
      if negb (ret =? 0) then Done (ret, database_id, d, v, s)
      else
        s ← write_db_block db_name database_id d s;
        x ← ObStorageLogger_write_log (mkLogParam 1 SLOG_CREATE_DATABASE (Some db_name) (blen db_name))
              (dd_slog_logger_ d) s;
        let '(_, s) := x : Z * os in
        Done (0, database_id, d, v, s).

(** [create_table]: the code, the caller's schema, [table_id]. *)
Definition table_log_record (tbl_name : bytes) (db_id : Z) : bytes :=
  le_enc 8 3 ++ le_enc 8 (blen tbl_name) ++ tbl_name ++ le_enc 8 db_id.
Definition ObDDLService_create_table (t : ObTableSchema) (table_id : Z) (d : ObDDLService) (v : ObSchemaService) (s : os)
    : outcome (Z * ObTableSchema * Z * ObDDLService * ObSchemaService * os) :=
  if negb (dd_is_inited_ d) || bool_decide (dd_log_handler_ d = None) then Done (-1, t, table_id, d, v, s)
  else
    tbl_name ← ObTableSchema_get_table_name t;
    x ← ddl_append (table_log_record tbl_name (ts_database_id_ t)) d s;
    let '(ret, d, s) := x : Z * ObDDLService * os in
    if negb (ret =? 0) then Done (ret, t, table_id, d, v, s)
    else let '(ret, t, table_id, v) := ObDDLOperator_create_table t table_id v in
         Done (ret, t, table_id, d, v, s).

(** [replay]: [mem] is the memory the buffer pointer points into; the name is
    copied into an array of 256 bytes. *)
Fixpoint until_nul (b : bytes) : bytes :=
  match b with [] => [] | x :: b' => if x =? 0 then [] else x :: until_nul b' end.
Definition ObDDLService_replay (buffer : option bytes) (nbytes : Z) (v : ObSchemaService) : outcome (Z * ObSchemaService) :=
  match buffer with
  | None => Done (-1, v)
  | Some mem =>
      if nbytes <=? 0 then Done (-1, v)
      else
        ty ← mem_read 0 8 mem;
        ln ← mem_read 8 8 mem;
        let type := le_dec ty in
        let name_len := le_dec ln in
        chars ← mem_read 16 name_len mem;
        name ← mem_write 0 chars (calloc 256);
        if type =? 1 then
          db_name ← cstr name;
          x ← ObDDLOperator_create_database db_name 0 v;
          let '(_, _, v) := x : Z * Z * ObSchemaService in Done (0, v)
        else if type =? 3 then
          db ← mem_read (16 + name_len) 8 mem;
          let ts := ObTableSchema_set_database_id (le_dec db)
                      (ObTableSchema_set_table_name (Some (until_nul name)) ObTableSchema_new) in
          let '(_, _, _, v) := ObDDLOperator_create_table ts 0 v in Done (0, v)
        else Done (0, v)
  end.

(** The service as the replay handler of its log stream. *)
#[export] Instance ddl_replays : ReplaySubHandlers ObSchemaService := λ _ mem nbytes _ _ v,
  ObDDLService_replay (Some mem) nbytes v.

(** The callback for storage log entries. *)
Definition slog_callback (e : ObStorageLogEntry) (v : outcome ObSchemaService) : outcome ObSchemaService :=
  v ← v;
  if se_log_type_ e =? SLOG_CREATE_DATABASE then
    data ← mem_read 0 (se_data_len_ e) (se_data_ e);
    x ← ObDDLOperator_create_database (until_nul data) 0 v;
    let '(_, _, v) := x : Z * Z * ObSchemaService in Done v
  else Done v.

Definition ObDDLService_recover_schema (fuel : nat) (d : ObDDLService) (v : ObSchemaService) (s : os)
    : outcome (Z * ObSchemaService * os) :=
  match dd_is_inited_ d, dd_log_service_ d with
  | true, Some svc =>
      x ← ObLogService_replay_ls fuel DDL_LS_ID svc s v;
      let '(ret, s, v) := x : Z * os * ObSchemaService in
      if negb (ret =? 0) then Done (0, v, s)
      else
        y ← ObStorageLogger_replay fuel (Done v) (Some slog_callback) (dd_slog_logger_ d) s;
        let '(_, v, s) := y : Z * outcome ObSchemaService * os in
        v ← v; Done (0, v, s)
  | _, _ => Done (0, v, s)
  end.

(** ** The server's start ([init_global_objects]) *)

Definition sys_name : bytes := [115; 121; 115].
Definition init_global_objects (fuel : nat) (s : os) : outcome (Z * ObDDLService * ObSchemaService * os) :=
  x ← ObDDLService_init fuel "miniob/store" ObDDLService_new s;
  let '(_, ddl, s) := x : Z * ObDDLService * os in
  y ← ObDDLService_recover_schema fuel ddl ObSchemaService_new s;
  let '(recovered, schema, s) := y : Z * ObSchemaService * os in
  missing ← (if recovered =? 0 then Done true
             else g ← ObSchemaService_get_database_schema sys_name schema; Done (bool_decide (g = None)));
  if (missing : bool) then
    z ← ObDDLService_create_database sys_name 0 ddl schema s;
    let '(_, _, ddl, schema, s) := z : Z * Z * ObDDLService * ObSchemaService * os in
    Done (0, ddl, schema, s)
  else Done (0, ddl, schema, s).

(** ** Creating a database in the schema *)

Definition db_name_ok (name : bytes) : Prop := cstr_wf name ∧ blen name ≤ 127.
Definition ids_left (n : nat) (v : ObSchemaService) : Prop := ss_next_database_id_ v + Z.of_nat n < 2 ^ 63.

(** What [create_database] does to the schema, and its code. *)
Definition apply_create (v : ObSchemaService) (name : bytes) : ObSchemaService :=
  match ObDDLOperator_create_database name 0 v with Done (_, _, v') => v' | _ => v end.

Lemma sub_short (name : bytes) : blen name ≤ 127 → sub 0 127 name = name.
Proof. intros H. unfold sub, blen in *. rewrite drop_0, take_ge; [done|lia]. Qed.

Lemma operator_create_spec name id v : db_inv v → cstr_wf name → ids_left 1 v →
  (has_db v name ∧ ObDDLOperator_create_database name id v = Done (-1, id, v) ∧ apply_create v name = v)
  ∨ (¬ has_db v name ∧ ObDDLOperator_create_database name id v = Done (0, ss_next_database_id_ v, apply_create v name)
     ∧ db_inv (apply_create v name) ∧ ss_next_database_id_ (apply_create v name) = ss_next_database_id_ v + 1
     ∧ ∀ n, has_db (apply_create v name) n ↔ n = sub 0 127 name ∨ has_db v n).
Proof.
  intros Hv Hn Hid. unfold apply_create, ObDDLOperator_create_database.
  destruct (get_database_spec name v Hv) as [(d & -> & Hd & k & Hk)|[-> Hno]]; cbn [mbind outcome_bind].
  - left. split; [|done]. by exists k, d.
  - right. split; [done|]. pose proof (create_database_inv name v Hv Hn ltac:(unfold ids_left in Hid; lia)) as H.
    destruct (ObSchemaService_create_database name v) as [[ret i] v']. destruct H as (-> & -> & H2 & H3 & H4). done.
Qed.

Lemma apply_create_inv name v n : db_inv v → cstr_wf name → ids_left (S n) v →
  db_inv (apply_create v name) ∧ ids_left n (apply_create v name)
  ∧ (∀ x, has_db v x → has_db (apply_create v name) x)
  ∧ (blen name ≤ 127 → has_db (apply_create v name) name).
Proof.
  intros Hv Hn Hid. unfold ids_left in *.
  destruct (operator_create_spec name 0 v Hv Hn) as [(H1 & _ & ->)|(_ & _ & H2 & H3 & H4)]; [unfold ids_left; lia| |].
  - split; [done|]. split; [lia|]. done.
  - split; [done|]. split; [lia|]. split; [intros x Hx; apply H4; by right|]. intros Hl. apply H4. left.
    by rewrite sub_short.
Qed.

(** ** The records *)

Lemma blen_db_log_record name : blen (db_log_record name) = 16 + blen name.
Proof. unfold db_log_record. rewrite !blen_app, !blen_le_enc. lia. Qed.

Lemma db_record_read name junk : blen name < 2 ^ 64 →
  mem_read 0 8 (db_log_record name ++ junk) = Done (le_enc 8 1)
  ∧ mem_read 8 8 (db_log_record name ++ junk) = Done (le_enc 8 (blen name))
  ∧ mem_read 16 (blen name) (db_log_record name ++ junk) = Done name.
Proof.
  intros Hl. unfold db_log_record. rewrite <-!app_assoc. split_and!.
  - by apply (mem_read_app 0 8 []).
  - by apply (mem_read_app 8 8 (le_enc 8 1)).
  - rewrite (app_assoc (le_enc 8 1)). apply (mem_read_app 16 _ (le_enc 8 1 ++ le_enc 8 (blen name))); [|done].
    rewrite blen_app, !blen_le_enc. done.
Qed.

Lemma blen_calloc n : 0 ≤ n → blen (calloc n) = n.
Proof. intros. unfold calloc, blen. rewrite length_replicate. lia. Qed.

Lemma calloc_split n k : 0 ≤ k ≤ n → calloc n = calloc k ++ calloc (n - k).
Proof. intros. unfold calloc. rewrite <-replicate_add. f_equal. lia. Qed.

#[global] Opaque calloc.

(** The name read from the 256-byte array. *)
Lemma replay_name name : cstr_wf name → blen name ≤ 255 →
  (n ← mem_write 0 name (calloc 256); cstr n) = Done name.
Proof.
  intros Hn Hl. pose proof (blen_nonneg name). rewrite mem_write_ok by (rewrite ?blen_calloc; lia).
  cbn [mbind outcome_bind]. rewrite (calloc_split 256 (blen name)) by lia.
  change (calloc (blen name) ++ calloc (256 - blen name)) with ([] ++ calloc (blen name) ++ calloc (256 - blen name)).
  rewrite splice_eq by (rewrite ?blen_calloc; done). cbn [app].
  rewrite (calloc_split (256 - blen name) 1) by lia. apply cstr_app.
  eapply Forall_impl; [exact Hn|]. cbn. lia.
Qed.

(** Stored names are C strings: nothing the operator does reads outside them. *)
Definition names_ok (v : ObSchemaService) : Prop :=
  ∀ k d, ss_databases_ v !! k = Some d → ∃ n, cstr (ds_database_name_ d) = Done n.

Lemma db_inv_names v : db_inv v → names_ok v.
Proof. intros [_ H] k d Hk. destruct (H k d Hk) as (_ & n & Hn & _). eauto. Qed.

Lemma find_named_total {A} (name_of : A → bytes) name l :
  Forall (λ e, ∃ n, cstr (name_of e.2) = Done n) l → ∃ r, find_named name_of name l = Done r.
Proof.
  induction 1 as [|[k x] l [n Hn] Hl [r IH]]; [by eexists|]. cbn [find_named]. cbn in Hn. rewrite Hn. cbn [mbind outcome_bind].
  case_bool_decide; eauto.
Qed.

Lemma operator_create_total name id v : names_ok v → cstr_wf name →
  ∃ ret id', ObDDLOperator_create_database name id v = Done (ret, id', apply_create v name)
    ∧ names_ok (apply_create v name).
Proof.
  intros Hv Hn. unfold apply_create, ObDDLOperator_create_database, ObSchemaService_get_database_schema.
  destruct (find_named_total ds_database_name_ name (map_to_list (ss_databases_ v))) as [r ->].
  { apply Forall_forall. intros [k d] Hkd%elem_of_map_to_list. exact (Hv k d Hkd). }
  cbn [mbind outcome_bind]. destruct r as [[k d]|]; cbn [option_map]; [by do 2 eexists|].
  do 2 eexists. split; [done|]. intros k d Hk. unfold ObSchemaService_create_database in Hk. cbn [ss_databases_] in Hk.
  apply lookup_insert_Some in Hk as [[_ <-]|[_ Hk]]; [|by eapply Hv].
  exists (sub 0 127 name). exact (proj1 (set_name_cstr name Hn)).
Qed.

Lemma ddl_replay_record name junk n v : cstr_wf name → blen name ≤ 255 → 0 < n → names_ok v →
  ObDDLService_replay (Some (db_log_record name ++ junk)) n v = Done (0, apply_create v name)
  ∧ names_ok (apply_create v name).
Proof.
  intros Hn Hl Hpos Hv. unfold ObDDLService_replay. rewrite (proj2 (Z.leb_gt _ _)) by lia.
  destruct (db_record_read name junk) as (-> & -> & H3); [lia|]. cbn [mbind outcome_bind].
  pose proof (blen_nonneg name). rewrite !(le_dec_enc_small 8) by lia. rewrite H3. cbn [mbind outcome_bind].
  change (1 =? 1) with true. cbn match.
  pose proof (replay_name name Hn Hl) as Hr. destruct (mem_write 0 name (calloc 256)) as [nm| | |]; try done.
  cbn [mbind outcome_bind] in Hr |- *. rewrite Hr. cbn [mbind outcome_bind].
  destruct (operator_create_total name 0 v Hv Hn) as (ret & id' & -> & Hok). done.
Qed.

(** ** Frames: files the other components keep *)

Lemma handler_repr_touch p h env s s' dir es endl id : handler_repr h env s dir es endl id → touches p s s' →
  (∀ k, p ≠ block_path dir k) → handler_repr h env s' dir es endl id.
Proof.
  intros (Hin & l & q & Hl & Hq & Hrep & He & Hid & Hdir) Ht Hp. split; [done|]. exists l, q. split_and!; try done.
  destruct Hrep as (Hi & Hc & Hls & Hmn & Hmx & Hmax & Hlid & Hpr & Hfl & Hbl & Hend & i & f & Hd & Hf & Hsz & Hfr).
  rewrite Hdir in *. destruct (touches_file p (block_path dir 0) i s s' Ht (not_eq_sym (Hp 0)) Hd) as [Hd' Hf'].
  destruct Ht as (_ & Hflt & Hq').
  assert (∀ k, os_dir s' !! block_path dir k = os_dir s !! block_path dir k) as Hsame.
  { intros k. by apply Hq', not_eq_sym. }
  split; [done|]. split; [done|]. split.
  { destruct Hls as (Hls1 & Hls2 & Hls3). split; [done|]. split; [done|]. intros Hcur.
    destruct (Hls3 Hcur) as (j & Hj & Hdj). exists j. split; [done|]. rewrite Hdir in *. by rewrite Hsame. }
  do 5 (split; [done|]). rewrite Hdir. split; [congruence|]. split.
  { destruct Hbl as [Hb1 Hb2].
    split; [intros k Hk; rewrite <-(Hb1 k Hk)|rewrite <-Hb2]; apply bool_decide_ext; by rewrite Hsame. }
  split; [done|]. exists i, f. by rewrite Hd', Hf'.
Qed.

Lemma slog_repr_touch p l s s' data : slog_repr l s data → touches p s s' → p ≠ sl_slog_file_path_ l →
  slog_repr l s' data.
Proof.
  intros (Hin & i & f & Hfd & Hd & Hi & H) Ht Hp. split; [done|]. exists i, f.
  destruct (touches_file p _ i s s' Ht (not_eq_sym Hp) Hd) as [-> ->]. done.
Qed.

(** Storage log writes touch only their file. *)
Lemma slog_write_touches p l s data : slog_repr l s data → os_faults s = [] → os_wf s → log_param_wf p →
  ∃ s', ObStorageLogger_write_log p l s = Done (0, s') ∧ slog_repr l s' (data ++ slog_entry_bytes (slog_entry_of p))
    ∧ touches (sl_slog_file_path_ l) s s'.
Proof.
  intros Hr Hf Hw Hp. destruct (slog_write_ok p l s data Hr Hf Hp) as (s' & E & _ & Hr'). exists s'.
  split_and!; [done..|]. destruct Hr as (Hin & i & f & Hfd & Hd & Hi & Hsz & Hb).
  rewrite (write_log_buffer p l s i) in E by done. unfold sys_append in E.
  cbn [sys_malloc snd os_inodes] in E. rewrite Hi, (sys_write_ok _ i f) in E by done. injection E as _ <-.
  eapply touches_trans; [by apply (touches_malloc _ (24 + lp_data_len_ p))|].
  exact (touches_insert _ i _ (sys_malloc (24 + lp_data_len_ p) s).2 Hw Hd).
Qed.

(** ** The block of a database *)

(** The block: headers, the schema of the database, zeros. *)
Definition db_schema_of (name : bytes) (id : Z) : ObDatabaseSchema := mkDatabase id (strncpy name_array name 127).
Definition db_block_of (name : bytes) (id : Z) : bytes :=
  let ch := db_common_header in
  common_header_bytes (mkCommonHeader (ch_header_size_ ch) (ch_version_ ch) (ch_magic_ ch) (ch_attr_ ch) 280
                         (ch_payload_checksum_ ch))
  ++ fixed_header_bytes (db_fixed_header id 136) ++ micro_header_bytes (db_micro_header 136)
  ++ database_bytes (db_schema_of name id) ++ calloc (MACRO_SIZE - 304).

(** Writing a structure over the zeros that follow. *)
Lemma pod_serialize_zeros {A} `{!Pod A} (a : A) pre n buf_len : pod_size ≤ n → buf_len = blen pre + n →
  pod_serialize a (pre ++ calloc n) buf_len (blen pre)
  = Done (0, (pre ++ pod_enc a) ++ calloc (n - pod_size), blen (pre ++ pod_enc a)).
Proof.
  intros Hn ->. pose proof (pod_size_nonneg a). pose proof (blen_nonneg pre).
  rewrite pod_serialize_ok by (rewrite ?blen_app, ?blen_calloc; lia).
  rewrite (calloc_split n pod_size) by lia. rewrite splice_eq by (rewrite ?blen_calloc, ?pod_len; lia).
  by rewrite app_assoc, blen_app, pod_len.
Qed.

Lemma db_macro_block_eq name id : db_macro_block name id = Done (db_block_of name id).
Proof.
  unfold db_macro_block, db_block_of, ObDatabaseSchema_serialize, ObDatabaseSchema_get_serialize_size.
  assert (304 ≤ MACRO_SIZE) as HM by done. revert HM. generalize MACRO_SIZE as M. intros M HM.
  set (db := ObDatabaseSchema_set_database_name _ _). change (calloc 136) with ([] ++ calloc 136).
  change (pod_serialize db ([] ++ calloc 136) 136 0) with (pod_serialize db ([] ++ calloc 136) 136 (blen (@nil Z))).
  rewrite pod_serialize_zeros by (rewrite ?blen_nil; cbn [pod_size database_pod]; lia).
  cbn [mbind outcome_bind app pod_size database_pod pod_enc]. change (136 - 136) with 0. change (calloc 0) with (@nil Z).
  rewrite app_nil_r. assert (blen (database_bytes db) = 136) as Hdb by exact (pod_len db). rewrite Hdb.
  unfold ObMacroBlockCommonHeader_serialize, ObSSTableMacroBlockHeader_serialize, ObMicroBlockHeader_serialize.
  change (pod_serialize db_common_header (calloc M) M 0)
    with (pod_serialize db_common_header ([] ++ calloc M) M (blen (@nil Z))).
  rewrite pod_serialize_zeros by (rewrite ?blen_nil; cbn [pod_size common_header_pod]; lia).
  cbn [mbind outcome_bind app pod_size common_header_pod pod_enc]. set (c := common_header_bytes db_common_header).
  assert (blen c = 24) as Hc by done.
  rewrite pod_serialize_zeros by (rewrite ?Hc; cbn [pod_size fixed_header_pod]; lia).
  cbn [mbind outcome_bind pod_size fixed_header_pod pod_enc fixed_header_]. set (fh := fixed_header_bytes _).
  assert (blen fh = 88) as Hfh by exact (pod_len (db_fixed_header id 136)).
  rewrite pod_serialize_zeros by (rewrite ?blen_app, ?Hc, ?Hfh; cbn [pod_size micro_header_pod]; lia).
  cbn [mbind outcome_bind pod_size micro_header_pod pod_enc]. set (mh := micro_header_bytes _).
  assert (blen mh = 56) as Hmh by exact (pod_len (db_micro_header 136)).
  assert (blen ((c ++ fh) ++ mh) = 168) as H168 by (rewrite !blen_app; lia). rewrite H168.
  replace (M - 24 - 88 - 56) with (M - 168) by lia.
  rewrite (calloc_split (M - 168) 136) by lia.
  rewrite mem_write_ok by (rewrite ?blen_app, ?blen_calloc, ?Hdb by lia; rewrite ?blen_app in H168; lia).
  cbn [mbind outcome_bind]. rewrite splice_eq by (rewrite ?blen_calloc; done).
  change (i32 (168 + 136 - 24)) with 280. replace (M - 168 - 136) with (M - 304) by lia.
  set (rest := calloc (M - 304)).
  assert (c = sub 0 16 c ++ sub 16 4 c ++ sub 20 4 c) as Ec by reflexivity.
  rewrite <-!app_assoc, Ec, <-!app_assoc. pose proof (blen_nonneg fh). pose proof (blen_nonneg mh). pose proof (blen_nonneg rest).
  rewrite mem_write_ok, splice_eq by (rewrite ?blen_app; try reflexivity; change (blen (sub 0 16 c)) with 16;
    change (blen (sub 16 4 c)) with 4; change (blen (sub 20 4 c)) with 4; change (blen (le_enc 4 280)) with 4; lia).
  rewrite (app_assoc (le_enc 4 280)), (app_assoc (sub 0 16 c)). by f_equal.
Qed.

Lemma blen_db_block name id : blen (db_block_of name id) = MACRO_SIZE.
Proof.
  unfold db_block_of. rewrite !blen_app, blen_calloc by done.
  assert (blen (fixed_header_bytes (db_fixed_header id 136)) = 88) as -> by exact (pod_len (db_fixed_header id 136)).
  assert (blen (micro_header_bytes (db_micro_header 136)) = 56) as -> by exact (pod_len (db_micro_header 136)).
  assert (blen (database_bytes (db_schema_of name id)) = 136) as -> by exact (pod_len (db_schema_of name id)).
  change (blen (common_header_bytes _)) with 24. lia.
Qed.

(** Appending the block touches only [block_file]. *)
Lemma write_db_block_ok name id d s : os_wf s → os_faults s = [] →
  ∃ s', write_db_block name id d s = Done s' ∧ touches (block_file_path (dd_base_dir_ d)) s s'.
Proof.
  intros Hw Hf. unfold write_db_block.
  destruct (sys_open_touches (block_file_path (dd_base_dir_ d)) s Hw Hf) as (i & f & s1 & -> & Ht & Hd & Hi).
  rewrite db_macro_block_eq. cbn [mbind outcome_bind]. eexists. split; [done|].
  eapply touches_trans; [exact Ht|]. unfold sys_append.
  rewrite (sys_write_ok s1 i f); [|destruct Ht as (_ & -> & _); done|done]. apply touches_insert; [apply Ht|done].
Qed.

(** ** Creating databases *)

Definition db_record (name : bytes) : Z * bytes := (DDL_LOG_BASE_TYPE, db_log_record name).
Definition db_param (name : bytes) : ObStorageLogParam := mkLogParam 1 SLOG_CREATE_DATABASE (Some name) (blen name).
Definition slog_path (base : string) : string := (base +:+ "/slog" +:+ "/slog_0")%string.

(** A running service whose log stream holds [names] and whose storage log
    holds [created]; [room] bytes of the first log block are left. *)
Definition ddl_repr (base : string) (d : ObDDLService) (s : os) (names created : list bytes) (room : Z) : Prop :=
  dd_is_inited_ d = true ∧ dd_base_dir_ d = base ∧ os_wf s ∧ os_faults s = []
  ∧ slog_repr (dd_slog_logger_ d) s (entries_bytes (db_param <$> created))
  ∧ sl_slog_file_path_ (dd_slog_logger_ d) = slog_path base
  ∧ ∃ svc l h es endl id, dd_log_service_ d = Some svc ∧ dd_log_handler_ d = Some l ∧ svc_heap svc !! l = Some h
      ∧ handler_repr h (svc_palf_env_ svc) s (ls_dir base DDL_LS_ID) es endl id
      ∧ records es (db_record <$> names) ∧ room = PALF_BLOCK_SIZE - SCAN_BUF - endl ∧ id + room < 2 ^ 62
      ∧ svc_handlers_ svc !! DDL_LS_ID = Some l ∧ lh_replay_handlers_ h = {[DDL_LOG_BASE_TYPE := ddl_this]}.

(** The files of the service have different names. *)
Lemma log_block_path base k : block_path (ls_dir base DDL_LS_ID) k = (base +:+ ("/logdata/1/" +:+ pretty (Z.to_N k)))%string.
Proof.
  unfold block_path, ls_dir, ls_log_dir, service_at. cbn [ObLogService_init ObLogService_new svc_is_inited_ PalfEnvImpl_init
    svc_palf_env_ PalfEnvImpl_new pe_is_inited_ snd Z.eqb negb pe_log_dir_]. by rewrite !string_app_assoc.
Qed.

Lemma ddl_paths base k :
  slog_path base ≠ block_path (ls_dir base DDL_LS_ID) k ∧ block_file_path base ≠ block_path (ls_dir base DDL_LS_ID) k
  ∧ block_file_path base ≠ slog_path base.
Proof.
  rewrite log_block_path. unfold slog_path, block_file_path.
  split_and!; intros H%(inj (String.append base)); discriminate H.
Qed.

Lemma db_param_wf name : blen name < 2 ^ 31 - 24 → log_param_wf (db_param name).
Proof. intros H. unfold log_param_wf, db_param, i32_range, SLOG_CREATE_DATABASE. cbn. split_and!; done || lia. Qed.

Lemma ddl_append_ok base d s names created room name : ddl_repr base d s names created room → 80 + blen name ≤ room →
  ∃ d' s', ddl_append (db_log_record name) d s = Done (0, d', s')
    ∧ dd_slog_logger_ d' = dd_slog_logger_ d
    ∧ ddl_repr base d' s' (names ++ [name]) created (room - 80 - blen name).
Proof.
  intros (Hin & Hbase & Hw & Hf & Hslog & Hpath & svc & l & h & es & endl & id & Hsvc & Hl & Hh & Hrep & Hrec & Hroom & Hid & Hhs & Hrh) Hfit.
  unfold ddl_append. rewrite Hsvc, Hl. cbn [deref mbind outcome_bind]. rewrite Hh. cbn [deref mbind outcome_bind].
  pose proof (blen_nonneg name). pose proof (blen_db_log_record name) as Hlen.
  destruct (log_append_ok _ _ _ _ _ _ _ (db_log_record name) DDL_LOG_BASE_TYPE LSN_default 0 Hrep)
    as (env & s' & e & -> & He & Hrep' & Ht); [lia..|]. specialize (Ht Hw). cbn [mbind outcome_bind].
  do 2 eexists. split; [done|]. split; [done|]. destruct (ddl_paths base 0) as (Hp1 & _ & _).
  split; [done|]. split; [done|]. split; [apply Ht|]. split; [destruct Ht as (_ & -> & _); done|].
  split; [apply (slog_repr_touch _ (dd_slog_logger_ d) s s' _ Hslog Ht); rewrite Hpath; by apply not_eq_sym|]. split; [done|].
  eexists _, l, h, (es ++ [e]), _, _. split; [done|]. split; [done|]. split; [done|]. split; [exact Hrep'|].
  split; [|split; [lia|]; split; [lia|done]]. unfold records in *.
  rewrite !fmap_app, Hrec. cbn [fmap list_fmap db_record fst snd]. by rewrite He.
Qed.

Lemma create_database_ok base d s names created room name id0 v : ddl_repr base d s names created room →
  db_inv v → cstr_wf name → ids_left 1 v → blen name < 2 ^ 30 → 80 + blen name ≤ room →
  ∃ ret id d' s', ObDDLService_create_database name id0 d v s = Done (ret, id, d', apply_create v name, s')
    ∧ ((ret = -1 ∧ has_db v name ∧ ddl_repr base d' s' (names ++ [name]) created (room - 80 - blen name))
       ∨ (ret = 0 ∧ id = ss_next_database_id_ v ∧ ¬ has_db v name
          ∧ ddl_repr base d' s' (names ++ [name]) (created ++ [name]) (room - 80 - blen name))).
Proof.
  intros Hrep Hv Hn Hids Hlen Hfit. unfold ObDDLService_create_database.
  destruct (ddl_append_ok _ _ _ _ _ _ name Hrep Hfit) as (d1 & s1 & -> & Hsl & Hrep1).
  destruct Hrep as (-> & _ & _ & _ & _ & _ & svc & l & h & es & endl & id & _ & Hl & _).
  rewrite Hl, bool_decide_false by done. cbn [negb orb mbind outcome_bind Z.eqb].
  destruct (operator_create_spec name id0 v Hv Hn Hids) as [(Hhas & -> & ->)|(Hno & -> & _)]; cbn [mbind outcome_bind Z.eqb negb].
  - exists (-1), id0, d1, s1. split; [done|]. left. done.
  - destruct Hrep1 as (Hin & Hbase & Hw & Hf & Hslog & Hpath & Hlog).
    destruct (write_db_block_ok name (ss_next_database_id_ v) d1 s1 Hw Hf) as (s2 & -> & Ht). cbn [mbind outcome_bind].
    rewrite Hbase in Ht. destruct (ddl_paths base 0) as (_ & _ & Hp3).
    assert (slog_repr (dd_slog_logger_ d1) s2 (entries_bytes (db_param <$> created))) as Hslog2
      by (eapply slog_repr_touch; [done..|]; by rewrite Hpath).
    destruct (slog_write_touches (db_param name) (dd_slog_logger_ d1) s2 _ Hslog2) as (s3 & Hwr & Hslog3 & Ht3);
      [destruct Ht as (_ & -> & _); done|apply Ht|apply db_param_wf; lia|].
    unfold db_param in Hwr. rewrite Hwr. cbn [mbind outcome_bind]. exists 0, (ss_next_database_id_ v), d1, s3. split; [done|].
    right. split; [done|]. split; [done|]. split; [done|]. split; [done|]. split; [done|]. split; [apply Ht3|].
    split; [destruct Ht as (_ & Hf2 & _), Ht3 as (_ & Hf3 & _); congruence|].
    split; [unfold entries_bytes in *; rewrite !fmap_app, concat_app; cbn [fmap list_fmap concat]; by rewrite app_nil_r|].
    split; [done|]. destruct Hlog as (svc' & l' & h' & es' & endl' & id' & H1 & H2 & H3 & H4 & H5).
    exists svc', l', h', es', endl', id'. do 3 (split; [done|]). split; [|done].
    eapply handler_repr_touch; [eapply handler_repr_touch; [done..|]|exact Ht3|]; intros k; rewrite ?Hpath; apply ddl_paths.
Qed.

(** ** Sequences of CREATE DATABASE *)

Fixpoint create_databases (names : list bytes) (d : ObDDLService) (v : ObSchemaService) (s : os)
    : outcome (list Z * ObDDLService * ObSchemaService * os) :=
  match names with
  | [] => Done ([], d, v, s)
  | name :: names' =>
      x ← ObDDLService_create_database name 0 d v s;
      let '(ret, _, d, v, s) := x : Z * Z * ObDDLService * ObSchemaService * os in
      y ← create_databases names' d v s;
      let '(rets, d, v, s) := y : list Z * ObDDLService * ObSchemaService * os in
      Done (ret :: rets, d, v, s)
  end.

(** The codes: a name that was seen before is refused. *)
Fixpoint create_codes (seen names : list bytes) : list Z :=
  match names with
  | [] => []
  | name :: names' => (if bool_decide (name ∈ seen) then -1 else 0) :: create_codes (name :: seen) names'
  end.
Definition names_log_size (names : list bytes) : Z := foldr (λ n k, 80 + blen n + k) 0 names.

Lemma names_log_size_nonneg names : 0 ≤ names_log_size names.
Proof.
  induction names as [|n names IH]; [done|]. cbn. change (foldr _ 0 names) with (names_log_size names).
  pose proof (blen_nonneg n). lia.
Qed.

Lemma create_databases_ok base names d v s logged created room seen : ddl_repr base d s logged created room →
  db_inv v → Forall db_name_ok names → ids_left (length names) v → names_log_size names ≤ room →
  (∀ n, has_db v n ↔ n ∈ seen) → Forall (has_db v) created →
  ∃ d' s' created', create_databases names d v s = Done (create_codes seen names, d', foldl apply_create v names, s')
    ∧ ddl_repr base d' s' (logged ++ names) created' (room - names_log_size names)
    ∧ db_inv (foldl apply_create v names)
    ∧ (∀ n, has_db (foldl apply_create v names) n ↔ n ∈ seen ∨ n ∈ names)
    ∧ Forall (has_db (foldl apply_create v names)) created'
    ∧ (Forall db_name_ok created → Forall db_name_ok created')
    ∧ (length created' ≤ length created + length names)%nat.
Proof.
  revert d v s logged created room seen. induction names as [|name names IH]; intros d v s logged created room seen Hrep Hv Hok Hids Hfit Hseen Hcr.
  - exists d, s, created. cbn. rewrite app_nil_r, Z.sub_0_r, Nat.add_0_r. do 3 (split; [done|]).
    split; [intros n; rewrite Hseen; set_solver|]. done.
  - apply Forall_cons in Hok as [[Hn Hl] Hok]. cbn [names_log_size foldr length] in *.
    change (foldr _ 0 names) with (names_log_size names) in *. pose proof (names_log_size_nonneg names).
    assert (ids_left 1 v) as Hid1 by (unfold ids_left in *; lia).
    destruct (create_database_ok base d s logged created room name 0 v Hrep Hv Hn Hid1 ltac:(lia) ltac:(lia))
      as (ret & id & d1 & s1 & E & Hcase).
    destruct (apply_create_inv name v (length names) Hv Hn Hids) as (Hv1 & Hids1 & Hmono & Hadd). specialize (Hadd Hl).
    assert (∀ n, has_db (apply_create v name) n ↔ n ∈ name :: seen) as Hseen1.
    { intros n. rewrite elem_of_cons, <-Hseen. destruct (operator_create_spec name 0 v Hv Hn Hid1) as [(H1 & _ & ->)|(_ & _ & _ & _ & H4)].
      - split; [by right|]. intros [->|?]; done.
      - rewrite H4, sub_short by done. done. }
    cbn [create_databases]. rewrite E. cbn [mbind outcome_bind].
    assert (∃ created1, ddl_repr base d1 s1 (logged ++ [name]) created1 (room - 80 - blen name)
      ∧ ret = (if bool_decide (name ∈ seen) then -1 else 0) ∧ Forall (has_db (apply_create v name)) created1
      ∧ (Forall db_name_ok created → Forall db_name_ok created1) ∧ (length created1 ≤ length created + 1)%nat)
      as (created1 & Hrep1 & -> & Hcr1 & Hco & Hlen1).
    { destruct Hcase as [(-> & Hhas & Hr)|(-> & _ & Hno & Hr)].
      - exists created. rewrite bool_decide_true by (by apply Hseen). split_and!; try done; [|lia].
        by eapply Forall_impl.
      - exists (created ++ [name]). rewrite bool_decide_false by (by rewrite <-Hseen). split_and!; try done.
        + apply Forall_app_2; [by eapply Forall_impl|]. by apply Forall_singleton.
        + intros. apply Forall_app_2; [done|]. apply Forall_singleton. by split.
        + rewrite length_app. cbn. lia. }
    destruct (IH d1 (apply_create v name) s1 (logged ++ [name]) created1 (room - 80 - blen name) (name :: seen) Hrep1 Hv1 Hok Hids1
                ltac:(lia) Hseen1 Hcr1) as (d2 & s2 & created2 & E2 & Hrep2 & Hv2 & Hs2 & Hc2 & Hco2 & Hlen2).
    exists d2, s2, created2. cbn [foldl create_codes]. rewrite E2. split; [done|]. split.
    { rewrite <-app_assoc in Hrep2.
      by replace (room - (80 + blen name + names_log_size names)) with (room - 80 - blen name - names_log_size names) by lia. }
    split; [done|]. split; [intros n; rewrite Hs2; set_solver|]. split; [done|]. split; [auto|]. lia.
Qed.

(** ** Starting and recovering *)

(** A service started over [base]. *)
Lemma ddl_start base : ObLogService_init base ObLogService_new = (0, service_at base)
  ∧ ∃ v, ObLogService_start (service_at base) = (0, v) ∧ svc_handlers_ v !! DDL_LS_ID = None
         ∧ ls_log_dir (svc_palf_env_ v) DDL_LS_ID = ls_dir base DDL_LS_ID.
Proof. split; [done|]. by eexists. Qed.

(** [init] after the log stream was opened. *)
Lemma ddl_init_opened fuel base s v l v1 s1 h slog s2 :
  ObLogService_start (service_at base) = (0, v) →
  ObLogService_open_ls fuel DDL_LS_ID None v s = Done (0, Some l, v1, s1) → svc_heap v1 !! l = Some h →
  ObStorageLogger_init (base +:+ "/slog")%string ObStorageLogger_new s1 = (0, slog, s2) →
  ObDDLService_init fuel base ObDDLService_new s
  = Done (0, mkDdl (Some (set_svc_heap (<[l := (ObLogHandler_register_replay_handler DDL_LOG_BASE_TYPE ddl_this h).2]>
                            (svc_heap v1)) v1)) (Some l) slog base true, s2).
Proof.
  intros Hst Ho Hh Hs. unfold ObDDLService_init. cbn [ObDDLService_new dd_is_inited_ dd_log_handler_ dd_slog_logger_].
  rewrite (proj1 (ddl_start base)). cbn [Z.eqb negb]. rewrite Hst. cbn [Z.eqb negb]. rewrite Ho.
  cbn [mbind outcome_bind Z.eqb negb deref]. rewrite Hh. cbn [mbind outcome_bind deref].
  rewrite (surjective_pairing (ObLogHandler_register_replay_handler _ _ _)), Hs. done.
Qed.

Definition fresh_dir (base : string) (s : os) : Prop :=
  sys_exists (block_path (ls_dir base DDL_LS_ID) 0) s = false
  ∧ sys_exists (block_path (ls_dir base DDL_LS_ID) 1) s = false ∧ os_dir s !! slog_path base = None.

(** Registering the replay handler keeps the log. *)
Lemma register_repr h env s dir es endl id t it : handler_repr h env s dir es endl id →
  handler_repr (ObLogHandler_register_replay_handler t it h).2 env s dir es endl id.
Proof. done. Qed.

Lemma register_first h t it : lh_replay_handlers_ h = ∅ →
  lh_replay_handlers_ (ObLogHandler_register_replay_handler t it h).2 = {[i16 t := it]}.
Proof. unfold ObLogHandler_register_replay_handler. cbn. by intros ->. Qed.

Lemma ddl_room id endl : id ≤ 2 → 0 ≤ endl → id + (PALF_BLOCK_SIZE - SCAN_BUF - endl) < 2 ^ 62.
Proof. intros. assert (PALF_BLOCK_SIZE - SCAN_BUF < 2 ^ 61) by done. lia. Qed.

Lemma ddl_init_fresh fuel base s : os_wf s → os_faults s = [] → fresh_dir base s → (0 < fuel)%nat →
  ∃ d s', ObDDLService_init fuel base ObDDLService_new s = Done (0, d, s')
    ∧ ddl_repr base d s' [] [] (PALF_BLOCK_SIZE - SCAN_BUF).
Proof.
  intros Hw Hf (Hb0 & Hb1 & Hs) Hfu. destruct (ddl_start base) as (_ & v & Hst & Hno & Hdir).
  destruct (open_ls_fresh fuel DDL_LS_ID v s None Hno Hf) as (l & v1 & s1 & h & id & Ho & Hhs & Hh & Hrep & Hid & Hrh & Ht);
    rewrite ?Hdir in *; [done..|]. specialize (Ht Hw).
  destruct (ddl_paths base 0) as (Hp & _ & _).
  destruct (slog_open_new (base +:+ "/slog")%string s1) as (sl & s2 & Hsl & Hf2 & Hslr & Hpath & Ht2).
  { destruct Ht as (_ & -> & _); done. }
  { rewrite string_app_assoc. destruct Ht as (_ & _ & Hq). fold (slog_path base). by rewrite (proj1 (Hq _ Hp)). }
  rewrite string_app_assoc in Ht2, Hpath. specialize (Ht2 (proj1 Ht)).
  do 2 eexists. split; [by eapply ddl_init_opened|]. split; [done|]. split; [done|]. split; [apply Ht2|]. split; [done|].
  split; [exact Hslr|]. split; [exact Hpath|].
  eexists _, l, _, [], 0, id. split; [done|]. split; [done|]. split; [cbn; apply lookup_insert_eq|].
  split; [apply register_repr; eapply handler_repr_touch; [exact Hrep|exact Ht2|intros k; apply ddl_paths]|].
  split; [done|]. split; [by rewrite Z.sub_0_r|].
  split; [rewrite <-(Z.sub_0_r (PALF_BLOCK_SIZE - SCAN_BUF)); apply ddl_room; lia|]. split; [done|].
  exact (register_first _ _ _ Hrh).
Qed.

Lemma ddl_init_existing fuel base d s names created room s2 : ddl_repr base d s names created room →
  reboot s s2 → (length names < fuel)%nat →
  ∃ d' s', ObDDLService_init fuel base ObDDLService_new s2 = Done (0, d', s')
    ∧ ddl_repr base d' s' names created room.
Proof.
  intros (_ & _ & Hw & Hf & Hslog & Hpath & svc & l & h & es & endl & id & _ & _ & _ & Hrep & Hrec & Hroom & Hid & _) Hreb Hfu.
  destruct (ddl_start base) as (_ & v & Hst & Hno & Hdir).
  pose proof (disk_repr_reboot _ _ _ _ _ Hreb (handler_repr_disk _ _ _ _ _ _ _ Hrep)) as Hdisk.
  pose proof Hdisk as (_ & _ & Hend & _).
  pose proof (records_length _ _ Hrec) as Hlen. rewrite length_fmap in Hlen. rewrite <-Hdir in Hdisk.
  destruct (open_ls_spec fuel DDL_LS_ID v s2 es endl None Hno Hdisk) as (l1 & v1 & s3 & h1 & Ho & Hhs & Hh & Hrep1 & Hrh & Hreb3);
    [lia|]. rewrite Hdir in Hrep1. pose proof (reboot_trans _ _ _ Hreb Hreb3) as Hreb'.
  destruct (slog_open_existing (base +:+ "/slog")%string (dd_slog_logger_ d) s s3 _ Hslog) as (sl & Hsl & Hslr & Hpath');
    [by rewrite string_app_assoc|done|]. rewrite string_app_assoc in Hpath'.
  do 2 eexists. split; [by eapply ddl_init_opened|]. split; [done|]. split; [done|].
  split; [eapply (reboot_touches (slog_path base)); [exact Hreb'|done..]|]. split; [apply Hreb'|].
  split; [exact Hslr|]. split; [exact Hpath'|].
  eexists _, l1, _, es, endl, _. split; [done|]. split; [done|]. split; [cbn; apply lookup_insert_eq|].
  split; [apply register_repr; exact Hrep1|]. split; [done|]. split; [done|].
  split; [subst room; apply ddl_room; destruct (0 <? endl); unfold FIRST_VALID_LOG_ID; lia|].
  split; [done|]. exact (register_first _ _ _ Hrh).
Qed.

Lemma until_nul_cstr name : cstr_wf name → until_nul name = name.
Proof.
  induction 1 as [|b name Hb Hn IH]; [done|]. cbn [until_nul]. rewrite (proj2 (Z.eqb_neq _ _)) by lia. by rewrite IH.
Qed.

Lemma operator_create_known name id v : db_inv v → has_db v name →
  ObDDLOperator_create_database name id v = Done (-1, id, v).
Proof.
  intros Hv Hhas. unfold ObDDLOperator_create_database.
  by destruct (get_database_spec name v Hv) as [(d & -> & _)|[_ Hno]].
Qed.

(** Replaying the storage log adds nothing to what the log stream gave. *)
Lemma slog_callback_known name v : db_inv v → cstr_wf name → has_db v name →
  slog_callback (slog_entry_of (db_param name)) (Done v) = Done v.
Proof.
  intros Hv Hn Hhas. unfold slog_callback. cbn [mbind outcome_bind].
  change (se_data_ _) with name. change (se_data_len_ _) with (blen name). change (se_log_type_ _ =? _) with true.
  pose proof (mem_read_app 0 (blen name) [] name [] eq_refl eq_refl) as Hr. cbn [app] in Hr. rewrite app_nil_r in Hr.
  rewrite Hr. cbn [mbind outcome_bind]. by rewrite until_nul_cstr, operator_create_known.
Qed.

Lemma slog_callbacks_known v created : db_inv v → Forall cstr_wf created → Forall (has_db v) created →
  foldl (call (Some slog_callback)) (Done v) (slog_entry_of <$> (db_param <$> created)) = Done v.
Proof.
  intros Hv Hok. induction Hok as [|name created Hn Hok IH]; intros Hhas; [done|].
  apply Forall_cons in Hhas as [H1 H2]. rewrite !fmap_cons. cbn [foldl].
  change (call (Some slog_callback) (Done v) ?e) with (slog_callback e (Done v)).
  rewrite slog_callback_known by done. by apply IH.
Qed.

(** What replaying a payload does to the schema: its name is after two headers
    of 16 bytes. *)
Definition replay_step (payload : bytes) (v : ObSchemaService) : ObSchemaService := apply_create v (drop 32 payload).

Lemma ddl_replay_step_record name v : replay_step (log_payload DDL_LOG_BASE_TYPE (db_log_record name)) v = apply_create v name.
Proof. reflexivity. Qed.

Lemma ddl_replays_record h name : lh_replay_handlers_ h = {[DDL_LOG_BASE_TYPE := ddl_this]} → db_name_ok name →
  replays names_ok replay_step h (log_payload DDL_LOG_BASE_TYPE (db_log_record name)).
Proof.
  intros Hh [Hn Hl] lsn junk v Hv. pose proof (blen_nonneg name). pose proof (blen_db_log_record name).
  exists 0. rewrite blen_log_payload, handler_replay_payload, Hh, ddl_replay_step_record by lia.
  change (i16 DDL_LOG_BASE_TYPE) with DDL_LOG_BASE_TYPE. rewrite lookup_singleton_eq.
  apply ddl_replay_record; [done|lia..|done].
Qed.

Lemma ddl_entries h es names : lh_replay_handlers_ h = {[DDL_LOG_BASE_TYPE := ddl_this]} →
  records es (db_record <$> names) → Forall db_name_ok names →
  Forall (λ e, replays names_ok replay_step h (en_payload e) ∧ entry_size e ≤ SCAN_BUF ∧ 0 < blen (en_payload e)) es
  ∧ ∀ v, replay_all replay_step es v = foldl apply_create v names.
Proof.
  intros Hh Hrec Hok. revert es Hrec. induction Hok as [|name names Hn Hok IH]; intros [|e es] Hrec; try done.
  unfold records in Hrec. rewrite !fmap_cons in Hrec. injection Hrec as He Hes.
  change (log_payload (db_record name).1 _) with (log_payload DDL_LOG_BASE_TYPE (db_log_record name)) in He.
  destruct (IH es Hes) as [IH1 IH2]. pose proof (blen_nonneg name). pose proof (blen_db_log_record name). split.
  - constructor; [|done]. unfold entry_size. rewrite He, blen_log_payload. destruct Hn. unfold SCAN_BUF.
    split; [by apply ddl_replays_record|]. lia.
  - intros v. cbn [replay_all foldl]. rewrite He. exact (IH2 _).
Qed.

Lemma ddl_recover_ok fuel base d s names created room v : ddl_repr base d s names created room →
  db_inv v → db_inv (foldl apply_create v names) → Forall db_name_ok names → Forall cstr_wf created →
  Forall (λ n, blen n ≤ 127) created → Forall (has_db (foldl apply_create v names)) created →
  (length names < fuel)%nat → (length created < fuel)%nat →
  ∃ s', ObDDLService_recover_schema fuel d v s = Done (0, foldl apply_create v names, s')
    ∧ ddl_repr base d s' names created room.
Proof.
  intros (Hin & Hbase & Hw & Hf & Hslog & Hpath & svc & l & h & es & endl & id & Hsvc & Hl & Hh & Hrep & Hrec & Hroom & Hid & Hhs & Hrh)
    Hv Hv' Hok Hcw Hcl Hcr Hfu1 Hfu2.
  destruct (ddl_entries h es names Hrh Hrec Hok) as [Hall Heq].
  pose proof (records_length _ _ Hrec) as Hlen. rewrite length_fmap in Hlen.
  destruct (replay_ls_spec names_ok replay_step fuel DDL_LS_ID svc l h s v _ es endl id Hhs Hh Hrep) as (s1 & E & _ & Hreb);
    [lia|by apply db_inv_names|done|].
  unfold ObDDLService_recover_schema. rewrite Hin, Hsvc, E. cbn [mbind outcome_bind Z.eqb negb]. rewrite Heq.
  pose proof (reboot_touches (block_file_path base) _ _ Hreb Hw Hf) as Ht.
  assert (block_file_path base ≠ slog_path base) as Hp3 by apply (ddl_paths base 0).
  assert (slog_repr (dd_slog_logger_ d) s1 (entries_bytes (db_param <$> created))) as Hslog1
    by (eapply slog_repr_touch; [done..|]; by rewrite Hpath).
  destruct (slog_replay_spec (Some slog_callback) (Done (foldl apply_create v names)) (dd_slog_logger_ d) s1 (db_param <$> created) [] fuel)
    as (s2 & E2 & Hreb2).
  { by rewrite app_nil_r. }
  { apply Hreb. }
  { apply Forall_fmap. eapply Forall_impl; [exact Hcl|]. intros n Hn. apply db_param_wf. cbn in Hn. lia. }
  { apply no_entry_nil. }
  { by rewrite length_fmap. }
  rewrite E2. cbn [mbind outcome_bind]. rewrite slog_callbacks_known by done. cbn [mbind outcome_bind].
  eexists. split; [done|]. pose proof (reboot_trans _ _ _ Hreb Hreb2) as Hr.
  pose proof (reboot_touches (block_file_path base) _ _ Hr Hw Hf) as Ht2.
  split; [done|]. split; [done|]. split; [apply Ht2|]. split; [apply Hr|].
  split; [eapply slog_repr_touch; [exact Hslog|exact Ht2|by rewrite Hpath]|]. split; [done|].
  exists svc, l, h, es, endl, id. do 3 (split; [done|]). split; [|done].
  eapply handler_repr_touch; [exact Hrep|exact Ht2|]. intros k. apply ddl_paths.
Qed.

(** ** Sessions *)

Section Sessions.
Context (restart : os → os) (fuel : nat) (base : string).

(** A life of the process: start over [base], recover the schema, create
    databases; then the process ends. *)
Definition session (names : list bytes) (s : os) : outcome (list Z * ObSchemaService * os) :=
  x ← ObDDLService_init fuel base ObDDLService_new s;
  let '(_, d, s) := x : Z * ObDDLService * os in
  y ← ObDDLService_recover_schema fuel d ObSchemaService_new s;
  let '(_, v, s) := y : Z * ObSchemaService * os in
  z ← create_databases names d v s;
  let '(rets, _, v, s) := z : list Z * ObDDLService * ObSchemaService * os in
  Done (rets, v, s).

(** Several lives on the same disk: the codes, the schema of the last. *)
Fixpoint sessions (first : list bytes) (more : list (list bytes)) (s : os) : outcome (list Z * ObSchemaService * os) :=
  x ← session first s;
  let '(rets, v, s) := x : list Z * ObSchemaService * os in
  match more with
  | [] => Done (rets, v, s)
  | next :: more' =>
      y ← sessions next more' (restart s);
      let '(rets', v, s) := y : list Z * ObSchemaService * os in
      Done (rets ++ rets', v, s)
  end.
End Sessions.

Lemma create_codes_app seen l1 l2 :
  create_codes seen (l1 ++ l2) = create_codes seen l1 ++ create_codes (rev l1 ++ seen) l2.
Proof.
  revert seen. induction l1 as [|n l1 IH]; intros seen; [done|]. cbn [app create_codes rev]. rewrite IH.
  by rewrite <-app_assoc.
Qed.

(** Codes depend only on which names were seen. *)
Lemma create_codes_ext seen seen' names : (∀ n, n ∈ seen ↔ n ∈ seen') → create_codes seen names = create_codes seen' names.
Proof.
  revert seen seen'. induction names as [|n names IH]; intros seen seen' H; [done|]. cbn [create_codes].
  rewrite (bool_decide_ext _ _ (H n)). f_equal. apply IH. intros m. rewrite !elem_of_cons, H. done.
Qed.

Lemma schema_new_inv : db_inv ObSchemaService_new ∧ ∀ n, has_db ObSchemaService_new n ↔ n ∈ @nil bytes.
Proof.
  split; [split; [done|intros k d H; done]|]. intros n. split; [|set_solver].
  intros (k & d & H & _). done.
Qed.

(** The disk between two lives: [names] were requested so far. *)
Definition ddl_disk (base : string) (s : os) (names : list bytes) (room : Z) : Prop :=
  ∃ d created, ddl_repr base d s names created room ∧ Forall db_name_ok names ∧ Forall db_name_ok created
    ∧ let v := foldl apply_create ObSchemaService_new names in
      db_inv v ∧ (∀ n, has_db v n ↔ n ∈ names) ∧ Forall (has_db v) created ∧ (length created ≤ length names)%nat.

Lemma names_log_size_app l1 l2 : names_log_size (l1 ++ l2) = names_log_size l1 + names_log_size l2.
Proof. unfold names_log_size. induction l1 as [|n l1 IH]; [done|]. cbn [app foldr]. rewrite IH. lia. Qed.

Lemma names_log_size_length names : 80 * Z.of_nat (length names) ≤ names_log_size names.
Proof.
  unfold names_log_size. induction names as [|n names IH]; [done|]. cbn [length foldr]. pose proof (blen_nonneg n). lia.
Qed.

Lemma apply_creates_inv names v k : db_inv v → Forall cstr_wf names → ids_left (length names + k) v →
  db_inv (foldl apply_create v names) ∧ ids_left k (foldl apply_create v names).
Proof.
  intros Hv Hok. revert v Hv. induction Hok as [|n names Hn Hok IH]; intros v Hv Hid; [done|]. cbn [foldl].
  destruct (apply_create_inv n v (length names + k) Hv Hn Hid) as (Hv1 & Hid1 & _). by apply IH.
Qed.

Lemma db_names_cstr names : Forall db_name_ok names → Forall cstr_wf names.
Proof. intros H. eapply Forall_impl; [exact H|]. by intros n [? _]. Qed.
Lemma db_names_short names : Forall db_name_ok names → Forall (λ n, blen n ≤ 127) names.
Proof. intros H. eapply Forall_impl; [exact H|]. by intros n [_ ?]. Qed.

Lemma session_started fuel base d s before created room names :
  ddl_repr base d s before created room → Forall db_name_ok before → Forall db_name_ok created →
  (let v := foldl apply_create ObSchemaService_new before in
   db_inv v ∧ (∀ n, has_db v n ↔ n ∈ before) ∧ Forall (has_db v) created ∧ (length created ≤ length before)%nat) →
  Forall db_name_ok names → names_log_size names ≤ room → 80 * Z.of_nat (length before) + room < 2 ^ 62 →
  (length before < fuel)%nat →
  ∃ d' s1 s2, ObDDLService_recover_schema fuel d ObSchemaService_new s
              = Done (0, foldl apply_create ObSchemaService_new before, s1)
    ∧ create_databases names d (foldl apply_create ObSchemaService_new before) s1
      = Done (create_codes before names, d', foldl apply_create ObSchemaService_new (before ++ names), s2)
    ∧ ddl_disk base s2 (before ++ names) (room - names_log_size names).
Proof.
  intros Hrep Hb Hc (Hv & Hhas & Hcr & Hlc) Hn Hfit Hbound Hfu. set (v := foldl _ _ before) in *.
  destruct (ddl_recover_ok fuel base d s before created room ObSchemaService_new Hrep (proj1 schema_new_inv) Hv Hb
              (db_names_cstr _ Hc) (db_names_short _ Hc) Hcr Hfu ltac:(lia)) as (s1 & E1 & Hrep1). fold v in E1.
  pose proof (names_log_size_length names) as Hl.
  assert (ids_left (length names) v) as Hids.
  { apply apply_creates_inv; [apply schema_new_inv|by apply db_names_cstr|]. unfold ids_left. cbn [ss_next_database_id_ ObSchemaService_new]. lia. }
  destruct (create_databases_ok base names d v s1 before created room before Hrep1 Hv Hn Hids Hfit Hhas Hcr)
    as (d' & s2 & created' & E2 & Hrep2 & Hv2 & Hhas2 & Hcr2 & Hco2 & Hlen2).
  exists d', s1, s2. rewrite foldl_app. fold v. split; [done|]. split; [done|].
  exists d', created'. rewrite foldl_app, length_app. fold v. split; [done|]. split; [by apply Forall_app_2|]. split; [auto|].
  split; [done|]. split; [intros n; by rewrite Hhas2, elem_of_app|]. split; [done|]. lia.
Qed.

(** One life after others. *)
Lemma session_again fuel base s s' before room names : ddl_disk base s before room → reboot s s' →
  Forall db_name_ok names → names_log_size names ≤ room → 80 * Z.of_nat (length before) + room < 2 ^ 62 →
  (length before < fuel)%nat →
  ∃ s2, session fuel base names s'
        = Done (create_codes before names, foldl apply_create ObSchemaService_new (before ++ names), s2)
    ∧ ddl_disk base s2 (before ++ names) (room - names_log_size names).
Proof.
  intros (d & created & Hrep & Hb & Hc & Hv) Hreb Hn Hfit Hbound Hfu.
  destruct (ddl_init_existing fuel base d s before created room s' Hrep Hreb Hfu) as (d1 & s1 & E1 & Hrep1).
  destruct (session_started fuel base d1 s1 before created room names Hrep1 Hb Hc Hv Hn Hfit Hbound Hfu)
    as (d2 & s2 & s3 & E2 & E3 & Hdisk).
  exists s3. split; [|done]. unfold session. rewrite E1. cbn [mbind outcome_bind]. rewrite E2. cbn [mbind outcome_bind].
  by rewrite E3.
Qed.

(** The first life. *)
Lemma session_first fuel base s names : os_wf s → os_faults s = [] → fresh_dir base s → Forall db_name_ok names →
  names_log_size names ≤ PALF_BLOCK_SIZE - SCAN_BUF → (0 < fuel)%nat →
  ∃ s2, session fuel base names s = Done (create_codes [] names, foldl apply_create ObSchemaService_new names, s2)
    ∧ ddl_disk base s2 names (PALF_BLOCK_SIZE - SCAN_BUF - names_log_size names).
Proof.
  intros Hw Hf Hfr Hn Hfit Hfu. destruct (ddl_init_fresh fuel base s Hw Hf Hfr Hfu) as (d1 & s1 & E1 & Hrep1).
  destruct (session_started fuel base d1 s1 [] [] _ names Hrep1 ltac:(done) ltac:(done)) as (d2 & s2 & s3 & E2 & E3 & Hdisk);
    [split; [apply schema_new_inv|]; split; [apply schema_new_inv|done]|done..|].
  exists s3. split; [|done]. unfold session. rewrite E1. cbn [mbind outcome_bind]. rewrite E2. cbn [mbind outcome_bind].
  by rewrite E3.
Qed.

Lemma ddl_disk_faults base s names room : ddl_disk base s names room → os_faults s = [].
Proof. by intros (d & created & (_ & _ & _ & H & _) & _). Qed.

Lemma create_codes_twice before names rest :
  create_codes before (names ++ rest) = create_codes before names ++ create_codes (before ++ names) rest.
Proof.
  rewrite create_codes_app. f_equal. apply create_codes_ext. intros n. rewrite !elem_of_app, list_elem_of_In, <-in_rev, <-list_elem_of_In.
  tauto.
Qed.

Lemma sessions_again restart fuel base first more s before room :
  (∀ s, os_faults s = [] → reboot s (restart s)) → ddl_disk base s before room →
  Forall db_name_ok (first ++ concat more) → names_log_size (first ++ concat more) ≤ room →
  80 * Z.of_nat (length before) + room < 2 ^ 62 → (length (before ++ first ++ concat more) < fuel)%nat →
  ∃ s2 room', sessions restart fuel base first more (restart s)
              = Done (create_codes before (first ++ concat more),
                      foldl apply_create ObSchemaService_new (before ++ first ++ concat more), s2)
    ∧ ddl_disk base s2 (before ++ first ++ concat more) room'.
Proof.
  intros Hre. revert first s before room.
  induction more as [|next more IH]; intros first s before room Hdisk Hok Hfit Hbound Hfu.
  - cbn [concat] in *. rewrite app_nil_r in *. rewrite length_app in Hfu.
    destruct (session_again fuel base s (restart s) before room first Hdisk (Hre _ (ddl_disk_faults _ _ _ _ Hdisk)) Hok Hfit Hbound)
      as (s2 & E & Hdisk2); [lia|]. exists s2, (room - names_log_size first). cbn [sessions]. rewrite E. done.
  - cbn [concat] in *. rewrite names_log_size_app in Hfit. apply Forall_app in Hok as [Hok1 Hok2].
    pose proof (names_log_size_nonneg (next ++ concat more)). pose proof (names_log_size_length first).
    rewrite length_app in Hfu.
    destruct (session_again fuel base s (restart s) before room first Hdisk (Hre _ (ddl_disk_faults _ _ _ _ Hdisk)) Hok1)
      as (s2 & E & Hdisk2); [lia..|].
    destruct (IH next s2 (before ++ first) _ Hdisk2 Hok2) as (s3 & room' & E2 & Hdisk3);
      [lia|rewrite length_app; lia|rewrite !length_app in *; lia|].
    exists s3, room'. cbn [sessions]. rewrite E. cbn [mbind outcome_bind]. rewrite E2. cbn [mbind outcome_bind].
    rewrite (create_codes_twice before first). rewrite <-!app_assoc in *. done.
Qed.

(** C2: restarts are invisible to CREATE DATABASE.  Split a sequence of CREATE
    DATABASE statements (names of at most 127 bytes) into lives of the process:
    each starts with an empty schema, runs [init] and [recover_schema] on the
    disk the last one left and then creates its share.  The codes, the databases and
    their identifiers are those of one process that runs the whole sequence
    without a restart: a name is refused exactly when it was requested before,
    in this life or an earlier one, and exactly the requested names are found at the end. *)
Theorem ddl_restarts_invisible restart fuel base first more s0 :
  (∀ s, os_faults s = [] → reboot s (restart s)) → os_wf s0 → os_faults s0 = [] → fresh_dir base s0 →
  Forall db_name_ok (first ++ concat more) → names_log_size (first ++ concat more) ≤ PALF_BLOCK_SIZE - SCAN_BUF →
  (length (first ++ concat more) < fuel)%nat →
  ∃ v s1 s2, sessions restart fuel base first more s0 = Done (create_codes [] (first ++ concat more), v, s1)
    ∧ session fuel base (first ++ concat more) s0 = Done (create_codes [] (first ++ concat more), v, s2)
    ∧ ∀ name, (∃ d, ObSchemaService_get_database_schema name v = Done (Some d)) ↔ name ∈ first ++ concat more.
Proof.
  intros Hre Hw Hf Hfr Hok Hfit Hfu. set (all := first ++ concat more) in *.
  destruct (session_first fuel base s0 all Hw Hf Hfr Hok Hfit ltac:(lia)) as (s2 & E & Hdisk).
  assert (∃ s1, sessions restart fuel base first more s0 = Done (create_codes [] all, foldl apply_create ObSchemaService_new all, s1))
    as [s1 E1].
  { unfold all in *. destruct more as [|next more]; cbn [concat sessions] in *; [rewrite app_nil_r in *|].
    - exists s2. by rewrite E.
    - rewrite names_log_size_app in Hfit. apply Forall_app in Hok as [Hok1 Hok2].
      pose proof (names_log_size_nonneg (next ++ concat more)). pose proof (names_log_size_length first).
      assert (PALF_BLOCK_SIZE - SCAN_BUF < 2 ^ 61) by done.
      destruct (session_first fuel base s0 first Hw Hf Hfr Hok1) as (s3 & E3 & Hdisk3); [lia..|].
      destruct (sessions_again restart fuel base next more s3 first _ Hre Hdisk3 Hok2) as (s4 & room' & E4 & _); [lia..|].
      exists s4. rewrite E3. cbn [mbind outcome_bind]. rewrite E4, (create_codes_twice [] first). done. }
  exists (foldl apply_create ObSchemaService_new all), s1, s2. split; [done|]. split; [done|].
  destruct Hdisk as (_ & _ & _ & _ & _ & Hv & Hhas & _). intros name. rewrite <-Hhas.
  destruct (get_database_spec name _ Hv) as [(d & -> & Hd & k & Hk)|[-> Hno]].
  - split; [intros _; by exists k, d|by eexists].
  - split; [by intros [d ?]|done].
Qed.

Lemma ddl_restarts_invisible_witness :
  let a := [97] in let b := [98] in
  ∃ v s1 s2, sessions (set_faults []) 5 "base" [a; b] [[a]; [[99]]] os_empty = Done ([0; 0; -1; 0], v, s1)
    ∧ session 5 "base" [a; b; a; [99]] os_empty = Done ([0; 0; -1; 0], v, s2)
    ∧ ∀ name, (∃ d, ObSchemaService_get_database_schema name v = Done (Some d)) ↔ name ∈ [a; b; a; [99]].
Proof.
  apply (ddl_restarts_invisible (set_faults []) 5 "base" [[97]; [98]] [[[97]]; [[99]]] os_empty).
  - intros s _. repeat split.
  - apply os_empty_wf.
  - done.
  - done.
  - repeat constructor; done.
  - done.
  - cbn. lia.
Defined.

(** ** The server *)

(** A life of the server: its start, then CREATE DATABASE statements. *)
Definition server_session (fuel : nat) (names : list bytes) (s : os) : outcome (list Z * ObSchemaService * os) :=
  x ← init_global_objects fuel s;
  let '(_, d, v, s) := x : Z * ObDDLService * ObSchemaService * os in
  z ← create_databases names d v s;
  let '(rets, _, v, s) := z : list Z * ObDDLService * ObSchemaService * os in
  Done (rets, v, s).

(** [recover_schema] has one code. *)
Lemma recover_schema_zero fuel d v s ret v' s' : ObDDLService_recover_schema fuel d v s = Done (ret, v', s') → ret = 0.
Proof.
  unfold ObDDLService_recover_schema. destruct (dd_is_inited_ d); [|by intros [= <-]].
  destruct (dd_log_service_ d); [|by intros [= <-]].
  intros ([[r0 s0] v0] & _ & H)%outcome_bind_inv. destruct (negb (r0 =? 0)); [by injection H|].
  apply outcome_bind_inv in H as ([[r1 v1] s1] & _ & H). apply outcome_bind_inv in H as (v2 & _ & H). by injection H.
Qed.

(** Every start of the server issues CREATE DATABASE sys.  The check after
    the recovery is for a code that [recover_schema] always returns: a start followed
    by CREATE DATABASE statements behaves, on any disk and with every
    outcome, as a recovery followed by CREATE DATABASE sys and those statements. *)
Theorem server_start_creates_sys fuel names s :
  session fuel "miniob/store" (sys_name :: names) s
  = (x ← ObDDLService_init fuel "miniob/store" ObDDLService_new s;
     y ← ObDDLService_recover_schema fuel x.1.2 ObSchemaService_new x.2;
     z ← ObDDLService_create_database sys_name 0 x.1.2 y.1.2 y.2;
     r ← server_session fuel names s; Done (z.1.1.1.1 :: r.1.1, r.1.2, r.2)).
Proof.
  unfold session, server_session, init_global_objects.
  destruct (ObDDLService_init _ _ _ _) as [[[ret d] s1]| | |]; try reflexivity. cbn [mbind outcome_bind fst snd].
  destruct (ObDDLService_recover_schema _ _ _ _) as [[[rec v] s2]| | |] eqn:Er; try reflexivity. cbn [mbind outcome_bind fst snd].
  apply recover_schema_zero in Er as ->. cbn [Z.eqb mbind outcome_bind create_databases].
  destruct (ObDDLService_create_database _ _ _ _ _) as [[[[[r i] d2] v2] s3]| | |]; try reflexivity. cbn [mbind outcome_bind fst snd].
  destruct (create_databases _ _ _ _) as [[[[rets d3] v3] s4]| | |]; reflexivity.
Qed.

(** ** Dropping a database *)

Lemma apply_create_unique v name : db_inv v → unique_names v → db_name_ok name → unique_names (apply_create v name).
Proof.
  intros Hv Hu [Hn Hl]. unfold apply_create, ObDDLOperator_create_database.
  destruct (get_database_spec name v Hv) as [(d & -> & _)|[-> Hno]]; cbn [mbind outcome_bind]; [done|].
  destruct (set_name_cstr name Hn) as [Hc _]. rewrite sub_short in Hc by done.
  unfold ObSchemaService_create_database, unique_names. cbn [ss_databases_]. intros k1 k2 d1 d2 n H1 H2 E1 E2.
  apply lookup_insert_Some in H1 as [[<- <-]|[Hk1 H1]], H2 as [[<- <-]|[Hk2 H2]]; [done| | |by eapply Hu].
  - exfalso. apply Hno. exists k2, d2. split; [done|]. rewrite E2, <-E1. exact Hc.
  - exfalso. apply Hno. exists k1, d1. split; [done|]. rewrite E1, <-E2. exact Hc.
Qed.

Lemma apply_creates_unique names v : db_inv v → unique_names v → Forall db_name_ok names →
  ids_left (length names) v → unique_names (foldl apply_create v names).
Proof.
  intros Hv Hu Hok. revert v Hv Hu. induction Hok as [|n names Hn Hok IH]; intros v Hv Hu Hid; [done|]. cbn [foldl length] in *.
  destruct (apply_create_inv n v (length names) Hv (proj1 Hn) Hid) as (Hv1 & Hid1 & _).
  apply IH; [done|by apply apply_create_unique|done].
Qed.

(** A dropped database comes back.  DROP DATABASE removes the name from the
    schema in memory (it is found before and not after) and writes no log; the
    next start of the process recovers it. *)
Theorem dropped_database_comes_back fuel base names name s0 :
  os_wf s0 → os_faults s0 = [] → fresh_dir base s0 → Forall db_name_ok names →
  names_log_size names ≤ PALF_BLOCK_SIZE - SCAN_BUF → (length names < fuel)%nat → name ∈ names →
  ∃ v s1 v', session fuel base names s0 = Done (create_codes [] names, v, s1)
    ∧ ObSchemaService_drop_database name v = Done (0, v')
    ∧ ObSchemaService_get_database_schema name v' = Done None
    ∧ ∀ s2, reboot s1 s2 →
      ∃ v'' s3 d, session fuel base [] s2 = Done ([], v'', s3)
        ∧ ObSchemaService_get_database_schema name v'' = Done (Some d).
Proof.
  intros Hw Hf Hfr Hok Hfit Hfu Hin.
  destruct (session_first fuel base s0 names Hw Hf Hfr Hok Hfit ltac:(lia)) as (s1 & E & Hdisk).
  pose proof (names_log_size_length names). assert (PALF_BLOCK_SIZE - SCAN_BUF < 2 ^ 61) by done.
  pose proof Hdisk as (_ & _ & _ & _ & _ & Hv & Hhas & _). set (v := foldl apply_create ObSchemaService_new names) in *.
  assert (unique_names v) as Hu.
  { apply apply_creates_unique; [apply schema_new_inv|intros k1 k2 d1 d2 n H1; done|done|].
    unfold ids_left. cbn [ss_next_database_id_ ObSchemaService_new]. lia. }
  destruct (drop_database_spec name v Hv Hu ltac:(by apply Hhas)) as (v' & Ed & Hv' & Hhas').
  exists v, s1, v'. split; [done|]. split; [done|]. split.
  { destruct (get_database_spec name v' Hv') as [(d & _ & Hd & k & Hk)|[-> _]]; [|done].
    exfalso. destruct (proj1 (Hhas' name)) as [? _]; [by exists k, d|done]. }
  intros s2 Hreb. pose proof (names_log_size_nonneg names).
  destruct (session_again fuel base s1 s2 names _ [] Hdisk Hreb ltac:(done)) as (s3 & E3 & _); [cbn; lia|lia|done|].
  rewrite app_nil_r in E3. exists v, s3. fold v in E3.
  destruct (get_database_spec name v Hv) as [(d & -> & _)|[_ Hno]]; [by exists d|]. exfalso. by apply Hno, Hhas.
Qed.

Lemma dropped_database_comes_back_witness :
  ∃ v s1 v', session 2 "base" [[97]] os_empty = Done ([0], v, s1)
    ∧ ObSchemaService_drop_database [97] v = Done (0, v')
    ∧ ObSchemaService_get_database_schema [97] v' = Done None
    ∧ ∀ s2, reboot s1 s2 →
      ∃ v'' s3 d, session 2 "base" [] s2 = Done ([], v'', s3)
        ∧ ObSchemaService_get_database_schema [97] v'' = Done (Some d).
Proof.
  apply (dropped_database_comes_back 2 "base" [[97]] [97] os_empty).
  - apply os_empty_wf.
  - done.
  - done.
  - repeat constructor; done.
  - done.
  - cbn. lia.
  - apply list_elem_of_singleton. done.
Defined.

(** ** Long names *)

(** The copy into the 256-byte array overruns it. *)
Lemma ddl_replay_long h name lsn junk v : lh_replay_handlers_ h = {[DDL_LOG_BASE_TYPE := ddl_this]} →
  256 < blen name < 2 ^ 31 →
  let payload := log_payload DDL_LOG_BASE_TYPE (db_log_record name) in
  ObLogHandler_replay h (Some (payload ++ junk)) (blen payload) lsn 0 v = UB.
Proof.
  intros Hh Hl payload. pose proof (blen_db_log_record name). unfold payload.
  rewrite blen_log_payload, handler_replay_payload, Hh by lia.
  change (i16 DDL_LOG_BASE_TYPE) with DDL_LOG_BASE_TYPE. rewrite lookup_singleton_eq.
  unfold replay_sub, ddl_replays, ObDDLService_replay. rewrite (proj2 (Z.leb_gt _ _)) by lia.
  destruct (db_record_read name junk) as (-> & -> & H3); [lia|]. cbn [mbind outcome_bind].
  rewrite !(le_dec_enc_small 8) by lia. rewrite H3. cbn [mbind outcome_bind].
  rewrite mem_write_oob by (rewrite blen_calloc; lia). done.
Qed.

Lemma long_name_session fuel base s s' before room name : ddl_disk base s before room → reboot s s' →
  cstr_wf name → 256 < blen name → 80 + blen name ≤ SCAN_BUF → 80 + blen name ≤ room →
  80 * Z.of_nat (length before) + room < 2 ^ 62 → (S (length before) < fuel)%nat →
  ∃ v s2 d created room', session fuel base [name] s' = Done ([0], v, s2)
    ∧ ddl_repr base d s2 (before ++ [name]) created room'.
Proof.
  intros (d & created & Hrep & Hb & Hc & Hv & Hhas & Hcr & Hlc) Hreb Hn Hl Hsmall Hfit Hbound Hfu. unfold SCAN_BUF in Hsmall.
  destruct (ddl_init_existing fuel base d s before created room s' Hrep Hreb ltac:(lia)) as (d1 & s1 & E1 & Hrep1).
  destruct (ddl_recover_ok fuel base d1 s1 before created room ObSchemaService_new Hrep1 (proj1 schema_new_inv) Hv Hb
              (db_names_cstr _ Hc) (db_names_short _ Hc) Hcr ltac:(lia) ltac:(lia)) as (s2 & E2 & Hrep2).
  set (v := foldl _ _ before) in *.
  assert (ids_left 1 v) as Hids.
  { apply apply_creates_inv; [apply schema_new_inv|by apply db_names_cstr|]. unfold ids_left. cbn [ss_next_database_id_ ObSchemaService_new]. lia. }
  destruct (create_database_ok base d1 s2 before created room name 0 v Hrep2 Hv Hn Hids ltac:(lia) Hfit)
    as (ret & id & d3 & s3 & E3 & [(_ & (k & db & Hk & Hdb) & _)|(-> & _ & _ & Hrep3)]).
  { exfalso. destruct Hv as [_ Hv]. destruct (Hv k db Hk) as (_ & n & Hn' & Hlen). rewrite Hdb in Hn'. injection Hn' as ->. lia. }
  do 5 eexists. split; [|exact Hrep3].
  unfold session. rewrite E1. cbn [mbind outcome_bind]. rewrite E2. cbn [mbind outcome_bind create_databases]. rewrite E3. done.
Qed.

Lemma records_snoc es names name : records es (db_record <$> (names ++ [name])) →
  ∃ es1 e, es = es1 ++ [e] ∧ records es1 (db_record <$> names)
    ∧ en_payload e = log_payload DDL_LOG_BASE_TYPE (db_log_record name).
Proof.
  unfold records. rewrite !fmap_app. intros H. apply fmap_app_inv in H as (es1 & es2 & H1 & H2 & ->).
  destruct es2 as [|e [|]]; try done. injection H2 as H2. exists es1, e. by rewrite H1.
Qed.

(** C39: a long database name makes the data unusable.  CREATE DATABASE with a
    name of more than 256 bytes (which still fits the read buffer of the log) is
    accepted in a running server, and every later start of the server has undefined
    behaviour: [replay] copies the logged name into an array of 256 bytes. *)
Theorem long_name_breaks_recovery fuel base before name s0 :
  os_wf s0 → os_faults s0 = [] → fresh_dir base s0 → Forall db_name_ok before →
  names_log_size before + 80 + blen name ≤ PALF_BLOCK_SIZE - SCAN_BUF → cstr_wf name →
  256 < blen name → 80 + blen name ≤ SCAN_BUF → (S (length before) < fuel)%nat →
  ∃ v1 s1, session fuel base before s0 = Done (create_codes [] before, v1, s1)
    ∧ ∀ s2, reboot s1 s2 → ∃ v3 s3, session fuel base [name] s2 = Done ([0], v3, s3)
      ∧ ∀ later s4, reboot s3 s4 → session fuel base later s4 = UB.
Proof.
  intros Hw Hf Hfr Hok Hfit Hn Hl Hsmall Hfu. pose proof (names_log_size_length before).
  assert (PALF_BLOCK_SIZE - SCAN_BUF < 2 ^ 61) by done.
  destruct (session_first fuel base s0 before Hw Hf Hfr Hok ltac:(lia) ltac:(lia)) as (s1 & E & Hdisk).
  do 2 eexists. split; [done|]. intros s2 Hreb.
  destruct (long_name_session fuel base s1 s2 before _ name Hdisk Hreb Hn Hl Hsmall) as (v3 & s3 & d & created & room & E3 & Hrep);
    [lia..|]. exists v3, s3. split; [done|]. intros later s4 Hreb4.
  destruct (ddl_init_existing fuel base d s3 _ created room s4 Hrep Hreb4) as (d5 & s5 & E5 & Hrep5);
    [rewrite length_app; cbn; lia|].
  unfold session. rewrite E5. cbn [mbind outcome_bind].
  destruct Hrep5 as (Hin & _ & _ & _ & _ & _ & svc & l & h & es & endl & id & Hsvc & Hl5 & Hh & Hhr & Hrec & _ & _ & Hhs & Hrh).
  unfold ObDDLService_recover_schema. rewrite Hin, Hsvc.
  destruct (records_snoc _ _ _ Hrec) as (es1 & e & -> & Hrec1 & He).
  destruct (ddl_entries h es1 before Hrh Hrec1 Hok) as [Hall _].
  pose proof (records_length _ _ Hrec1) as Hlen. rewrite length_fmap in Hlen. pose proof (blen_db_log_record name).
  rewrite (replay_ls_ub names_ok replay_step fuel DDL_LS_ID svc l h s5 ObSchemaService_new (ls_dir base DDL_LS_ID) es1 e [] endl id); try done.
  - lia.
  - intros lsn junk v _. rewrite He. apply ddl_replay_long; [done|]. unfold SCAN_BUF in Hsmall. lia.
  - unfold entry_size. rewrite He, blen_log_payload. lia.
  - rewrite He, blen_log_payload. lia.
Qed.

Lemma long_name_breaks_recovery_witness :
  ∃ v1 s1, session 4 "base" [[97]] os_empty = Done ([0], v1, s1)
    ∧ ∀ s2, reboot s1 s2 → ∃ v3 s3, session 4 "base" [replicate 300 98] s2 = Done ([0], v3, s3)
      ∧ ∀ later s4, reboot s3 s4 → session 4 "base" later s4 = UB.
Proof.
  apply (long_name_breaks_recovery 4 "base" [[97]] (replicate 300 98) os_empty).
  - apply os_empty_wf.
  - done.
  - done.
  - repeat constructor; done.
  - done.
  - apply Forall_replicate. done.
  - done.
  - done.
  - cbn. lia.
Defined.
