(* ===== verification/Memtable.v ===== *)
(** * ObMemtable

    Models [src/src/storage/memtable/ob_memtable.h/.cpp].  The write path logs
    a record and then writes the version chain of the key; the log is reached
    through the [AppendLog] interface and its state is threaded ([lg]).  The
    memtable is specified as a map from key hashes to version lists. *)

From S2P Require Import Prelude Pod StoreTypes OrdMap MvccRow QueryEngine MvccEngine Posix LogEntry LogStorage Palf LogService.

Record ObMemtable := mkMemtable {
  mt_tablet_id_ : Z;
  mt_is_inited_ : bool;
  mt_is_frozen_ : bool;
  mt_row_count_ : Z;
  mt_occupy_size_ : Z;
  mt_snapshot_version_ : Z;
  mt_max_trans_version_ : Z;
  mt_chunks_ : nat;
  mt_current_chunk_offset_ : Z;
  mt_query_engine_ : ObQueryEngine;
  mt_mvcc_engine_ : option ObMvccEngine;
  mt_log_handler_ : bool }.

Definition CHUNK_SIZE : Z := 4 * 1024 * 1024.

Definition ObMemtable_new : ObMemtable :=
  mkMemtable 0 false false 0 0 0 0 0 0 ObQueryEngine_new None false.

Definition set_qe (q : ObQueryEngine) (mt : ObMemtable) : ObMemtable :=
  mkMemtable (mt_tablet_id_ mt) (mt_is_inited_ mt) (mt_is_frozen_ mt) (mt_row_count_ mt)
    (mt_occupy_size_ mt) (mt_snapshot_version_ mt) (mt_max_trans_version_ mt) (mt_chunks_ mt)
    (mt_current_chunk_offset_ mt) q (mt_mvcc_engine_ mt) (mt_log_handler_ mt).
Definition set_mt_log_handler (b : bool) (mt : ObMemtable) : ObMemtable :=
  mkMemtable (mt_tablet_id_ mt) (mt_is_inited_ mt) (mt_is_frozen_ mt) (mt_row_count_ mt)
    (mt_occupy_size_ mt) (mt_snapshot_version_ mt) (mt_max_trans_version_ mt) (mt_chunks_ mt)
    (mt_current_chunk_offset_ mt) (mt_query_engine_ mt) (mt_mvcc_engine_ mt) b.

Definition ObMemtable_init (tablet_id : Z) (mt : ObMemtable) : Z * ObMemtable :=
  let '(ret, e) := ObMvccEngine_init true true ObMvccEngine_new in
  (ret, mkMemtable tablet_id (if ret =? 0 then true else mt_is_inited_ mt) (mt_is_frozen_ mt)
          (mt_row_count_ mt) (mt_occupy_size_ mt) (mt_snapshot_version_ mt) (mt_max_trans_version_ mt)
          (mt_chunks_ mt) (mt_current_chunk_offset_ mt) (mt_query_engine_ mt) (Some e)
          (mt_log_handler_ mt)).

Definition ObMemtable_get_row_count (mt : ObMemtable) : Z := mt_row_count_ mt.
Definition ObMemtable_get_occupy_size (mt : ObMemtable) : Z := mt_occupy_size_ mt.
Definition ObMemtable_is_empty (mt : ObMemtable) : bool := mt_row_count_ mt =? 0.
Definition ObMemtable_is_active (mt : ObMemtable) : bool := negb (mt_is_frozen_ mt).
Definition ObMemtable_set_frozen (mt : ObMemtable) : ObMemtable :=
  mkMemtable (mt_tablet_id_ mt) (mt_is_inited_ mt) true (mt_row_count_ mt)
    (mt_occupy_size_ mt) (mt_max_trans_version_ mt) (mt_max_trans_version_ mt) (mt_chunks_ mt)
    (mt_current_chunk_offset_ mt) (mt_query_engine_ mt) (mt_mvcc_engine_ mt) (mt_log_handler_ mt).

(** [alloc]: the chunk index and the offset of the pointer returned. *)
Definition ObMemtable_alloc (size : Z) (mt : ObMemtable) : nat * Z * ObMemtable :=
  let '(chunks, off) :=
    if (mt_chunks_ mt =? 0)%nat || (CHUNK_SIZE <? mt_current_chunk_offset_ mt + size)
    then (S (mt_chunks_ mt), 0) else (mt_chunks_ mt, mt_current_chunk_offset_ mt) in
  ((chunks - 1)%nat, off,
   mkMemtable (mt_tablet_id_ mt) (mt_is_inited_ mt) (mt_is_frozen_ mt) (mt_row_count_ mt)
     (mt_occupy_size_ mt) (mt_snapshot_version_ mt) (mt_max_trans_version_ mt) chunks (off + size)
     (mt_query_engine_ mt) (mt_mvcc_engine_ mt) (mt_log_handler_ mt)).

(** [mvcc_write_]: dereferences [mvcc_engine_]. *)
Definition ObMemtable_mvcc_write_ (ctx : ObStoreCtx) (key : ObMemtableKey) (arg : ObTxNodeArg)
    (check_exist : bool) (res : ObMvccWriteResult) (mt : ObMemtable)
    : outcome (Z * ObMvccWriteResult * ObMemtable) :=
  e ← deref (mt_mvcc_engine_ mt);
  x ← ObMvccEngine_create_kv e (Some key) None (mt_query_engine_ mt);
  let '(ret, value, q) := x : Z * option loc * ObQueryEngine in
  match value with
  | None => Done (-1, res, set_qe q mt)
  | Some l =>
      if negb (ret =? 0) then Done (-1, res, set_qe q mt)
      else
        y ← ObMvccEngine_mvcc_write ctx l arg check_exist res q;
        let '(ret, res, q) := y : Z * ObMvccWriteResult * ObQueryEngine in
        if negb (ret =? 0) then Done (ret, res, set_qe q mt)
        else
          let stored_key := ObMemtableKey_default in
          z ← ObMvccEngine_ensure_kv e (Some stored_key) (Some l) q;
          let '(_, q) := z : Z * ObQueryEngine in
          Done (0, set_res_mtk stored_key (ObMvccEngine_finish_kv res), set_qe q mt)
  end.

(** The record built in [log_buf] by [set]:
    [dml_flag 1B][key_len 4B][key][val_len 4B][value]. *)
Definition set_log_record (row : ObStoreRow) : outcome (Z * option bytes) :=
  let rk := rowkey_ row in
  let key_len := ObStoreRowkey_get_length rk in
  let val_len := blen (row_value_ row) in
  let log_buf_len := 1 + 4 + key_len + 4 + val_len in
  if log_buf_len <? 0 then Done (-1, None)
  else
    let log_buf := replicate (Z.to_nat log_buf_len) 0 in
    key ← (match ObStoreRowkey_get_data rk with
           | Some d => if 0 <? key_len then mem_read 0 key_len d else Done []
           | None => Done []
           end);
    log_buf ← write_fields 0
      [[u8 (dml_flag_ row)]; le_enc 4 key_len; key; le_enc 4 val_len; row_value_ row] log_buf;
    Done (0, Some log_buf).

Section Log.
Context {L : Type} `{!AppendLog L}.

Definition ObMemtable_set (ctx : ObStoreCtx) (row : ObStoreRow) (mt : ObMemtable) (lg : L)
    : outcome (Z * ObMemtable * L) :=
  if negb (mt_is_inited_ mt) || mt_is_frozen_ mt then Done (-1, mt, lg)
  else
    r ← set_log_record row;
    match r with
    | (_, None) => Done (-1, mt, lg)
    | (_, Some log_buf) =>
        a ← (if mt_log_handler_ mt then log_append log_buf TABLET_OP_LOG_BASE_TYPE lg
             else Done (0, lg));
        let '(ret, lg) := a : Z * L in
        if negb (ret =? 0) then Done (ret, mt, lg)
        else
          let key := (generate_memtable_key row ObMemtableKey_default).2 in
          let mtd := ObMemtableData_set ObMemtableData_default (dml_flag_ row)
                       (blen (row_value_ row)) (Some (row_value_ row)) in
          let tx_node_arg := mkTxNodeArg (tx_id_ ctx) (Some mtd) 0 in
          w ← ObMemtable_mvcc_write_ ctx key tx_node_arg true ObMvccWriteResult_default mt;
          let '(ret, _, mt) := w : Z * ObMvccWriteResult * ObMemtable in
          if negb (ret =? 0) then Done (ret, mt, lg)
          else
            Done (0, mkMemtable (mt_tablet_id_ mt) (mt_is_inited_ mt) (mt_is_frozen_ mt)
                       (mt_row_count_ mt + 1) (mt_occupy_size_ mt + ObMemtableData_size mtd)
                       (mt_snapshot_version_ mt)
                       (if mt_max_trans_version_ mt <? snapshot_version_ ctx
                        then snapshot_version_ ctx else mt_max_trans_version_ mt)
                       (mt_chunks_ mt) (mt_current_chunk_offset_ mt) (mt_query_engine_ mt)
                       (mt_mvcc_engine_ mt) (mt_log_handler_ mt), lg)
    end.

(** [multi_set] stops at the first failure; earlier rows stay written. *)
Fixpoint ObMemtable_multi_set (ctx : ObStoreCtx) (rows : list ObStoreRow) (mt : ObMemtable) (lg : L)
    : outcome (Z * ObMemtable * L) :=
  match rows with
  | [] => Done (0, mt, lg)
  | row :: rows' =>
      x ← ObMemtable_set ctx row mt lg;
      let '(ret, mt, lg) := x : Z * ObMemtable * L in
      if negb (ret =? 0) then Done (ret, mt, lg) else ObMemtable_multi_set ctx rows' mt lg
  end.

(** [replay]: [buf] is the memory the pointer points into.  [key_len] and
    [val_len] are uninitialised [int64_t]s of which only the low 4 bytes are
    copied; [hi_key] and [hi_val] are their upper halves. *)
Definition ObMemtable_replay (hi_key hi_val : Z) (buf : option bytes) (nbytes : Z) (mt : ObMemtable)
    (lg : L) : outcome (Z * ObMemtable * L) :=
  match buf with
  | None => Done (-1, mt, lg)
  | Some buf =>
      if nbytes <=? 0 then Done (-1, mt, lg)
      else
        d ← mem_read 0 1 buf;
        let dml := sint 8 (le_dec d) in
        k ← mem_read 1 4 buf;
        let key_len := i64 (le_dec k + 2 ^ 32 * hi_key) in
        key ← (if 0 <? key_len then mem_read 5 key_len buf else Done []);
        let rowkey := ObStoreRowkey_new (Some key) key_len in
        v ← mem_read (5 + key_len) 4 buf;
        let val_len := i64 (le_dec v + 2 ^ 32 * hi_val) in
        value ← mem_read (9 + key_len) val_len buf;
        let row := mkRow dml 1 OB_INVALID_TRANS_ID rowkey value false in
        let saved_handler := mt_log_handler_ mt in
        x ← ObMemtable_set ObStoreCtx_default row (set_mt_log_handler false mt) lg;
        let '(ret, mt, lg) := x : Z * ObMemtable * L in
        Done (ret, set_mt_log_handler saved_handler mt, lg)
  end.
End Log.

Definition ObMemtable_get (ctx : ObStoreCtx) (rowkey : ObStoreRowkey) (results : list ObStoreRow)
    (mt : ObMemtable) : outcome (Z * list ObStoreRow) :=
  let key := (ObMemtableKey_encode ObMemtableKey_default (Some rowkey)).2 in
  e ← deref (mt_mvcc_engine_ mt);
  ObMvccEngine_get e ctx (Some key) results (mt_query_engine_ mt).

(** The test of [scan]: committed, or with the [F_INIT] bit set. *)
Definition memtable_scan_visible (n : ObMvccTransNode) : bool :=
  ObMvccTransNode_is_committed n || negb (Z.land (n_flag_ n) 0x01 =? 0).

(** [scan] walks the whole map; its range, snapshot and exclusion arguments are
    not used by the code. *)
Fixpoint scan_btree (q : ObQueryEngine) (btree : list (Z * loc)) (results : list ObStoreRow)
    : outcome (list ObStoreRow) :=
  match btree with
  | [] => Done results
  | (_, l) :: btree' =>
      srows ← scan_row memtable_scan_visible q l;
      scan_btree q btree' (results ++ srows)
  end.
Definition ObMemtable_scan (ctx : ObStoreCtx) (start_key : ObStoreRowkey) (start_exclude : bool)
    (end_key : ObStoreRowkey) (end_exclude : bool) (results : list ObStoreRow) (mt : ObMemtable)
    : outcome (Z * list ObStoreRow) :=
  results ← scan_btree (mt_query_engine_ mt) (qe_btree_ (mt_query_engine_ mt)) results;
  Done (0, results).

(** [set_log_handler]: the memtable, at address [self], registers itself for
    tablet operations when the pointer is not null. *)
Definition ObMemtable_set_log_handler (self : positive) (log_handler : option ObLogHandler)
    (mt : ObMemtable) : ObMemtable * option ObLogHandler :=
  (set_mt_log_handler (bool_decide (log_handler ≠ None)) mt,
   (λ h, (ObLogHandler_register_replay_handler TABLET_OP_LOG_BASE_TYPE self h).2) <$> log_handler).

(** ** Specification *)

(** The hash under which a row key is stored; keys without data share hash 0. *)
Definition row_hash (rk : ObStoreRowkey) : Z := hash_of rk.

Lemma row_hash_valid rk : ObStoreRowkey_is_valid rk = true → row_hash rk = ObStoreRowkey_murmurhash rk 0.
Proof. intros Hv. unfold row_hash, hash_of, key_of. by rewrite ObMemtableKey_encode_ok. Qed.
Lemma row_hash_invalid rk : ObStoreRowkey_is_valid rk = false → row_hash rk = 0.
Proof. intros Hv. unfold row_hash, hash_of, key_of. by rewrite ObMemtableKey_encode_bad. Qed.

Lemma generate_key row :
  (generate_memtable_key row ObMemtableKey_default).2
  = (ObMemtableKey_encode ObMemtableKey_default (Some (rowkey_ row))).2.
Proof.
  unfold generate_memtable_key. destruct (ObStoreRowkey_is_valid (rowkey_ row)) eqn:Hv; [done|].
  by rewrite ObMemtableKey_encode_bad.
Qed.

(** Versions as the auto-committing engine makes them. *)
Definition auto_node (n : ObMvccTransNode) : Prop :=
  node_wf n ∧ n_flag_ n = Z.lor F_INIT F_COMMITTED ∧ n_trans_version_ n = 1.

Definition contents_ok (m : contents) : Prop :=
  ∀ h mx vs, m !! h = Some (mx, vs) → Forall auto_node vs.

Definition mt_repr (mt : ObMemtable) (m : contents) : Prop :=
  mt_is_inited_ mt = true
  ∧ (∃ e, mt_mvcc_engine_ mt = Some e ∧ me_query_engine_ e = true)
  ∧ qe_repr (mt_query_engine_ mt) m ∧ contents_ok m.

(** Writing a row: refused when the snapshot is older than the newest write
    snapshot of the hash, else a new version on top. *)
Definition spec_set (ctx : ObStoreCtx) (row : ObStoreRow) (m : contents) : Z * contents :=
  let h := row_hash (rowkey_ row) in
  let '(mx, vs) := default (0, []) (m !! h) in
  let v := tx_node (tx_id_ ctx) (dml_flag_ row) (row_value_ row) in
  let s := snapshot_version_ ctx in
  if negb (s =? OB_INVALID_VERSION) && (s <? mx) then (-1, kv_created h m)
  else (0, <[h := (if s =? OB_INVALID_VERSION then mx else Z.max s mx, v :: vs)]> m).

(** Reading: the newest version, when the snapshot is at least 1. *)
Definition spec_get (ctx : ObStoreCtx) (rk : ObStoreRowkey) (m : contents) : option ObStoreRow :=
  if (snapshot_version_ ctx =? OB_INVALID_VERSION) || (1 <=? snapshot_version_ ctx)
  then row_of_node <$> head (versions_at (row_hash rk) m) else None.

Lemma contents_ok_wf m : contents_ok m → contents_wf m.
Proof. intros H h mx vs Hm. eapply Forall_impl; [by eapply H|]. by intros n []. Qed.

Lemma auto_node_committed n : auto_node n →
  ObMvccTransNode_is_committed n = true ∧ ObMvccTransNode_is_aborted n = false.
Proof.
  intros (_ & Hf & _). unfold ObMvccTransNode_is_committed, ObMvccTransNode_is_aborted.
  by rewrite Hf.
Qed.

Lemma skip_aborted_auto vs : Forall auto_node vs → skip_aborted vs = vs.
Proof. destruct 1 as [|v vs Hv _]; [done|]. cbn. by rewrite (proj2 (auto_node_committed v Hv)). Qed.

Lemma tx_node_auto tx dml value : auto_node (tx_node tx dml value).
Proof. done. Qed.

Lemma spec_write_auto ctx mx v vs : Forall auto_node vs →
  spec_write ctx mx v vs
  = (let s := snapshot_version_ ctx in
     if negb (s =? OB_INVALID_VERSION) && (s <? mx) then WViolation
     else WOk (v :: vs) (if s =? OB_INVALID_VERSION then mx else Z.max s mx)).
Proof.
  intros Hvs. unfold spec_write. rewrite skip_aborted_auto by done. cbn zeta.
  assert (write_free (tx_id_ ctx) vs = true) as ->.
  { destruct Hvs as [|w ws Hw _]; [done|]. cbn. by rewrite (proj1 (auto_node_committed w Hw)). }
  cbn [negb]. by destruct (_ =? OB_INVALID_VERSION).
Qed.

Lemma kv_created_ok h m : contents_ok m → contents_ok (kv_created h m).
Proof.
  intros H. unfold kv_created. destruct (m !! h) eqn:E; [done|]. intros h' mx vs.
  rewrite lookup_insert. case_decide; [intros [= <- <-]; done|eauto].
Qed.

(** ** The write path *)

(** [mvcc_write_] on a represented memtable. *)
Lemma mvcc_write__spec ctx row mt m arg :
  mt_repr mt m →
  ObMvccEngine_build_tx_node_ arg = Done (0, Some (tx_node (tx_id_ ctx) (dml_flag_ row) (row_value_ row))) →
  ∃ res q', ObMemtable_mvcc_write_ ctx (generate_memtable_key row ObMemtableKey_default).2 arg true
              ObMvccWriteResult_default mt = Done ((spec_set ctx row m).1, res, set_qe q' mt)
    ∧ qe_repr q' (spec_set ctx row m).2 ∧ contents_ok (spec_set ctx row m).2.
Proof.
  intros (Hin & (e & He & Hqe) & Hq & Hok) Harg. rewrite generate_key.
  set (key := (ObMemtableKey_encode _ _).2). set (h := row_hash (rowkey_ row)).
  unfold ObMemtable_mvcc_write_. rewrite He. cbn [deref mbind outcome_bind].
  destruct (create_kv_spec e key (mt_query_engine_ mt) m None Hqe Hq (key_of_consistent _))
    as (l & q1 & -> & Hl & Hq1). cbn [mbind outcome_bind Z.eqb negb].
  change (ObMemtableKey_hash key) with h in *.
  destruct (kv_created_lookup h m) as (mx & vs & Hm1 & Hdef).
  pose proof (kv_created_ok h m Hok) as Hok1.
  pose proof (engine_write_spec ctx l arg true ObMvccWriteResult_default q1 _ h _ mx vs Hq1 Hl Hm1 Harg) as Hw.
  unfold spec_set. fold h. rewrite <-Hdef. rewrite spec_write_auto in Hw by (by eapply Hok1).
  cbn zeta in Hw. destruct (negb (snapshot_version_ ctx =? OB_INVALID_VERSION) && _).
  - destruct Hw as (q2 & -> & _ & Hq2). cbn [mbind outcome_bind Z.eqb negb fst snd]. eauto 10.
  - destruct Hw as (res & q2 & -> & _ & Hkh & Hq2). cbn [mbind outcome_bind Z.eqb negb fst snd].
    rewrite (ensure_kv_noop e _ q2 _ h l Hqe Hq2) by (rewrite Hkh; done).
    cbn [mbind outcome_bind]. do 2 eexists. split; [done|].
    change (erase (tx_node _ _ _)) with (tx_node (tx_id_ ctx) (dml_flag_ row) (row_value_ row)) in Hq2.
    assert (∀ y, <[h:=y]> (kv_created h m) = <[h:=y]> m) as Hins.
    { intros y. unfold kv_created. destruct (m !! h); [done|]. by rewrite insert_insert_eq. }
    rewrite Hins in Hq2. split; [done|]. intros h' mx' vs'. rewrite lookup_insert. case_decide; [|by eauto].
    intros [= _ <-]. constructor; [apply tx_node_auto|by eapply Hok1].
Qed.

Lemma set_log_record_ok row : row_wf row → set_log_record row = Done (0, Some (record_of row)).
Proof.
  intros Hwf. pose proof (blen_record_of row Hwf) as Hlen. destruct Hwf as [Hl _].
  unfold set_log_record, ObStoreRowkey_get_length. pose proof (blen_nonneg (rk_buf_ (rowkey_ row))).
  pose proof (blen_nonneg (row_value_ row)).
  destruct (Z.ltb_spec (1 + 4 + rk_length_ (rowkey_ row) + 4 + blen (row_value_ row)) 0); [lia|].
  assert ((match ObStoreRowkey_get_data (rowkey_ row) with
           | Some d => if 0 <? rk_length_ (rowkey_ row)
                       then mem_read 0 (rk_length_ (rowkey_ row)) d else Done []
           | None => Done [] end) = Done (rk_buf_ (rowkey_ row))) as ->.
  { unfold ObStoreRowkey_get_data. rewrite Hl. destruct (Z.ltb_spec 0 (blen (rk_buf_ (rowkey_ row)))).
    - by rewrite mem_read_ok, sub_all by lia.
    - destruct (rk_buf_ (rowkey_ row)) as [|b k]; [done|]. rewrite blen_cons in *.
      pose proof (blen_nonneg k). lia. }
  cbn [mbind outcome_bind].
  assert (concat [[u8 (dml_flag_ row)]; le_enc 4 (rk_length_ (rowkey_ row)); rk_buf_ (rowkey_ row);
                  le_enc 4 (blen (row_value_ row)); row_value_ row] = record_of row) as Hc
    by (cbn [concat]; by rewrite app_nil_r).
  rewrite write_fields_spec; rewrite ?Hc; [|lia|rewrite blen_replicate; lia]. cbn [mbind outcome_bind].
  by rewrite splice_all by (rewrite blen_replicate; lia).
Qed.

Section SetSpec.
Context {L : Type} `{!AppendLog L}.

(** What [set] does once the log has accepted the record. *)
Lemma set_after_log ctx row mt m lg lg' : mt_repr mt m → mt_is_frozen_ mt = false → row_wf row →
  (if mt_log_handler_ mt then log_append (record_of row) TABLET_OP_LOG_BASE_TYPE lg
   else Done (0, lg)) = Done (0, lg') →
  ∃ mt', ObMemtable_set ctx row mt lg = Done ((spec_set ctx row m).1, mt', lg')
    ∧ mt_repr mt' (spec_set ctx row m).2 ∧ mt_is_frozen_ mt' = false
    ∧ mt_log_handler_ mt' = mt_log_handler_ mt
    ∧ mt_row_count_ mt' = mt_row_count_ mt + (if (spec_set ctx row m).1 =? 0 then 1 else 0).
Proof.
  intros Hmt Hfz Hrow Hlog. pose proof Hmt as (Hin & Heng & _).
  unfold ObMemtable_set. rewrite Hin, Hfz. cbn [negb orb].
  rewrite set_log_record_ok by done. cbn [mbind outcome_bind]. rewrite Hlog.
  cbn [mbind outcome_bind Z.eqb negb].
  destruct (mvcc_write__spec ctx row mt m _ Hmt (build_tx_node_spec (tx_id_ ctx) (dml_flag_ row) (row_value_ row) 0))
    as (res & q' & -> & Hq' & Hok'). cbn [mbind outcome_bind].
  unfold spec_set in *. destruct (default (0, []) _) as [mx vs]. destruct (_ && _);
    cbn [fst snd Z.eqb negb] in *; (eexists; split; [done|]); (split; [|split; [done|split; [done|cbn; lia]]]).
  - split_and!; try done.
  - split_and!; try done.
Qed.

Lemma set_refused ctx row mt (lg : L) : mt_is_inited_ mt = false ∨ mt_is_frozen_ mt = true →
  ObMemtable_set ctx row mt lg = Done (-1, mt, lg).
Proof.
  unfold ObMemtable_set. intros [-> | ->]; [done|]. by rewrite orb_true_r.
Qed.

(** A memtable without log handler. *)
Lemma set_nolog ctx row mt m (lg : L) : mt_repr mt m → mt_is_frozen_ mt = false → row_wf row →
  mt_log_handler_ mt = false →
  ∃ mt', ObMemtable_set ctx row mt lg = Done ((spec_set ctx row m).1, mt', lg)
    ∧ mt_repr mt' (spec_set ctx row m).2 ∧ mt_is_frozen_ mt' = false
    ∧ mt_log_handler_ mt' = false
    ∧ mt_row_count_ mt' = mt_row_count_ mt + (if (spec_set ctx row m).1 =? 0 then 1 else 0).
Proof.
  intros Hmt Hfz Hrow Hlh.
  destruct (set_after_log ctx row mt m lg lg Hmt Hfz Hrow) as (mt' & H); [by rewrite Hlh|].
  exists mt'. by rewrite Hlh in H.
Qed.
End SetSpec.

(** ** The read path *)

Lemma get_visible_auto ctx n : auto_node n →
  get_visible ctx n = (snapshot_version_ ctx =? OB_INVALID_VERSION) || (1 <=? snapshot_version_ ctx).
Proof.
  intros Hn. unfold get_visible. rewrite (proj1 (auto_node_committed n Hn)).
  destruct Hn as (_ & _ & Hv). unfold snapshot_sees. by rewrite Hv.
Qed.

Lemma find_const {A} (f : A → bool) b l : Forall (λ x, f x = b) l →
  List.find f l = if b then head l else None.
Proof.
  intros H. destruct b.
  - destruct H as [|x l Hx _]; [done|]. cbn. by rewrite Hx.
  - induction H as [|x l Hx _ IH]; [done|]. cbn. by rewrite Hx.
Qed.

Lemma versions_at_ok h m : contents_ok m → Forall auto_node (versions_at h m).
Proof.
  intros H. unfold versions_at. destruct (m !! h) as [[mx vs]|] eqn:E; [|constructor]. by eapply H.
Qed.

(** [get] refines [spec_get]. *)
Lemma memtable_get_spec ctx rk results mt m : mt_repr mt m →
  ObMemtable_get ctx rk results mt
  = Done (match spec_get ctx rk m with
          | Some row => (0, results ++ [row])
          | None => (-1, results)
          end).
Proof.
  intros (_ & (e & He & Hqe) & Hq & Hok). unfold ObMemtable_get. rewrite He. cbn [deref mbind outcome_bind].
  fold (key_of rk).   rewrite (engine_get_spec e ctx _ results _ m Hqe Hq (contents_ok_wf m Hok) (key_of_consistent rk)).
  fold (row_hash rk). unfold spec_get.
  rewrite (find_const _ ((snapshot_version_ ctx =? OB_INVALID_VERSION) || (1 <=? snapshot_version_ ctx))).
  - destruct (_ || _); [|done]. by destruct (versions_at _ m).
  - eapply Forall_impl; [by apply versions_at_ok|]. apply get_visible_auto.
Qed.

(** [scan] returns the newest version of every hash, in hash order. *)
Lemma scan_btree_spec q m bt results : qe_repr q m → contents_wf m →
  (∀ e, e ∈ bt → e ∈ qe_btree_ q) →
  scan_btree q bt results = Done (results ++ scan_result memtable_scan_visible m (bt.*1)).
Proof.
  intros Hq Hwf. revert results. induction bt as [|[k l] bt IH]; intros results Hb; cbn [scan_btree].
  - cbn. by rewrite app_nil_r.
  - pose proof (Hb (k, l) ltac:(set_solver)) as Hkl.
    apply om_elem_lookup in Hkl; [|by apply Hq]. rewrite qe_agree in Hkl by apply Hq.
    rewrite (scan_row_spec memtable_scan_visible q m k l ltac:(done) Hq Hwf Hkl). cbn [mbind outcome_bind].
    rewrite IH by set_solver. unfold scan_result. rewrite fmap_cons. cbn [fst omap list_omap].
    destruct (row_of_node <$> _); cbn; by rewrite <-app_assoc.
Qed.

Lemma memtable_scan_spec ctx sk se ek ee results mt m : mt_repr mt m →
  ObMemtable_scan ctx sk se ek ee results mt
  = Done (0, results ++ omap (λ h, row_of_node <$> head (versions_at h m))
                          (qe_btree_ (mt_query_engine_ mt)).*1).
Proof.
  intros (_ & _ & Hq & Hok). unfold ObMemtable_scan.
  rewrite (scan_btree_spec _ m) by (done || by apply contents_ok_wf). cbn [mbind outcome_bind].
  do 3 f_equal. unfold scan_result. apply list_omap_ext, Forall_Forall2_diag, Forall_true. intros h. f_equal.
  rewrite (find_const _ true); [done|]. eapply Forall_impl; [by apply versions_at_ok|].
  intros n Hn. unfold memtable_scan_visible. by rewrite (proj1 (auto_node_committed n Hn)).
Qed.

(** A new memtable is empty. *)
Lemma memtable_init_repr id :
  ∃ mt, ObMemtable_init id ObMemtable_new = (0, mt) ∧ mt_repr mt ∅ ∧ mt_is_frozen_ mt = false
        ∧ mt_log_handler_ mt = false ∧ mt_row_count_ mt = 0.
Proof.
  eexists. split; [done|]. split; [|done]. split; [done|]. split; [by eexists|].
  split; [apply ObQueryEngine_new_repr|]. intros h mx vs Hm. by rewrite lookup_empty in Hm.
Qed.

(** ** The latest operation on each hash *)

Definition latest (m : contents) (h : Z) : option (ObDmlFlag * bytes) :=
  (λ n, (hdr_dml_flag_ (n_buf_ n), hdr_buf_ (n_buf_ n))) <$> head (versions_at h m).

Definition row_op (row : ObStoreRow) : ObDmlFlag * bytes := (dml_flag_ row, row_value_ row).

(** Applying rows in order to a map from hashes to operations. *)
Definition apply_row (f : Z → option (ObDmlFlag * bytes)) (row : ObStoreRow)
    : Z → option (ObDmlFlag * bytes) :=
  λ h, if bool_decide (h = row_hash (rowkey_ row)) then Some (row_op row) else f h.

Lemma versions_at_insert h h' x m :
  versions_at h' (<[h := x]> m) = if bool_decide (h' = h) then x.2 else versions_at h' m.
Proof.
  unfold versions_at. rewrite lookup_insert. case_decide; case_bool_decide; try done; congruence.
Qed.

Lemma latest_set ctx row m h : (spec_set ctx row m).1 = 0 →
  latest (spec_set ctx row m).2 h = apply_row (latest m) row h.
Proof.
  unfold spec_set, latest, apply_row. destruct (default (0, []) _) as [mx vs].
  destruct (_ && _); [done|]. intros _. cbn [snd]. rewrite versions_at_insert.
  by case_bool_decide.
Qed.

Lemma spec_set_default_ok row m : (spec_set ObStoreCtx_default row m).1 = 0.
Proof. unfold spec_set. by destruct (default (0, []) _). Qed.

Lemma apply_row_ext f g row : (∀ h, f h = g h) → ∀ h, apply_row f row h = apply_row g row h.
Proof. intros H h. unfold apply_row. by rewrite H. Qed.

Lemma apply_rows_ext rows f g : (∀ h, f h = g h) →
  ∀ h, foldl apply_row f rows h = foldl apply_row g rows h.
Proof.
  revert f g. induction rows as [|row rows IH]; intros f g H h; [done|]. cbn [foldl].
  apply IH. by apply apply_row_ext.
Qed.

(** ** Replaying records *)

(** The row that [replay] builds from a record. *)
Definition replayed_row (row : ObStoreRow) : ObStoreRow :=
  mkRow (dml_flag_ row) 1 OB_INVALID_TRANS_ID (rowkey_ row) (row_value_ row) false.

(** A row whose record can be read back: the lengths fit 4 bytes and the flag
    one signed byte. *)
Definition row_loggable (row : ObStoreRow) : Prop :=
  row_wf row ∧ rk_length_ (rowkey_ row) < 2 ^ 32 ∧ blen (row_value_ row) < 2 ^ 32
  ∧ - 2 ^ 7 ≤ dml_flag_ row < 2 ^ 7.

Lemma spec_set_replayed ctx row m : spec_set ctx (replayed_row row) m = spec_set ctx row m.
Proof. done. Qed.

Lemma rowkey_new_wf rk : rowkey_wf rk → ObStoreRowkey_new (Some (rk_buf_ rk)) (rk_length_ rk) = rk.
Proof.
  intros [Hl _]. destruct rk as [b l]. cbn in *. subst l.
  destruct (Z.ltb_spec 0 (blen b)).
  - unfold blen. rewrite Nat2Z.id, firstn_all. done.
  - destruct b as [|x b]; [done|]. rewrite blen_cons in *. pose proof (blen_nonneg b). lia.
Qed.

Section Replay.
Context {L : Type} `{!AppendLog L}.

(** With the upper halves of the length variables zero, [replay] is [set] of
    the row, without log and with the default context. *)
Lemma replay_record row junk nbytes mt (lg : L) : row_loggable row → 0 < nbytes →
  ObMemtable_replay 0 0 (Some (record_of row ++ junk)) nbytes mt lg
  = (x ← ObMemtable_set ObStoreCtx_default (replayed_row row) (set_mt_log_handler false mt) lg;
     let '(ret, mt', lg') := x : Z * ObMemtable * L in
     Done (ret, set_mt_log_handler (mt_log_handler_ mt) mt', lg')).
Proof.
  intros ([Hl Hb] & Hk & Hv & Hd) Hn. unfold ObMemtable_replay.
  destruct (Z.leb_spec nbytes 0); [lia|].
  pose proof (blen_nonneg (rk_buf_ (rowkey_ row))). pose proof (blen_nonneg (row_value_ row)).
  assert (record_of row ++ junk = [u8 (dml_flag_ row)] ++ le_enc 4 (rk_length_ (rowkey_ row))
            ++ rk_buf_ (rowkey_ row) ++ le_enc 4 (blen (row_value_ row)) ++ row_value_ row ++ junk) as ->
    by (unfold record_of; by rewrite <-!app_assoc).
  set (D := [u8 (dml_flag_ row)]). set (K := le_enc 4 (rk_length_ (rowkey_ row))).
  set (R := rk_buf_ (rowkey_ row)) in *. set (V := le_enc 4 (blen (row_value_ row))).
  assert (blen D = 1) as HD by done. assert (blen K = 4) as HK by done. assert (blen V = 4) as HV by done.
  assert (∀ (a b c : bytes) off n, off = blen a → n = blen b → mem_read off n (a ++ b ++ c) = Done b) as Hrd
    by (intros; by apply mem_read_app).
  assert (∀ t, mem_read 0 1 (D ++ t) = Done D) as -> by (intros t; by apply (Hrd [] D t)).
  cbn [mbind outcome_bind].
  rewrite (Hrd D K) by done. cbn [mbind outcome_bind].
  assert (sint 8 (le_dec D) = dml_flag_ row) as ->.
  { cbn. rewrite Z.add_0_r. unfold u8. rewrite sint_mod, sint_small; lia. }
  assert (i64 (le_dec K + 2 ^ 32 * 0) = rk_length_ (rowkey_ row)) as ->.
  { unfold K, i64. rewrite le_dec_enc_small by (cbn; lia). rewrite sint_small; lia. }
  assert ((if 0 <? rk_length_ (rowkey_ row)
           then mem_read 5 (rk_length_ (rowkey_ row)) (D ++ K ++ R ++ V ++ row_value_ row ++ junk)
           else Done []) = Done R) as ->.
  { destruct (Z.ltb_spec 0 (rk_length_ (rowkey_ row))).
    - rewrite app_assoc, (Hrd (D ++ K) R); [done|rewrite blen_app; lia|done].
    - unfold R in *. destruct (rk_buf_ (rowkey_ row)) as [|b k]; [done|]. rewrite blen_cons in *.
      pose proof (blen_nonneg k). lia. }
  cbn [mbind outcome_bind].
  rewrite (app_assoc D), (app_assoc (D ++ K)), (Hrd ((D ++ K) ++ R) V) by (rewrite ?blen_app; lia).
  cbn [mbind outcome_bind].
  assert (i64 (le_dec V + 2 ^ 32 * 0) = blen (row_value_ row)) as ->.
  { unfold V, i64. rewrite le_dec_enc_small by (cbn; lia). rewrite sint_small; lia. }
  rewrite (app_assoc ((D ++ K) ++ R)), (Hrd (((D ++ K) ++ R) ++ V) (row_value_ row))
    by (rewrite ?blen_app; lia).
  cbn [mbind outcome_bind]. unfold R. by rewrite rowkey_new_wf.
Qed.

(** So it applies the row. *)
Lemma replay_record_repr row junk nbytes mt m (lg : L) : row_loggable row → 0 < nbytes →
  mt_repr mt m → mt_is_frozen_ mt = false →
  ∃ mt', ObMemtable_replay 0 0 (Some (record_of row ++ junk)) nbytes mt lg = Done (0, mt', lg)
    ∧ mt_repr mt' (spec_set ObStoreCtx_default row m).2 ∧ mt_is_frozen_ mt' = false.
Proof.
  intros Hrow Hn Hmt Hfz. rewrite replay_record by done.
  destruct (set_nolog ObStoreCtx_default (replayed_row row) (set_mt_log_handler false mt) m lg)
    as (mt' & Hset & Hmt' & Hfz' & _); [done|done|apply Hrow|done|].
  rewrite Hset, spec_set_replayed, spec_set_default_ok. cbn [mbind outcome_bind].
  eexists. split; [done|]. rewrite spec_set_replayed in Hmt'. done.
Qed.
End Replay.

(** ** Histories of a memtable

    Writes, reads and a freeze on a memtable without log handler; the state of
    the log it never touches is [lg]. *)
Inductive mt_op :=
  | MSet (ctx : ObStoreCtx) (row : ObStoreRow)
  | MMultiSet (ctx : ObStoreCtx) (rows : list ObStoreRow)
  | MFreeze
  | MGet (ctx : ObStoreCtx) (rk : ObStoreRowkey)
  | MScan (ctx : ObStoreCtx) (sk : ObStoreRowkey) (se : bool) (ek : ObStoreRowkey) (ee : bool)
  | MRowCount.
Definition mt_op_wf (op : mt_op) : Prop :=
  match op with
  | MSet _ row => row_wf row
  | MMultiSet _ rows => Forall row_wf rows
  | _ => True
  end.

(** The abstract memtable: versions by hash, rows written, frozen or not. *)
Record abs_memtable := mkAbs { abs_contents : contents; abs_count : Z; abs_frozen : bool }.
Definition abs_set (ctx : ObStoreCtx) (row : ObStoreRow) (a : abs_memtable) : Z * abs_memtable :=
  if abs_frozen a then (-1, a)
  else
    let '(ret, m) := spec_set ctx row (abs_contents a) in
    (ret, mkAbs m (abs_count a + if ret =? 0 then 1 else 0) false).
Fixpoint abs_multi_set (ctx : ObStoreCtx) (rows : list ObStoreRow) (a : abs_memtable) : Z * abs_memtable :=
  match rows with
  | [] => (0, a)
  | row :: rows =>
      let '(ret, a) := abs_set ctx row a in
      if negb (ret =? 0) then (ret, a) else abs_multi_set ctx rows a
  end.
Definition abs_step (op : mt_op) (a : abs_memtable) : engine_answer * abs_memtable :=
  let m := abs_contents a in
  match op with
  | MSet ctx row => let '(ret, a) := abs_set ctx row a in (ACode ret, a)
  | MMultiSet ctx rows => let '(ret, a) := abs_multi_set ctx rows a in (ACode ret, a)
  | MFreeze => (ACode 0, mkAbs m (abs_count a) true)
  | MGet ctx rk => (match spec_get ctx rk m with Some row => ARows 0 [row] | None => ARows (-1) [] end, a)
  | MScan _ _ _ _ _ =>
      (ARows 0 (omap (λ h, row_of_node <$> head (versions_at h m)) (sorted_hashes m)), a)
  | MRowCount => (ACode (abs_count a), a)
  end.
Fixpoint abs_run (ops : list mt_op) (a : abs_memtable) : list engine_answer * abs_memtable :=
  match ops with
  | [] => ([], a)
  | op :: ops =>
      let '(x, a) := abs_step op a in
      let '(out, a) := abs_run ops a in (x :: out, a)
  end.

Section History.
Context {L : Type} `{!AppendLog L} (lg : L).

Definition mt_step (op : mt_op) (mt : ObMemtable) : outcome (engine_answer * ObMemtable) :=
  match op with
  | MSet ctx row =>
      x ← ObMemtable_set ctx row mt lg;
      let '(ret, mt, _) := x : Z * ObMemtable * L in Done (ACode ret, mt)
  | MMultiSet ctx rows =>
      x ← ObMemtable_multi_set ctx rows mt lg;
      let '(ret, mt, _) := x : Z * ObMemtable * L in Done (ACode ret, mt)
  | MFreeze => Done (ACode 0, ObMemtable_set_frozen mt)
  | MGet ctx rk =>
      x ← ObMemtable_get ctx rk [] mt;
      let '(ret, rows) := x : Z * list ObStoreRow in Done (ARows ret rows, mt)
  | MScan ctx sk se ek ee =>
      x ← ObMemtable_scan ctx sk se ek ee [] mt;
      let '(ret, rows) := x : Z * list ObStoreRow in Done (ARows ret rows, mt)
  | MRowCount => Done (ACode (ObMemtable_get_row_count mt), mt)
  end.
Fixpoint mt_run (ops : list mt_op) (mt : ObMemtable) : outcome (list engine_answer * ObMemtable) :=
  match ops with
  | [] => Done ([], mt)
  | op :: ops =>
      x ← mt_step op mt;
      let '(a, mt) := x : engine_answer * ObMemtable in
      y ← mt_run ops mt;
      let '(out, mt) := y : list engine_answer * ObMemtable in Done (a :: out, mt)
  end.

Definition abs_repr (mt : ObMemtable) (a : abs_memtable) : Prop :=
  mt_repr mt (abs_contents a) ∧ mt_row_count_ mt = abs_count a ∧ mt_is_frozen_ mt = abs_frozen a
  ∧ mt_log_handler_ mt = false.

Lemma abs_set_spec ctx row mt a : abs_repr mt a → row_wf row →
  let '(ret, a') := abs_set ctx row a in
  ∃ mt', ObMemtable_set ctx row mt lg = Done (ret, mt', lg) ∧ abs_repr mt' a'.
Proof.
  intros (Hm & Hc & Hf & Hl) Hrow. unfold abs_set. destruct (abs_frozen a) eqn:E.
  - exists mt. split; [apply set_refused; by right|]. by split_and!; try congruence.
  - destruct (set_nolog ctx row mt (abs_contents a) lg Hm Hf Hrow Hl) as (mt' & Hs & Hm' & Hf' & Hl' & Hc').
    destruct (spec_set ctx row (abs_contents a)) as [ret m']. cbn [fst snd] in *.
    exists mt'. split; [done|]. split_and!; try done. cbn. congruence.
Qed.

Lemma abs_multi_set_spec ctx rows : Forall row_wf rows → ∀ mt a, abs_repr mt a →
  let '(ret, a') := abs_multi_set ctx rows a in
  ∃ mt', ObMemtable_multi_set ctx rows mt lg = Done (ret, mt', lg) ∧ abs_repr mt' a'.
Proof.
  induction 1 as [|row rows Hrow _ IH]; intros mt a Ha; cbn [abs_multi_set ObMemtable_multi_set]; [by exists mt|].
  pose proof (abs_set_spec ctx row mt a Ha Hrow) as Hs. destruct (abs_set ctx row a) as [ret a1].
  destruct Hs as (mt1 & -> & Ha1). cbn [mbind outcome_bind].
  destruct (negb (ret =? 0)); [by exists mt1|]. by apply IH.
Qed.

Lemma mt_step_spec op mt a : abs_repr mt a → mt_op_wf op →
  let '(x, a') := abs_step op a in ∃ mt', mt_step op mt = Done (x, mt') ∧ abs_repr mt' a'.
Proof.
  intros Ha Hop. destruct op as [ctx row|ctx rows| |ctx rk|ctx sk se ek ee|]; cbn [abs_step mt_step].
  - pose proof (abs_set_spec ctx row mt a Ha Hop) as Hs. destruct (abs_set ctx row a) as [ret a1].
    destruct Hs as (mt1 & -> & Ha1). by exists mt1.
  - pose proof (abs_multi_set_spec ctx rows Hop mt a Ha) as Hs. destruct (abs_multi_set ctx rows a) as [ret a1].
    destruct Hs as (mt1 & -> & Ha1). by exists mt1.
  - eexists. split; [done|]. destruct Ha as (Hm & Hc & Hf & Hl). by split_and!.
  - rewrite (memtable_get_spec ctx rk [] mt (abs_contents a)) by apply Ha. exists mt.
    by destruct (spec_get ctx rk (abs_contents a)).
  - rewrite (memtable_scan_spec ctx sk se ek ee [] mt (abs_contents a)) by apply Ha.
    rewrite (btree_hashes _ (abs_contents a)) by apply Ha. by exists mt.
  - exists mt. split; [|done]. unfold ObMemtable_get_row_count. by rewrite (proj1 (proj2 Ha)).
Qed.

Lemma mt_run_spec ops : Forall mt_op_wf ops → ∀ mt a, abs_repr mt a →
  let '(out, a') := abs_run ops a in ∃ mt', mt_run ops mt = Done (out, mt') ∧ abs_repr mt' a'.
Proof.
  induction 1 as [|op ops Hop _ IH]; intros mt a Ha; cbn [abs_run mt_run]; [by exists mt|].
  pose proof (mt_step_spec op mt a Ha Hop) as Hs. destruct (abs_step op a) as [x a1].
  destruct Hs as (mt1 & -> & Ha1). cbn [mbind outcome_bind]. specialize (IH mt1 a1 Ha1).
  destruct (abs_run ops a1) as [out a2]. destruct IH as (mt2 & -> & Ha2). by exists mt2.
Qed.
End History.


(** A log that is never written. *)
Definition no_log : AppendLog unit := λ _ _ lg, Done (-1, lg).

(** ** The chunk allocator *)

(** A region: chunk, offset and size. *)
Abbreviation region_at := (nat * Z * Z)%type (only parsing).
Fixpoint alloc_run (sizes : list Z) (mt : ObMemtable) : list region_at * ObMemtable :=
  match sizes with
  | [] => ([], mt)
  | n :: sizes =>
      let '(c, off, mt) := ObMemtable_alloc n mt in
      let '(rs, mt) := alloc_run sizes mt in ((c, off, n) :: rs, mt)
  end.
Definition in_chunk (r : region_at) : Prop := 0 ≤ r.1.2 ∧ r.1.2 + r.2 ≤ CHUNK_SIZE.
(** [r] lies before [r'], so the two do not overlap. *)
Definition before (r r' : region_at) : Prop :=
  (r.1.1 < r'.1.1)%nat ∨ (r.1.1 = r'.1.1 ∧ r.1.2 + r.2 ≤ r'.1.2).
(** [r] lies in the space that [mt] has not handed out yet. *)
Definition unused (mt : ObMemtable) (r : region_at) : Prop :=
  (mt_chunks_ mt ≤ r.1.1)%nat ∨ (S r.1.1 = mt_chunks_ mt ∧ mt_current_chunk_offset_ mt ≤ r.1.2).

Lemma alloc_spec n mt : 0 ≤ mt_current_chunk_offset_ mt → 0 ≤ n ≤ CHUNK_SIZE →
  let '(c, off, mt') := ObMemtable_alloc n mt in
  in_chunk (c, off, n) ∧ unused mt (c, off, n) ∧ mt_chunks_ mt' = S c
  ∧ mt_current_chunk_offset_ mt' = off + n ∧ (mt_chunks_ mt ≤ mt_chunks_ mt')%nat.
Proof.
  intros Ho Hn. unfold ObMemtable_alloc, in_chunk, unused, CHUNK_SIZE in *.
  destruct (Nat.eqb_spec (mt_chunks_ mt) 0) as [E|E]; cbn [orb].
  { rewrite E. cbn. split_and!; try lia. }
  destruct (Z.ltb_spec (4 * 1024 * 1024) (mt_current_chunk_offset_ mt + n)); cbn; split_and!; lia.
Qed.

Lemma alloc_run_spec sizes : Forall (λ n, 0 ≤ n ≤ CHUNK_SIZE) sizes →
  ∀ mt, 0 ≤ mt_current_chunk_offset_ mt →
  let '(rs, mt') := alloc_run sizes mt in
  Forall (λ r, in_chunk r ∧ (r.1.1 < mt_chunks_ mt')%nat) rs ∧ StronglySorted before rs
  ∧ Forall (unused mt) rs ∧ (mt_chunks_ mt ≤ mt_chunks_ mt')%nat.
Proof.
  induction 1 as [|n sizes Hn _ IH]; intros mt Ho; cbn [alloc_run]; [by repeat constructor|].
  pose proof (alloc_spec n mt Ho Hn) as Ha. destruct (ObMemtable_alloc n mt) as [[c off] mt1].
  destruct Ha as (Hin & Hun & Hc & Ho1 & Hle). specialize (IH mt1 ltac:(unfold in_chunk in Hin; cbn in *; lia)).
  destruct (alloc_run sizes mt1) as [rs mt2]. destruct IH as (H1 & H2 & H3 & H4). split_and!.
  - constructor; [split; [done|cbn; lia]|done].
  - constructor; [done|]. eapply Forall_impl; [exact H3|]. intros [[c' o'] n']. unfold unused, before. cbn. lia.
  - constructor; [done|]. eapply Forall_impl; [exact H3|]. intros [[c' o'] n']. unfold unused in *. cbn in *. lia.
  - lia.
Qed.

(** C23: the chunk allocator hands out disjoint memory.  For requests of at most
    one chunk (4 MB), every region [alloc] returns lies inside a chunk that
    exists and each region lies before all later ones, so no two overlap.  A
    larger request is not checked: it gets offset 0 of a new chunk of 4 MB. *)
Theorem alloc_regions_disjoint tablet_id sizes : Forall (λ n, 0 ≤ n ≤ CHUNK_SIZE) sizes →
  let '(rs, mt) := alloc_run sizes (ObMemtable_init tablet_id ObMemtable_new).2 in
  length rs = length sizes
  ∧ Forall (λ r, in_chunk r ∧ (r.1.1 < mt_chunks_ mt)%nat) rs ∧ StronglySorted before rs.
Proof.
  intros Hs. set (mt0 := (ObMemtable_init tablet_id ObMemtable_new).2).
  pose proof (alloc_run_spec sizes Hs mt0 ltac:(done)) as H.
  assert (∀ mt, length (alloc_run sizes mt).1 = length sizes) as Hl.
  { clear. induction sizes as [|n sizes IH]; intros mt; [done|]. cbn [alloc_run].
    destruct (ObMemtable_alloc n mt) as [[c off] mt1]. specialize (IH mt1).
    destruct (alloc_run sizes mt1). cbn in *. congruence. }
  specialize (Hl mt0). destruct (alloc_run sizes mt0) as [rs mt]. cbn in Hl. destruct H as (H1 & H2 & _). by split_and!.
Qed.

Lemma alloc_regions_disjoint_witness :
  let '(rs, mt) := alloc_run [4000000; 200000; 7] (ObMemtable_init 1 ObMemtable_new).2 in
  length rs = 3%nat
  ∧ Forall (λ r, in_chunk r ∧ (r.1.1 < mt_chunks_ mt)%nat) rs ∧ StronglySorted before rs.
Proof.
  apply (alloc_regions_disjoint 1 [4000000; 200000; 7]). repeat constructor; unfold CHUNK_SIZE; lia.
Defined.

(** ** Replay of length fields *)

(** [replay] works only if its stack happens to be zero.  The two length
    variables are [int64_t]s of which only the low four bytes are copied from
    the record; when the upper half of [key_len] is left as any positive number,
    a record shorter than 4 GB makes [replay] read outside its buffer. *)
Theorem replay_reads_uninitialised_length {L} `{!AppendLog L} hi_key hi_val buf nbytes mt (lg : L) :
  is_bytes buf → 5 ≤ blen buf < 2 ^ 32 → 0 < nbytes → 0 < hi_key < 2 ^ 31 →
  ObMemtable_replay hi_key hi_val (Some buf) nbytes mt lg = UB.
Proof.
  intros Hb Hlen Hn Hhi. unfold ObMemtable_replay. rewrite (proj2 (Z.leb_gt _ _)) by lia.
  rewrite (mem_read_ok 0 1 buf) by lia. cbn [mbind outcome_bind].
  rewrite (mem_read_ok 1 4 buf) by lia. cbn [mbind outcome_bind].
  assert (0 ≤ le_dec (sub 1 4 buf) < 2 ^ 32) as Hk.
  { pose proof (le_dec_bound (sub 1 4 buf)) as H. assert (length (sub 1 4 buf) = 4%nat) as Hl.
    { pose proof (blen_sub 1 4 buf ltac:(lia) ltac:(lia) ltac:(lia)) as E. unfold blen in E. lia. }
    rewrite Hl in H. apply H. by apply Forall_take, Forall_drop. }
  assert (i64 (le_dec (sub 1 4 buf) + 2 ^ 32 * hi_key) = le_dec (sub 1 4 buf) + 2 ^ 32 * hi_key) as ->
    by (unfold i64; rewrite sint_small; lia).
  rewrite (proj2 (Z.ltb_lt _ _)) by lia. by rewrite (mem_read_oob 5) by lia.
Qed.

Lemma replay_reads_uninitialised_length_witness :
  @ObMemtable_replay unit no_log 1 0 (Some (record_of (mkRow DF_INSERT 0 1 (rowkey_of [5]) [7] false))) 11
    ObMemtable_new tt = UB.
Proof.
  apply (@replay_reads_uninitialised_length unit no_log 1 0
           (record_of (mkRow DF_INSERT 0 1 (rowkey_of [5]) [7] false)) 11 ObMemtable_new tt);
    [|cbn; unfold blen; cbn; lia|lia|lia].
  apply record_of_bytes; [split; [reflexivity|]|]; repeat constructor; unfold is_byte; lia.
Defined.
