(* ===== verification/NetBuffer.v ===== *)
(** * Buffered output to a client

    Models [src/src/observer/net/ring_buffer.h/.cpp] and
    [buffered_writer.h/.cpp]: the ring of bytes and the writer that sends it to
    a socket.  A socket accepts any part of a [write], asks to try again or
    fails, following a schedule; when the schedule is used up it accepts
    everything. *)

From S2P Require Import Prelude Rc.

(** ** RingBuffer *)

Record RingBuffer := mkRing { rb_buffer_ : bytes; rb_data_size_ : Z; rb_write_pos_ : Z }.

Definition DEFAULT_BUFFER_SIZE : Z := 16 * 1024.

(** A negative size is a [size_t] no vector can have: the exception is not
    caught. *)
Definition RingBuffer_new (size : Z) : outcome RingBuffer :=
  if size <? 0 then UB else Done (mkRing (replicate (Z.to_nat size) 0) 0 0).
Definition RingBuffer_capacity (r : RingBuffer) : Z := i32 (blen (rb_buffer_ r)).
Definition RingBuffer_size (r : RingBuffer) : Z := rb_data_size_ r.
Definition RingBuffer_remain (r : RingBuffer) : Z := RingBuffer_capacity r - RingBuffer_size r.
(** The sum is an [int32_t]; [%] by zero and an overflow are undefined. *)
Definition RingBuffer_read_pos (r : RingBuffer) : outcome Z :=
  let p := rb_write_pos_ r - RingBuffer_size r + RingBuffer_capacity r in
  if (RingBuffer_capacity r =? 0) || (INT32_MAX <? p) then UB else Done (Z.rem p (RingBuffer_capacity r)).

(** [buffer]: code, offset of the pointer in [buffer_], [read_size]. *)
Definition RingBuffer_buffer (r : RingBuffer) : outcome (RC * Z * Z) :=
  if RingBuffer_size r =? 0 then Done (SUCCESS, 0, 0)
  else
    read_pos ← RingBuffer_read_pos r;
    Done (SUCCESS, read_pos,
          if read_pos <? rb_write_pos_ r then rb_write_pos_ r - read_pos else RingBuffer_capacity r - read_pos).

Definition RingBuffer_forward (size : Z) (r : RingBuffer) : RC * RingBuffer :=
  if size <=? 0 then (INVALID_ARGUMENT, r)
  else if RingBuffer_size r <? size then (INVALID_ARGUMENT, r)
  else (SUCCESS, mkRing (rb_buffer_ r) (rb_data_size_ r - size) (rb_write_pos_ r)).

(** [read]: an iteration of the loop over the code, [buf], [read_size] and the
    ring. *)
Definition ring_read_body (size : Z) (x : RC * bytes * Z * RingBuffer)
    : outcome (RC * bytes * Z * RingBuffer + RC * bytes * Z * RingBuffer) :=
  let '(rc, buf, read_size, r) := x in
  if OB_SUCC rc && (read_size <? size) && (0 <? RingBuffer_size r) then
    y ← RingBuffer_buffer r;
    let '(rc, tmp_buf, tmp_size) := y : RC * Z * Z in
    if OB_SUCC rc then
      let copy_size := Z.min (size - read_size) tmp_size in
      d ← mem_read tmp_buf copy_size (rb_buffer_ r);
      buf ← mem_write read_size d buf;
      let '(rc, r) := RingBuffer_forward copy_size r in
      Done (inl (rc, buf, read_size + copy_size, r))
    else Done (inl (rc, buf, read_size, r))
  else Done (inr x).

(** The data of a ring are at most two runs of bytes: two iterations and the
    last test. *)
Definition RING_RUNS : nat := 3.
Definition RingBuffer_read (buf : bytes) (size read_size : Z) (r : RingBuffer) : outcome (RC * bytes * Z * RingBuffer) :=
  if size <? 0 then Done (INVALID_ARGUMENT, buf, read_size, r)
  else loop (ring_read_body size) RING_RUNS (SUCCESS, buf, 0, r).

(** [write]: an iteration over [write_size] and the ring. *)
Definition ring_write_body (data : bytes) (size : Z) (x : Z * RingBuffer) : outcome (Z * RingBuffer + Z * RingBuffer) :=
  let '(write_size, r) := x in
  if (write_size <? size) && (0 <? RingBuffer_remain r) then
    read_pos ← RingBuffer_read_pos r;
    let tmp_buf_size := if read_pos <=? rb_write_pos_ r then RingBuffer_capacity r - rb_write_pos_ r
                        else read_pos - rb_write_pos_ r in
    let copy_size := Z.min (size - write_size) tmp_buf_size in
    d ← mem_read write_size copy_size data;
    b ← mem_write (rb_write_pos_ r) d (rb_buffer_ r);
    if RingBuffer_capacity r =? 0 then UB
    else Done (inl (write_size + copy_size,
                    mkRing b (rb_data_size_ r + copy_size) (Z.rem (rb_write_pos_ r + copy_size) (RingBuffer_capacity r))))
  else Done (inr x).
Definition RingBuffer_write (data : bytes) (size write_size : Z) (r : RingBuffer) : outcome (RC * Z * RingBuffer) :=
  if size <? 0 then Done (INVALID_ARGUMENT, write_size, r)
  else
    x ← loop (ring_write_body data size) RING_RUNS (0, r);
    let '(write_size, r) := x : Z * RingBuffer in Done (SUCCESS, write_size, r).

(** ** The socket *)

Inductive sock_result := Accept (n : Z) | Again | Fail.
Record socket := mkSocket { sk_received : bytes; sk_schedule : list sock_result }.

(** [::write]: the result, and whether a negative one is [EAGAIN] or [EINTR]. *)
Definition sock_write (data : bytes) (k : socket) : Z * bool * socket :=
  match sk_schedule k with
  | [] => (blen data, false, mkSocket (sk_received k ++ data) [])
  | Accept n :: sched =>
      let n := Z.max 0 (Z.min n (blen data)) in (n, false, mkSocket (sk_received k ++ sub 0 n data) sched)
  | Again :: sched => (-1, true, mkSocket (sk_received k) sched)
  | Fail :: sched => (-1, false, mkSocket (sk_received k) sched)
  end.

(** ** BufferedWriter *)

Record BufferedWriter := mkWriter { bw_fd_ : Z; bw_buffer_ : RingBuffer }.
Definition BufferedWriter_new (fd size : Z) : outcome BufferedWriter :=
  r ← RingBuffer_new size; Done (mkWriter fd r).

(** The inner loop of [flush_internal]: [None] on an error. *)
Definition retry_body (data : bytes) (k : socket) : outcome (socket + option Z * socket) :=
  let '(n, again, k) := sock_write data k in
  if n <? 0 then if again : bool then Done (inl k) else Done (inr (None, k))
  else if n =? 0 then Done (inl k) else Done (inr (Some n, k)).

(** An iteration of the outer loop over [write_size]. *)
Definition flush_body (fuel : nat) (size : Z) (x : Z * BufferedWriter * socket)
    : outcome (Z * BufferedWriter * socket + RC * BufferedWriter * socket) :=
  let '(write_size, w, k) := x in
  if (0 <? RingBuffer_size (bw_buffer_ w)) && (write_size <? size) then
    y ← RingBuffer_buffer (bw_buffer_ w);
    let '(rc, buf, read_size) := y : RC * Z * Z in
    if OB_FAIL rc then Done (inr (rc, w, k))
    else
      data ← mem_read buf read_size (rb_buffer_ (bw_buffer_ w));
      z ← loop (retry_body data) fuel k;
      let '(n, k) := z : option Z * socket in
      match n with
      | None => Done (inr (IOERR_WRITE, w, k))
      | Some n => Done (inl (write_size + n, mkWriter (bw_fd_ w) (RingBuffer_forward n (bw_buffer_ w)).2, k))
      end
  else Done (inr (SUCCESS, w, k)).
Definition BufferedWriter_flush_internal (fuel : nat) (size : Z) (w : BufferedWriter) (k : socket)
    : outcome (RC * BufferedWriter * socket) :=
  if bw_fd_ w <? 0 then Done (INVALID_ARGUMENT, w, k) else loop (flush_body fuel size) fuel (0, w, k).

Definition flush_all_body (fuel : nat) (x : BufferedWriter * socket)
    : outcome (BufferedWriter * socket + RC * BufferedWriter * socket) :=
  let '(w, k) := x in
  if 0 <? RingBuffer_size (bw_buffer_ w) then
    y ← BufferedWriter_flush_internal fuel (RingBuffer_size (bw_buffer_ w)) w k;
    let '(rc, w, k) := y : RC * BufferedWriter * socket in
    if OB_SUCC rc then Done (inl (w, k)) else Done (inr (rc, w, k))
  else Done (inr (SUCCESS, w, k)).
Definition BufferedWriter_flush (fuel : nat) (w : BufferedWriter) (k : socket) : outcome (RC * BufferedWriter * socket) :=
  if bw_fd_ w <? 0 then Done (INVALID_ARGUMENT, w, k) else loop (flush_all_body fuel) fuel (w, k).

(** [write]: code, [write_size]. *)
Definition BufferedWriter_write (fuel : nat) (data : bytes) (size write_size : Z) (w : BufferedWriter) (k : socket)
    : outcome (RC * Z * BufferedWriter * socket) :=
  if bw_fd_ w <? 0 then Done (INVALID_ARGUMENT, write_size, w, k)
  else
    y ← (if RingBuffer_remain (bw_buffer_ w) =? 0 then BufferedWriter_flush_internal fuel size w k else Done (SUCCESS, w, k));
    let '(rc, w, k) := y : RC * BufferedWriter * socket in
    if OB_FAIL rc then Done (rc, write_size, w, k)
    else
      z ← RingBuffer_write data size write_size (bw_buffer_ w);
      let '(rc, write_size, r) := z : RC * Z * RingBuffer in
      Done (rc, write_size, mkWriter (bw_fd_ w) r, k).

Definition writen_body (fuel : nat) (data : bytes) (size : Z) (x : Z * BufferedWriter * socket)
    : outcome (Z * BufferedWriter * socket + RC * BufferedWriter * socket) :=
  let '(write_size, w, k) := x in
  if write_size <? size then
    y ← BufferedWriter_write fuel (drop (Z.to_nat write_size) data) (size - write_size) 0 w k;
    let '(rc, tmp_write_size, w, k) := y : RC * Z * BufferedWriter * socket in
    if OB_FAIL rc then Done (inr (rc, w, k)) else Done (inl (write_size + tmp_write_size, w, k))
  else Done (inr (SUCCESS, w, k)).
Definition BufferedWriter_writen (fuel : nat) (data : bytes) (size : Z) (w : BufferedWriter) (k : socket)
    : outcome (RC * BufferedWriter * socket) :=
  if bw_fd_ w <? 0 then Done (INVALID_ARGUMENT, w, k) else loop (writen_body fuel data size) fuel (0, w, k).

Definition BufferedWriter_close (fuel : nat) (w : BufferedWriter) (k : socket) : outcome (RC * BufferedWriter * socket) :=
  if bw_fd_ w <? 0 then Done (SUCCESS, w, k)
  else
    y ← BufferedWriter_flush fuel w k;
    let '(rc, w, k) := y : RC * BufferedWriter * socket in
    if OB_FAIL rc then Done (rc, w, k) else Done (SUCCESS, mkWriter (-1) (bw_buffer_ w), k).

(** ** The ring is a queue

    [ring_rep r q]: the ring holds the bytes [q], in one run that does not
    touch the end of the vector, or in a run [q1] that does and a second one
    [q2] at its start. *)
Inductive ring_rep : RingBuffer → bytes → Prop :=
  | rep_zero : ring_rep (mkRing [] 0 0) []
  | rep_straight a q c : c ≠ [] → ring_rep (mkRing (a ++ q ++ c) (blen q) (blen a + blen q)) q
  | rep_wrapped q1 q2 c : q1 ≠ [] → ring_rep (mkRing (q2 ++ c ++ q1) (blen q1 + blen q2) (blen q2)) (q1 ++ q2).

Section Ring.
Context (cap : Z) (Hcap : cap ≤ 2 ^ 30).

Definition ring_ok (r : RingBuffer) (q : bytes) : Prop := ring_rep r q ∧ blen (rb_buffer_ r) = cap.

Lemma blen_pos {A} (l : list A) : l ≠ [] → 0 < blen l.
Proof. destruct l; [done|]. rewrite blen_cons. pose proof (blen_nonneg l). lia. Qed.

Lemma split2 {A} (l : list A) n : 0 ≤ n ≤ blen l → ∃ a b, l = a ++ b ∧ blen a = n.
Proof.
  intros Hn. exists (take (Z.to_nat n) l), (drop (Z.to_nat n) l). rewrite take_drop. split; [done|].
  unfold blen in *. rewrite length_take. lia.
Qed.

Lemma ring_capacity r q : ring_ok r q → RingBuffer_capacity r = cap.
Proof.
  intros [_ H]. unfold RingBuffer_capacity, i32. rewrite H. apply sint_small; [lia|].
  pose proof (blen_nonneg (rb_buffer_ r)). lia.
Qed.

Lemma ring_size r q : ring_ok r q → RingBuffer_size r = blen q.
Proof. intros [[] _]; cbn; by autorewrite with blen. Qed.

Lemma ring_bounded r q : ring_ok r q → blen q ≤ cap.
Proof.
  intros [Hr <-]. destruct Hr as [|a q c|q1 q2 c]; cbn; autorewrite with blen; [done|..];
    try pose proof (blen_nonneg a); pose proof (blen_nonneg c); lia.
Qed.

Lemma ring_new : 0 ≤ cap → ∃ r, RingBuffer_new cap = Done r ∧ ring_ok r [].
Proof.
  intros H. unfold RingBuffer_new. rewrite (proj2 (Z.ltb_ge _ _)) by done.
  eexists; split; [done|]. split; cbn; [|rewrite blen_replicate; lia].
  destruct (Z.to_nat cap) as [|n]; [apply rep_zero|]. by apply (rep_straight [] [] (replicate (S n) 0)).
Qed.

(** The read position is the place of the first byte. *)
Lemma read_pos_straight a q c : c ≠ [] → blen (a ++ q ++ c) = cap →
  RingBuffer_read_pos (mkRing (a ++ q ++ c) (blen q) (blen a + blen q)) = Done (blen a).
Proof.
  intros Hc Hb. assert (ring_ok (mkRing (a ++ q ++ c) (blen q) (blen a + blen q)) q) as Hok by by split; [constructor|].
  unfold RingBuffer_read_pos. rewrite (ring_capacity _ _ Hok), (ring_size _ _ Hok). cbn [rb_write_pos_].
  autorewrite with blen in Hb. apply blen_pos in Hc. pose proof (blen_nonneg a). pose proof (blen_nonneg q).
  rewrite (proj2 (Z.eqb_neq _ _)) by lia. rewrite (proj2 (Z.ltb_ge _ _)) by (unfold INT32_MAX; lia). cbn. f_equal.
  rewrite Z.rem_mod_nonneg by lia. symmetry. apply (Z.mod_unique _ _ 1); lia.
Qed.

Lemma read_pos_wrapped q1 q2 c : q1 ≠ [] → blen (q2 ++ c ++ q1) = cap →
  RingBuffer_read_pos (mkRing (q2 ++ c ++ q1) (blen q1 + blen q2) (blen q2)) = Done (blen q2 + blen c).
Proof.
  intros Hc Hb.
  assert (ring_ok (mkRing (q2 ++ c ++ q1) (blen q1 + blen q2) (blen q2)) (q1 ++ q2)) as Hok by by split; [constructor|].
  unfold RingBuffer_read_pos. rewrite (ring_capacity _ _ Hok), (ring_size _ _ Hok). cbn [rb_write_pos_].
  autorewrite with blen in *. apply blen_pos in Hc. pose proof (blen_nonneg c). pose proof (blen_nonneg q2).
  rewrite (proj2 (Z.eqb_neq _ _)) by lia. rewrite (proj2 (Z.ltb_ge _ _)) by (unfold INT32_MAX; lia). cbn. f_equal.
  rewrite Z.rem_mod_nonneg by lia. symmetry. apply (Z.mod_unique _ _ 0); lia.
Qed.

(** [buffer] points at the first run, a prefix of the queue that is empty only
    when the queue is.  What is left after it ends at the write position. *)
Lemma ring_peek r q : ring_ok r q →
  ∃ off n, RingBuffer_buffer r = Done (SUCCESS, off, n) ∧ mem_read off n (rb_buffer_ r) = Done (sub 0 n q)
    ∧ 0 ≤ n ≤ blen q ∧ (q ≠ [] → 0 < n) ∧ (n = blen q ∨ rb_write_pos_ r = blen q - n).
Proof.
  intros Hok. pose proof (ring_capacity _ _ Hok) as Hc. pose proof (ring_size _ _ Hok) as Hs.
  unfold RingBuffer_buffer. rewrite Hs. destruct (Z.eqb_spec (blen q) 0) as [H0|H0].
  { exists 0, 0. split_and!; try done; try lia.
    - rewrite mem_read_ok; [done..|]. pose proof (blen_nonneg (rb_buffer_ r)); lia.
    - intros ?%blen_pos; lia. }
  rewrite Hc. destruct Hok as [Hr Hb]. destruct Hr as [|a q c Hne|q1 q2 c Hne]; cbn [rb_buffer_ rb_write_pos_] in *.
  - done.
  - rewrite read_pos_straight by done. cbn. pose proof (blen_nonneg q). rewrite (proj2 (Z.ltb_lt _ _)) by lia.
    replace (blen a + blen q - blen a) with (blen q) by lia. eexists _, _. split; [done|].
    rewrite sub_all, (mem_read_app _ _ a q c) by done. split_and!; try done; lia.
  - rewrite read_pos_wrapped by done. cbn. pose proof (blen_nonneg c). pose proof (blen_nonneg q2).
    apply blen_pos in Hne. rewrite (proj2 (Z.ltb_ge _ _)) by lia. rewrite <- Hb. autorewrite with blen.
    eexists _, _. split; [done|]. replace (blen q2 + (blen c + blen q1) - (blen q2 + blen c)) with (blen q1) by lia.
    rewrite sub_app_l. rewrite app_assoc. rewrite <- (app_nil_r q1) at 2.
    rewrite (mem_read_app _ _ (q2 ++ c) q1 []) by (by rewrite ?blen_app).
    split_and!; try done; try lia.
Qed.

(** [forward n] drops [n] bytes. *)
Lemma ring_forward r q n : ring_ok r q → 0 < n ≤ blen q →
  ∃ r', RingBuffer_forward n r = (SUCCESS, r') ∧ ring_ok r' (drop (Z.to_nat n) q) ∧ rb_write_pos_ r' = rb_write_pos_ r.
Proof.
  intros Hok Hn. pose proof (ring_size _ _ Hok) as Hs. unfold RingBuffer_forward. rewrite Hs.
  rewrite (proj2 (Z.leb_gt _ _)), (proj2 (Z.ltb_ge _ _)) by lia. eexists; split; [done|]. split; [|done]. split; [|apply Hok].
  destruct Hok as [Hr Hb]. destruct Hr as [|a q c Hne|q1 q2 c Hne]; cbn [rb_buffer_ rb_write_pos_ rb_data_size_] in *.
  - unfold blen in Hn; cbn in Hn; lia.
  - rewrite <- (take_drop (Z.to_nat n) q) at 1. rewrite <- app_assoc, app_assoc.
    assert (blen (take (Z.to_nat n) q) = n) as Ht by (unfold blen in *; rewrite length_take; lia).
    assert (blen (drop (Z.to_nat n) q) = blen q - n) as Hd by (unfold blen in *; rewrite length_drop; lia).
    rewrite <- Hd. replace (blen a + blen q) with (blen (a ++ take (Z.to_nat n) q) + blen (drop (Z.to_nat n) q))
      by (rewrite blen_app; lia). by constructor.
  - autorewrite with blen in Hn. destruct (decide (n < blen q1)) as [Hlt|Hge].
    + rewrite drop_app_le by (unfold blen in *; lia).
      assert (blen (drop (Z.to_nat n) q1) = blen q1 - n) as Hd by (unfold blen in *; rewrite length_drop; lia).
      rewrite <- (take_drop (Z.to_nat n) q1) at 1. rewrite (app_assoc c).
      replace (blen q1 + blen q2 - n) with (blen (drop (Z.to_nat n) q1) + blen q2) by lia.
      constructor. intros H0. rewrite H0, blen_nil in Hd. lia.
    + rewrite drop_app_ge by (unfold blen in *; lia). set (m := (Z.to_nat n - length q1)%nat).
      assert (blen (drop m q2) = blen q1 + blen q2 - n) as Hd by (unfold blen, m in *; rewrite length_drop; lia).
      assert (blen (take m q2) = n - blen q1) as Ht by (unfold blen, m in *; rewrite length_take; lia).
      rewrite <- Hd. replace (blen q2) with (blen (take m q2) + blen (drop m q2)) by lia.
      rewrite <- (take_drop m q2) at 1. rewrite <- app_assoc. constructor. by destruct c, q1.
Qed.

(** Copying [d] into the free bytes at the write position appends it. *)
Lemma append_straight a q c d : 0 < blen d ≤ blen c → blen (a ++ q ++ c) = cap →
  ring_ok (mkRing (splice (blen a + blen q) d (a ++ q ++ c)) (blen q + blen d) (Z.rem (blen a + blen q + blen d) cap)) (q ++ d).
Proof.
  intros Hd Hb. destruct (split2 c (blen d)) as (c1 & c2 & -> & Hc1); [lia|]. autorewrite with blen in Hb.
  rewrite (app_assoc a), (splice_eq (a ++ q) c1 c2 d) by (rewrite ?blen_app; lia).
  pose proof (blen_nonneg a). pose proof (blen_nonneg q). pose proof (blen_nonneg c2).
  split; [|cbn; autorewrite with blen; lia].
  rewrite Z.rem_mod_nonneg, <- (blen_app q), <- app_assoc by lia. destruct c2 as [|x c2].
  - rewrite blen_nil in Hb. replace (blen a + blen q + blen d) with cap by lia.
    rewrite Z.mod_same, app_nil_r by lia. pose proof (rep_wrapped (q ++ d) [] a) as R.
    rewrite blen_nil, Z.add_0_r, app_nil_r in R. apply R. intros [_ ->]%app_nil. unfold blen in Hd; cbn in Hd; lia.
  - rewrite blen_cons in Hb. pose proof (blen_nonneg c2). rewrite Z.mod_small by lia.
    rewrite (app_assoc q). replace (blen a + blen q + blen d) with (blen a + blen (q ++ d)) by (rewrite blen_app; lia).
    by apply rep_straight.
Qed.

Lemma append_wrapped q1 q2 c d : q1 ≠ [] → 0 < blen d ≤ blen c → blen (q2 ++ c ++ q1) = cap →
  ring_ok (mkRing (splice (blen q2) d (q2 ++ c ++ q1)) (blen q1 + blen q2 + blen d) (Z.rem (blen q2 + blen d) cap))
    ((q1 ++ q2) ++ d).
Proof.
  intros Hq1 Hd Hb. destruct (split2 c (blen d)) as (c1 & c2 & -> & Hc1); [lia|]. autorewrite with blen in Hb.
  rewrite <- (app_assoc c1), (splice_eq q2 c1 (c2 ++ q1) d) by lia.
  pose proof (blen_pos _ Hq1). pose proof (blen_nonneg q2). pose proof (blen_nonneg c2).
  split; [|cbn; autorewrite with blen; lia]. rewrite Z.rem_mod_nonneg, Z.mod_small by lia.
  rewrite <- app_assoc, <- Z.add_assoc, <- blen_app, (app_assoc q2). by constructor.
Qed.

(** An iteration of [write] appends a nonempty part of what is left.  The loop
    ends after it, or the ring has just come to wrap. *)
Lemma ring_write_step data size ws r q : ring_ok r q → 0 ≤ ws < size → size ≤ blen data → blen q < cap →
  ∃ n r', ring_write_body data size (ws, r) = Done (inl (ws + n, r')) ∧ ring_ok r' (q ++ sub ws n data)
    ∧ 0 < n ≤ size - ws ∧ (ws + n = size ∨ blen q + n = cap ∨ (blen q ≤ rb_write_pos_ r ∧ rb_write_pos_ r' < blen q + n)).
Proof.
  intros Hok Hws Hsize Hq. pose proof (ring_capacity _ _ Hok) as Hc. pose proof (ring_size _ _ Hok) as Hs.
  unfold ring_write_body, RingBuffer_remain. rewrite Hc, Hs, !(proj2 (Z.ltb_lt _ _)) by lia. cbn [andb].
  destruct Hok as [Hr Hb]. destruct Hr as [|a q c Hne|q1 q2 c Hne]; cbn [rb_buffer_ rb_write_pos_ rb_data_size_] in *.
  - unfold blen in *; cbn in *; lia.
  - rewrite read_pos_straight by done. cbn. pose proof (blen_nonneg q). pose proof (blen_nonneg a).
    rewrite (proj2 (Z.leb_le _ _)) by lia.
    apply blen_pos in Hne. pose proof Hb as Hb'. autorewrite with blen in Hb'.
    replace (cap - (blen a + blen q)) with (blen c) by lia.
    assert (∃ n, n = Z.min (size - ws) (blen c)) as [n Hn] by eauto. rewrite <- Hn.
    assert (blen (sub ws n data) = n) as Hd by (apply blen_sub; lia).
    rewrite mem_read_ok by lia. cbn. rewrite mem_write_ok by (rewrite ?Hd; autorewrite with blen; lia). cbn.
    rewrite (proj2 (Z.eqb_neq _ _)) by lia. eexists n, _. split; [done|]. split; [|split; [lia|]].
    + rewrite <- Hd at 2 3. apply append_straight; [lia|done].
    + cbn. destruct (decide (n = size - ws)); [lia|]. right; right. split; [lia|].
      replace (blen a + blen q + n) with cap by lia. rewrite Z.rem_same by lia. lia.
  - rewrite read_pos_wrapped by done. cbn. pose proof (blen_nonneg q2).
    apply blen_pos in Hne as Hp. pose proof Hb as Hb'. autorewrite with blen in *.
    rewrite (proj2 (Z.leb_gt _ _)) by lia. replace (blen q2 + blen c - blen q2) with (blen c) by lia.
    assert (∃ n, n = Z.min (size - ws) (blen c)) as [n Hn] by eauto. rewrite <- Hn.
    assert (blen (sub ws n data) = n) as Hd by (apply blen_sub; lia).
    rewrite mem_read_ok by lia. cbn. rewrite mem_write_ok by (rewrite ?Hd; autorewrite with blen; lia). cbn.
    rewrite (proj2 (Z.eqb_neq _ _)) by lia. eexists n, _. split; [done|]. split; [|lia].
    rewrite <- Hd at 2 3. apply append_wrapped; [done|lia|by autorewrite with blen].
Qed.

Lemma ring_write_end data size ws r q : ring_ok r q → size ≤ ws ∨ blen q = cap →
  ring_write_body data size (ws, r) = Done (inr (ws, r)).
Proof.
  intros Hok H. unfold ring_write_body, RingBuffer_remain. rewrite (ring_capacity _ _ Hok), (ring_size _ _ Hok).
  destruct H as [H|H]; [by rewrite (proj2 (Z.ltb_ge _ _)) by lia|].
  by rewrite H, Z.sub_diag, andb_false_r.
Qed.

Lemma sub_next {A} off n m (l : list A) : 0 ≤ off → 0 ≤ n → 0 ≤ m → sub off n l ++ sub (off + n) m l = sub off (n + m) l.
Proof.
  intros. unfold sub. replace (Z.to_nat (off + n)) with (Z.to_nat off + Z.to_nat n)%nat by lia.
  replace (Z.to_nat (n + m)) with (Z.to_nat n + Z.to_nat m)%nat by lia. rewrite <- drop_drop.
  generalize (drop (Z.to_nat off) l) as k, (Z.to_nat n) as i, (Z.to_nat m) as j. clear.
  intros k i j. by rewrite <- (take_take_drop k i j).
Qed.

(** [write] appends what fits. *)
Lemma ring_write data size ws0 r q : ring_ok r q → 0 ≤ size ≤ blen data →
  ∃ r', RingBuffer_write data size ws0 r = Done (SUCCESS, Z.min size (cap - blen q), r')
        ∧ ring_ok r' (q ++ sub 0 (Z.min size (cap - blen q)) data).
Proof.
  intros Hok Hsize. pose proof (ring_bounded _ _ Hok) as Hq. unfold RingBuffer_write, RING_RUNS.
  rewrite (proj2 (Z.ltb_ge _ _)), loop_step by lia.
  destruct (decide (size = 0 ∨ blen q = cap)) as [H0|H0].
  { rewrite (ring_write_end _ _ _ _ _ Hok) by lia. exists r. cbn. replace (Z.min _ _) with 0 by lia.
    unfold sub; cbn. by rewrite app_nil_r. }
  destruct (ring_write_step data size 0 r q) as (n & r1 & -> & Hok1 & Hn & Hend); [done|lia..|]. cbn [mbind outcome_bind].
  assert (blen (q ++ sub 0 n data) = blen q + n) as Hl by (rewrite blen_app, blen_sub; lia).
  pose proof (ring_bounded _ _ Hok1) as Hq1. rewrite Hl in Hq1. rewrite loop_step.
  destruct (decide (n = size ∨ blen q + n = cap)) as [H1|H1].
  { rewrite (ring_write_end _ _ _ _ _ Hok1) by lia. exists r1. cbn. by replace (Z.min _ _) with n by lia. }
  destruct (ring_write_step data size (0 + n) r1 _ Hok1) as (m & r2 & -> & Hok2 & Hm & Hend2); [lia..|].
  cbn [mbind outcome_bind]. rewrite <- app_assoc, sub_next in Hok2 by lia.
  pose proof (ring_bounded _ _ Hok2) as Hq2. rewrite blen_app, blen_sub in Hq2 by lia.
  rewrite loop_step, (ring_write_end _ _ _ _ _ Hok2) by (rewrite blen_app, blen_sub; lia).
  exists r2. cbn. by replace (Z.min _ _) with (n + m) by lia.
Qed.

(** An iteration of [read] takes bytes off the queue; all that can be taken
    when they are in one run. *)
Lemma ring_read_step size b rs r q : ring_ok r q → 0 ≤ rs < size → size ≤ blen b → q ≠ [] →
  ∃ n r', ring_read_body size (SUCCESS, b, rs, r) = Done (inl (SUCCESS, splice rs (sub 0 n q) b, rs + n, r'))
    ∧ ring_ok r' (drop (Z.to_nat n) q) ∧ 0 < n ≤ blen q ∧ n ≤ size - rs
    ∧ (rs + n = size ∨ n = blen q ∨ (rb_write_pos_ r ≠ blen q ∧ rb_write_pos_ r' = blen q - n)).
Proof.
  intros Hok Hrs Hb Hne. pose proof (ring_size _ _ Hok) as Hs. pose proof (blen_pos _ Hne) as Hp.
  unfold ring_read_body. rewrite Hs. change (OB_SUCC SUCCESS) with true. rewrite !(proj2 (Z.ltb_lt _ _)) by lia. cbn [andb].
  destruct (ring_peek r q Hok) as (off & m & -> & Hm & Hmq & Hm0 & Hend). specialize (Hm0 Hne). cbn [mbind outcome_bind].
  change (OB_SUCC SUCCESS) with true. cbv iota.
  assert (∃ n, n = Z.min (size - rs) m) as [n Hn] by eauto. rewrite <- Hn.
  assert (mem_read off n (rb_buffer_ r) = Done (sub 0 n q)) as ->.
  { unfold mem_read in *. destruct (_ && _) eqn:E in Hm; [|done]. apply andb_true_iff in E as [E E3].
    apply andb_true_iff in E as [E1 E2]. zb. rewrite !(proj2 (Z.leb_le _ _)) by lia. cbn [andb].
    injection Hm as Hm. f_equal. unfold sub in *. rewrite drop_0 in *.
    rewrite <- (Nat.min_l (Z.to_nat n) (Z.to_nat m)), <- !take_take by lia. by rewrite Hm. }
  cbn. rewrite mem_write_ok by (rewrite ?blen_sub; lia). cbn.
  destruct (ring_forward r q n Hok) as (r' & -> & Hok' & Hw); [lia|].
  exists n, r'. split; [done|]. split; [done|]. rewrite Hw. lia.
Qed.

Lemma ring_read_end size b rs r q : ring_ok r q → size ≤ rs ∨ q = [] →
  ring_read_body size (SUCCESS, b, rs, r) = Done (inr (SUCCESS, b, rs, r)).
Proof.
  intros Hok H. unfold ring_read_body. rewrite (ring_size _ _ Hok). change (OB_SUCC SUCCESS) with true.
  destruct H as [H| ->]; [by rewrite (proj2 (Z.ltb_ge _ _)) by lia|]. by rewrite andb_false_r.
Qed.

Lemma drop_blen {A} n (l : list A) : 0 ≤ n ≤ blen l → blen (drop (Z.to_nat n) l) = blen l - n.
Proof. unfold blen. rewrite length_drop. lia. Qed.

Lemma drop_empty {A} n (l : list A) : n = blen l → drop (Z.to_nat n) l = [].
Proof. intros ->. apply drop_ge. unfold blen. lia. Qed.

(** [read] takes the front of the queue. *)
Lemma ring_read buf size rs0 r q : ring_ok r q → 0 ≤ size ≤ blen buf →
  ∃ r', RingBuffer_read buf size rs0 r
        = Done (SUCCESS, splice 0 (sub 0 (Z.min size (blen q)) q) buf, Z.min size (blen q), r')
        ∧ ring_ok r' (drop (Z.to_nat (Z.min size (blen q))) q).
Proof.
  intros Hok Hsize. unfold RingBuffer_read, RING_RUNS. rewrite (proj2 (Z.ltb_ge _ _)), loop_step by lia.
  destruct (decide (size = 0 ∨ q = [])) as [H0|H0].
  { rewrite (ring_read_end _ _ _ _ _ Hok) by (destruct H0; [left; lia|by right]). exists r. cbn.
    replace (Z.min _ _) with 0 by (destruct H0 as [| ->]; [pose proof (blen_nonneg q)|unfold blen; cbn]; lia).
    split; [|done]. unfold splice, sub, blen. cbn. by rewrite Nat2Z.id, firstn_all. }
  destruct (ring_read_step size buf 0 r q) as (n & r1 & -> & Hok1 & Hn & Hns & Hend); [done|lia|lia|tauto|].
  cbn [mbind outcome_bind]. rewrite loop_step.
  destruct (decide (n = size ∨ n = blen q)) as [H1|H1].
  { rewrite (ring_read_end _ _ _ _ _ Hok1) by (destruct H1; [left; lia|right; by apply drop_empty]). exists r1. cbn.
    by replace (Z.min _ _) with n by lia. }
  pose proof (drop_blen n q) as Hd. assert (drop (Z.to_nat n) q ≠ []) as Hne.
  { intros E%(f_equal length). rewrite length_drop in E. cbn in E. unfold blen in *. lia. }
  assert (blen (sub 0 n q) = n) as Hl by (apply blen_sub; lia).
  destruct (ring_read_step size (splice 0 (sub 0 n q) buf) (0 + n) r1 _ Hok1) as (m & r2 & -> & Hok2 & Hm & Hms & Hend2);
    [lia|rewrite blen_splice; lia|done|].
  cbn [mbind outcome_bind]. rewrite drop_drop in Hok2. replace (Z.to_nat n + Z.to_nat m)%nat with (Z.to_nat (n + m)) in Hok2 by lia.
  rewrite loop_step, (ring_read_end _ _ _ _ _ Hok2) by (destruct (decide (0 + n + m = size)); [left; lia|right; apply drop_empty; lia]).
  exists r2. cbn. replace (Z.min _ _) with (n + m) by lia. split; [|done]. do 4 f_equal.
  rewrite <- (sub_next 0 n m q), <- (splice_next 0) by (rewrite ?blen_sub; rewrite ?blen_sub; lia).
  by rewrite Hl.
Qed.
End Ring.

(** *** The contract

    Calls on a ring and what they answer: the code, the bytes handed out and
    the count. *)
Inductive ring_op := ROpWrite (data : bytes) (size : Z) | ROpRead (buf : bytes) (size : Z) | ROpPeek | ROpForward (size : Z).
Definition ring_call (o : ring_op) (r : RingBuffer) : outcome (RC * bytes * Z * RingBuffer) :=
  match o with
  | ROpWrite data size => y ← RingBuffer_write data size 0 r; let '(rc, n, r) := y : RC * Z * RingBuffer in Done (rc, [], n, r)
  | ROpRead buf size => RingBuffer_read buf size 0 r
  | ROpPeek =>
      y ← RingBuffer_buffer r;
      let '(rc, off, n) := y : RC * Z * Z in
      d ← mem_read off n (rb_buffer_ r); Done (rc, d, n, r)
  | ROpForward size => let '(rc, r) := RingBuffer_forward size r in Done (rc, [], 0, r)
  end.
Fixpoint ring_calls (ops : list ring_op) (r : RingBuffer) : outcome (list (RC * bytes * Z)) :=
  match ops with
  | [] => Done []
  | o :: ops =>
      y ← ring_call o r;
      let '(rc, d, n, r) := y : RC * bytes * Z * RingBuffer in
      ans ← ring_calls ops r; Done ((rc, d, n) :: ans)
  end.

(** A byte queue of at most [cap] bytes, and the answers it allows. *)
Definition queue_call (cap : Z) (o : ring_op) (q : bytes) (ans : RC * bytes * Z) (q' : bytes) : Prop :=
  match o with
  | ROpWrite data size =>
      if size <? 0 then ans = (INVALID_ARGUMENT, [], 0) ∧ q' = q
      else let n := Z.min size (cap - blen q) in ans = (SUCCESS, [], n) ∧ q' = q ++ sub 0 n data
  | ROpRead buf size =>
      if size <? 0 then ans = (INVALID_ARGUMENT, buf, 0) ∧ q' = q
      else let n := Z.min size (blen q) in
           ans = (SUCCESS, splice 0 (sub 0 n q) buf, n) ∧ q' = drop (Z.to_nat n) q
  | ROpPeek => ∃ n, ans = (SUCCESS, sub 0 n q, n) ∧ 0 ≤ n ≤ blen q ∧ (q ≠ [] → 0 < n) ∧ q' = q
  | ROpForward size =>
      if (size <=? 0) || (blen q <? size) then ans = (INVALID_ARGUMENT, [], 0) ∧ q' = q
      else ans = (SUCCESS, [], 0) ∧ q' = drop (Z.to_nat size) q
  end.
Inductive queue_calls (cap : Z) : list ring_op → bytes → list (RC * bytes * Z) → Prop :=
  | queue_done q : queue_calls cap [] q []
  | queue_next o ops q a ans q' : queue_call cap o q a q' → queue_calls cap ops q' ans → queue_calls cap (o :: ops) q (a :: ans).

(** A caller passes buffers that have the size it says. *)
Definition ring_op_ok (o : ring_op) : Prop :=
  match o with
  | ROpWrite data size => size ≤ blen data
  | ROpRead buf size => size ≤ blen buf
  | _ => True
  end.

Lemma ring_call_refines cap o r q : cap ≤ 2 ^ 30 → ring_ok cap r q → ring_op_ok o →
  ∃ rc d n r' q', ring_call o r = Done (rc, d, n, r') ∧ queue_call cap o q (rc, d, n) q' ∧ ring_ok cap r' q'.
Proof.
  intros Hcap Hok Ho. destruct o as [data size|buf size| |size]; cbn [ring_call queue_call ring_op_ok] in *.
  - destruct (Z.ltb_spec size 0).
    + unfold RingBuffer_write. rewrite (proj2 (Z.ltb_lt _ _)) by done. cbn. naive_solver.
    + destruct (ring_write cap Hcap data size 0 r q Hok) as (r' & -> & Hok'); [lia|]. cbn. naive_solver.
  - destruct (Z.ltb_spec size 0).
    + unfold RingBuffer_read. rewrite (proj2 (Z.ltb_lt _ _)) by done. cbn. naive_solver.
    + destruct (ring_read cap Hcap buf size 0 r q Hok) as (r' & -> & Hok'); [lia|]. cbn. naive_solver.
  - destruct (ring_peek cap Hcap r q Hok) as (off & n & -> & Hr & Hn & H0 & _). cbn. rewrite Hr. cbn.
    eexists _, _, _, _, _. split; [done|]. split; [|done]. naive_solver.
  - destruct (_ || _) eqn:E.
    + unfold RingBuffer_forward. rewrite (ring_size _ _ _ Hok). destruct (size <=? 0); cbn in *; [|rewrite E]; naive_solver.
    + apply orb_false_iff in E as [E1 E2]. zb. destruct (ring_forward cap r q size Hok) as (r' & -> & Hok' & _); [lia|]. naive_solver.
Qed.

(** C28: a ring buffer of any capacity up to 2^30 answers every sequence of
    [write], [read], [buffer] and [forward] calls as a byte queue of that
    capacity does: bytes come out in the order they went in, a [write] takes
    exactly what fits and a [read] exactly what is there, [buffer] shows a
    prefix that is not empty unless the queue is, bad sizes are refused, the two
    copy loops end within two iterations and no byte outside the vector is
    touched. *)
Theorem ring_buffer_is_fifo size ops : 0 ≤ size ≤ 2 ^ 30 → Forall ring_op_ok ops →
  ∃ r ans, RingBuffer_new size = Done r ∧ ring_calls ops r = Done ans ∧ queue_calls size ops [] ans.
Proof.
  intros Hsize Hops. destruct (ring_new size) as (r & Hr & Hok); [lia..|]. exists r.
  assert (∃ ans, ring_calls ops r = Done ans ∧ queue_calls size ops [] ans) as (ans & ? & ?); [|eauto].
  clear Hr. revert Hok. generalize (@nil Z) as q. revert r. induction Hops as [|o ops Ho Hops IH]; intros r q Hok.
  { exists []. split; [done|constructor]. }
  destruct (ring_call_refines size o r q) as (rc & d & n & r' & q' & Hc & Hq & Hok'); [lia|done..|].
  destruct (IH r' q' Hok') as (ans & Hans & Hqs). exists ((rc, d, n) :: ans). cbn [ring_calls]. rewrite Hc. cbn. rewrite Hans.
  split; [done|]. by econstructor.
Qed.

(** The ring of 5 bytes wraps around between the two reads. *)
Lemma ring_buffer_is_fifo_witness :
  let ops := [ROpWrite [1; 2; 3; 4] 4; ROpRead [0; 0; 0] 3; ROpWrite [5; 6; 7; 8; 9] 5; ROpPeek; ROpRead [0; 0; 0; 0; 0] 5] in
  (∃ r ans, RingBuffer_new 5 = Done r ∧ ring_calls ops r = Done ans ∧ queue_calls 5 ops [] ans)
  ∧ (r ← RingBuffer_new 5; ring_calls ops r)
    = Done [(SUCCESS, [], 4); (SUCCESS, [1; 2; 3], 3); (SUCCESS, [], 4); (SUCCESS, [4; 5], 2); (SUCCESS, [4; 5; 6; 7; 8], 5)].
Proof.
  intros ops. split; [|vm_compute; reflexivity]. apply (ring_buffer_is_fifo 5 ops); [lia|].
  repeat constructor; cbn; vm_compute; discriminate.
Defined.

(** ** The writer sends a stream *)

(** What a call leaves: a later schedule, and a failure only if [write] fails. *)
Definition call_ok (rc : RC) (k k' : socket) : Prop :=
  sk_schedule k' `suffix_of` sk_schedule k ∧ (rc = SUCCESS ∨ (rc = IOERR_WRITE ∧ Fail ∈ sk_schedule k)).

Lemma call_ok_trans rc k1 k2 k3 : call_ok SUCCESS k1 k2 → call_ok rc k2 k3 → call_ok rc k1 k3.
Proof.
  intros [H1 _] [H2 H3]. split; [by etrans|]. destruct H3 as [|[? H3]]; [by left|right; split; [done|]].
  destruct H1 as [l ->]. set_solver.
Qed.

Lemma call_ok_refl k : call_ok SUCCESS k k.
Proof. split; [done|by left]. Qed.

Lemma call_ok_len rc k k' : call_ok rc k k' → (length (sk_schedule k') ≤ length (sk_schedule k))%nat.
Proof. intros [H _]. by apply suffix_length. Qed.

(** What the retry loop leaves: part of the data is sent, or [write] failed. *)
Definition retry_post (data : bytes) (k : socket) (o : option Z) (k' : socket) : Prop :=
  match o with
  | Some n => 0 < n ≤ blen data ∧ sk_received k' = sk_received k ++ sub 0 n data ∧ call_ok SUCCESS k k'
  | None => sk_received k' = sk_received k ∧ call_ok IOERR_WRITE k k'
  end.

Lemma retry_post_skip data rcv a sched o k' :
  retry_post data (mkSocket rcv sched) o k' → retry_post data (mkSocket rcv (a :: sched)) o k'.
Proof.
  assert (call_ok SUCCESS (mkSocket rcv (a :: sched)) (mkSocket rcv sched)) as Hc
    by (split; [by apply suffix_cons_r|by left]).
  destruct o as [n|]; cbn [retry_post sk_received].
  - intros (Hn & Hr & Hk). split; [exact Hn|]. split; [exact Hr|exact (call_ok_trans _ _ _ _ Hc Hk)].
  - intros (Hr & Hk). split; [exact Hr|exact (call_ok_trans _ _ _ _ Hc Hk)].
Qed.

(** The retry loop ends when the schedule does. *)
Lemma retry_spec data fuel k : data ≠ [] → (length (sk_schedule k) < fuel)%nat →
  ∃ o k', loop (retry_body data) fuel k = Done (o, k') ∧ retry_post data k o k'.
Proof.
  intros Hd%blen_pos. revert k. induction fuel as [|fuel IH]; intros [rcv sched] Hf; [lia|]. rewrite loop_step.
  unfold retry_body at 2; unfold sock_write. cbn [sk_schedule sk_received] in *. destruct sched as [|[n| |] sched]; cbn [length] in Hf.
  - rewrite (proj2 (Z.ltb_ge _ _)), (proj2 (Z.eqb_neq _ _)) by lia. eexists _, _. split; [done|].
    cbn. rewrite sub_all. split; [lia|]. split; [done|]. split; [done|by left].
  - assert (∃ m, m = Z.max 0 (Z.min n (blen data))) as [m Hm] by eauto. rewrite <- Hm.
    rewrite (proj2 (Z.ltb_ge _ _)) by lia. destruct (Z.eqb_spec m 0) as [E|Hm0].
    + rewrite E. change (sub 0 0 data) with (@nil Z). rewrite app_nil_r. cbn [mbind outcome_bind].
      destruct (IH (mkSocket rcv sched)) as (o & k' & Hl & H); [cbn; lia|].
      exists o, k'. split; [exact Hl|]. by apply retry_post_skip.
    + cbn. eexists _, _. split; [done|]. split; [lia|]. split; [done|]. split; [by apply suffix_cons_r|by left].
  - cbn. destruct (IH (mkSocket rcv sched)) as (o & k' & Hl & H); [cbn; lia|].
    exists o, k'. split; [exact Hl|]. by apply retry_post_skip.
  - cbn. eexists _, _. split; [done|]. split; [done|]. split; [by apply suffix_cons_r|]. right. set_solver.
Qed.

Section Writer.
Context (cap : Z) (Hcap : 0 < cap ≤ 2 ^ 30).

(** [stream t q w k]: the writer is open, it holds [q] and [t] is what the
    socket has followed by [q]. *)
Definition stream (t q : bytes) (w : BufferedWriter) (k : socket) : Prop :=
  0 ≤ bw_fd_ w ∧ ring_ok cap (bw_buffer_ w) q ∧ sk_received k ++ q = t.

(** [flush_internal] moves a prefix of the queue to the socket, at least a
    byte when it succeeds and both the queue and the request are not empty. *)
Lemma flush_loop f fuel size ws t q w k : stream t q w k → (length q < fuel)%nat → (length (sk_schedule k) < f)%nat →
  ∃ rc w' k' q', loop (flush_body f size) fuel (ws, w, k) = Done (rc, w', k') ∧ stream t q' w' k' ∧ call_ok rc k k'
    ∧ blen q' ≤ blen q ∧ (rc = SUCCESS → ws < size → q ≠ [] → blen q' < blen q).
Proof.
  revert ws q w k. induction fuel as [|fuel IH]; intros ws q w k (Hfd & Hok & Ht) Hf Hs; [lia|]. rewrite loop_step.
  unfold flush_body at 2. rewrite (ring_size _ _ _ Hok). pose proof (blen_nonneg q).
  destruct (_ && _) eqn:E; cbn [mbind outcome_bind].
  2: { eexists _, _, _, q. split; [done|]. split; [done|]. split; [apply call_ok_refl|]. split; [done|].
       intros _ ? ?%blen_pos. rewrite !(proj2 (Z.ltb_lt _ _)) in E by lia. done. }
  apply andb_true_iff in E as [E1 E2]. zb.
  assert (q ≠ []) as Hne by (intros ->; done).
  destruct (ring_peek cap (proj2 Hcap) _ q Hok) as (off & n & -> & Hr & Hn & Hn0 & _). specialize (Hn0 Hne). cbn.
  rewrite Hr. cbn. assert (blen (sub 0 n q) = n) as Hl by (apply blen_sub; lia).
  assert (sub 0 n q ≠ []) as Hs0 by (intros E; rewrite E in Hl; unfold blen in Hl; cbn in Hl; lia).
  destruct (retry_spec (sub 0 n q) f k Hs0 Hs) as ([m|] & k1 & -> & H1); cbn.
  - destruct H1 as (Hm & Hrcv & Hc). destruct (ring_forward cap (bw_buffer_ w) q m Hok) as (r' & -> & Hok' & _); [lia|]. cbn.
    pose proof (call_ok_len _ _ _ Hc). pose proof (drop_blen m q).
    destruct (IH (ws + m) (drop (Z.to_nat m) q) (mkWriter (bw_fd_ w) r') k1) as (rc & w' & k' & q' & Hlp & Hst & Hc' & Hle & _);
      [|rewrite length_drop; unfold blen in *; lia|lia|].
    { split; [done|]. split; [done|]. rewrite Hrcv, <- Ht, <- app_assoc. f_equal. unfold sub.
      rewrite drop_0, take_take, Nat.min_l by lia. apply take_drop. }
    exists rc, w', k', q'. split; [exact Hlp|]. split; [exact Hst|]. split; [exact (call_ok_trans _ _ _ _ Hc Hc')|]. lia.
  - destruct H1 as [Hrcv Hc]. eexists _, _, _, q. split; [done|]. split; [|done || (split; [done|split; [lia|done]])].
    split; [done|]. split; [done|]. by rewrite Hrcv.
Qed.

Lemma flush_internal_spec fuel size t q w k : stream t q w k → (length q < fuel)%nat → (length (sk_schedule k) < fuel)%nat →
  ∃ rc w' k' q', BufferedWriter_flush_internal fuel size w k = Done (rc, w', k') ∧ stream t q' w' k' ∧ call_ok rc k k'
    ∧ blen q' ≤ blen q ∧ (rc = SUCCESS → 0 < size → q ≠ [] → blen q' < blen q).
Proof.
  intros Hst Hf Hs. pose proof Hst as (Hfd & _). unfold BufferedWriter_flush_internal.
  rewrite (proj2 (Z.ltb_ge _ _)) by lia. by apply flush_loop.
Qed.

(** [flush] empties the queue. *)
Lemma flush_all_loop f fuel t q w k : stream t q w k → (length q < fuel)%nat → (length q < f)%nat → (length (sk_schedule k) < f)%nat →
  ∃ rc w' k' q', loop (flush_all_body f) fuel (w, k) = Done (rc, w', k') ∧ stream t q' w' k' ∧ call_ok rc k k'
    ∧ (rc = SUCCESS → q' = []).
Proof.
  revert q w k. induction fuel as [|fuel IH]; intros q w k Hst Hf' Hf Hs; [lia|].
  pose proof Hst as (_ & Hok & _). rewrite loop_step. unfold flush_all_body at 2. rewrite (ring_size _ _ _ Hok).
  destruct (Z.ltb_spec 0 (blen q)) as [Hq|Hq].
  2: { exists SUCCESS, w, k, q. split; [done|]. split; [done|]. split; [apply call_ok_refl|].
       intros _. destruct q; [done|]. rewrite blen_cons in Hq. pose proof (blen_nonneg q). lia. }
  assert (q ≠ []) as Hne by (intros ->; done).
  destruct (flush_internal_spec f (blen q) t q w k Hst Hf Hs) as (rc & w1 & k1 & q1 & -> & Hst1 & Hc & Hle & Hlt).
  cbn [mbind outcome_bind]. pose proof (call_ok_len _ _ _ Hc). destruct Hc as [Hsf [->|[-> Hfail]]].
  - specialize (Hlt eq_refl Hq Hne). change (OB_SUCC SUCCESS) with true. cbn [mbind outcome_bind].
    destruct (IH q1 w1 k1 Hst1) as (rc & w' & k' & q' & Hlp & Hst' & Hc' & He); [unfold blen in *; lia..|].
    exists rc, w', k', q'. split; [exact Hlp|]. split; [exact Hst'|]. split; [|exact He].
    eapply call_ok_trans; [|exact Hc']. split; [done|by left].
  - change (OB_SUCC IOERR_WRITE) with false. cbn [mbind outcome_bind].
    exists IOERR_WRITE, w1, k1, q1. split; [done|]. split; [done|]. split; [by split; [|right]|done].
Qed.

Lemma writer_flush_spec fuel t q w k : stream t q w k → (length q < fuel)%nat → (length (sk_schedule k) < fuel)%nat →
  ∃ rc w' k' q', BufferedWriter_flush fuel w k = Done (rc, w', k') ∧ stream t q' w' k' ∧ call_ok rc k k'
    ∧ (rc = SUCCESS → q' = []).
Proof.
  intros Hst Hf Hs. pose proof Hst as (Hfd & _). unfold BufferedWriter_flush. rewrite (proj2 (Z.ltb_ge _ _)) by lia.
  by apply (flush_all_loop _ _ t q).
Qed.

Lemma stream_room t q w k : stream t q w k → (length q ≤ Z.to_nat cap)%nat.
Proof. intros (_ & Hok & _). pose proof (ring_bounded _ (proj2 Hcap) _ _ Hok). unfold blen in *. lia. Qed.

(** Bytes that enter the ring are the next of the stream. *)
Lemma stream_write data size t q w k : stream t q w k → 0 ≤ size ≤ blen data →
  ∃ r', RingBuffer_write data size 0 (bw_buffer_ w) = Done (SUCCESS, Z.min size (cap - blen q), r')
    ∧ stream (t ++ sub 0 (Z.min size (cap - blen q)) data) (q ++ sub 0 (Z.min size (cap - blen q)) data) (mkWriter (bw_fd_ w) r') k.
Proof.
  intros (Hfd & Hok & Ht) Hsize. destruct (ring_write cap (proj2 Hcap) data size 0 (bw_buffer_ w) q Hok Hsize) as (r' & Hw & Hok').
  exists r'. split; [exact Hw|]. split; [done|]. split; [done|]. by rewrite <- Ht, app_assoc.
Qed.

(** [write] takes at least a byte of a request that is not empty, or fails
    with nothing taken. *)
Lemma write_spec fuel data size t q w k : stream t q w k → 0 < size ≤ blen data →
  (Z.to_nat cap < fuel)%nat → (length (sk_schedule k) < fuel)%nat →
  ∃ rc n w' k' q', BufferedWriter_write fuel data size 0 w k = Done (rc, n, w', k')
    ∧ stream (t ++ sub 0 n data) q' w' k' ∧ call_ok rc k k' ∧ 0 ≤ n ≤ size ∧ (rc = SUCCESS → 0 < n).
Proof.
  intros Hst Hsize Hf Hs. pose proof (stream_room _ _ _ _ Hst). pose proof Hst as (Hfd & Hok & _).
  pose proof (ring_bounded _ (proj2 Hcap) _ _ Hok). unfold BufferedWriter_write, RingBuffer_remain.
  rewrite (proj2 (Z.ltb_ge _ _)), (ring_capacity _ (proj2 Hcap) _ _ Hok), (ring_size _ _ _ Hok) by lia.
  destruct (Z.eqb_spec (cap - blen q) 0) as [Hfull|Hroom]; cbn [mbind outcome_bind].
  - assert (q ≠ []) as Hne by (intros ->; unfold blen in Hfull; cbn in Hfull; lia).
    destruct (flush_internal_spec fuel size t q w k Hst) as (rc & w1 & k1 & q1 & -> & Hst1 & Hc & Hle & Hlt); [lia..|].
    cbn [mbind outcome_bind]. pose proof Hc as [Hsf [->|[-> Hfail]]].
    + specialize (Hlt eq_refl (proj1 Hsize) Hne). change (OB_FAIL SUCCESS) with false. cbv iota.
      destruct (stream_write data size t q1 w1 k1 Hst1) as (r' & -> & Hst2); [lia|]. cbn.
      eexists _, _, _, _, _. split; [done|]. split; [exact Hst2|]. split; [exact Hc|]. lia.
    + cbn. exists IOERR_WRITE, 0, w1, k1, q1. split; [done|]. change (sub 0 0 data) with (@nil Z). rewrite app_nil_r.
      split; [done|]. split; [done|]. split; [lia|done].
  - change (OB_FAIL SUCCESS) with false. cbv iota.
    destruct (stream_write data size t q w k Hst) as (r' & -> & Hst2); [lia|]. cbn.
    eexists _, _, _, _, _. split; [done|]. split; [exact Hst2|]. split; [apply call_ok_refl|]. lia.
Qed.

(** [writen] takes all of the request, or a part of it when it fails. *)
Lemma writen_loop fuel f data ws t q w k : stream (t ++ sub 0 ws data) q w k → 0 ≤ ws ≤ blen data →
  (Z.to_nat cap < fuel)%nat → (length (sk_schedule k) < fuel)%nat → (Z.to_nat (blen data - ws) < f)%nat →
  ∃ rc n w' k' q', loop (writen_body fuel data (blen data)) f (ws, w, k) = Done (rc, w', k')
    ∧ stream (t ++ sub 0 n data) q' w' k' ∧ call_ok rc k k' ∧ 0 ≤ n ≤ blen data ∧ (rc = SUCCESS → n = blen data).
Proof.
  intros Hst Hwd Hf Hs Hm. revert ws q w k Hwd Hst Hs Hm.
  induction f as [|f IH]; intros ws q w k Hwd Hst Hs Hm; [lia|]. rewrite loop_step. unfold writen_body at 2.
  destruct (Z.ltb_spec ws (blen data)) as [Hlt|Hge].
  2: { exists SUCCESS, ws, w, k, q. split; [done|]. split; [done|]. split; [apply call_ok_refl|]. lia. }
  destruct (write_spec fuel (drop (Z.to_nat ws) data) (blen data - ws) _ q w k Hst)
    as (rc & n & w1 & k1 & q1 & -> & Hst1 & Hc & Hn & Hpos); [rewrite drop_blen; lia|lia..|]. cbn [mbind outcome_bind].
  assert (sub 0 n (drop (Z.to_nat ws) data) = sub (0 + ws) n data) as Hsub by done. rewrite Hsub, <- app_assoc, sub_next in Hst1 by lia.
  pose proof (call_ok_len _ _ _ Hc). pose proof Hc as [Hsf [->|[-> Hfail]]].
  - change (OB_FAIL SUCCESS) with false. cbn [mbind outcome_bind]. specialize (Hpos eq_refl).
    destruct (IH (ws + n) q1 w1 k1) as (rc & m & w' & k' & q' & Hlp & Hst' & Hc' & Hr); [lia|done|lia..|].
    exists rc, m, w', k', q'. split; [exact Hlp|]. split; [exact Hst'|]. split; [exact (call_ok_trans _ _ _ _ Hc Hc')|exact Hr].
  - change (OB_FAIL IOERR_WRITE) with true. cbn [mbind outcome_bind].
    exists IOERR_WRITE, (ws + n), w1, k1, q1. split; [done|]. split; [done|]. split; [done|]. split; [lia|done].
Qed.

Lemma writen_spec fuel data t q w k : stream t q w k →
  (Z.to_nat cap < fuel)%nat → (length (sk_schedule k) < fuel)%nat → (length data < fuel)%nat →
  ∃ rc n w' k' q', BufferedWriter_writen fuel data (blen data) w k = Done (rc, w', k')
    ∧ stream (t ++ sub 0 n data) q' w' k' ∧ call_ok rc k k' ∧ 0 ≤ n ≤ blen data ∧ (rc = SUCCESS → n = blen data).
Proof.
  intros Hst Hf Hs Hd. pose proof Hst as (Hfd & _). unfold BufferedWriter_writen. rewrite (proj2 (Z.ltb_ge _ _)) by lia.
  apply (writen_loop _ _ _ 0 t q); [|unfold blen; lia|done..|unfold blen; lia].
  change (sub 0 0 data) with (@nil Z). by rewrite app_nil_r.
Qed.
End Writer.

(** A client of the writer: calls until one fails, [close] at the end. *)
Inductive writer_op := WWriten (data : bytes) | WFlush.
Fixpoint writer_session (fuel : nat) (ops : list writer_op) (w : BufferedWriter) (k : socket) : outcome (RC * BufferedWriter * socket) :=
  match ops with
  | [] => BufferedWriter_close fuel w k
  | o :: ops =>
      y ← match o with
          | WWriten data => BufferedWriter_writen fuel data (blen data) w k
          | WFlush => BufferedWriter_flush fuel w k
          end;
      let '(rc, w, k) := y : RC * BufferedWriter * socket in
      if OB_FAIL rc then Done (rc, w, k) else writer_session fuel ops w k
  end.
Definition op_bytes (o : writer_op) : bytes := match o with WWriten data => data | WFlush => [] end.
Definition ops_bytes (ops : list writer_op) : bytes := concat (map op_bytes ops).

Lemma close_spec cap fuel t q w k : 0 < cap ≤ 2 ^ 30 → stream cap t q w k →
  (Z.to_nat cap < fuel)%nat → (length (sk_schedule k) < fuel)%nat →
  ∃ rc w' k', BufferedWriter_close fuel w k = Done (rc, w', k') ∧ sk_received k' `prefix_of` t ∧ call_ok rc k k'
    ∧ (rc = SUCCESS → sk_received k' = t ∧ bw_fd_ w' = -1).
Proof.
  intros Hcap Hst Hf Hs. pose proof (stream_room cap Hcap _ _ _ _ Hst). pose proof Hst as (Hfd & _).
  unfold BufferedWriter_close. rewrite (proj2 (Z.ltb_ge _ _)) by lia.
  destruct (writer_flush_spec cap Hcap fuel t q w k Hst) as (rc & w1 & k1 & q1 & -> & Hst1 & Hc & He); [lia..|]. cbn [mbind outcome_bind].
  pose proof Hst1 as (_ & _ & Ht). pose proof Hc as [_ [->|[-> _]]].
  - specialize (He eq_refl). subst q1. rewrite app_nil_r in Ht. change (OB_FAIL SUCCESS) with false. cbv iota.
    eexists SUCCESS, _, k1. split; [done|]. split; [by rewrite Ht|]. by split.
  - change (OB_FAIL IOERR_WRITE) with true. cbv iota. exists IOERR_WRITE, w1, k1. split; [done|]. split; [by exists q1|]. by split.
Qed.

Lemma writer_op_spec cap fuel o t q w k : 0 < cap ≤ 2 ^ 30 → stream cap t q w k →
  (Z.to_nat cap < fuel)%nat → (length (sk_schedule k) < fuel)%nat → (length (op_bytes o) < fuel)%nat →
  ∃ rc w' k' q' d, match o with
                 | WWriten data => BufferedWriter_writen fuel data (blen data) w k
                 | WFlush => BufferedWriter_flush fuel w k
                 end = Done (rc, w', k')
    ∧ stream cap (t ++ d) q' w' k' ∧ call_ok rc k k' ∧ d `prefix_of` op_bytes o ∧ (rc = SUCCESS → d = op_bytes o).
Proof.
  intros Hcap Hst Hf Hs Hd. pose proof (stream_room cap Hcap _ _ _ _ Hst). destruct o as [data|]; cbn [op_bytes] in *.
  - destruct (writen_spec cap Hcap fuel data t q w k Hst Hf Hs Hd) as (rc & n & w' & k' & q' & E & Hst' & Hc & Hn & Hall).
    exists rc, w', k', q', (sub 0 n data). split; [exact E|]. split; [exact Hst'|]. split; [exact Hc|]. split.
    + unfold sub. rewrite drop_0. apply prefix_take.
    + intros Hrc. rewrite (Hall Hrc). apply sub_all.
  - destruct (writer_flush_spec cap Hcap fuel t q w k Hst) as (rc & w' & k' & q' & E & Hst' & Hc & _); [lia..|].
    exists rc, w', k', q', []. rewrite app_nil_r. done.
Qed.

(** The bytes a session sends, from any state. *)
Lemma session_spec cap fuel ops t q w k : 0 < cap ≤ 2 ^ 30 → stream cap t q w k →
  (Z.to_nat cap < fuel)%nat → (length (sk_schedule k) < fuel)%nat → Forall (λ o, length (op_bytes o) < fuel)%nat ops →
  ∃ rc w' k', writer_session fuel ops w k = Done (rc, w', k') ∧ sk_received k' `prefix_of` t ++ ops_bytes ops
    ∧ call_ok rc k k' ∧ (rc = SUCCESS → sk_received k' = t ++ ops_bytes ops ∧ bw_fd_ w' = -1).
Proof.
  intros Hcap Hst Hf Hs Hops. revert t q w k Hst Hs. induction Hops as [|o ops Ho Hops IH]; intros t q w k Hst Hs.
  - unfold ops_bytes. cbn. rewrite app_nil_r. by eapply close_spec.
  - change (ops_bytes (o :: ops)) with (op_bytes o ++ ops_bytes ops).
    destruct (writer_op_spec cap fuel o t q w k Hcap Hst Hf Hs Ho) as (rc & w1 & k1 & q1 & d & E & Hst1 & Hc & Hp & Hall).
    cbn [writer_session]. rewrite E. cbn [mbind outcome_bind]. pose proof (call_ok_len _ _ _ Hc). pose proof Hc as [_ [->|[-> _]]].
    + change (OB_FAIL SUCCESS) with false. cbv iota. rewrite (Hall eq_refl) in Hst1.
      destruct (IH _ _ _ _ Hst1) as (rc & w' & k' & E' & Hp' & Hc' & Hr); [lia|]. rewrite (app_assoc t).
      exists rc, w', k'. split; [exact E'|]. split; [exact Hp'|]. split; [exact (call_ok_trans _ _ _ _ Hc Hc')|exact Hr].
    + change (OB_FAIL IOERR_WRITE) with true. cbv iota. exists IOERR_WRITE, w1, k1. split; [done|]. split; [|by split].
      destruct Hst1 as (_ & _ & Ht). trans (t ++ d); [by exists q1|]. apply prefix_app. by apply prefix_app_r.
Qed.

(** C29: whatever the socket does with each [write] (takes a part, asks to try
    again, fails), a session on a new writer returns, what the client has
    received is a prefix of the bytes written, and it is all of them when the
    session, [close] included, reports success, which it does unless a [write]
    failed.  The writer's ring needs room for at least one byte. *)
Theorem buffered_writer_stream fd size fuel ops sched : 0 ≤ fd → 0 < size ≤ 2 ^ 30 →
  (Z.to_nat size + length sched + length (ops_bytes ops) < fuel)%nat →
  ∃ w rc w' k', BufferedWriter_new fd size = Done w
    ∧ writer_session fuel ops w (mkSocket [] sched) = Done (rc, w', k')
    ∧ sk_received k' `prefix_of` ops_bytes ops
    ∧ (rc = SUCCESS → sk_received k' = ops_bytes ops ∧ bw_fd_ w' = -1)
    ∧ (rc = SUCCESS ∨ (rc = IOERR_WRITE ∧ Fail ∈ sched)).
Proof.
  intros Hfd Hsize Hf. destruct (ring_new size) as (r & Hr & Hok); [lia..|].
  destruct (session_spec size fuel ops [] [] (mkWriter fd r) (mkSocket [] sched)) as (rc & w' & k' & E & Hp & [_ Hc] & Hs);
    [done|done|lia|cbn; lia|..].
  { apply Forall_forall. intros o Ho. enough (length (op_bytes o) ≤ length (ops_bytes ops))%nat by lia.
    clear -Ho. induction Ho as [|o ops ? IH]; unfold ops_bytes in *; cbn; rewrite length_app; lia. }
  exists (mkWriter fd r), rc, w', k'. unfold BufferedWriter_new. rewrite Hr. by split_and!.
Qed.

(** A ring of 4 bytes, a socket that takes two bytes, interrupts, takes one. *)
Lemma buffered_writer_stream_witness :
  let ops := [WWriten [1; 2; 3; 4; 5; 6]; WFlush; WWriten [7; 8]] in
  let sched := [Accept 2; Again; Accept 1] in
  (∃ w rc w' k', BufferedWriter_new 3 4 = Done w ∧ writer_session 40 ops w (mkSocket [] sched) = Done (rc, w', k')
    ∧ sk_received k' `prefix_of` ops_bytes ops ∧ (rc = SUCCESS → sk_received k' = ops_bytes ops ∧ bw_fd_ w' = -1)
    ∧ (rc = SUCCESS ∨ (rc = IOERR_WRITE ∧ Fail ∈ sched)))
  ∧ (w ← BufferedWriter_new 3 4; y ← writer_session 40 ops w (mkSocket [] sched); Done (y.1.1, sk_received y.2))
    = Done (SUCCESS, [1; 2; 3; 4; 5; 6; 7; 8]).
Proof.
  intros ops sched. split; [|vm_compute; reflexivity]. apply (buffered_writer_stream 3 4 40 ops sched); [lia..|].
  cbn. lia.
Defined.
(** With a ring of no bytes [writen] never ends. *)
Theorem writen_empty_ring_diverges fuel data fd k : 0 ≤ fd → data ≠ [] →
  (w ← BufferedWriter_new fd 0; BufferedWriter_writen fuel data (blen data) w k) = OutOfFuel.
Proof.
  intros Hfd Hd%blen_pos. unfold BufferedWriter_new. cbn. unfold BufferedWriter_writen. cbn [bw_fd_].
  rewrite (proj2 (Z.ltb_ge _ _)) by lia. generalize fuel at 2 as n. intros n. induction n as [|n IH]; [done|].
  rewrite loop_step. unfold writen_body at 2. rewrite (proj2 (Z.ltb_lt _ _)) by lia.
  unfold BufferedWriter_write, BufferedWriter_flush_internal. cbn [bw_fd_]. rewrite (proj2 (Z.ltb_ge _ _)) by lia. cbn.
  destruct fuel as [|fuel]; [done|]. cbn. unfold RingBuffer_write. rewrite (proj2 (Z.ltb_ge _ _)) by lia. cbn.
  change (RingBuffer_remain (mkRing (replicate (Z.to_nat 0) 0) 0 0)) with 0. cbn.
  change (RingBuffer_remain (mkRing (replicate (Z.to_nat 0) 0) 0 0)) with 0. rewrite andb_false_r. cbn. exact IH.
Qed.
