(* ===== verification/SqlValue.v ===== *)
(** * Values of SQL expressions

    Models [src/src/observer/common/value.h/.cpp], the data types under
    [src/src/observer/common/type/] and [src/src/common/lang/comparator.cpp]:
    the tagged union with its string buffers, conversions, comparison and
    printing.  [float] is IEEE binary32 and [double] binary64 (the functions of
    [SpecFloat]).  A failed [ASSERT] stops the process and is [UB], as is
    reading a union member that is not the one written.

    Of [get_float] only the cases without [stof] are here, so the arithmetic of
    floats is left out; nothing that is modelled reaches it. *)

From Stdlib Require Import SpecFloat.
From S2P Require Import Prelude Rc.

(** ** Types *)

Inductive AttrType := UNDEFINED | CHARS | INTS | FLOATS | VECTORS | BOOLEANS | MAXTYPE.
#[export] Instance AttrType_eq_dec : EqDecision AttrType.
Proof. solve_decision. Defined.

Definition is_numerical_type (type : AttrType) : bool :=
  bool_decide (type = INTS) || bool_decide (type = FLOATS).
Definition is_string_type (type : AttrType) : bool := bool_decide (type = CHARS).

(** ** Values

    A buffer of characters belongs to one value: copies are deep.  [Wild] is a
    pointer read from the bits of another member of the union. *)
Abbreviation float := spec_float (only parsing).
Inductive pointer := Null | Owned (b : bytes) | Wild.
Inductive Val := int_value_ (z : Z) | float_value_ (f : float) | bool_value_ (b : bool) | pointer_value_ (p : pointer).
Record Value := mkValue { v_attr_type_ : AttrType; v_length_ : Z; v_value_ : Val; v_own_data_ : bool }.

Definition Value_new : Value := mkValue UNDEFINED 0 (int_value_ 0) false.

(** [value_.pointer_value_], whichever member was written last. *)
Definition val_pointer (v : Val) : pointer :=
  match v with
  | pointer_value_ p => p
  | int_value_ 0 | float_value_ (S754_zero false) | bool_value_ false => Null
  | _ => Wild
  end.
Definition is_null (p : pointer) : bool := match p with Null => true | _ => false end.
Definition val_int (v : Val) : outcome Z := match v with int_value_ z => Done z | _ => UB end.
Definition val_float (v : Val) : outcome float := match v with float_value_ f => Done f | _ => UB end.
Definition val_bool (v : Val) : outcome bool := match v with bool_value_ b => Done b | _ => UB end.

(** The characters up to the first NUL; reading a buffer without one runs past
    its end. *)
Fixpoint cstr_opt (b : bytes) : option bytes :=
  match b with
  | [] => None
  | c :: b => if c =? 0 then Some [] else (c ::.) <$> cstr_opt b
  end.
Definition c_str (b : bytes) : outcome bytes := deref (cstr_opt b).

Definition Value_reset (v : Value) : outcome Value :=
  let done x := Done (mkValue UNDEFINED 0 x false) in
  if bool_decide (v_attr_type_ v = CHARS) && v_own_data_ v then
    match val_pointer (v_value_ v) with
    | Null => done (v_value_ v)
    | Owned _ => done (pointer_value_ Null)
    | Wild => UB
    end
  else done (v_value_ v).

Definition Value_set_int (val : Z) (v : Value) : outcome Value :=
  v ← Value_reset v; Done (mkValue INTS 4 (int_value_ val) (v_own_data_ v)).
Definition Value_set_float (val : float) (v : Value) : outcome Value :=
  v ← Value_reset v; Done (mkValue FLOATS 4 (float_value_ val) (v_own_data_ v)).
Definition Value_set_boolean (val : bool) (v : Value) : outcome Value :=
  v ← Value_reset v; Done (mkValue BOOLEANS 1 (bool_value_ val) (v_own_data_ v)).

(** [set_string]: the first NUL ends the string; with [len > 0] at most [len]
    characters are looked at. *)
Definition strnlen_prefix (s : bytes) (len : Z) : outcome bytes :=
  match cstr_opt (take (Z.to_nat len) s) with
  | Some p => Done p
  | None => if len <=? blen s then Done (take (Z.to_nat len) s) else UB
  end.
Definition Value_set_string (s : option bytes) (len : Z) (v : Value) : outcome Value :=
  v ← Value_reset v;
  match s with
  | None => Done (mkValue CHARS 0 (pointer_value_ Null) (v_own_data_ v))
  | Some s =>
      p ← (if 0 <? len then strnlen_prefix s len else c_str s);
      Done (mkValue CHARS (blen p) (pointer_value_ (Owned (p ++ [0]))) true)
  end.
Definition Value_set_empty_string (len : Z) (v : Value) : outcome Value :=
  v ← Value_reset v;
  if len <? 0 then UB
  else Done (mkValue CHARS len (pointer_value_ (Owned (replicate (Z.to_nat (len + 1)) 0))) true).

(** [set_string_from_other] of a value that already has the type, the length
    and the ownership of the other. *)
Definition Value_set_string_from_other (other v : Value) : outcome Value :=
  if v_own_data_ v && negb (is_null (val_pointer (v_value_ other))) && negb (v_length_ v =? 0) then
    match val_pointer (v_value_ other) with
    | Owned b =>
        d ← mem_read 0 (v_length_ v) b;
        Done (mkValue (v_attr_type_ v) (v_length_ v) (pointer_value_ (Owned (d ++ [0]))) (v_own_data_ v))
    | _ => UB
    end
  else Done v.

(** The copy constructor and the copy assignment (to another object). *)
Definition copy_into (other : Value) (x : Val) : outcome Value :=
  let v := mkValue (v_attr_type_ other) (v_length_ other) x (v_own_data_ other) in
  if bool_decide (v_attr_type_ other = CHARS) then Value_set_string_from_other other v
  else Done (mkValue (v_attr_type_ other) (v_length_ other) (v_value_ other) (v_own_data_ other)).
Definition Value_copy (other : Value) : outcome Value := copy_into other (int_value_ 0).
Definition Value_assign (other v : Value) : outcome Value :=
  v ← Value_reset v; copy_into other (v_value_ v).

(** Constructors. *)
Definition Value_of_int (val : Z) : outcome Value := Value_set_int val Value_new.
Definition Value_of_float (val : float) : outcome Value := Value_set_float val Value_new.
Definition Value_of_bool (val : bool) : outcome Value := Value_set_boolean val Value_new.
Definition Value_of_string (s : bytes) (len : Z) : outcome Value := Value_set_string (Some s) len Value_new.

(** ** Numbers *)

Definition sf32_of_int (z : Z) : float := binary_normalize 24 128 z 0 false.
Definition sf32_sub : float → float → float := SFsub 24 128.

(** [m * 2^e < m' * 2^e'], exactly. *)
Definition dyadic_ltb (m e m' e' : Z) : bool :=
  let k := Z.min e e' in m * 2 ^ (e - k) <? m' * 2 ^ (e' - k).
(** [EPSILON], the [double] nearest to 1E-6. *)
Definition EPSILON_mant : Z := 4722366482869645.
Definition EPSILON_exp : Z := -72.
Definition gt_epsilon (f : float) : bool :=
  match f with
  | S754_infinity s => negb s
  | S754_finite s m e => dyadic_ltb EPSILON_mant EPSILON_exp (if s then - Zpos m else Zpos m) e
  | _ => false
  end.
Definition lt_minus_epsilon (f : float) : bool := gt_epsilon (SFopp f).
(** [val >= EPSILON]. *)
Definition ge_epsilon (f : float) : bool :=
  match f with
  | S754_infinity s => negb s
  | S754_finite s m e => negb (dyadic_ltb (if s then - Zpos m else Zpos m) e EPSILON_mant EPSILON_exp)
  | _ => false
  end.

(** [(int)f]: towards zero; undefined when the result is no [int]. *)
Definition int_of_float (f : float) : outcome Z :=
  match f with
  | S754_zero _ => Done 0
  | S754_finite s m e =>
      let a := Z.shiftl (Zpos m) e in
      let z := if s then - a else a in
      if (- 2 ^ 31 <=? z) && (z <=? INT32_MAX) then Done z else UB
  | _ => UB
  end.

(** *** [stol] in base 10 *)
Definition isspace (c : Z) : bool := ((9 <=? c) && (c <=? 13)) || (c =? 32).
Definition isdigit (c : Z) : bool := (48 <=? c) && (c <=? 57).
Fixpoint skip_spaces (s : bytes) : bytes :=
  match s with
  | c :: s' => if isspace c then skip_spaces s' else s
  | [] => []
  end.
Definition sign_of (s : bytes) : Z * bytes :=
  match s with
  | c :: s' => if c =? 45 then (-1, s') else if c =? 43 then (1, s') else (1, s)
  | [] => (1, [])
  end.
(** Value of the leading digits, how many there are and what follows. *)
Fixpoint digits_of (acc : Z) (n : nat) (s : bytes) : Z * nat * bytes :=
  match s with
  | c :: s' => if isdigit c then digits_of (acc * 10 + (c - 48)) (S n) s' else (acc, n, s)
  | [] => (acc, n, [])
  end.
(** [None]: an exception, [invalid_argument] or [out_of_range]. *)
Definition stol (s : bytes) : option Z :=
  let '(sg, s) := sign_of (skip_spaces s) in
  let '(z, n, _) := digits_of 0 O s in
  if Nat.eqb n 0 then None
  else if (- 2 ^ 63 <=? sg * z) && (sg * z <=? INT64_MAX) then Some (sg * z) else None.

Definition Value_get_int (v : Value) : outcome Z :=
  match v_attr_type_ v with
  | CHARS =>
      match val_pointer (v_value_ v) with
      | Null => Done 0
      | Owned b => s ← c_str b; Done (match stol s with Some z => i32 z | None => 0 end)
      | Wild => UB
      end
  | INTS => val_int (v_value_ v)
  | FLOATS => f ← val_float (v_value_ v); int_of_float f
  | BOOLEANS => b ← val_bool (v_value_ v); Done (Z.b2z b)
  | _ => Done 0
  end.

(** [get_float] of values that are not strings. *)
Definition Value_get_float (v : Value) : outcome float :=
  match v_attr_type_ v with
  | CHARS => UB
  | INTS => z ← val_int (v_value_ v); Done (sf32_of_int z)
  | FLOATS => val_float (v_value_ v)
  | BOOLEANS => b ← val_bool (v_value_ v); Done (sf32_of_int (Z.b2z b))
  | _ => Done (S754_zero false)
  end.

(** [get_boolean]: for a string every branch, the handler of the exceptions
    [stof] and [stol] throw included, answers whether there is a string. *)
Definition Value_get_boolean (v : Value) : outcome bool :=
  match v_attr_type_ v with
  | CHARS =>
      match val_pointer (v_value_ v) with
      | Null => Done false
      | Owned b => match cstr_opt b with Some _ => Done true | None => UB end
      | Wild => UB
      end
  | INTS => z ← val_int (v_value_ v); Done (negb (z =? 0))
  | FLOATS => f ← val_float (v_value_ v); Done (ge_epsilon f || ge_epsilon (SFopp f))
  | BOOLEANS => val_bool (v_value_ v)
  | _ => Done false
  end.

(** ** Comparison *)

Definition compare_int (v1 v2 : Z) : Z := if v2 <? v1 then 1 else if v1 <? v2 then -1 else 0.
Definition compare_float (v1 v2 : float) : Z :=
  let cmp := sf32_sub v1 v2 in
  if gt_epsilon cmp then 1 else if lt_minus_epsilon cmp then -1 else 0.

(** [strncmp] on the bytes of two buffers, as [unsigned char]. *)
Fixpoint strncmp (s1 s2 : bytes) (n : nat) {struct n} : outcome Z :=
  match n with
  | O => Done 0
  | S n =>
      match s1, s2 with
      | c1 :: s1, c2 :: s2 =>
          if c1 <? c2 then Done (-1) else if c2 <? c1 then Done 1 else if c1 =? 0 then Done 0 else strncmp s1 s2 n
      | _, _ => UB
      end
  end.
Definition compare_string (s1 : bytes) (arg1_max_length : Z) (s2 : bytes) (arg2_max_length : Z) : outcome Z :=
  let maxlen := Z.min arg1_max_length arg2_max_length in
  result ← strncmp s1 s2 (Z.to_nat maxlen);
  Done (if negb (result =? 0) then if result <? 0 then -1 else 1
        else if maxlen <? arg1_max_length then 1 else if maxlen <? arg2_max_length then -1 else 0).

(** The buffer a pointer leads to; none for a null pointer, of which no byte
    may be read. *)
Definition chars_of (v : Value) : outcome bytes :=
  match val_pointer (v_value_ v) with Null => Done [] | Owned b => Done b | Wild => UB end.

Definition CharType_compare (left right : Value) : outcome Z :=
  if bool_decide (v_attr_type_ left = CHARS) && bool_decide (v_attr_type_ right = CHARS) then
    l ← chars_of left; r ← chars_of right;
    compare_string l (v_length_ left) r (v_length_ right)
  else UB.
Definition FloatType_compare (left right : Value) : outcome Z :=
  if bool_decide (v_attr_type_ left = FLOATS) && is_numerical_type (v_attr_type_ right) then
    left_val ← Value_get_float left; right_val ← Value_get_float right;
    Done (compare_float left_val right_val)
  else UB.
Definition IntegerType_compare (left right : Value) : outcome Z :=
  if bool_decide (v_attr_type_ left = INTS) && is_numerical_type (v_attr_type_ right) then
    if bool_decide (v_attr_type_ right = INTS) then
      l ← val_int (v_value_ left); r ← val_int (v_value_ right); Done (compare_int l r)
    else
      left_val ← Value_get_float left; right_val ← Value_get_float right;
      Done (compare_float left_val right_val)
  else UB.

(** [Value::compare] through [DataType::type_instance]; [MAXTYPE] has no
    instance and [array::at] throws. *)
Definition Value_compare (v other : Value) : outcome Z :=
  match v_attr_type_ v with
  | CHARS => CharType_compare v other
  | INTS => IntegerType_compare v other
  | FLOATS => FloatType_compare v other
  | UNDEFINED | VECTORS | BOOLEANS => Done INT32_MAX
  | MAXTYPE => UB
  end.

(** ** Arithmetic of integers; an overflow of [int] is undefined *)

Definition int_result (z : Z) (result : Value) : outcome (RC * Value) :=
  if (- 2 ^ 31 <=? z) && (z <=? INT32_MAX) then r ← Value_set_int z result; Done (SUCCESS, r) else UB.
Definition IntegerType_add (left right result : Value) : outcome (RC * Value) :=
  l ← Value_get_int left; r ← Value_get_int right; int_result (l + r) result.
Definition IntegerType_subtract (left right result : Value) : outcome (RC * Value) :=
  l ← Value_get_int left; r ← Value_get_int right; int_result (l - r) result.
Definition IntegerType_multiply (left right result : Value) : outcome (RC * Value) :=
  l ← Value_get_int left; r ← Value_get_int right; int_result (l * r) result.
Definition IntegerType_negative (val result : Value) : outcome (RC * Value) :=
  l ← Value_get_int val; int_result (- l) result.
Definition IntegerType_cast_to (val : Value) (type : AttrType) (result : Value) : outcome (RC * Value) :=
  match type with
  | FLOATS => z ← Value_get_int val; r ← Value_set_float (sf32_of_int z) result; Done (SUCCESS, r)
  | _ => Done (SCHEMA_FIELD_TYPE_MISMATCH, result)
  end.

(** [cast_cost] of the instances. *)
Definition cast_cost (from type : AttrType) : Z :=
  match from, type with
  | INTS, FLOATS => 1
  | _, _ => if bool_decide (from = type) then 0 else INT32_MAX
  end.

(** ** Printing *)

Fixpoint dec_digits (fuel : nat) (n : Z) (acc : bytes) : bytes :=
  match fuel with
  | O => acc
  | S fuel => let acc := (48 + n mod 10) :: acc in if n <? 10 then acc else dec_digits fuel (n / 10) acc
  end.
(** Decimal digits of [n >= 0]; there are no more of them than binary ones. *)
Definition dec_of_Z (n : Z) : bytes := dec_digits (S (Z.to_nat (Z.log2 n))) n [].
Definition print_int (z : Z) : bytes := if z <? 0 then 45 :: dec_of_Z (- z) else dec_of_Z z.

Definition IntegerType_to_string (val : Value) : outcome (RC * bytes) :=
  z ← val_int (v_value_ val); Done (SUCCESS, print_int z).

(** A null pointer prints nothing: it only sets the [badbit] of the stream. *)
Definition CharType_to_string (val : Value) : outcome (RC * bytes) :=
  match val_pointer (v_value_ val) with
  | Null => Done (SUCCESS, [])
  | Owned b => s ← c_str b; Done (SUCCESS, s)
  | Wild => UB
  end.

(** [round]: to the nearest integer, halves away from zero. *)
Definition sf64_round (f : float) : float :=
  match f with
  | S754_finite s m e =>
      if 0 <=? e then f
      else let a := (2 * Zpos m + 2 ^ (- e)) / (2 * 2 ^ (- e)) in
           match a with Z0 => S754_zero s | _ => binary_normalize 53 1024 (if s then - a else a) 0 s end
  | _ => f
  end.
(** [%.2f]: two decimals, the exact value rounded half to even. *)
Definition print_fixed2 (f : float) : bytes :=
  match f with
  | S754_zero s => (if s then [45] else []) ++ [48; 46; 48; 48]
  | S754_infinity s => (if s then [45] else []) ++ [105; 110; 102]
  | S754_nan => [110; 97; 110]
  | S754_finite s m e =>
      let c := if 0 <=? e then 100 * Zpos m * 2 ^ e
               else let d := 2 ^ (- e) in
                    let q := (100 * Zpos m) / d in
                    let r := (100 * Zpos m) mod d in
                    if (d <? 2 * r) || ((2 * r =? d) && Z.odd q) then q + 1 else q in
      (if s then [45] else []) ++ dec_of_Z (c / 100) ++ [46; 48 + c / 10 mod 10; 48 + c mod 10]
  end.
(** The trailing zeros and then the point go; [rev] of the text. *)
Fixpoint drop_zeros (s : bytes) : bytes :=
  match s with
  | c :: s' => if c =? 48 then drop_zeros s' else s
  | [] => []
  end.
Definition double_to_str (v : float) : bytes :=
  let hundred := binary_normalize 53 1024 100 0 false in
  let rounded_v := SFdiv 53 1024 (sf64_round (SFmul 53 1024 v hundred)) hundred in
  match drop_zeros (rev (print_fixed2 rounded_v)) with
  | 46 :: s => rev s
  | s => rev s
  end.
(** The [double] equal to a [float]. *)
Definition sf64_of_sf32 (f : float) : float :=
  match f with S754_finite s m e => binary_normalize 53 1024 (if s then Zneg m else Zpos m) e s | _ => f end.
Definition FloatType_to_string (val : Value) : outcome (RC * bytes) :=
  f ← val_float (v_value_ val); Done (SUCCESS, double_to_str (sf64_of_sf32 f)).

Definition Value_to_string (v : Value) : outcome bytes :=
  y ← match v_attr_type_ v with
      | CHARS => CharType_to_string v
      | INTS => IntegerType_to_string v
      | FLOATS => FloatType_to_string v
      | VECTORS => Done (UNIMPLEMENTED, [])
      | UNDEFINED | BOOLEANS => Done (UNSUPPORTED, [])
      | MAXTYPE => UB
      end;
  let '(rc, res) := y : RC * bytes in
  Done (if OB_FAIL rc then [] else res).

(** [set_value_from_str] of the integer type: [stream >> int] and the test that
    the stream is at its end.  A number that does not fit sets the failbit. *)
Definition IntegerType_set_value_from_str (val : Value) (data : bytes) : outcome (RC * Value) :=
  let '(sg, s) := sign_of (skip_spaces data) in
  let '(z, n, rest) := digits_of 0 O s in
  if Nat.eqb n 0 || negb ((- 2 ^ 31 <=? sg * z) && (sg * z <=? INT32_MAX)) || negb (bool_decide (rest = []))
  then Done (SCHEMA_FIELD_TYPE_MISMATCH, val)
  else v ← Value_set_int (sg * z) val; Done (SUCCESS, v).
Definition CharType_set_value_from_str (val : Value) (data : bytes) : outcome (RC * Value) :=
  v ← Value_set_string (Some (data ++ [0])) 0 val; Done (SUCCESS, v).

(** [set_value]: by the type of the other; the text of a string is copied up to
    its first NUL. *)
Definition Value_set_value (value v : Value) : outcome Value :=
  match v_attr_type_ value with
  | INTS => z ← Value_get_int value; Value_set_int z v
  | FLOATS => f ← Value_get_float value; Value_set_float f v
  | CHARS => s ← Value_to_string value; Value_set_string (Some (s ++ [0])) 0 v
  | BOOLEANS => b ← Value_get_boolean value; Value_set_boolean b v
  | _ => UB
  end.

Example print_float_ex : double_to_str (sf64_of_sf32 (SFdiv 24 128 (sf32_of_int 314159) (sf32_of_int 100000))) = [51; 46; 49; 52].
Proof. vm_compute. reflexivity. Qed.
Example print_zero_ex : (double_to_str (S754_zero false), print_int (-120)) = ([48], [45; 49; 50; 48]).
Proof. vm_compute. reflexivity. Qed.

(** ** Numbers survive printing and reading *)

Lemma isdigit_digit d : 0 ≤ d < 10 → isdigit (48 + d) = true.
Proof. intros. unfold isdigit. rewrite !(proj2 (Z.leb_le _ _)) by lia. done. Qed.

Lemma digits_of_app ds s acc n : Forall (λ c, isdigit c = true) ds →
  digits_of acc n (ds ++ s) = digits_of (foldl (λ a c, a * 10 + (c - 48)) acc ds) (n + length ds) s.
Proof.
  intros H. revert acc n. induction H as [|c ds Hc _ IH]; intros acc n; cbn; [by rewrite Nat.add_0_r|].
  by rewrite Hc, IH, <- Nat.add_succ_comm.
Qed.

Lemma dec_digits_spec fuel n acc : 0 ≤ n < 10 ^ Z.of_nat fuel → (0 < fuel)%nat →
  ∃ ds, dec_digits fuel n acc = ds ++ acc ∧ Forall (λ c, isdigit c = true) ds ∧ ds ≠ []
        ∧ foldl (λ a c, a * 10 + (c - 48)) 0 ds = n.
Proof.
  revert n acc. induction fuel as [|fuel IH]; intros n acc Hn Hf; [lia|]. cbn [dec_digits].
  pose proof (Z.mod_pos_bound n 10 ltac:(lia)) as Hm. destruct (Z.ltb_spec n 10) as [Hlt|Hge].
  - exists [48 + n mod 10]. rewrite Z.mod_small by lia. split; [done|]. split; [|split; [done|cbn; lia]].
    constructor; [apply isdigit_digit; lia|done].
  - rewrite Nat2Z.inj_succ, Z.pow_succ_r in Hn by lia.
    pose proof (Z.div_mod n 10 ltac:(lia)).
    assert (0 < fuel)%nat as Hf' by (destruct fuel; [cbn in Hn; lia|lia]).
    destruct (IH (n / 10) ((48 + n mod 10) :: acc)) as (ds & -> & Hds & Hne & Hv);
      [split; [apply Z.div_pos; lia|apply Z.div_lt_upper_bound; lia]|done|].
    exists (ds ++ [48 + n mod 10]). rewrite <- app_assoc. split; [done|]. split; [|split].
    + apply Forall_app; split; [done|]. constructor; [by apply isdigit_digit|done].
    + by destruct ds.
    + rewrite foldl_app, Hv. cbn. lia.
Qed.

Lemma dec_of_Z_spec n : 0 ≤ n →
  ∃ ds, dec_of_Z n = ds ∧ Forall (λ c, isdigit c = true) ds ∧ ds ≠ [] ∧ foldl (λ a c, a * 10 + (c - 48)) 0 ds = n.
Proof.
  intros Hn. destruct (dec_digits_spec (S (Z.to_nat (Z.log2 n))) n []) as (ds & H & Hds); [|lia|].
  { split; [done|]. pose proof (Z.log2_nonneg n). rewrite Nat2Z.inj_succ, Z2Nat.id by done.
    destruct (decide (n = 0)) as [->|Hz]; [done|]. pose proof (Z.log2_spec n ltac:(lia)).
    assert (2 ^ Z.succ (Z.log2 n) ≤ 10 ^ Z.succ (Z.log2 n)) by (apply Z.pow_le_mono_l; lia). lia. }
  exists ds. unfold dec_of_Z. by rewrite H, app_nil_r.
Qed.

(** The sign and the digits are found again. *)
Lemma print_int_scan z : ∃ sg n m ds, print_int z = n ++ ds ∧ (sg, ds) = sign_of (skip_spaces (print_int z))
  ∧ digits_of 0 0 ds = (m, length ds, []) ∧ sg * m = z ∧ (0 < length ds)%nat.
Proof.
  unfold print_int. destruct (Z.ltb_spec z 0) as [Hz|Hz].
  - destruct (dec_of_Z_spec (- z)) as (ds & -> & Hds & Hne & Hv); [lia|].
    exists (-1), [45], (- z), ds. split; [done|]. split; [done|].
    pose proof (digits_of_app ds [] 0 0 Hds) as Hd. rewrite app_nil_r, Hv in Hd. split; [done|].
    split; [lia|]. destruct ds; [done|cbn; lia].
  - destruct (dec_of_Z_spec z Hz) as (ds & -> & Hds & Hne & Hv).
    exists 1, [], z, ds. split; [done|].
    pose proof (digits_of_app ds [] 0 0 Hds) as Hd. rewrite app_nil_r, Hv in Hd. split.
    + destruct Hds as [|c ds Hc]; [done|]. unfold isdigit in Hc. apply andb_true_iff in Hc as [H1 H2]. zb.
      cbn. unfold isspace. rewrite (proj2 (Z.leb_gt c 13)), (proj2 (Z.eqb_neq c 32)), andb_false_r by lia. cbn.
      by rewrite (proj2 (Z.eqb_neq c 45)), (proj2 (Z.eqb_neq c 43)) by lia.
    + split; [done|]. split; [lia|]. destruct ds; [done|cbn; lia].
Qed.

(** ** Well-formed values *)

Definition int32_range (z : Z) : Prop := - 2 ^ 31 ≤ z ≤ INT32_MAX.
Definition value_ok (v : Value) : Prop :=
  match v_attr_type_ v with
  | UNDEFINED => v_own_data_ v = false ∧ ∀ b, val_pointer (v_value_ v) ≠ Owned b
  | INTS => v_own_data_ v = false ∧ ∃ z, v_value_ v = int_value_ z ∧ int32_range z
  | FLOATS => v_own_data_ v = false ∧ ∃ f, v_value_ v = float_value_ f
  | BOOLEANS => v_own_data_ v = false ∧ ∃ b, v_value_ v = bool_value_ b
  | CHARS => (∃ p, val_pointer (v_value_ v) = Owned (p ++ [0]) ∧ v_length_ v = blen p ∧ v_own_data_ v = true)
             ∨ (val_pointer (v_value_ v) = Null ∧ v_length_ v = 0)
  | VECTORS | MAXTYPE => False
  end.

Lemma cstr_opt_app p r : 0 ∉ p → cstr_opt (p ++ 0 :: r) = Some p.
Proof.
  induction p as [|c p IH]; intros H; cbn; [done|]. apply not_elem_of_cons in H as [Hc H].
  rewrite (proj2 (Z.eqb_neq _ _)) by done. by rewrite IH.
Qed.

Lemma cstr_opt_some b : ∃ s, cstr_opt (b ++ [0]) = Some s ∧ s `prefix_of` b.
Proof.
  induction b as [|c b (s & IH & Hp)]; cbn; [by exists []|]. destruct (c =? 0); [exists []; split; [done|apply prefix_nil]|].
  rewrite IH. exists (c :: s). split; [done|]. by apply prefix_cons.
Qed.

(** [reset] works on every such value. *)
Lemma reset_ok v : value_ok v → ∃ x, Value_reset v = Done (mkValue UNDEFINED 0 x false)
  ∧ (v_attr_type_ v ≠ CHARS → x = v_value_ v) ∧ (v_attr_type_ v = CHARS → val_pointer x = Null).
Proof.
  unfold value_ok, Value_reset. destruct v as [ty len x own]; cbn.
  destruct ty; cbn; try by (intros; eexists; split; [done|naive_solver]).
  intros [(p & Hp & _ & ->)|[Hp _]]; cbn; rewrite Hp.
  - exists (pointer_value_ Null). by split_and!.
  - destruct own; exists x; by split_and!.
Qed.

Lemma value_ok_not_owned v b : value_ok v → v_attr_type_ v ≠ CHARS → val_pointer (v_value_ v) = Owned b → False.
Proof.
  unfold value_ok. destruct (v_attr_type_ v); try done.
  - intros [_ H] _ ?. by eapply H.
  - intros (_ & z & -> & _). by destruct z.
  - intros (_ & f & ->). by destruct f as [[]| | |].
  - intros (_ & b' & ->). by destruct b'.
Qed.

Lemma set_int_ok z v : value_ok v → int32_range z →
  ∃ x, Value_set_int z v = Done x ∧ value_ok x ∧ v_attr_type_ x = INTS ∧ v_value_ x = int_value_ z.
Proof.
  intros Hv Hz. destruct (reset_ok v Hv) as (x & Hr & _). unfold Value_set_int. rewrite Hr. cbn.
  eexists. split; [done|]. unfold value_ok; cbn. naive_solver.
Qed.

Lemma set_string_ok s v : value_ok v → 0 ∉ s →
  ∃ x, Value_set_string (Some (s ++ [0])) 0 v = Done x ∧ value_ok x ∧ v_attr_type_ x = CHARS
       ∧ v_value_ x = pointer_value_ (Owned (s ++ [0])) ∧ v_length_ x = blen s.
Proof.
  intros Hv Hs. destruct (reset_ok v Hv) as (x & Hr & _). unfold Value_set_string. rewrite Hr. cbn.
  unfold c_str. rewrite cstr_opt_app by done. cbn. eexists. split; [done|]. unfold value_ok; cbn. naive_solver.
Qed.

Lemma print_int_nonzero z : 0 ∉ print_int z.
Proof.
  assert (∀ ds, Forall (λ c, isdigit c = true) ds → 0 ∉ ds) as H.
  { intros ds Hds H0. rewrite Forall_forall in Hds. by specialize (Hds 0 H0). }
  unfold print_int. destruct (z <? 0) eqn:E; zb.
  - destruct (dec_of_Z_spec (- z)) as (ds & -> & Hds & _); [lia|]. apply not_elem_of_cons. split; [lia|by apply H].
  - destruct (dec_of_Z_spec z) as (ds & -> & Hds & _); [lia|]. by apply H.
Qed.

Lemma stol_print_int z : int32_range z → stol (print_int z) = Some z.
Proof.
  intros Hz. destruct (print_int_scan z) as (sg & n & m & ds & _ & Hs & Hd & Hv & Hl). unfold stol.
  rewrite <- Hs, Hd, Hv. destruct (length ds); [lia|]. cbn. unfold int32_range, INT32_MAX, INT64_MAX in *.
  rewrite !(proj2 (Z.leb_le _ _)) by lia. done.
Qed.

(** C31: an integer value printed by [to_string] and read by
    [set_value_from_str] is the same integer, for every [int] and whatever the
    target held; stored as a string value the text converts back with
    [get_int]. *)
Theorem int_text_roundtrip z v : int32_range z → value_ok v →
  ∃ i s v' t, Value_of_int z = Done i ∧ Value_to_string i = Done s
    ∧ IntegerType_set_value_from_str v s = Done (SUCCESS, v') ∧ v_attr_type_ v' = INTS ∧ Value_get_int v' = Done z
    ∧ CharType_set_value_from_str v s = Done (SUCCESS, t) ∧ v_attr_type_ t = CHARS ∧ Value_get_int t = Done z.
Proof.
  intros Hz Hv. destruct (set_int_ok z v Hv Hz) as (v' & Hs & _ & Ht & Hval).
  destruct (set_string_ok (print_int z) v Hv) as (t & Hc & _ & Htt & Htv & _); [apply print_int_nonzero|].
  destruct (print_int_scan z) as (sg & n & m & ds & _ & Hsc & Hd & Hm & Hl).
  exists (mkValue INTS 4 (int_value_ z) false), (print_int z), v', t.
  split; [done|]. split; [done|]. split.
  { unfold IntegerType_set_value_from_str. rewrite <- Hsc, Hd, Hm. destruct (length ds) eqn:E; [lia|]. cbn [Nat.eqb orb].
    unfold int32_range in Hz. rewrite !(proj2 (Z.leb_le _ _)) by lia. cbn. by rewrite Hs. }
  split; [done|]. split; [unfold Value_get_int; by rewrite Ht, Hval|].
  split; [unfold CharType_set_value_from_str; by rewrite Hc|]. split; [done|].
  unfold Value_get_int. rewrite Htt, Htv. cbn. unfold c_str. rewrite cstr_opt_app by apply print_int_nonzero. cbn.
  rewrite stol_print_int by done. unfold i32. rewrite sint_small; [done|lia|]. unfold int32_range, INT32_MAX in Hz. lia.
Qed.

Lemma int_text_roundtrip_witness : ∃ i s v' t, Value_of_int (-2147483648) = Done i ∧ Value_to_string i = Done s
    ∧ IntegerType_set_value_from_str Value_new s = Done (SUCCESS, v') ∧ v_attr_type_ v' = INTS
    ∧ Value_get_int v' = Done (-2147483648)
    ∧ CharType_set_value_from_str Value_new s = Done (SUCCESS, t) ∧ v_attr_type_ t = CHARS ∧ Value_get_int t = Done (-2147483648).
Proof. apply (int_text_roundtrip (-2147483648) Value_new); [unfold int32_range; vm_compute; split; discriminate|split; [reflexivity|discriminate]]. Defined.

(** ** Assignment *)

(** The bits of a number other than zero, taken for a pointer. *)
Definition stale (v : Value) : Prop := val_pointer (v_value_ v) = Wild.

(** What a value shows: its type, its text and its integer. *)
Definition shows_as (v w : Value) : Prop :=
  v_attr_type_ v = v_attr_type_ w ∧ v_length_ v = v_length_ w
  ∧ Value_to_string v = Value_to_string w ∧ Value_get_int v = Value_get_int w.

Lemma copy_into_scalar other x : value_ok other → v_attr_type_ other ≠ CHARS → copy_into other x = Done other.
Proof. intros _ H. unfold copy_into. rewrite bool_decide_false by done. by destruct other. Qed.

Lemma sub_0_app {A} (a b : list A) n : n = blen a → sub 0 n (a ++ b) = a.
Proof. intros ->. apply sub_app_l. Qed.

Lemma copy_into_chars other x : value_ok other → v_attr_type_ other = CHARS → v_length_ other ≠ 0 →
  ∃ v, copy_into other x = Done v ∧ value_ok v ∧ shows_as v other.
Proof.
  unfold value_ok. destruct other as [ty len y own]; cbn. intros Hok -> Hlen. destruct Hok as [(p & Hp & -> & ->)|[_ ?]]; [|done].
  unfold copy_into, Value_set_string_from_other; cbn. rewrite Hp. cbn. rewrite (proj2 (Z.eqb_neq _ _)) by done. cbn.
  rewrite mem_read_ok by (rewrite ?blen_app; unfold blen; cbn; lia). cbn. rewrite sub_0_app by done.
  eexists. split; [done|]. cbn. split; [left; by exists p|].
  unfold shows_as, Value_to_string, Value_get_int, CharType_to_string; cbn. by rewrite Hp.
Qed.

(** An empty string copies as a null pointer when the target's bits are zero. *)
Lemma copy_into_empty other x : value_ok other → v_attr_type_ other = CHARS → v_length_ other = 0 → val_pointer x = Null →
  ∃ v, copy_into other x = Done v ∧ value_ok v ∧ shows_as v other.
Proof.
  unfold value_ok. destruct other as [ty len y own]; cbn. intros Hok -> -> Hx. unfold copy_into, Value_set_string_from_other; cbn.
  rewrite andb_false_r. eexists. split; [done|]. cbn. split; [by right|].
  unfold shows_as, Value_to_string, Value_get_int, CharType_to_string; cbn. rewrite Hx.
  destruct Hok as [(p & -> & Hp & _)|[-> _]]; [|done].
  assert (p = []) as -> by (destruct p; [done|]; rewrite blen_cons in Hp; pose proof (blen_nonneg p); lia). done.
Qed.

Lemma copy_ok other x : value_ok other → val_pointer x = Null ∨ ¬ (v_attr_type_ other = CHARS ∧ v_length_ other = 0) →
  ∃ c, copy_into other x = Done c ∧ value_ok c ∧ shows_as c other ∧ (v_attr_type_ other ≠ CHARS → c = other).
Proof.
  intros Ho Hx. destruct (decide (v_attr_type_ other = CHARS)) as [Hc|Hc]; [|exists other; by rewrite copy_into_scalar].
  destruct (decide (v_length_ other = 0)) as [Hl|Hl].
  - destruct (copy_into_empty other x) as (c & ? & ? & ?); [done..|naive_solver|]. by exists c.
  - destruct (copy_into_chars other x) as (c & ? & ? & ?); [done..|]. by exists c.
Qed.

(** An empty string that would take the bits of a number for its pointer. *)
Definition clash (v other : Value) : Prop :=
  v_attr_type_ other = CHARS ∧ v_length_ other = 0 ∧ v_attr_type_ v ≠ CHARS ∧ stale v.

Lemma assign_ok v other : value_ok v → value_ok other →
  clash v other ∨ ∃ w, Value_assign other v = Done w ∧ value_ok w ∧ shows_as w other ∧ (v_attr_type_ other ≠ CHARS → w = other).
Proof.
  intros Hv Ho. destruct (reset_ok v Hv) as (x & Hr & Hn & Hc). unfold Value_assign. rewrite Hr.
  cbn [mbind outcome_bind v_value_].
  destruct (decide (v_attr_type_ other = CHARS ∧ v_length_ other = 0)) as [He|He]; [|right; apply copy_ok; [done|by right]].
  destruct (decide (v_attr_type_ v = CHARS)) as [Ht|Ht]; [right; apply copy_ok; [done|left; by apply Hc]|].
  specialize (Hn Ht). subst x. destruct (val_pointer (v_value_ v)) eqn:Hp; [right; apply copy_ok; [done|by left]| |left; unfold clash; naive_solver].
  exfalso. exact (value_ok_not_owned _ _ Hv Ht Hp).
Qed.



(** A row with a number other than zero before an empty string makes a
    reused [Value] hold the number's bits as an owned pointer: the assignment
    succeeds, and destroying or reusing the value afterwards is undefined. *)
Theorem empty_string_after_number z v e : z ≠ 0 → Value_of_int z = Done v → Value_of_string [0] 0 = Done e →
  ∃ w, Value_assign e v = Done w ∧ v_attr_type_ w = CHARS ∧ Value_reset w = UB ∧ Value_to_string w = UB
       ∧ ∀ x, Value_assign x w = UB.
Proof.
  intros Hz Hv He. unfold Value_of_int, Value_set_int in Hv. cbn in Hv. injection Hv as <-.
  unfold Value_of_string, Value_set_string in He. cbn in He. injection He as <-.
  eexists. split; [reflexivity|]. split; [done|].
  assert (val_pointer (int_value_ z) = Wild) as Hw by (by destruct z).
  unfold Value_assign, Value_reset, Value_to_string, CharType_to_string; cbn [v_attr_type_ v_value_ v_own_data_].
  rewrite Hw. done.
Qed.

Lemma empty_string_after_number_witness : ∃ v e w, Value_assign e v = Done w ∧ v_attr_type_ w = CHARS ∧ Value_reset w = UB
  ∧ Value_to_string w = UB ∧ ∀ x, Value_assign x w = UB.
Proof.
  destruct (empty_string_after_number 5 (mkValue INTS 4 (int_value_ 5) false)
    (mkValue CHARS 0 (pointer_value_ (Owned [0])) true)) as (w & H); [discriminate|reflexivity|reflexivity|].
  eexists _, _, w. exact H.
Defined.

(** ** Order *)

(** The lexicographic order of strings. *)
Fixpoint lex (s1 s2 : bytes) : Z :=
  match s1, s2 with
  | [], [] => 0
  | [], _ :: _ => -1
  | _ :: _, [] => 1
  | c1 :: s1, c2 :: s2 => if c1 <? c2 then -1 else if c2 <? c1 then 1 else lex s1 s2
  end.

Lemma lex_eq s1 s2 : lex s1 s2 = 0 ↔ s1 = s2.
Proof.
  revert s2. induction s1 as [|c1 s1 IH]; intros [|c2 s2]; cbn; try done.
  destruct (Z.ltb_spec c1 c2), (Z.ltb_spec c2 c1); split; try (intros; done); try (intros [=]; lia).
  - intros ->%IH. f_equal. lia.
  - intros [= -> ->]. by apply IH.
Qed.

Lemma lex_antisym s1 s2 : lex s2 s1 = - lex s1 s2.
Proof.
  revert s2. induction s1 as [|c1 s1 IH]; intros [|c2 s2]; cbn; try done.
  destruct (Z.ltb_spec c1 c2), (Z.ltb_spec c2 c1); try lia. apply IH.
Qed.

Lemma lex_trans s1 s2 s3 : lex s1 s2 ≤ 0 → lex s2 s3 ≤ 0 → lex s1 s3 ≤ 0.
Proof.
  revert s2 s3. induction s1 as [|c1 s1 IH]; intros [|c2 s2] [|c3 s3]; cbn; try lia.
  destruct (Z.ltb_spec c1 c2), (Z.ltb_spec c2 c1), (Z.ltb_spec c2 c3), (Z.ltb_spec c3 c2),
    (Z.ltb_spec c1 c3), (Z.ltb_spec c3 c1); try lia. apply IH.
Qed.

Lemma lex_range s1 s2 : -1 ≤ lex s1 s2 ≤ 1.
Proof. revert s2. induction s1 as [|c1 s1 IH]; intros [|c2 s2]; cbn; try lia. split_match; [lia..|apply IH]. Qed.

(** Up to the shorter length [strncmp] decides, after that the lengths do. *)
Lemma strncmp_lex s1 s2 r1 r2 : 0 ∉ s1 → 0 ∉ s2 →
  ∃ c, strncmp (s1 ++ r1) (s2 ++ r2) (Nat.min (length s1) (length s2)) = Done c
    ∧ lex s1 s2 = (if negb (c =? 0) then if c <? 0 then -1 else 1
                   else if Z.min (blen s1) (blen s2) <? blen s1 then 1
                   else if Z.min (blen s1) (blen s2) <? blen s2 then -1 else 0).
Proof.
  revert s2. induction s1 as [|c1 s1 IH]; intros [|c2 s2] H1 H2.
  - exists 0. by split.
  - exists 0. split; [done|]. pose proof (blen_nonneg s2). rewrite !blen_cons. cbn. split_match; zb; unfold blen in *; cbn in *; lia.
  - exists 0. split; [done|]. pose proof (blen_nonneg s1). rewrite !blen_cons. cbn. split_match; zb; unfold blen in *; cbn in *; lia.
  - apply not_elem_of_cons in H1 as [Hc1 H1], H2 as [Hc2 H2]. cbn [length Nat.min app strncmp lex].
    destruct (Z.ltb_spec c1 c2); [by exists (-1)|]. destruct (Z.ltb_spec c2 c1); [by exists 1|].
    rewrite (proj2 (Z.eqb_neq _ _)) by done. destruct (IH s2 H1 H2) as (c & -> & ->). exists c. split; [done|].
    rewrite !blen_cons.
    destruct (negb (c =? 0)); [done|]. split_match; zb; lia || done.
Qed.

Lemma compare_string_lex s1 s2 r1 r2 : 0 ∉ s1 → 0 ∉ s2 →
  compare_string (s1 ++ r1) (blen s1) (s2 ++ r2) (blen s2) = Done (lex s1 s2).
Proof.
  intros H1 H2. unfold compare_string. destruct (strncmp_lex s1 s2 r1 r2 H1 H2) as (c & Hc & Hl).
  replace (Z.to_nat (Z.min (blen s1) (blen s2))) with (Nat.min (length s1) (length s2)) by (unfold blen; lia).
  rewrite Hc, Hl. done.
Qed.



(** Equality of floats within [EPSILON] is not transitive: three values of
    which the first two and the last two compare equal and the outer two do not,
    so grouping and sorting by it depend on the order of the rows. *)
Theorem float_compare_not_transitive : ∃ a b c,
  (v1 ← Value_of_float a; v2 ← Value_of_float b; Value_compare v1 v2) = Done 0
  ∧ (v1 ← Value_of_float b; v2 ← Value_of_float c; Value_compare v1 v2) = Done 0
  ∧ (v1 ← Value_of_float a; v2 ← Value_of_float c; Value_compare v1 v2) = Done (-1).
Proof.
  exists (S754_zero false), (SFdiv 24 128 (sf32_of_int 7) (sf32_of_int 10000000)),
    (SFdiv 24 128 (sf32_of_int 14) (sf32_of_int 10000000)).
  split_and!; vm_compute; reflexivity.
Qed.
