(* ===== verification/PlanRewrite.v ===== *)
(** * Expressions, logical plans and the rewriter

    Models [src/src/observer/sql/expr/expression.h/.cpp], the logical operators
    ([sql/operator/logical_operator.h/.cpp] and the generator of filter, delete
    and select plans in [sql/optimizer/logical_plan_generator.cpp]) and the
    rule-based rewriter: [expression_rewriter.cpp],
    [comparison_simplification_rule.cpp], [conjunction_simplification_rule.cpp],
    [predicate_rewrite.cpp], [predicate_pushdown_rewriter.cpp], [rewriter.cpp]
    and the fixed-point loop of [optimize_stage.cpp].

    A [unique_ptr] that a move has emptied is [None].  The conjunction rule goes
    on with the iterator it erased at, which the language does not allow; here
    it stands on the next element, as it does in a [vector].  Names and
    positions of expressions and the members that only subclasses of
    [LogicalOperator] have are left out: the rewriter does not look at them. *)

From S2P Require Import Prelude Rc SqlValue.

(** ** Expressions *)

Inductive CompOp := EQUAL_TO | LESS_EQUAL | NOT_EQUAL | LESS_THAN | GREAT_EQUAL | GREAT_THAN | NO_OP.
Inductive ConjunctionType := AND | OR.
Inductive ArithmeticType := ADD | SUB | MUL | DIV | NEGATIVE.
Inductive AggregateType := COUNT | SUM | AVG | MAX | MIN.
Inductive ExprType := NONE | STAR | UNBOUND_FIELD | UNBOUND_AGGREGATION | FIELD | VALUE | CAST | COMPARISON | CONJUNCTION | ARITHMETIC | AGGREGATION.
#[export] Instance ExprType_eq_dec : EqDecision ExprType.
Proof. solve_decision. Defined.

Inductive Expression :=
  | StarExpr (table_name : string)
  | UnboundFieldExpr (table_name field_name : string)
  | UnboundAggregateExpr (aggregate_name : string) (child : Expression)
  | FieldExpr (table_name field_name : string) (field_idx : Z) (type_ : AttrType) (len : Z)
  | ValueExpr (value : Value)
  | CastExpr (child : Expression) (cast_type : AttrType)
  | ComparisonExpr (comp : CompOp) (left right : Expression)
  | ConjunctionExpr (type_ : ConjunctionType) (children : list Expression)
  | ArithmeticExpr (type_ : ArithmeticType) (left : Expression) (right : option Expression)
  | AggregateExpr (type_ : AggregateType) (child : Expression).

Definition expr_type (e : Expression) : ExprType :=
  match e with
  | StarExpr _ => STAR
  | UnboundFieldExpr _ _ => UNBOUND_FIELD
  | UnboundAggregateExpr _ _ => UNBOUND_AGGREGATION
  | FieldExpr _ _ _ _ _ => FIELD
  | ValueExpr _ => VALUE
  | CastExpr _ _ => CAST
  | ComparisonExpr _ _ _ => COMPARISON
  | ConjunctionExpr _ _ => CONJUNCTION
  | ArithmeticExpr _ _ _ => ARITHMETIC
  | AggregateExpr _ _ => AGGREGATION
  end.

Fixpoint value_type (e : Expression) : AttrType :=
  match e with
  | FieldExpr _ _ _ t _ => t
  | ValueExpr v => v_attr_type_ v
  | CastExpr _ t => t
  | ComparisonExpr _ _ _ | ConjunctionExpr _ _ => BOOLEANS
  | UnboundAggregateExpr _ c => value_type c
  | AggregateExpr COUNT _ => INTS
  | AggregateExpr AVG _ => FLOATS
  | AggregateExpr _ c => value_type c
  | StarExpr _ | UnboundFieldExpr _ _ | ArithmeticExpr _ _ _ => UNDEFINED
  end.

(** [try_get_value]: the value of a constant; the other classes do not
    implement it. *)
Definition try_get_value (e : Expression) : RC * option Value :=
  match e with
  | ValueExpr v => (SUCCESS, Some v)
  | _ => (UNIMPLEMENTED, None)
  end.

(** ** Logical operators *)

Inductive LogicalOperatorType := CALC | TABLE_GET | PREDICATE | PROJECTION | JOIN | INSERT | DELETE | EXPLAIN | GROUP_BY.
#[export] Instance LogicalOperatorType_eq_dec : EqDecision LogicalOperatorType.
Proof. solve_decision. Defined.

Inductive LogicalOperator :=
  mkLogical (lo_type : LogicalOperatorType) (expressions_ : list Expression) (children_ : list LogicalOperator).
Definition op_type (o : LogicalOperator) : LogicalOperatorType := let '(mkLogical t _ _) := o in t.
Definition op_expressions (o : LogicalOperator) : list Expression := let '(mkLogical _ es _) := o in es.
Definition op_children (o : LogicalOperator) : list LogicalOperator := let '(mkLogical _ _ cs) := o in cs.
Definition add_child (c o : LogicalOperator) : LogicalOperator :=
  mkLogical (op_type o) (op_expressions o) (op_children o ++ [c]).

(** ** Plans of statements *)

Inductive FilterObj := FilterAttr | FilterValue (value : Value).
Record FilterUnit := mkFilterUnit { fu_comp_ : CompOp; fu_left_ : FilterObj; fu_right_ : FilterObj }.

Definition filter_operand (o : FilterObj) : Expression :=
  match o with
  | FilterAttr => FieldExpr "" "" 0 UNDEFINED 0
  | FilterValue v => ValueExpr v
  end.

Definition implicit_cast_cost (from to : AttrType) : Z := if bool_decide (from = to) then 0 else cast_cost from to.

(** Cast one side: a constant is cast at once, which [CastExpr] does not
    implement. *)
Definition cast_side (e : Expression) (t : AttrType) : RC * Expression :=
  if bool_decide (expr_type e = VALUE)
  then match try_get_value (CastExpr e t) with
       | (SUCCESS, Some v) => (SUCCESS, ValueExpr v)
       | (rc, _) => (rc, e)
       end
  else (SUCCESS, CastExpr e t).

Definition filter_comparison (u : FilterUnit) : RC * option Expression :=
  let lhs := filter_operand (fu_left_ u) in
  let rhs := filter_operand (fu_right_ u) in
  if bool_decide (value_type lhs = value_type rhs) then (SUCCESS, Some (ComparisonExpr (fu_comp_ u) lhs rhs))
  else
    let left_to_right_cost := implicit_cast_cost (value_type lhs) (value_type rhs) in
    let right_to_left_cost := implicit_cast_cost (value_type rhs) (value_type lhs) in
    if (left_to_right_cost <=? right_to_left_cost) && negb (left_to_right_cost =? INT32_MAX) then
      let '(rc, lhs) := cast_side lhs (value_type rhs) in
      if OB_FAIL rc then (rc, None) else (SUCCESS, Some (ComparisonExpr (fu_comp_ u) lhs rhs))
    else if (right_to_left_cost <? left_to_right_cost) && negb (right_to_left_cost =? INT32_MAX) then
      let '(rc, rhs) := cast_side rhs (value_type lhs) in
      if OB_FAIL rc then (rc, None) else (SUCCESS, Some (ComparisonExpr (fu_comp_ u) lhs rhs))
    else (UNSUPPORTED, None).

Fixpoint filter_comparisons (us : list FilterUnit) : RC * list Expression :=
  match us with
  | [] => (SUCCESS, [])
  | u :: us =>
      match filter_comparison u with
      | (SUCCESS, Some e) => let '(rc, es) := filter_comparisons us in (rc, e :: es)
      | (rc, _) => (rc, [])
      end
  end.

(** [create_plan] of a [FilterStmt]: a predicate over the conjunction, or nothing
    for no conditions.  The statement is dereferenced. *)
Definition create_filter_plan (filter_stmt : option (list FilterUnit)) : outcome (RC * option LogicalOperator) :=
  us ← deref filter_stmt;
  let '(rc, es) := filter_comparisons us in
  Done (if OB_FAIL rc then (rc, None)
        else (SUCCESS, match es with [] => None | _ => Some (mkLogical PREDICATE [ConjunctionExpr AND es] []) end)).

Definition create_delete_plan (filter_stmt : option (list FilterUnit)) : outcome (RC * option LogicalOperator) :=
  y ← create_filter_plan filter_stmt;
  let '(rc, p) := y : RC * option LogicalOperator in
  Done (if OB_FAIL rc then (rc, None)
        else let table_get_oper := mkLogical TABLE_GET [] [] in
             let delete_oper := mkLogical DELETE [] [] in
             (SUCCESS, Some (match p with
                             | Some predicate_oper => add_child (add_child table_get_oper predicate_oper) delete_oper
                             | None => add_child table_get_oper delete_oper
                             end))).

(** The join tree over the tables of FROM. *)
Fixpoint table_tree (acc : option LogicalOperator) (tables : nat) : option LogicalOperator :=
  match tables with
  | O => acc
  | S n =>
      let get := mkLogical TABLE_GET [] [] in
      table_tree (Some match acc with None => get | Some t => add_child get (add_child t (mkLogical JOIN [] [])) end) n
  end.
(** *** Grouping *)

(** [equal]: of fields and constants only. *)
Definition Expression_equal (e other : Expression) : outcome bool :=
  match e, other with
  | FieldExpr _ _ i _ _, FieldExpr _ _ j _ _ => Done (i =? j)
  | ValueExpr v, ValueExpr w => c ← Value_compare v w; Done (c =? 0)
  | _, _ => Done false
  end.

(** [iterate_child_expr] with a callback that always succeeds: the results for
    the children.  The right side of a unary minus is a null pointer, which
    every callback below follows; a failed [ASSERT] is an undefined step. *)
Definition iterate_child_expr {A} (callback : Expression → outcome A) (e : Expression) : outcome (list A) :=
  match e with
  | CastExpr child _ | AggregateExpr _ child => a ← callback child; Done [a]
  | ComparisonExpr _ lhs rhs | ArithmeticExpr _ lhs (Some rhs) => a ← callback lhs; b ← callback rhs; Done [a; b]
  | ConjunctionExpr _ children =>
      (fix go (l : list Expression) : outcome (list A) :=
         match l with [] => Done [] | c :: l => a ← callback c; x ← go l; Done (a :: x) end) children
  | ArithmeticExpr _ lhs None => _ ← callback lhs; UB
  | StarExpr _ | UnboundFieldExpr _ _ | FieldExpr _ _ _ _ _ | ValueExpr _ => Done []
  | UnboundAggregateExpr _ _ => UB
  end.

(** [collector]: how many aggregates the expression holds. *)
Fixpoint collector (e : Expression) : outcome nat :=
  l ← iterate_child_expr collector e;
  Done (sum_list l + match e with AggregateExpr _ _ => 1 | _ => 0 end)%nat.

(** Whether [bind_group_by_expr] gave the expression a position.  It looks at
    every expression [find_unbound_column] asks about: those none of whose
    ancestors has a position. *)
Fixpoint bound_by (group_by : list Expression) (e : Expression) : outcome bool :=
  match group_by with
  | [] => Done false
  | g :: group_by => b ← Expression_equal e g; x ← bound_by group_by e; Done (b || x)
  end.
Fixpoint find_unbound_column (group_by : list Expression) (e : Expression) : outcome bool :=
  match e with
  | AggregateExpr _ _ => Done false
  | _ =>
      bound ← bound_by group_by e;
      if bound : bool then Done false
      else match e with
           | FieldExpr _ _ _ _ _ => Done true
           | _ => l ← iterate_child_expr (find_unbound_column group_by) e; Done (existsb id l)
           end
  end.

Fixpoint each {A B} (f : A → outcome B) (l : list A) : outcome (list B) :=
  match l with [] => Done [] | a :: l => b ← f a; x ← each f l; Done (b :: x) end.

Definition create_group_by_plan (group_by query_expressions : list Expression) : outcome (RC * option LogicalOperator) :=
  unbound ← each (find_unbound_column group_by) query_expressions;
  aggregates ← each collector query_expressions;
  Done (if bool_decide (group_by = []) && (sum_list aggregates =? 0)%nat then (SUCCESS, None)
        else if existsb id unbound then (INVALID_ARGUMENT, None)
        else (SUCCESS, Some (mkLogical GROUP_BY [] []))).

(** [create_plan] of a [SelectStmt]. *)
Definition create_select_plan (filter_stmt : option (list FilterUnit)) (tables : nat) (group_by query_expressions : list Expression)
    : outcome (RC * option LogicalOperator) :=
  y ← create_filter_plan filter_stmt;
  let '(rc, p) := y : RC * option LogicalOperator in
  if OB_FAIL rc then Done (rc, None)
  else
    let hang o x := match o with Some c => add_child c x | None => x end in
    let table_oper := table_tree None tables in
    let last := match p with Some p => Some (hang table_oper p) | None => table_oper end in
    z ← create_group_by_plan group_by query_expressions;
    let '(rc, g) := z : RC * option LogicalOperator in
    if OB_FAIL rc then Done (rc, None)
    else
      let last := match g with Some g => Some (hang last g) | None => last end in
      Done (SUCCESS, Some (hang last (mkLogical PROJECTION query_expressions []))).

(** [LogicalPlanGenerator::create]. *)
Inductive Stmt :=
  | CalcStmt (expressions : list Expression)
  | SelectStmt (filter_stmt : option (list FilterUnit)) (tables : nat) (group_by query_expressions : list Expression)
  | InsertStmt
  | DeleteStmt (filter_stmt : option (list FilterUnit))
  | ExplainStmt (child : Stmt)
  | OtherStmt.
Fixpoint LogicalPlanGenerator_create (stmt : Stmt) : outcome (RC * option LogicalOperator) :=
  match stmt with
  | CalcStmt expressions => Done (SUCCESS, Some (mkLogical CALC expressions []))
  | SelectStmt filter_stmt tables group_by query_expressions => create_select_plan filter_stmt tables group_by query_expressions
  | InsertStmt => Done (SUCCESS, Some (mkLogical INSERT [] []))
  | DeleteStmt filter_stmt => create_delete_plan filter_stmt
  | ExplainStmt child =>
      y ← LogicalPlanGenerator_create child;
      let '(rc, child_oper) := y : RC * option LogicalOperator in
      if OB_FAIL rc then Done (rc, None) else c ← deref child_oper; Done (rc, Some (add_child c (mkLogical EXPLAIN [] [])))
  | OtherStmt => Done (UNIMPLEMENTED, None)
  end.

(** ** Rules on expressions *)

Abbreviation rewritten A := (outcome (RC * A * bool)) (only parsing).

(** The new code, the expression and whether it changed. *)
Definition ComparisonSimplificationRule_rewrite (e : Expression) (change_made : bool) : rewritten Expression :=
  Done match e with
       | ComparisonExpr _ _ _ =>
           match try_get_value e with
           | (SUCCESS, Some v) => (SUCCESS, ValueExpr v, true)
           | _ => (SUCCESS, e, false)
           end
       | _ => (SUCCESS, e, false)
       end.

Definition try_to_get_bool_constant (e : Expression) : outcome (option bool) :=
  match e with
  | ValueExpr v =>
      if bool_decide (v_attr_type_ v = BOOLEANS) then b ← Value_get_boolean v; Done (Some b) else Done None
  | _ => Done None
  end.

(** The loop over the children: [kept] are those before the iterator.  A
    constant that decides the result ends it with the first child. *)
Fixpoint conj_scan (ty : ConjunctionType) (kept rest : list Expression) : outcome (list Expression + Expression) :=
  match rest with
  | [] => Done (inl kept)
  | c :: rest =>
      constant ← try_to_get_bool_constant c;
      match constant, ty with
      | None, _ => conj_scan ty (kept ++ [c]) rest
      | Some true, AND | Some false, OR => conj_scan ty kept rest
      | Some false, AND | Some true, OR => Done (inr (default c (head kept)))
      end
  end.
Definition ConjunctionSimplificationRule_rewrite (e : Expression) (change_made : bool) : rewritten Expression :=
  match e with
  | ConjunctionExpr ty children =>
      y ← conj_scan ty [] children;
      Done match y with
           | inr child_expr => (SUCCESS, child_expr, false)
           | inl [child_expr] => (SUCCESS, child_expr, true)
           | inl children => (SUCCESS, ConjunctionExpr ty children, false)
           end
  | _ => Done (SUCCESS, e, change_made)
  end.

(** Apply the rules in order; the first that fails ends it, and nobody looks at
    [change_made] after a failure. *)
Fixpoint apply_rules {A} (rules : list (A → bool → rewritten A)) (a : A) (change_made : bool) : rewritten A :=
  match rules with
  | [] => Done (SUCCESS, a, change_made)
  | rule :: rules =>
      y ← rule a false;
      let '(rc, a, sub_change_made) := y : RC * A * bool in
      let change_made := change_made || sub_change_made in
      if OB_FAIL rc then Done (rc, a, change_made) else apply_rules rules a change_made
  end.
(** Rewrite the members of a vector in order. *)
Fixpoint rewrite_list {A} (f : A → rewritten A) (l : list A) (change_made : bool) : outcome (RC * list A * bool) :=
  match l with
  | [] => Done (SUCCESS, [], change_made)
  | a :: l =>
      y ← f a;
      let '(rc, a, sub_change_made) := y : RC * A * bool in
      let change_made := change_made || sub_change_made in
      if OB_FAIL rc then Done (rc, a :: l, change_made)
      else z ← rewrite_list f l change_made;
           let '(rc, l, change_made) := z : RC * list A * bool in Done (rc, a :: l, change_made)
  end.

Definition expr_rewrite_rules_ := [ComparisonSimplificationRule_rewrite; ConjunctionSimplificationRule_rewrite].

(** The recursion goes to sub-expressions: [fuel] bounds its depth. *)
Fixpoint rewrite_expression (fuel : nat) (e : Expression) : rewritten Expression :=
  match fuel with
  | O => OutOfFuel
  | S fuel =>
      y ← apply_rules expr_rewrite_rules_ e false;
      let '(rc, e, change_made) := y : RC * Expression * bool in
      if change_made || OB_FAIL rc then Done (rc, e, change_made)
      else
        match e with
        | CastExpr child t =>
            y ← rewrite_expression fuel child;
            let '(rc, child, change_made) := y : RC * Expression * bool in Done (rc, CastExpr child t, change_made)
        | ComparisonExpr comp lhs rhs =>
            y ← rewrite_expression fuel lhs;
            let '(rc, lhs, left_change_made) := y : RC * Expression * bool in
            if OB_FAIL rc then Done (rc, ComparisonExpr comp lhs rhs, false)
            else
              z ← rewrite_expression fuel rhs;
              let '(rc, rhs, right_change_made) := z : RC * Expression * bool in
              if OB_FAIL rc then Done (rc, ComparisonExpr comp lhs rhs, false)
              else Done (rc, ComparisonExpr comp lhs rhs, left_change_made || right_change_made)
        | ConjunctionExpr ty children =>
            y ← rewrite_list (rewrite_expression fuel) children false;
            let '(rc, children, change_made) := y : RC * list Expression * bool in
            Done (rc, ConjunctionExpr ty children, change_made)
        | _ => Done (rc, e, change_made)
        end
  end.

(** Number of nodes. *)
Fixpoint esize (e : Expression) : nat :=
  match e with
  | UnboundAggregateExpr _ c | CastExpr c _ | AggregateExpr _ c => S (esize c)
  | ComparisonExpr _ l r => S (esize l + esize r)
  | ConjunctionExpr _ cs => S (sum_list_with esize cs)
  | ArithmeticExpr _ l r => S (esize l + match r with Some r => esize r | None => 0 end)
  | _ => 1
  end.

(** ** Rules on plans *)

(** [ExpressionRewriter::rewrite]: every expression of the tree. *)
Fixpoint ExpressionRewriter_rewrite (o : LogicalOperator) (change_made : bool) : rewritten LogicalOperator :=
  let '(mkLogical t es cs) := o in
  y ← rewrite_list (λ e, rewrite_expression (esize e) e) es change_made;
  let '(rc, es, change_made) := y : RC * list Expression * bool in
  if OB_FAIL rc then Done (rc, mkLogical t es cs, change_made)
  else
    z ← (fix go (l : list LogicalOperator) (change_made : bool) : outcome (RC * list LogicalOperator * bool) :=
           match l with
           | [] => Done (SUCCESS, [], change_made)
           | c :: l =>
               y ← ExpressionRewriter_rewrite c false;
               let '(rc, c, sub_change_made) := y : RC * LogicalOperator * bool in
               let change_made := change_made || sub_change_made in
               if OB_FAIL rc then Done (rc, c :: l, change_made)
               else z ← go l change_made;
                    let '(rc, l, change_made) := z : RC * list LogicalOperator * bool in Done (rc, c :: l, change_made)
           end) cs change_made;
    let '(rc, cs, change_made) := z : RC * list LogicalOperator * bool in Done (rc, mkLogical t es cs, change_made).

Definition PredicateRewriteRule_rewrite (o : LogicalOperator) (change_made : bool) : rewritten LogicalOperator :=
  match o with
  | mkLogical t es [mkLogical PREDICATE [ValueExpr v] grand_child_opers] =>
      bool_value ← Value_get_boolean v;
      Done (SUCCESS, mkLogical t es (if bool_value : bool then grand_child_opers else []), true)
  | _ => Done (SUCCESS, o, change_made)
  end.

(** The code, what is left of the expression and the expressions pushed down. *)
Fixpoint get_exprs_can_pushdown (e : Expression) (pushdown_exprs : list Expression) : RC * option Expression * list Expression :=
  match e with
  | ConjunctionExpr OR _ => (UNIMPLEMENTED, Some e, pushdown_exprs)
  | ConjunctionExpr AND child_exprs =>
      let '(rc, children, pushdown_exprs) :=
        (fix go (kept rest pushdown_exprs : list Expression) : RC * list Expression * list Expression :=
           match rest with
           | [] => (SUCCESS, kept, pushdown_exprs)
           | c :: rest =>
               let '(rc, c', pushdown_exprs) := get_exprs_can_pushdown c pushdown_exprs in
               if OB_FAIL rc then (rc, kept ++ option_list c' ++ rest, pushdown_exprs)
               else match c' with
                    | None => go kept rest pushdown_exprs
                    | Some c' => go (kept ++ [c']) rest pushdown_exprs
                    end
           end) [] child_exprs pushdown_exprs in
      (rc, Some (ConjunctionExpr AND children), pushdown_exprs)
  | ComparisonExpr _ _ _ => (SUCCESS, None, pushdown_exprs ++ [e])
  | _ => (SUCCESS, Some e, pushdown_exprs)
  end.
Definition is_empty_predicate (e : option Expression) : bool :=
  match e with None | Some (ConjunctionExpr _ []) => true | _ => false end.

Definition TRUE_EXPR : Expression := ValueExpr (mkValue BOOLEANS 1 (bool_value_ true) false).
Definition PredicatePushdownRewriter_rewrite (o : LogicalOperator) (change_made : bool) : rewritten LogicalOperator :=
  match o with
  | mkLogical PREDICATE [predicate_expr] [child_oper] =>
      if negb (bool_decide (op_type child_oper = TABLE_GET)) then Done (SUCCESS, o, change_made)
      else
        let '(rc, predicate_expr, pushdown_exprs) := get_exprs_can_pushdown predicate_expr [] in
        if OB_FAIL rc then Done (rc, mkLogical PREDICATE (option_list predicate_expr) [child_oper], change_made)
        else
          let predicate_expr :=
            if is_empty_predicate predicate_expr then TRUE_EXPR else default TRUE_EXPR predicate_expr in
          Done (SUCCESS, mkLogical PREDICATE [predicate_expr] [child_oper],
                match pushdown_exprs with [] => change_made | _ => true end)
  | _ => Done (SUCCESS, o, change_made)
  end.

Definition rewrite_rules_ := [ExpressionRewriter_rewrite; PredicateRewriteRule_rewrite; PredicatePushdownRewriter_rewrite].

(** [Rewriter::rewrite]: the node, then its children; [fuel] bounds the depth. *)
Fixpoint Rewriter_rewrite (fuel : nat) (o : LogicalOperator) : rewritten LogicalOperator :=
  match fuel with
  | O => OutOfFuel
  | S fuel =>
      y ← apply_rules rewrite_rules_ o false;
      let '(rc, o, change_made) := y : RC * LogicalOperator * bool in
      if OB_FAIL rc then Done (rc, o, change_made)
      else
        z ← rewrite_list (Rewriter_rewrite fuel) (op_children o) change_made;
        let '(rc, cs, change_made) := z : RC * list LogicalOperator * bool in
        Done (rc, mkLogical (op_type o) (op_expressions o) cs, change_made)
  end.

Fixpoint psize (o : LogicalOperator) : nat :=
  let '(mkLogical _ es cs) := o in S (sum_list_with esize es + sum_list_with psize cs).

(** [OptimizeStage::rewrite]: again while something changed. *)
Definition optimize_body (o : LogicalOperator) : outcome (LogicalOperator + RC * LogicalOperator) :=
  y ← Rewriter_rewrite (psize o) o;
  let '(rc, o, change_made) := y : RC * LogicalOperator * bool in
  Done (if OB_FAIL rc then inr (rc, o) else if change_made : bool then inl o else inr (rc, o)).
Definition OptimizeStage_rewrite (fuel : nat) (o : LogicalOperator) : outcome (RC * LogicalOperator) :=
  loop optimize_body fuel o.

(** ** Well-formed plans

    [wf true e]: a condition, of boolean type; [wf false e]: any expression
    with proper constants. *)
Inductive wf (b : bool) : Expression → Prop :=
  | wf_value v : value_ok v → (b = true → v_attr_type_ v = BOOLEANS) → wf b (ValueExpr v)
  | wf_cast c t : wf false c → (b = true → t = BOOLEANS) → wf b (CastExpr c t)
  | wf_cmp op l r : wf false l → wf false r → wf b (ComparisonExpr op l r)
  | wf_conj ty cs : Forall (wf b) cs → wf b (ConjunctionExpr ty cs)
  | wf_other e : expr_type e ∉ [VALUE; CAST; COMPARISON; CONJUNCTION] → (b = true → value_type e = BOOLEANS) → wf b e.

Lemma wf_boolean e : wf true e → value_type e = BOOLEANS.
Proof. inversion 1; cbn; auto. Qed.

Inductive wf_plan : LogicalOperator → Prop :=
  | wf_predicate e cs : wf true e → Forall wf_plan cs → wf_plan (mkLogical PREDICATE [e] cs)
  | wf_node t es cs : t ≠ PREDICATE → Forall (wf false) es → Forall wf_plan cs → wf_plan (mkLogical t es cs).

(** The weaker form a condition has elsewhere. *)
Lemma get_boolean_ok v : value_ok v → ∃ b, Value_get_boolean v = Done b.
Proof.
  unfold value_ok, Value_get_boolean. destruct (v_attr_type_ v); try done; [eauto|..].
  - intros [(p & -> & _)|[-> _]]; [|eauto]. destruct (cstr_opt_some p) as (s & -> & _). eauto.
  - intros (_ & z & -> & _). cbn. eauto.
  - intros (_ & f & ->). cbn. eauto.
  - intros (_ & b & ->). cbn. eauto.
Qed.

Lemma bool_constant_ok b e : wf b e → ∃ c, try_to_get_bool_constant e = Done c.
Proof.
  inversion 1 as [v Hv _|?|?|?|e' He _]; subst; cbn; try (by eauto).
  - case_bool_decide; [|eauto]. destruct (get_boolean_ok v Hv) as [x ->]. cbn. eauto.
  - destruct e; eauto. cbn in He. set_solver.
Qed.

Lemma esize_pos e : (0 < esize e)%nat.
Proof. destruct e; cbn; lia. Qed.

Lemma OB_FAIL_false rc : OB_FAIL rc = false ↔ rc = SUCCESS.
Proof. unfold OB_FAIL. case_bool_decide; naive_solver. Qed.
Lemma OB_FAIL_true rc : OB_FAIL rc = true ↔ rc ≠ SUCCESS.
Proof. unfold OB_FAIL. by rewrite bool_decide_eq_true. Qed.

(** ** Nothing grows, and every change shrinks

    [shrinks Q sz E n c r]: the step [r] returns; if it succeeds the result
    satisfies [Q], is at most [n] large, and smaller when the flag was raised;
    if it fails the code satisfies [E]. *)
Section Shrink.
Context {A : Type} (Q : A → Prop) (sz : A → nat) (E : RC → Prop).

Definition shrinks (n : nat) (c0 : bool) (r : rewritten A) : Prop :=
  ∃ rc a c, r = Done (rc, a, c)
    ∧ (rc = SUCCESS ∧ Q a ∧ (sz a ≤ n)%nat ∧ (c = true → c0 = true ∨ (sz a < n)%nat) ∨ rc ≠ SUCCESS ∧ E rc).

Lemma apply_rules_shrinks rules a c0 :
  Forall (λ rule, ∀ a, Q a → shrinks (sz a) false (rule a false)) rules → Q a → shrinks (sz a) c0 (apply_rules rules a c0).
Proof.
  intros Hr. revert a c0. induction Hr as [|rule rules Hrule _ IH]; intros a c0 Ha; cbn.
  { exists SUCCESS, a, c0. split; [done|]. left. eauto 10. }
  destruct (Hrule a Ha) as (rc & a' & c & -> & [(-> & Ha' & Hs & Hc)|[Hrc HE]]); cbn.
  - destruct (IH a' (c0 || c) Ha') as (rc2 & a2 & c2 & -> & H2). exists rc2, a2, c2. split; [done|].
    destruct H2 as [(-> & Ha2 & Hs2 & Hc2)|H2]; [left|by right]. split_and!; [done|done|lia|].
    intros Ht. destruct (Hc2 Ht) as [[-> | ->]%orb_true_iff|]; [by left|right|right; lia].
    destruct (Hc eq_refl); [done|lia].
  - rewrite (proj2 (OB_FAIL_true rc) Hrc). eexists _, _, _. split; [done|]. by right.
Qed.

Lemma rewrite_list_shrinks f l c0 :
  (∀ a, a ∈ l → Q a → shrinks (sz a) false (f a)) → Forall Q l →
  ∃ rc l' c, rewrite_list f l c0 = Done (rc, l', c)
    ∧ (rc = SUCCESS ∧ Forall Q l' ∧ length l' = length l ∧ (sum_list_with sz l' ≤ sum_list_with sz l)%nat
       ∧ (c = true → c0 = true ∨ (sum_list_with sz l' < sum_list_with sz l)%nat) ∨ rc ≠ SUCCESS ∧ E rc).
Proof.
  intros Hf Hl. revert c0. induction Hl as [|a l Ha Hl IH]; intros c0; cbn [rewrite_list].
  { exists SUCCESS, [], c0. split; [done|]. left. split_and!; auto. }
  destruct (Hf a) as (rc & a' & c & -> & [(-> & Ha' & Hs & Hc)|[Hrc HE]]); [set_solver|done|..]; cbn.
  - destruct (IH ltac:(set_solver) (c0 || c)) as (rc2 & l2 & c2 & -> & H2). cbn. eexists _, _, _. split; [done|].
    destruct H2 as [(-> & Ha2 & Hlen & Hs2 & Hc2)|H2]; [left|by right]. cbn. split_and!; [done|by constructor|lia|lia|].
    intros Ht. destruct (Hc2 Ht) as [[-> | ->]%orb_true_iff|]; [by left|right|right; lia].
    destruct (Hc eq_refl); [done|lia].
  - rewrite (proj2 (OB_FAIL_true rc) Hrc). eexists _, _, _. split; [done|]. by right.
Qed.
End Shrink.

Abbreviation expr_shrinks b := (shrinks (wf b) esize (λ _, False)) (only parsing).

(** *** Expressions *)

Lemma conj_scan_ok b ty kept rest : Forall (wf b) kept → Forall (wf b) rest →
  ∃ y, conj_scan ty kept rest = Done y
    ∧ match y with
      | inl l => Forall (wf b) l ∧ (sum_list_with esize l ≤ sum_list_with esize kept + sum_list_with esize rest)%nat
      | inr e => wf b e ∧ (esize e ≤ sum_list_with esize kept + sum_list_with esize rest)%nat
      end.
Proof.
  intros Hk Hr. revert kept Hk. induction Hr as [|c rest Hc Hr IH]; intros kept Hk; cbn [conj_scan].
  { exists (inl kept). split; [done|]. cbn. split; [done|lia]. }
  destruct (bool_constant_ok b c Hc) as [k ->]. cbn [mbind outcome_bind sum_list_with].
  assert (∃ y, Done (A:=list Expression + Expression) (inr (default c (head kept))) = Done y ∧ match y with
      | inl l => Forall (wf b) l ∧ (sum_list_with esize l ≤ sum_list_with esize kept + (esize c + sum_list_with esize rest))%nat
      | inr e => wf b e ∧ (esize e ≤ sum_list_with esize kept + (esize c + sum_list_with esize rest))%nat
      end) as Hend.
  { eexists; split; [done|]. destruct Hk as [|k0 kept Hk0 _]; cbn; [split; [done|lia]|split; [done|lia]]. }
  assert (∃ y, conj_scan ty kept rest = Done y ∧ match y with
      | inl l => Forall (wf b) l ∧ (sum_list_with esize l ≤ sum_list_with esize kept + (esize c + sum_list_with esize rest))%nat
      | inr e => wf b e ∧ (esize e ≤ sum_list_with esize kept + (esize c + sum_list_with esize rest))%nat
      end) as Hskip.
  { destruct (IH kept Hk) as (y & -> & Hy). exists y. split; [done|]. destruct y; destruct Hy; split; [done|lia|done|lia]. }
  destruct k as [[]|]; destruct ty; try assumption;
    (destruct (IH (kept ++ [c])) as (y & -> & Hy); [by apply Forall_app; split; [|constructor]|]; exists y; split; [done|];
     rewrite sum_list_with_app in Hy; cbn in Hy; destruct y; destruct Hy; split; [done|lia|done|lia]).
Qed.

Lemma conjunction_rule_shrinks b e : wf b e → expr_shrinks b (esize e) false (ConjunctionSimplificationRule_rewrite e false).
Proof.
  intros He. unfold ConjunctionSimplificationRule_rewrite, shrinks.
  destruct e as [| | | | | | |ty cs| |]; try (eexists _, _, _; split; [done|]; left; split_and!; [done..|lia|done]).
  inversion He as [| | |? ? Hcs|? Hx]; subst; [|cbn in Hx; set_solver].
  destruct (conj_scan_ok b ty [] cs) as (y & -> & Hy); [done..|]. cbn [mbind outcome_bind sum_list_with] in *.
  destruct y as [l|e].
  - destruct Hy as [Hl Hs]. destruct l as [|c [|d l]]; eexists _, _, _; (split; [reflexivity|]); left; cbn in *.
    + split_and!; [done|by constructor|lia|done].
    + split_and!; [done|by inversion Hl|lia|intros _; right; lia].
    + split_and!; [done|by constructor|lia|done].
  - destruct Hy. eexists _, _, _; (split; [reflexivity|]); left; cbn in *. split_and!; [done|done|lia|done].
Qed.

Lemma comparison_rule_shrinks b e : wf b e → expr_shrinks b (esize e) false (ComparisonSimplificationRule_rewrite e false).
Proof.
  intros He. unfold ComparisonSimplificationRule_rewrite, shrinks.
  destruct e; eexists _, _, _; (split; [reflexivity|]); left; by split_and!; [..|lia|].
Qed.

Lemma expr_rules_shrink b e : wf b e → expr_shrinks b (esize e) false (apply_rules expr_rewrite_rules_ e false).
Proof.
  intros He. apply apply_rules_shrinks; [|done]. repeat constructor; intros a Ha.
  - by apply comparison_rule_shrinks.
  - by apply conjunction_rule_shrinks.
Qed.

Lemma rewrite_expression_shrinks b fuel e : wf b e → (esize e ≤ fuel)%nat →
  expr_shrinks b (esize e) false (rewrite_expression fuel e).
Proof.
  revert b e. induction fuel as [|fuel IH]; intros b e He Hf; [pose proof (esize_pos e); lia|]. cbn [rewrite_expression].
  destruct (expr_rules_shrink b e He) as (rc & e' & c & -> & [(-> & He' & Hs & Hc)|[_ []]]). cbn [mbind outcome_bind].
  change (OB_FAIL SUCCESS) with false. rewrite orb_false_r.
  destruct c; [exists SUCCESS, e', true; split; [done|]; left; split_and!; [done|done|lia|]; intros _; destruct (Hc eq_refl); [done|by right]|].
  destruct e' as [| | | | |child t|op l r|ty cs| |];
    try (eexists _, _, _; split; [reflexivity|]; left; split_and!; [done|done|lia|done]).
  - inversion He' as [|? ? Hw Ht| | |? Hx]; subst; [|cbn in Hx; set_solver]. cbn [esize] in *.
    destruct (IH false child Hw) as (rc & e1 & c1 & -> & [(-> & He1 & Hs1 & Hc1)|[_ []]]); [lia|]. cbn.
    eexists _, _, _; split; [reflexivity|]; left. cbn. split_and!; [done|by constructor|lia|].
    intros ->. destruct (Hc1 eq_refl); [done|right; lia].
  - inversion He' as [| |? ? ? Hl Hr| |? Hx]; subst; [|cbn in Hx; set_solver]. cbn [esize] in *.
    destruct (IH false l Hl) as (rc & e1 & c1 & -> & [(-> & He1 & Hs1 & Hc1)|[_ []]]); [lia|]. cbn.
    destruct (IH false r Hr) as (rc & e2 & c2 & -> & [(-> & He2 & Hs2 & Hc2)|[_ []]]); [lia|]. cbn.
    eexists _, _, _; split; [reflexivity|]; left. cbn. split_and!; [done|by constructor|lia|].
    intros [-> | ->]%orb_true_iff; [destruct (Hc1 eq_refl)|destruct (Hc2 eq_refl)]; [done|right; lia|done|right; lia].
  - inversion He' as [| | |? ? Hcs|? Hx]; subst; [|cbn in Hx; set_solver]. cbn [esize] in *.
    destruct (rewrite_list_shrinks (wf b) esize (λ _, False) (rewrite_expression fuel) cs false)
      as (rc & l & c1 & -> & [(-> & Hl & _ & Hs1 & Hc1)|[_ []]]); [|done|].
    { intros a Ha Hwa. apply IH; [done|]. pose proof (sum_list_with_in a esize cs Ha). lia. }
    cbn. eexists _, _, _; split; [reflexivity|]; left. cbn. split_and!; [done|by constructor|lia|].
    intros Ht. destruct (Hc1 Ht); [done|right; lia].
Qed.

(** *** Plans *)

Abbreviation plan_shrinks := (shrinks wf_plan psize (λ rc, rc = UNIMPLEMENTED)) (only parsing).

Lemma LogicalOperator_nested_ind (P : LogicalOperator → Prop) :
  (∀ t es cs, Forall P cs → P (mkLogical t es cs)) → ∀ o, P o.
Proof.
  intros H. fix IH 1. intros [t es cs]. apply H. induction cs as [|c cs IHcs]; constructor; [apply IH|exact IHcs].
Qed.

Lemma ExpressionRewriter_rewrite_eq t es cs cm : ExpressionRewriter_rewrite (mkLogical t es cs) cm =
  (y ← rewrite_list (λ e, rewrite_expression (esize e) e) es cm;
   let '(rc, es, cm) := y : RC * list Expression * bool in
   if OB_FAIL rc then Done (rc, mkLogical t es cs, cm)
   else z ← rewrite_list (λ c, ExpressionRewriter_rewrite c false) cs cm;
        let '(rc, cs, cm) := z : RC * list LogicalOperator * bool in Done (rc, mkLogical t es cs, cm)).
Proof.
  cbn [ExpressionRewriter_rewrite]. destruct (rewrite_list _ es cm) as [[[rc es'] cm']| | |]; [|done..]. cbn [mbind outcome_bind].
  destruct (OB_FAIL rc); [done|]. f_equal. clear. revert cm'. induction cs as [|c cs IH]; intros cm'; cbn [rewrite_list]; [done|].
  destruct (ExpressionRewriter_rewrite c false) as [[[rc c'] cm]| | |]; [|done..]. cbn [mbind outcome_bind].
  destruct (OB_FAIL rc); [done|]. by rewrite IH.
Qed.

Lemma rewrite_exprs_shrink b es cm : Forall (wf b) es →
  ∃ l c, rewrite_list (λ e, rewrite_expression (esize e) e) es cm = Done (SUCCESS, l, c) ∧ Forall (wf b) l ∧ length l = length es
    ∧ (sum_list_with esize l ≤ sum_list_with esize es)%nat ∧ (c = true → cm = true ∨ (sum_list_with esize l < sum_list_with esize es)%nat).
Proof.
  intros H. destruct (rewrite_list_shrinks (wf b) esize (λ _, False) (λ e, rewrite_expression (esize e) e) es cm)
    as (rc & l & c & -> & [(-> & Hr)|[_ []]]); [|done|eauto].
  intros a _ Ha. by apply rewrite_expression_shrinks.
Qed.

Lemma wf_plan_children o : wf_plan o → Forall wf_plan (op_children o).
Proof. by inversion 1. Qed.

(** Replacing the expressions of a node by as many well-formed ones. *)
Lemma wf_plan_cases t es cs : wf_plan (mkLogical t es cs) → Forall wf_plan cs ∧ ∃ b, Forall (wf b) es ∧
  ∀ es' cs', Forall (wf b) es' → length es' = length es → Forall wf_plan cs' → wf_plan (mkLogical t es' cs').
Proof.
  inversion 1 as [e ? He Hcs|? ? ? Ht Hes Hcs]; subst; (split; [done|]).
  - exists true. split; [by constructor|]. intros es' cs' H' Hl Hc. destruct es' as [|e' [|]]; try done.
    inversion H'; subst. by constructor.
  - exists false. split; [done|]. intros. by constructor.
Qed.

Lemma expression_rewriter_shrinks o : wf_plan o → plan_shrinks (psize o) false (ExpressionRewriter_rewrite o false).
Proof.
  induction o as [t es cs IH] using LogicalOperator_nested_ind. intros Ho. rewrite ExpressionRewriter_rewrite_eq.
  destruct (wf_plan_cases _ _ _ Ho) as (Hcs & b & Hes & Hmk).
  destruct (rewrite_exprs_shrink b es false Hes) as (es' & c & -> & Hes' & Hlen & Hs & Hc). cbn.
  destruct (rewrite_list_shrinks wf_plan psize (λ rc, rc = UNIMPLEMENTED) (λ o, ExpressionRewriter_rewrite o false) cs c)
    as (rc & cs' & c' & -> & Hr); [|done|].
  { intros a Ha. rewrite Forall_forall in IH. by apply IH. }
  cbn. eexists _, _, _. split; [done|]. destruct Hr as [(-> & Hcs' & _ & Hs' & Hc')|?]; [left|by right]. cbn.
  split_and!; [done|by apply Hmk|lia|]. intros Ht. destruct (Hc' Ht) as [Hct|]; [|right; lia].
  destruct (Hc Hct); [done|right; lia].
Qed.

Lemma predicate_rule_shrinks o : wf_plan o → plan_shrinks (psize o) false (PredicateRewriteRule_rewrite o false).
Proof.
  intros Ho. unfold PredicateRewriteRule_rewrite, shrinks.
  repeat case_match; subst; try (eexists _, _, _; split; [reflexivity|]; left; split_and!; [done|done|lia|done]).
  destruct (wf_plan_cases _ _ _ Ho) as (Hcs & b & Hes & Hmk). inversion Hcs as [|? ? Hc _]; subst.
  inversion Hc as [? ? Hv Hg|]; subst; [|done]. inversion Hv as [? Hok _| | | |? Hx]; subst; [|cbn in Hx; set_solver].
  destruct (get_boolean_ok _ Hok) as [x ->]. cbn. eexists _, _, _; split; [reflexivity|]; left.
  split_and!; [done| | |intros _; right]; destruct x; cbn; try lia; by apply Hmk.
Qed.

(** The children of a conjunction in order, those that stay in [kept]. *)
Fixpoint push_children (kept rest pushed : list Expression) : RC * list Expression * list Expression :=
  match rest with
  | [] => (SUCCESS, kept, pushed)
  | c :: rest =>
      let '(rc, c', pushed) := get_exprs_can_pushdown c pushed in
      if OB_FAIL rc then (rc, kept ++ option_list c' ++ rest, pushed)
      else match c' with None => push_children kept rest pushed | Some c' => push_children (kept ++ [c']) rest pushed end
  end.

Lemma pushdown_and cs pushed : get_exprs_can_pushdown (ConjunctionExpr AND cs) pushed =
  let '(rc, children, pushed) := push_children [] cs pushed in (rc, Some (ConjunctionExpr AND children), pushed).
Proof. done. Qed.

Lemma Expression_conj_ind (P : Expression → Prop) :
  (∀ e, expr_type e ≠ CONJUNCTION → P e) → (∀ ty cs, Forall P cs → P (ConjunctionExpr ty cs)) → ∀ e, P e.
Proof.
  intros H1 H2. fix IH 1. intros e. destruct e; try (by apply H1). apply H2.
  induction children as [|c cs IHcs]; constructor; [apply IH|exact IHcs].
Qed.

Definition osize (e : option Expression) : nat := match e with Some e => esize e | None => 0 end.

(** What is left and what is pushed together are no larger than before. *)
Definition push_ok (n : nat) (pushed : list Expression) (r : RC * option Expression * list Expression) : Prop :=
  let '(rc, e, pushed') := r in
  (rc = UNIMPLEMENTED) ∨
  rc = SUCCESS ∧ (∀ x, e = Some x → wf true x) ∧ (osize e + 2 * length pushed' ≤ n + 2 * length pushed)%nat
  ∧ (length pushed ≤ length pushed')%nat.

Lemma push_children_ok cs : Forall (λ e, ∀ pushed, wf true e → push_ok (esize e) pushed (get_exprs_can_pushdown e pushed)) cs →
  ∀ kept pushed, Forall (wf true) kept → Forall (wf true) cs →
  let '(rc, l, pushed') := push_children kept cs pushed in
  (rc = UNIMPLEMENTED) ∨
  rc = SUCCESS ∧ Forall (wf true) l
  ∧ (sum_list_with esize l + 2 * length pushed' ≤ sum_list_with esize kept + sum_list_with esize cs + 2 * length pushed)%nat
  ∧ (length pushed ≤ length pushed')%nat.
Proof.
  induction 1 as [|c cs Hc _ IH]; intros kept pushed Hk Hcs; cbn [push_children].
  { right. split_and!; [done|done|cbn; lia|lia]. }
  inversion Hcs as [|? ? Hwc Hwcs]; subst. specialize (Hc pushed Hwc).
  destruct (get_exprs_can_pushdown c pushed) as [[rc c'] p]. destruct Hc as [->|(-> & Hx & Hs & Hp)]; [by left|].
  change (OB_FAIL SUCCESS) with false. cbv iota. destruct c' as [x|]; cbn [osize sum_list_with] in *.
  - specialize (IH (kept ++ [x]) p). destruct (push_children (kept ++ [x]) cs p) as [[rc l] p'].
    destruct IH as [->|(-> & Hl & Hs' & Hp')]; [by apply Forall_app; split; [|constructor; [apply Hx|]]|done|by left|].
    right. rewrite sum_list_with_app in Hs'. cbn in Hs'. split_and!; [done|done|lia|lia].
  - specialize (IH kept p). destruct (push_children kept cs p) as [[rc l] p'].
    destruct IH as [->|(-> & Hl & Hs' & Hp')]; [done|done|by left|]. right. split_and!; [done|done|lia|lia].
Qed.

Lemma pushdown_ok e pushed : wf true e → push_ok (esize e) pushed (get_exprs_can_pushdown e pushed).
Proof.
  revert pushed. induction e as [e Hne|ty cs IH] using Expression_conj_ind; intros pushed He.
  - destruct e; try (by cbn in Hne); try (right; cbn in *; split_and!; [done|naive_solver|lia|lia]).
    right. pose proof (esize_pos e1). pose proof (esize_pos e2). cbn. rewrite length_app. cbn. split_and!; [done|done|lia|lia].
  - destruct ty; [|by left]. rewrite pushdown_and. inversion He as [| | |? ? Hcs|? Hx]; subst; [|cbn in Hx; set_solver].
    pose proof (push_children_ok cs IH [] pushed ltac:(done) Hcs) as H.
    destruct (push_children [] cs pushed) as [[rc l] p]. destruct H as [->|(-> & Hl & Hs & Hp)]; [by left|right].
    cbn in *. split_and!; [done|intros x [= <-]; by constructor|lia|lia].
Qed.

Lemma TRUE_EXPR_wf : wf true TRUE_EXPR.
Proof. constructor; [|done]. split; [done|by eexists]. Qed.

Lemma pushdown_rule_shrinks o : wf_plan o → plan_shrinks (psize o) false (PredicatePushdownRewriter_rewrite o false).
Proof.
  intros Ho. unfold PredicatePushdownRewriter_rewrite, shrinks. destruct o as [t es cs].
  destruct t; try (eexists _, _, _; split; [reflexivity|]; left; split_and!; [done|done|lia|done]).
  inversion Ho as [e ? He Hcs|]; subst; [|done].
  destruct cs as [|c [|d cs]]; try (eexists _, _, _; split; [reflexivity|]; left; split_and!; [done|done|lia|done]).
  destruct (negb _); [eexists _, _, _; split; [reflexivity|]; left; split_and!; [done|done|lia|done]|].
  pose proof (pushdown_ok e [] He) as Hp. destruct (get_exprs_can_pushdown e []) as [[rc e'] pushed].
  destruct Hp as [->|(-> & Hx & Hs & _)]; [eexists _, _, _; split; [reflexivity|]; by right|].
  cbn [length] in Hs. change (OB_FAIL SUCCESS) with false. cbv iota.
  set (e2 := if is_empty_predicate e' then TRUE_EXPR else default TRUE_EXPR e').
  assert (wf true e2 ∧ (esize e2 ≤ esize e)%nat ∧ (pushed ≠ [] → esize e2 < esize e)%nat) as (Hw & Hle & Hlt).
  { pose proof (esize_pos e). unfold e2. destruct (is_empty_predicate e') eqn:Em.
    - split_and!; [apply TRUE_EXPR_wf|cbn; lia|]. intros Hne. destruct pushed; [done|]. cbn in *. lia.
    - destruct e' as [x|]; [|done]. cbn in *. split_and!; [by apply Hx|lia|]. intros Hne. destruct pushed; [done|]. cbn in *. lia. }
  eexists _, _, _; split; [reflexivity|]; left. cbn. split_and!; [done|by constructor|lia|].
  intros Ht. right. destruct pushed; [done|]. specialize (Hlt ltac:(done)). lia.
Qed.

Lemma plan_rules_shrink o : wf_plan o → plan_shrinks (psize o) false (apply_rules rewrite_rules_ o false).
Proof.
  intros Ho. apply apply_rules_shrinks; [|done]. repeat constructor; intros a Ha.
  - by apply expression_rewriter_shrinks.
  - by apply predicate_rule_shrinks.
  - by apply pushdown_rule_shrinks.
Qed.

Lemma psize_children o : psize o = S (sum_list_with esize (op_expressions o) + sum_list_with psize (op_children o)).
Proof. by destruct o. Qed.

Lemma rewriter_shrinks fuel o : wf_plan o → (psize o ≤ fuel)%nat → plan_shrinks (psize o) false (Rewriter_rewrite fuel o).
Proof.
  revert o. induction fuel as [|fuel IH]; intros o Ho Hf; [rewrite psize_children in Hf; lia|]. cbn [Rewriter_rewrite].
  destruct (plan_rules_shrink o Ho) as (rc & o' & c & -> & [(-> & Ho' & Hs & Hc)|[Hrc HE]]); cbn [mbind outcome_bind].
  2: { rewrite (proj2 (OB_FAIL_true rc) Hrc). eexists _, _, _; split; [done|]. by right. }
  change (OB_FAIL SUCCESS) with false. cbv iota. destruct o' as [t es cs]. cbn [op_children op_type op_expressions psize] in *.
  destruct (wf_plan_cases _ _ _ Ho') as (Hcs & b & Hes & Hmk).
  destruct (rewrite_list_shrinks wf_plan psize (λ rc, rc = UNIMPLEMENTED) (Rewriter_rewrite fuel) cs c)
    as (rc & l & c1 & -> & Hr); [|done|].
  { intros a Ha Hwa. apply IH; [done|]. pose proof (sum_list_with_in a psize cs Ha). lia. }
  cbn. eexists _, _, _; split; [reflexivity|]. destruct Hr as [(-> & Hl & Hlen & Hs1 & Hc1)|?]; [left|by right]. cbn.
  split_and!; [done|by apply Hmk|lia|]. intros Ht. destruct (Hc1 Ht) as [Hct|]; [|right; lia].
  destruct (Hc Hct); [done|right; lia].
Qed.

Lemma optimize_shrinks o fuel : wf_plan o → (psize o < fuel)%nat →
  ∃ rc o', OptimizeStage_rewrite fuel o = Done (rc, o')
    ∧ (rc = SUCCESS ∧ wf_plan o' ∧ (psize o' ≤ psize o)%nat ∨ rc = UNIMPLEMENTED).
Proof.
  unfold OptimizeStage_rewrite. revert o. induction fuel as [|fuel IH]; intros o Ho Hf; [lia|]. rewrite loop_step.
  unfold optimize_body at 2. destruct (rewriter_shrinks (psize o) o Ho ltac:(lia)) as (rc & o' & c & -> & H).
  cbn [mbind outcome_bind]. destruct H as [(-> & Ho' & Hs & Hc)|[Hrc ->]]; [|eexists _, _; split; [done|]; by right].
  change (OB_FAIL SUCCESS) with false. cbv iota. destruct c; [|eexists _, _; split; [done|]; left; by split_and!].
  destruct (Hc eq_refl) as [|Hlt]; [done|]. destruct (IH o' Ho' ltac:(lia)) as (rc' & o2 & -> & H).
  eexists _, _; split; [done|]. destruct H as [(-> & Hw & Hle)| ->]; [left; split_and!; [done|done|lia]|by right].
Qed.

(** C24: the fixed-point loop of the optimizer returns for every well-formed
    plan: each round that reports a change makes the plan smaller, so as many
    rounds as the plan has nodes, and one more, are enough; the result is a
    plan, or [UNIMPLEMENTED]. *)
Theorem plan_rewrite_terminates o fuel : wf_plan o → (psize o < fuel)%nat →
  ∃ rc o', OptimizeStage_rewrite fuel o = Done (rc, o')
    ∧ (rc = SUCCESS ∧ wf_plan o' ∧ (psize o' ≤ psize o)%nat ∨ rc = UNIMPLEMENTED).
Proof. apply optimize_shrinks. Qed.

(** ** Plans of DELETE and SELECT keep nothing of WHERE *)

Fixpoint conj_free (e : Expression) : bool :=
  match e with
  | CastExpr c _ => conj_free c
  | ComparisonExpr _ l r => conj_free l && conj_free r
  | ConjunctionExpr _ _ => false
  | _ => true
  end.

Lemma expr_rules_eq e : apply_rules expr_rewrite_rules_ e false =
  match e with
  | ConjunctionExpr ty children =>
      y ← conj_scan ty [] children;
      Done match y with
           | inr child_expr => (SUCCESS, child_expr, false)
           | inl [child_expr] => (SUCCESS, child_expr, true)
           | inl children => (SUCCESS, ConjunctionExpr ty children, false)
           end
  | _ => Done (SUCCESS, e, false)
  end.
Proof. destruct e; try done. cbn. by destruct (conj_scan type_ [] children) as [[[|? []]|]| | |]. Qed.

(** Without a conjunction there is nothing to rewrite. *)
Lemma rewrite_conj_free fuel e : conj_free e = true → (esize e ≤ fuel)%nat → rewrite_expression fuel e = Done (SUCCESS, e, false).
Proof.
  revert e. induction fuel as [|fuel IH]; intros e He Hf; [pose proof (esize_pos e); lia|].
  destruct e; try done; cbn in He, Hf; cbn [rewrite_expression]; rewrite expr_rules_eq; cbn -[rewrite_expression].
  - by rewrite (IH e He ltac:(lia)).
  - apply andb_true_iff in He as [H1 H2]. by rewrite (IH e1 H1 ltac:(lia)), (IH e2 H2 ltac:(lia)).
Qed.

(** The comparisons the generator makes. *)
Definition plain_comparison (e : Expression) : Prop := expr_type e = COMPARISON ∧ conj_free e = true.

Lemma cast_side_plain o t rc e : cast_side (filter_operand o) t = (rc, e) → conj_free e = true.
Proof. unfold cast_side. destruct o; cbn; by intros [= <- <-]. Qed.

Lemma filter_comparison_plain u o : filter_comparison u = (SUCCESS, o) → ∃ e, o = Some e ∧ plain_comparison e.
Proof.
  assert (∀ o, conj_free (filter_operand o) = true) as Hop by by intros [].
  unfold filter_comparison. intros H. repeat case_match; simplify_eq; try done; (eexists; split; [done|]; split; [done|]);
    cbn; rewrite ?Hop; repeat match goal with H : cast_side _ _ = _ |- _ => rewrite (cast_side_plain _ _ _ _ H); clear H end; done.
Qed.

Lemma filter_comparisons_plain us es : filter_comparisons us = (SUCCESS, es) →
  Forall plain_comparison es ∧ length es = length us.
Proof.
  revert es. induction us as [|u us IH]; intros es H; cbn in H; [by simplify_eq|].
  destruct (filter_comparison u) as [rc o] eqn:E. destruct rc; try (destruct o; discriminate).
  destruct (filter_comparison_plain _ _ E) as (e & -> & He).
  destruct (filter_comparisons us) as [rc es']. simplify_eq. destruct (IH es' eq_refl) as [H1 H2].
  split; [|cbn; lia]. by constructor.
Qed.

Lemma filter_plan_shape us p : create_filter_plan (Some us) = Done (SUCCESS, p) →
  ∃ es, Forall plain_comparison es ∧ length es = length us
    ∧ p = match es with [] => None | _ => Some (mkLogical PREDICATE [ConjunctionExpr AND es] []) end.
Proof.
  unfold create_filter_plan. cbn. destruct (filter_comparisons us) as [rc es] eqn:E. intros H.
  destruct (OB_FAIL rc) eqn:Hrc; simplify_eq. apply OB_FAIL_false in Hrc. subst rc.
  destruct (filter_comparisons_plain _ _ E). by exists es.
Qed.

Lemma rewrite_plain_list n es cm : Forall plain_comparison es → (sum_list_with esize es ≤ n)%nat →
  rewrite_list (rewrite_expression n) es cm = Done (SUCCESS, es, cm).
Proof.
  intros Hes. revert cm. induction Hes as [|e es [_ He] _ IH]; intros cm Hn; cbn in *; [done|].
  rewrite (rewrite_conj_free n e He ltac:(lia)). cbn. rewrite orb_false_r. by rewrite (IH cm ltac:(lia)).
Qed.

Lemma conj_scan_plain ty kept es : Forall plain_comparison es → conj_scan ty kept es = Done (inl (kept ++ es)).
Proof.
  intros Hes. revert kept. induction Hes as [|e es [He _] _ IH]; intros kept; cbn; [by rewrite app_nil_r|].
  destruct e; try done. cbn. by rewrite IH, <-app_assoc.
Qed.

(** What the expression rules leave of the conjunction of the comparisons. *)
Definition folded (es : list Expression) : Expression := match es with [e] => e | _ => ConjunctionExpr AND es end.

Lemma rewrite_plain_conj es : Forall plain_comparison es →
  ∃ c, rewrite_expression (esize (ConjunctionExpr AND es)) (ConjunctionExpr AND es) = Done (SUCCESS, folded es, c).
Proof.
  intros Hes. cbn [esize rewrite_expression]. rewrite expr_rules_eq, (conj_scan_plain AND [] es Hes).
  destruct es as [|e [|e' es]]; [by eexists|by eexists|]. cbn -[rewrite_list rewrite_expression sum_list_with].
  rewrite rewrite_plain_list; [|done|done]. by eexists.
Qed.

Lemma rewrite_folded es : Forall plain_comparison es → es ≠ [] →
  ∃ c, rewrite_expression (esize (folded es)) (folded es) = Done (SUCCESS, folded es, c).
Proof.
  intros Hes Hne. destruct es as [|e [|e' es]]; [done| |by apply rewrite_plain_conj].
  inversion Hes as [|? ? [_ He]]; subst. exists false. by apply rewrite_conj_free.
Qed.

Lemma push_plain kept es pushed : Forall plain_comparison es → push_children kept es pushed = (SUCCESS, kept, pushed ++ es).
Proof.
  intros Hes. revert pushed. induction Hes as [|e es [He _] _ IH]; intros pushed; cbn [push_children]; [by rewrite app_nil_r|].
  destruct e; try done. cbn. by rewrite IH, <-app_assoc.
Qed.

Lemma push_folded es : Forall plain_comparison es → es ≠ [] →
  ∃ e, get_exprs_can_pushdown (folded es) [] = (SUCCESS, e, es) ∧ is_empty_predicate e = true.
Proof.
  intros Hes Hne. destruct es as [|e [|e' es]]; [done| |].
  - inversion Hes as [|? ? [He _]]; subst. cbn [folded]. destruct e; try done. by eexists.
  - cbn [folded]. rewrite pushdown_and, push_plain; [|done]. by eexists.
Qed.

Lemma Rewriter_rewrite_S fuel o : Rewriter_rewrite (S fuel) o =
  (y ← apply_rules rewrite_rules_ o false;
   let '(rc, o, change_made) := y : RC * LogicalOperator * bool in
   if OB_FAIL rc then Done (rc, o, change_made)
   else z ← rewrite_list (Rewriter_rewrite fuel) (op_children o) change_made;
        let '(rc, cs, change_made) := z : RC * list LogicalOperator * bool in
        Done (rc, mkLogical (op_type o) (op_expressions o) cs, change_made)).
Proof. done. Qed.

Lemma plan_rules_eq o o' c : ExpressionRewriter_rewrite o false = Done (SUCCESS, o', c) →
  apply_rules rewrite_rules_ o false = apply_rules [PredicateRewriteRule_rewrite; PredicatePushdownRewriter_rewrite] o' c.
Proof. intros H. unfold rewrite_rules_. cbn [apply_rules]. by rewrite H. Qed.

Abbreviation table_leaf := (mkLogical TABLE_GET [] []) (only parsing).

Section WhereClause.
Context (t : LogicalOperatorType) (out : list Expression) (Ht : t ≠ PREDICATE) (Hout : Forall (λ e, conj_free e = true) out).

Lemma rewrite_out cm : rewrite_list (λ e, rewrite_expression (esize e) e) out cm = Done (SUCCESS, out, cm).
Proof using Hout.
  revert cm. induction Hout as [|e es He _ IH]; intros cm; cbn [rewrite_list]; [done|].
  rewrite (rewrite_conj_free (esize e) e He ltac:(done)). cbn. rewrite orb_false_r, IH; [done|by inversion Hout].
Qed.

Lemma rewrite_predicate x y c : rewrite_expression (esize x) x = Done (SUCCESS, y, c) →
  ExpressionRewriter_rewrite (mkLogical PREDICATE [x] [table_leaf]) false = Done (SUCCESS, mkLogical PREDICATE [y] [table_leaf], c).
Proof. intros H. rewrite ExpressionRewriter_rewrite_eq. cbn [rewrite_list]. rewrite H. cbn. by destruct c. Qed.

Lemma rewrite_top x y c : rewrite_expression (esize x) x = Done (SUCCESS, y, c) →
  ExpressionRewriter_rewrite (mkLogical t out [mkLogical PREDICATE [x] [table_leaf]]) false
  = Done (SUCCESS, mkLogical t out [mkLogical PREDICATE [y] [table_leaf]], c).
Proof using Hout.
  intros H. rewrite ExpressionRewriter_rewrite_eq, rewrite_out. cbn [rewrite_list mbind outcome_bind].
  change (OB_FAIL SUCCESS) with false. cbv iota. by rewrite (rewrite_predicate x y c H).
Qed.

(** The pushdown turns the condition into TRUE. *)
Lemma predicate_round fuel es : Forall plain_comparison es → es ≠ [] →
  Rewriter_rewrite (S (S fuel)) (mkLogical PREDICATE [folded es] [table_leaf])
  = Done (SUCCESS, mkLogical PREDICATE [TRUE_EXPR] [table_leaf], true).
Proof.
  intros Hes Hne. destruct (rewrite_folded es Hes Hne) as [c Hc]. destruct (push_folded es Hes Hne) as (e & He & Hem).
  rewrite Rewriter_rewrite_S, (plan_rules_eq _ _ _ (rewrite_predicate _ _ _ Hc)).
  cbn [apply_rules PredicateRewriteRule_rewrite PredicatePushdownRewriter_rewrite mbind outcome_bind].
  change (OB_FAIL SUCCESS) with false. cbv iota. rewrite bool_decide_true; [|done]. cbn [negb]. cbv iota.
  rewrite He, Hem. destruct es; [done|]. by destruct c.
Qed.

Lemma top_rules x y c : rewrite_expression (esize x) x = Done (SUCCESS, y, c) → expr_type y ≠ VALUE →
  apply_rules rewrite_rules_ (mkLogical t out [mkLogical PREDICATE [x] [table_leaf]]) false
  = Done (SUCCESS, mkLogical t out [mkLogical PREDICATE [y] [table_leaf]], c).
Proof using Ht Hout.
  intros H Hy. rewrite (plan_rules_eq _ _ _ (rewrite_top _ _ _ H)). by destruct y, t, c.
Qed.

Lemma folded_type es : Forall plain_comparison es → expr_type (folded es) ≠ VALUE.
Proof. destruct es as [|e [|e' es]]; [done| |done]. inversion 1 as [|? ? [He _]]; subst. cbn. congruence. Qed.

Lemma round_one fuel es : Forall plain_comparison es → es ≠ [] →
  Rewriter_rewrite (S (S (S fuel))) (mkLogical t out [mkLogical PREDICATE [ConjunctionExpr AND es] [table_leaf]])
  = Done (SUCCESS, mkLogical t out [mkLogical PREDICATE [TRUE_EXPR] [table_leaf]], true).
Proof using Ht Hout.
  intros Hes Hne. destruct (rewrite_plain_conj es Hes) as [c Hc].
  rewrite Rewriter_rewrite_S, (top_rules _ _ _ Hc (folded_type es Hes)).
  cbn [mbind outcome_bind op_children rewrite_list]. change (OB_FAIL SUCCESS) with false. cbv iota.
  rewrite predicate_round; [|done|done]. by destruct c.
Qed.

(** The TRUE predicate goes away. *)
Lemma round_two fuel : Rewriter_rewrite (S (S fuel)) (mkLogical t out [mkLogical PREDICATE [TRUE_EXPR] [table_leaf]])
  = Done (SUCCESS, mkLogical t out [table_leaf], true).
Proof using Ht Hout.
  rewrite Rewriter_rewrite_S, (plan_rules_eq _ _ _ (rewrite_top TRUE_EXPR TRUE_EXPR false eq_refl)). by destruct t.
Qed.

Lemma round_three fuel : Rewriter_rewrite (S (S fuel)) (mkLogical t out [table_leaf]) = Done (SUCCESS, mkLogical t out [table_leaf], false).
Proof using Ht Hout.
  rewrite Rewriter_rewrite_S, (plan_rules_eq _ (mkLogical t out [table_leaf]) false); [by destruct t|].
  by rewrite ExpressionRewriter_rewrite_eq, rewrite_out.
Qed.

Lemma at_least_two n : (2 ≤ n)%nat → ∃ m, n = S (S m).
Proof. exists (n - 2)%nat. lia. Qed.

Lemma optimize_where fuel es : Forall plain_comparison es → es ≠ [] →
  OptimizeStage_rewrite (S (S (S fuel))) (mkLogical t out [mkLogical PREDICATE [ConjunctionExpr AND es] [table_leaf]])
  = Done (SUCCESS, mkLogical t out [table_leaf]).
Proof using Ht Hout.
  intros Hes Hne. unfold OptimizeStage_rewrite. rewrite loop_step. unfold optimize_body at 2.
  cbn [psize]. edestruct (at_least_two (sum_list_with esize out + sum_list_with psize [mkLogical PREDICATE [ConjunctionExpr AND es] [table_leaf]])) as [m ->]; [cbn; lia|].
  rewrite round_one; [|done|done]. cbn [mbind outcome_bind]. change (OB_FAIL SUCCESS) with false. cbv iota.
  rewrite loop_step. unfold optimize_body at 2.
  edestruct (at_least_two (psize (mkLogical t out [mkLogical PREDICATE [TRUE_EXPR] [table_leaf]]))) as [m2 ->]; [cbn; lia|].
  rewrite round_two. cbn [mbind outcome_bind]. change (OB_FAIL SUCCESS) with false. cbv iota.
  rewrite loop_step. unfold optimize_body at 2.
  edestruct (at_least_two (psize (mkLogical t out [table_leaf]))) as [m3 ->]; [cbn; lia|]. by rewrite round_three.
Qed.
End WhereClause.

(** C33: the optimizer takes the condition of a DELETE off: the plan of a
    statement with conditions is rewritten to the plan of the statement without
    any, which stands for every record of the table.  The pushdown replaces the
    conditions by TRUE and hands them to nobody. *)
Theorem where_clause_disappears us p fuel : us ≠ [] → create_delete_plan (Some us) = Done (SUCCESS, Some p) → (3 ≤ fuel)%nat →
  ∃ q, create_delete_plan (Some []) = Done (SUCCESS, Some q) ∧ OptimizeStage_rewrite fuel p = Done (SUCCESS, q).
Proof.
  intros Hne Hp Hf. eexists. split; [reflexivity|]. do 3 (destruct fuel as [|fuel]; [lia|]).
  unfold create_delete_plan in Hp. destruct (create_filter_plan (Some us)) as [[rc o]| | |] eqn:E; try done. cbn in Hp.
  destruct (OB_FAIL rc) eqn:Hrc; [by simplify_eq|]. apply OB_FAIL_false in Hrc as ->.
  destruct (filter_plan_shape us o E) as (es & Hes & Hl & ->). destruct es as [|e es]; [by destruct us|]. simplify_eq.
  by apply (optimize_where DELETE []).
Qed.
Definition a_condition (z : Z) : FilterUnit := mkFilterUnit EQUAL_TO (FilterValue (mkValue INTS 4 (int_value_ z) false)) (FilterValue (mkValue INTS 4 (int_value_ 1) false)).
Lemma where_clause_disappears_witness :
  ∃ q, create_delete_plan (Some []) = Done (SUCCESS, Some q)
       ∧ OptimizeStage_rewrite 5 (mkLogical DELETE [] [mkLogical PREDICATE
           [ConjunctionExpr AND [ComparisonExpr EQUAL_TO (ValueExpr (mkValue INTS 4 (int_value_ 0) false)) (ValueExpr (mkValue INTS 4 (int_value_ 1) false))]]
           [mkLogical TABLE_GET [] []]]) = Done (SUCCESS, q).
Proof. apply (where_clause_disappears [a_condition 0]); [done|vm_compute; reflexivity|lia]. Defined.

(** ** Types of the rewritten plan *)

Fixpoint predicates_boolean (o : LogicalOperator) : bool :=
  let '(mkLogical t es cs) := o in
  match t with
  | PREDICATE => match es with [e] => bool_decide (value_type e = BOOLEANS) | _ => false end
  | _ => true
  end && forallb predicates_boolean cs.

Lemma wf_plan_boolean o : wf_plan o → predicates_boolean o = true.
Proof.
  induction o as [t es cs IH] using LogicalOperator_nested_ind. intros Ho. cbn [predicates_boolean].
  assert (forallb predicates_boolean cs = true) as ->.
  { apply forallb_forall. intros c Hc. apply list_elem_of_In in Hc. rewrite Forall_forall in IH. apply IH; [done|].
    destruct (wf_plan_cases _ _ _ Ho) as [Hcs _]. rewrite Forall_forall in Hcs. by apply Hcs. }
  inversion Ho as [e ? He _|? ? ? Ht]; subst; [by rewrite bool_decide_true; [|apply wf_boolean]|by destruct t].
Qed.

(** A condition of the statement whose constants are proper. *)
Definition filter_obj_ok (o : FilterObj) : Prop := match o with FilterAttr => True | FilterValue v => value_ok v end.
Definition filter_unit_ok (u : FilterUnit) : Prop := filter_obj_ok (fu_left_ u) ∧ filter_obj_ok (fu_right_ u).

Lemma filter_operand_wf o : filter_obj_ok o → wf false (filter_operand o).
Proof. destruct o; intros H; [constructor 5; [cbn; set_solver|done]|by constructor]. Qed.
Lemma cast_side_wf e t rc e' : wf false e → cast_side e t = (rc, e') → wf false e'.
Proof.
  unfold cast_side. intros He H. destruct (bool_decide _); cbn in H; simplify_eq; [done|]. by constructor.
Qed.

Lemma filter_comparison_wf u e : filter_unit_ok u → filter_comparison u = (SUCCESS, Some e) → wf true e.
Proof.
  intros [Hl Hr]. apply filter_operand_wf in Hl, Hr. unfold filter_comparison. intros H.
  repeat case_match; simplify_eq; constructor; eauto using cast_side_wf.
Qed.

Lemma filter_comparisons_wf us es : Forall filter_unit_ok us → filter_comparisons us = (SUCCESS, es) → Forall (wf true) es.
Proof.
  intros Hus. revert es. induction Hus as [|u us Hu _ IH]; intros es H; cbn in H; [by simplify_eq|].
  destruct (filter_comparison u) as [rc o] eqn:E. destruct rc; try (destruct o; discriminate). destruct o as [e|]; [|by simplify_eq].
  destruct (filter_comparisons us) as [rc es'] eqn:E'. simplify_eq. constructor; [by eapply filter_comparison_wf|by apply IH].
Qed.

Lemma add_child_wf c x : wf_plan c → wf_plan x → wf_plan (add_child c x).
Proof.
  destruct x as [t es cs]. intros Hc Hx. destruct (wf_plan_cases _ _ _ Hx) as (Hcs & b & Hes & Hmk).
  apply Hmk; [done|done|]. apply Forall_app. split; [done|by constructor].
Qed.

Lemma table_tree_wf n acc : (∀ o, acc = Some o → wf_plan o) → ∀ o, table_tree acc n = Some o → wf_plan o.
Proof.
  revert acc. induction n as [|n IH]; intros acc Hacc o Ho; cbn in Ho; [by apply Hacc|].
  assert (wf_plan (mkLogical TABLE_GET [] [])) by by constructor.
  eapply IH; [|exact Ho]. intros x [= <-]. destruct acc as [a|]; [|done]. apply add_child_wf; [done|]. apply add_child_wf; [by apply Hacc|by constructor].
Qed.

Lemma create_group_by_plan_wf gs out rc g : create_group_by_plan gs out = Done (rc, Some g) → wf_plan g.
Proof.
  unfold create_group_by_plan. intros H. destruct (each (find_unbound_column gs) out) as [u| | |]; try done. cbn in H.
  destruct (each collector out) as [n| | |]; try done. cbn in H. repeat case_match; simplify_eq. by constructor.
Qed.

Lemma create_select_plan_wf us tables gs out p : Forall filter_unit_ok us → Forall (wf false) out →
  create_select_plan (Some us) tables gs out = Done (SUCCESS, Some p) → wf_plan p.
Proof.
  intros Hus Hout. unfold create_select_plan, create_filter_plan. cbn [deref mbind outcome_bind].
  destruct (filter_comparisons us) as [rc es] eqn:E. intros H.
  destruct (OB_FAIL rc) eqn:Hrc; cbn [mbind outcome_bind] in H; [rewrite Hrc in H; by simplify_eq|].
  apply OB_FAIL_false in Hrc as ->. pose proof (filter_comparisons_wf us es Hus E) as Hes.
  change (OB_FAIL SUCCESS) with false in H. cbv iota in H.
  destruct (create_group_by_plan gs out) as [[rc g]| | |] eqn:Eg; try done. cbn [mbind outcome_bind] in H.
  destruct (OB_FAIL rc); simplify_eq.
  assert (∀ o x, (∀ c, o = Some c → wf_plan c) → wf_plan x → wf_plan (match o with Some c => add_child c x | None => x end)) as Hang
    by (intros [c|] x Hc Hx; [apply add_child_wf; [by apply Hc|done]|done]).
  assert (∀ o, table_tree None tables = Some o → wf_plan o) as Ht by (apply table_tree_wf; by intros).
  assert (∀ o, match es with [] => table_tree None tables | _ => Some (match table_tree None tables with Some c => add_child c (mkLogical PREDICATE [ConjunctionExpr AND es] []) | None => mkLogical PREDICATE [ConjunctionExpr AND es] [] end) end = Some o → wf_plan o) as Hl.
  { destruct es as [|e es]; [done|]. intros o [= <-]. apply Hang; [done|]. constructor; [by constructor|done]. }
  apply Hang; [|by constructor]. intros c Hc.
  destruct g as [g|]; [simplify_eq; apply Hang; [|by eapply create_group_by_plan_wf]|]; destruct es as [|e es]; intros; by apply Hl.
Qed.

Lemma create_delete_plan_wf us p : Forall filter_unit_ok us → create_delete_plan (Some us) = Done (SUCCESS, Some p) → wf_plan p.
Proof.
  intros Hus. unfold create_delete_plan, create_filter_plan. cbn [deref mbind outcome_bind].
  destruct (filter_comparisons us) as [rc es] eqn:E. intros H.
  destruct (OB_FAIL rc) eqn:Hrc; cbn [mbind outcome_bind] in H; [rewrite Hrc in H; by simplify_eq|].
  apply OB_FAIL_false in Hrc as ->. pose proof (filter_comparisons_wf us es Hus E) as Hes.
  change (OB_FAIL SUCCESS) with false in H. cbv iota in H.
  assert (wf_plan (mkLogical TABLE_GET [] []) ∧ wf_plan (mkLogical DELETE [] [])) as [Hg Hd] by (split; by constructor).
  destruct es as [|e es]; simplify_eq; [by apply add_child_wf|]. apply add_child_wf; [|done]. apply add_child_wf; [done|].
  constructor; [by constructor|done].
Qed.

(** A statement whose constants are proper. *)
Fixpoint stmt_ok (s : Stmt) : Prop :=
  match s with
  | CalcStmt es => Forall (wf false) es
  | SelectStmt (Some us) _ _ es => Forall filter_unit_ok us ∧ Forall (wf false) es
  | DeleteStmt (Some us) => Forall filter_unit_ok us
  | ExplainStmt s => stmt_ok s
  | SelectStmt None _ _ _ | DeleteStmt None => False
  | InsertStmt | OtherStmt => True
  end.

Lemma create_wf s p : stmt_ok s → LogicalPlanGenerator_create s = Done (SUCCESS, Some p) → wf_plan p.
Proof.
  revert p. induction s as [es|[us|] n gs es| |[us|]|s IH|]; intros p Hs H; cbn [stmt_ok LogicalPlanGenerator_create] in Hs, H; simplify_eq; try done.
  - by constructor.
  - destruct Hs. by eapply create_select_plan_wf.
  - by constructor.
  - by eapply create_delete_plan_wf.
  - destruct (LogicalPlanGenerator_create s) as [[rc [c|]]| | |]; try done; cbn in H; destruct (OB_FAIL rc) eqn:Hrc; simplify_eq.
    apply add_child_wf; [by apply IH|by constructor].
Qed.


(** ** What the expression rules mean

    The truth of a condition, given the truth [env] of everything that is not a
    constant or a conjunction. *)
Fixpoint meaning (env : Expression → bool) (e : Expression) : bool :=
  match e with
  | ValueExpr v =>
      match try_to_get_bool_constant e with Done (Some b) => b | _ => env e end
  | ConjunctionExpr AND cs => forallb (meaning env) cs
  | ConjunctionExpr OR cs => existsb (meaning env) cs
  | _ => env e
  end.

Definition fold_type (ty : ConjunctionType) : list bool → bool := match ty with AND => forallb id | OR => existsb id end.

(** A constant that decides a conjunction. *)
Definition decisive (ty : ConjunctionType) (e : Expression) : bool :=
  match try_to_get_bool_constant e, ty with Done (Some false), AND | Done (Some true), OR => true | _, _ => false end.
Definition constant (e : Expression) : bool := match try_to_get_bool_constant e with Done (Some _) => true | _ => false end.

(** No deciding constant hides behind a child that is not constant. *)
Fixpoint front_safe (ty : ConjunctionType) (cs : list Expression) : bool :=
  match cs with
  | [] => true
  | c :: cs => if decisive ty c then true else if constant c then front_safe ty cs else forallb (λ c, negb (decisive ty c)) cs
  end.
Fixpoint safe (e : Expression) : bool :=
  match e with
  | ConjunctionExpr ty cs => front_safe ty cs && forallb safe cs
  | e => conj_free e
  end.

Lemma meaning_conj env ty cs : meaning env (ConjunctionExpr ty cs) = fold_type ty (map (meaning env) cs).
Proof. destruct ty; cbn; induction cs as [|c cs IH]; cbn; [done| |done|]; by rewrite IH. Qed.

Lemma meaning_constant env e b : try_to_get_bool_constant e = Done (Some b) → meaning env e = b.
Proof. destruct e; try done. intros H. cbn [meaning]. by rewrite H. Qed.

Lemma fold_type_app ty l k : fold_type ty (l ++ k) = match ty with AND => fold_type ty l && fold_type ty k | OR => fold_type ty l || fold_type ty k end.
Proof. destruct ty; cbn; [apply forallb_app|apply existsb_app]. Qed.

Definition scan_meaning (env : Expression → bool) (ty : ConjunctionType) (y : list Expression + Expression) : bool :=
  match y with inl l => meaning env (ConjunctionExpr ty l) | inr e => meaning env e end.

(** One more child that is kept, dropped or decides. *)
Lemma conj_scan_meaning env ty kept rest y : conj_scan ty kept rest = Done y →
  match kept with [] => front_safe ty rest | _ => forallb (λ c, negb (decisive ty c)) rest end = true →
  scan_meaning env ty y = meaning env (ConjunctionExpr ty (kept ++ rest)).
Proof.
  revert kept. induction rest as [|c rest IH]; intros kept H Hs; cbn [conj_scan] in H; [by simplify_eq; rewrite app_nil_r|].
  destruct (try_to_get_bool_constant c) as [[b|]| | |] eqn:Ec; try done; cbn [mbind outcome_bind] in H.
  - assert (decisive ty c = match b, ty with false, AND | true, OR => true | _, _ => false end) as Hd
      by (unfold decisive; rewrite Ec; by destruct b, ty).
    assert (constant c = true) as Hc by (unfold constant; by rewrite Ec).
    destruct (decisive ty c) eqn:Edec.
    + assert (kept = []) as -> by (destruct kept; [done|cbn in Hs; by rewrite Edec in Hs]).
      rewrite meaning_conj. cbn [app map]. rewrite (meaning_constant env c b Ec).
      destruct b, ty; try done; simplify_eq; cbn; apply (meaning_constant _ _ _ Ec).
    + assert (conj_scan ty kept rest = Done y) as H' by by destruct b, ty.
      rewrite (IH kept H'); [|destruct kept; cbn in Hs; by rewrite Edec, ?Hc in Hs].
      rewrite !meaning_conj, !map_app, !fold_type_app. cbn [map]. rewrite (meaning_constant env c b Ec). by destruct b, ty.
  - rewrite (IH (kept ++ [c]) H); [by rewrite <-app_assoc|].
    assert (decisive ty c = false) as Edec by (unfold decisive; by rewrite Ec).
    assert (constant c = false) as Hc by (unfold constant; by rewrite Ec).
    destruct kept; cbn in Hs |- *; rewrite Edec, ?Hc in Hs; done.
Qed.

Lemma conj_scan_members ty kept rest y : conj_scan ty kept rest = Done y →
  match y with inl l => l ⊆ kept ++ rest | inr e => e ∈ kept ++ rest end.
Proof.
  revert kept. induction rest as [|c rest IH]; intros kept H; cbn [conj_scan] in H; [by simplify_eq; rewrite app_nil_r|].
  destruct (try_to_get_bool_constant c) as [[b|]| | |]; try done; cbn [mbind outcome_bind] in H.
  - assert (conj_scan ty kept rest = Done y ∨ y = inr (default c (head kept))) as [H'| ->] by (destruct b, ty; by simplify_eq; auto).
    + specialize (IH kept H'). destruct y; set_solver.
    + destruct kept; cbn; set_solver.
  - specialize (IH (kept ++ [c]) H). rewrite <-app_assoc in IH. done.
Qed.

(** A deciding constant is found at the front or not at all. *)
Lemma conj_scan_decides ty kept rest e : conj_scan ty kept rest = Done (inr e) →
  match kept with [] => front_safe ty rest | _ => forallb (λ c, negb (decisive ty c)) rest end = true → ∃ v, e = ValueExpr v.
Proof.
  revert kept. induction rest as [|c rest IH]; intros kept H Hs; cbn [conj_scan] in H; [done|].
  destruct (try_to_get_bool_constant c) as [[b|]| | |] eqn:Ec; try done; cbn [mbind outcome_bind] in H.
  - destruct kept as [|k kept]; cbn in Hs; unfold decisive, constant in Hs; rewrite Ec in Hs; destruct b, ty; simplify_eq; first [by eapply IH | destruct e; first [by cbn in Ec | by eexists]].
  - eapply IH; [exact H|]. destruct kept as [|k kept]; cbn in Hs |- *; unfold decisive, constant in Hs; by rewrite Ec in Hs.
Qed.

Lemma rewrite_list_meaning fuel env cs cm l c :
  (∀ e e' c, e ∈ cs → rewrite_expression fuel e = Done (SUCCESS, e', c) → meaning env e' = meaning env e) →
  rewrite_list (rewrite_expression fuel) cs cm = Done (SUCCESS, l, c) → map (meaning env) l = map (meaning env) cs.
Proof.
  revert cm l c. induction cs as [|e cs IH]; intros cm l c Hm H; cbn [rewrite_list] in H; [by simplify_eq|].
  destruct (rewrite_expression fuel e) as [[[rc e'] ce]| | |] eqn:Ee; try done. cbn [mbind outcome_bind] in H.
  destruct (OB_FAIL rc) eqn:Hrc; [by simplify_eq|]. apply OB_FAIL_false in Hrc as ->.
  destruct (rewrite_list _ cs _) as [[[rc l'] cl]| | |] eqn:El; try done. cbn in H. simplify_eq. cbn.
  rewrite (Hm e e' ce ltac:(set_solver) Ee). f_equal. eapply IH; [|exact El]. intros x x' cx Hx. apply Hm. set_solver.
Qed.

Lemma safe_members ty cs : safe (ConjunctionExpr ty cs) = true → front_safe ty cs = true ∧ ∀ e, e ∈ cs → safe e = true.
Proof.
  cbn. intros [Hf Hs]%andb_true_iff. split; [done|]. intros e He. rewrite forallb_forall in Hs. apply Hs. by apply list_elem_of_In.
Qed.

Lemma rewrite_expression_meaning env fuel e e' c : safe e = true → (esize e ≤ fuel)%nat →
  rewrite_expression fuel e = Done (SUCCESS, e', c) → meaning env e' = meaning env e.
Proof.
  revert e e' c. induction fuel as [|fuel IH]; intros e e' c Hs Hf H; [done|].
  destruct (conj_free e) eqn:Hcf; [rewrite (rewrite_conj_free _ e Hcf Hf) in H; by simplify_eq|].
  destruct e as [| | | | | | |ty cs| |]; try (cbn in Hs, Hcf; congruence).
  apply safe_members in Hs as [Hfront Hcs]. cbn [rewrite_expression] in H. rewrite expr_rules_eq in H.
  destruct (conj_scan ty [] cs) as [y| | |] eqn:Ey; try done. cbn [mbind outcome_bind] in H.
  pose proof (conj_scan_meaning env ty [] cs y Ey Hfront) as Hm. pose proof (conj_scan_members ty [] cs y Ey) as Hin. cbn [app] in Hm, Hin.
  destruct y as [l|x]; cbn [scan_meaning] in Hm.
  - destruct (decide (length l = 1)%nat) as [Hl|Hl].
    { destruct l as [|x [|]]; try done. cbn in H. simplify_eq. rewrite <-Hm, meaning_conj. cbn.
      destruct ty; cbn; unfold id; by rewrite ?andb_true_r, ?orb_false_r. }
    assert (rewrite_list (rewrite_expression fuel) l false ≫= (λ '(rc, children, cm), Done (rc, ConjunctionExpr ty children, cm))
      = Done (SUCCESS, e', c)) as H' by by destruct l as [|x [|]].
    destruct (rewrite_list _ l false) as [[[rc l'] cl]| | |] eqn:El; try done. cbn in H'. simplify_eq. rewrite <-Hm, !meaning_conj.
    f_equal. eapply rewrite_list_meaning; [|exact El]. intros x x' cx Hx Hr. eapply IH; [by apply Hcs, Hin| |exact Hr].
    pose proof (sum_list_with_in x esize cs ltac:(by apply Hin)). cbn in Hf. lia.
  - destruct (conj_scan_decides ty [] cs x Ey Hfront) as [v ->]. cbn in H. change (OB_FAIL SUCCESS) with false in H. cbv iota in H. simplify_eq. exact Hm.
Qed.

(** C26: the expression rules keep the meaning of a condition whose comparisons
    hold no conjunctions and in which no deciding constant stands behind a
    non-constant one: the rewritten condition has the same truth value for
    every truth of its comparisons, and the pass returns. *)
Theorem expression_rewrite_preserves e : wf true e → safe e = true →
  ∃ e' c, rewrite_expression (esize e) e = Done (SUCCESS, e', c) ∧ ∀ env, meaning env e' = meaning env e.
Proof.
  intros Hw Hs. destruct (rewrite_expression_shrinks true (esize e) e Hw ltac:(done)) as (rc & e' & c & H & [(-> & _)|[_ []]]).
  exists e', c. split; [done|]. intros env. by eapply rewrite_expression_meaning.
Qed.

(** A condition [f < 1 AND TRUE AND (FALSE OR g = 2)]. *)
Definition sample_bool (b : bool) : Expression := ValueExpr (mkValue BOOLEANS 1 (bool_value_ b) false).
Definition sample_int (z : Z) : Expression := ValueExpr (mkValue INTS 4 (int_value_ z) false).
Definition sample_field (s : string) : Expression := FieldExpr "t" s 0 INTS 4.
Definition sample_condition : Expression :=
  ConjunctionExpr AND [ComparisonExpr LESS_THAN (sample_field "f") (sample_int 1); sample_bool true;
    ConjunctionExpr OR [sample_bool false; ComparisonExpr EQUAL_TO (sample_field "g") (sample_int 2)]].

Lemma sample_values_ok : value_ok (mkValue INTS 4 (int_value_ 1) false) ∧ value_ok (mkValue INTS 4 (int_value_ 2) false)
  ∧ value_ok (mkValue BOOLEANS 1 (bool_value_ true) false) ∧ value_ok (mkValue BOOLEANS 1 (bool_value_ false) false).
Proof. unfold value_ok; cbn. repeat split; try lia; by eexists. Qed.

Lemma sample_condition_wf : wf true sample_condition.
Proof.
  destruct sample_values_ok as (H1 & H2 & H3 & H4).
  assert (∀ s, wf false (sample_field s)) as Hf by (intros; constructor 5; [cbn; set_solver|done]).
  apply wf_conj. repeat (constructor; try done); apply Hf.
Qed.

Lemma expression_rewrite_preserves_witness :
  wf true sample_condition ∧ ∃ e' c, rewrite_expression (esize sample_condition) sample_condition = Done (SUCCESS, e', c)
    ∧ ∀ env, meaning env e' = meaning env sample_condition.
Proof. split; [apply sample_condition_wf|apply (expression_rewrite_preserves sample_condition); [apply sample_condition_wf|reflexivity]]. Defined.

Lemma plan_rewrite_terminates_witness :
  wf_plan (mkLogical PROJECTION [] [mkLogical PREDICATE [sample_condition] [mkLogical JOIN [] []]])
  ∧ ∃ rc o', OptimizeStage_rewrite 100 (mkLogical PROJECTION [] [mkLogical PREDICATE [sample_condition] [mkLogical JOIN [] []]]) = Done (rc, o')
    ∧ (rc = SUCCESS ∧ wf_plan o' ∧ (psize o' ≤ psize (mkLogical PROJECTION [] [mkLogical PREDICATE [sample_condition] [mkLogical JOIN [] []]]))%nat
       ∨ rc = UNIMPLEMENTED).
Proof.
  assert (wf_plan (mkLogical PROJECTION [] [mkLogical PREDICATE [sample_condition] [mkLogical JOIN [] []]])) as H.
  { constructor; [done|done|]. constructor; [|done]. constructor; [apply sample_condition_wf|]. constructor; [by constructor|done]. }
  split; [exact H|]. apply (plan_rewrite_terminates _ 100 H). vm_compute. lia.
Defined.

Definition sample_select : Stmt := ExplainStmt (SelectStmt (Some [a_condition 1]) 2 [sample_field "f"] [sample_field "f"]).

(** A FALSE behind another condition is forgotten, and so is every other
    condition: [c AND ... AND FALSE AND ...] becomes [c], where the rule means to
    give FALSE; likewise [c OR ... OR TRUE OR ...].  The comment of the rule
    says the constant is the result. *)
Theorem conjunction_constant_lost ty c mid rest : try_to_get_bool_constant c = Done None →
  Forall (λ e, try_to_get_bool_constant e = Done None) mid →
  ConjunctionSimplificationRule_rewrite (ConjunctionExpr ty (c :: mid ++ sample_bool (match ty with AND => false | OR => true end) :: rest)) false
  = Done (SUCCESS, c, false)
  ∧ ∀ env, meaning env (ConjunctionExpr ty (c :: mid ++ sample_bool (match ty with AND => false | OR => true end) :: rest))
           = match ty with AND => false | OR => true end.
Proof.
  intros Hc Hmid. split.
  - cbn [ConjunctionSimplificationRule_rewrite conj_scan]. rewrite Hc. cbn [mbind outcome_bind app].
    assert (∀ kept, conj_scan ty (c :: kept) (mid ++ sample_bool (match ty with AND => false | OR => true end) :: rest) = Done (inr c)) as H.
    { induction Hmid as [|m mid Hm _ IH]; intros kept; cbn [app conj_scan]; [by destruct ty|]. rewrite Hm. cbn. apply (IH (kept ++ [m])). }
    by rewrite H.
  - intros env. rewrite meaning_conj. cbn [map]. rewrite map_app. cbn [map].
    change (?x :: ?l ++ ?r) with ((x :: l) ++ r). rewrite fold_type_app. destruct ty; cbn; by rewrite ?andb_false_r, ?orb_true_r.
Qed.
Lemma conjunction_constant_lost_witness :
  ConjunctionSimplificationRule_rewrite (ConjunctionExpr AND [sample_field "f"; sample_bool false]) false = Done (SUCCESS, sample_field "f", false)
  ∧ ∀ env, meaning env (ConjunctionExpr AND [sample_field "f"; sample_bool false]) = false.
Proof. apply (conjunction_constant_lost AND (sample_field "f") [] []); [reflexivity|constructor]. Defined.

(** Planning [SELECT -e] follows the null pointer that stands for the missing
    right side of a unary minus, whatever the rest of the statement is. *)
Theorem unary_minus_undefined us tables l p b : create_filter_plan (Some us) = Done (SUCCESS, p) → find_unbound_column [] l = Done b →
  create_select_plan (Some us) tables [] [ArithmeticExpr NEGATIVE l None] = UB.
Proof.
  intros Hp Hl. unfold create_select_plan. rewrite Hp. unfold create_group_by_plan. cbn [each find_unbound_column mbind outcome_bind bound_by].
  change (OB_FAIL SUCCESS) with false. cbv iota. cbn [iterate_child_expr]. by rewrite Hl.
Qed.
(** So does planning any SELECT: [SelectStmt::create] sets no filter statement. *)
Theorem select_without_filter_undefined tables gs out : create_select_plan None tables gs out = UB.
Proof. done. Qed.
