(* ===== verification/MysqlProtocol.v ===== *)
(** * The MySQL protocol

    Models [src/src/observer/net/mysql_communicator.h/.cpp]: the encoding of
    packets, reading requests and writing results, over the buffered writer of
    [NetBuffer] and the values of [SqlValue]; of [sql/executor/sql_result.cpp]
    the calls it makes.  A physical operator is what its calls answer: the code
    of [open], the rows of [next] with what [cell_at] gives for every cell, the
    code [next] ends with and the code of [close].  Characters that arrive are
    a list; when it is used up the connection is closed. *)

From S2P Require Import Prelude Rc NetBuffer SqlValue.

(** ** Storing fields

    [pos += store_x(buf + pos, ...)] on a buffer and a position. *)

Abbreviation cursor := (bytes * Z)%type (only parsing).

Definition put (b : bytes) (c : cursor) : outcome cursor :=
  buf ← mem_write c.2 b c.1; Done (buf, c.2 + blen b).

Definition store_int1 (value : Z) : cursor → outcome cursor := put (le_enc 1 value).
Definition store_int2 (value : Z) : cursor → outcome cursor := put (le_enc 2 value).
Definition store_int3 (value : Z) : cursor → outcome cursor := put (le_enc 3 value).
Definition store_int4 (value : Z) : cursor → outcome cursor := put (le_enc 4 value).
Definition store_int6 (value : Z) : cursor → outcome cursor := put (le_enc 6 value).
Definition store_int8 (value : Z) : cursor → outcome cursor := put (le_enc 8 value).

(** The bytes of [store_lenenc_int]; the bounds are those of the code, twice
    the ones of the protocol. *)
Definition lenenc (value : Z) : bytes :=
  if value <? 251 then le_enc 1 value
  else if value <? 2 ^ 17 then 252 :: le_enc 2 value
  else if value <? 2 ^ 25 then 253 :: le_enc 3 value
  else 254 :: le_enc 8 value.
Definition store_lenenc_int (value : Z) : cursor → outcome cursor := put (lenenc (u64 value)).

(** [s] without the NUL that ends it. *)
Definition store_null_terminated_string (s : option bytes) (c : cursor) : outcome cursor :=
  match s with None | Some [] => Done c | Some s => put (s ++ [0]) c end.
Definition store_fix_length_string (s : bytes) (len : Z) (c : cursor) : outcome cursor :=
  if len =? 0 then Done c else d ← mem_read 0 len s; put d c.
(** [s] is a [string], of which [c_str()] is stored. *)
Definition store_lenenc_string (s : bytes) (c : cursor) : outcome cursor :=
  s ← c_str (s ++ [0]);
  c ← store_lenenc_int (blen s) c;
  store_fix_length_string (s ++ [0]) (blen s) c.

(** ** Packets *)

Definition CLIENT_PROTOCOL_41 : Z := 512.
Definition CLIENT_TRANSACTIONS : Z := 8192.
Definition CLIENT_SESSION_TRACK : Z := 2 ^ 23.
Definition CLIENT_DEPRECATE_EOF : Z := 2 ^ 24.
Definition CLIENT_OPTIONAL_RESULTSET_METADATA : Z := 2 ^ 25.
Definition has (capabilities flag : Z) : bool := negb (Z.land capabilities flag =? 0).

Record HandshakeV10 := mkHandshake {
  hs_sequence_id : Z; hs_protocol : Z; hs_server_version : bytes; hs_thread_id : Z; hs_auth_plugin_data_part_1 : bytes;
  hs_capability_flags_1 : Z; hs_character_set : Z; hs_status_flags : Z; hs_capability_flags_2 : Z;
  hs_auth_plugin_data_len : Z; hs_reserved : bytes; hs_auth_plugin_data_part_2 : bytes }.
Definition HandshakeV10_new (sequence : Z) : HandshakeV10 :=
  mkHandshake sequence 10 (chars "5.7.25") 21501807 (chars "12345678") (i16 63455) 83 0 0 0 (replicate 10 0) (chars "bbbbbbbbbbbb").
Record OkPacket := mkOk {
  ok_sequence_id : Z; ok_header : Z; ok_affected_rows : Z; ok_last_insert_id : Z; ok_status_flags : Z; ok_warnings : Z; ok_info : bytes }.
Definition OkPacket_new (sequence : Z) : OkPacket := mkOk sequence 0 0 0 34 0 [].
Record EofPacket := mkEof { eof_sequence_id : Z; eof_header : Z; eof_warnings : Z; eof_status_flags : Z }.
Definition EofPacket_new (sequence : Z) : EofPacket := mkEof sequence (-2) 0 34.
Record ErrPacket := mkErr {
  err_sequence_id : Z; err_header : Z; err_error_code : Z; err_sql_state_marker : bytes; err_sql_state : bytes; err_error_message : bytes }.
Definition ErrPacket_new (sequence : Z) : ErrPacket := mkErr sequence (-1) 0 (chars "#") (chars "HY000") [].

(** [resize(size)] and the position after the length, which is written last. *)
Definition packet_start (size : Z) : cursor := (replicate (Z.to_nat size) 0, 3).
Definition packet_end (c : cursor) : outcome bytes :=
  b ← mem_write 0 (le_enc 3 (c.2 - 4)) c.1; Done (take (Z.to_nat c.2) b).

Definition HandshakeV10_encode (p : HandshakeV10) (capabilities : Z) : outcome bytes :=
  c ← store_int1 (hs_sequence_id p) (packet_start 100);
  c ← store_int1 (hs_protocol p) c;
  c ← store_null_terminated_string (Some (hs_server_version p)) c;
  c ← store_int4 (hs_thread_id p) c;
  c ← store_null_terminated_string (Some (hs_auth_plugin_data_part_1 p)) c;
  c ← store_int2 (hs_capability_flags_1 p) c;
  c ← store_int1 (hs_character_set p) c;
  c ← store_int2 (hs_status_flags p) c;
  c ← store_int2 (hs_capability_flags_2 p) c;
  c ← store_int1 (hs_auth_plugin_data_len p) c;
  c ← store_fix_length_string (hs_reserved p) 10 c;
  c ← store_null_terminated_string (Some (hs_auth_plugin_data_part_2 p)) c;
  packet_end c.
Definition OkPacket_encode (p : OkPacket) (capabilities : Z) : outcome bytes :=
  c ← store_int1 (ok_sequence_id p) (packet_start 100);
  c ← store_int1 (ok_header p) c;
  c ← store_lenenc_int (ok_affected_rows p) c;
  c ← store_lenenc_int (ok_last_insert_id p) c;
  c ← (if has capabilities CLIENT_PROTOCOL_41 then c ← store_int2 (ok_status_flags p) c; store_int2 (ok_warnings p) c
       else if has capabilities CLIENT_TRANSACTIONS then store_int2 (ok_status_flags p) c
       else Done c);
  c ← (if has capabilities CLIENT_SESSION_TRACK then store_lenenc_string (ok_info p) c else Done c);
  packet_end c.
Definition EofPacket_encode (p : EofPacket) (capabilities : Z) : outcome bytes :=
  c ← store_int1 (eof_sequence_id p) (packet_start 10);
  c ← store_int1 (eof_header p) c;
  c ← (if has capabilities CLIENT_PROTOCOL_41 then c ← store_int2 (eof_warnings p) c; store_int2 (eof_status_flags p) c
       else Done c);
  packet_end c.
Definition ErrPacket_encode (p : ErrPacket) (capabilities : Z) : outcome bytes :=
  c ← store_int1 (err_sequence_id p) (packet_start 1000);
  c ← store_int1 (err_header p) c;
  c ← store_int2 (err_error_code p) c;
  c ← (if has capabilities CLIENT_PROTOCOL_41
       then c ← store_fix_length_string (err_sql_state_marker p) 1 c; store_fix_length_string (err_sql_state p ++ [0]) 5 c
       else Done c);
  c ← store_fix_length_string (err_error_message p ++ [0]) (blen (err_error_message p)) c;
  packet_end c.

Inductive BasePacket := Handshake (p : HandshakeV10) | Ok (p : OkPacket) | Eof (p : EofPacket) | Err (p : ErrPacket).
Definition encode (p : BasePacket) (capabilities : Z) : outcome bytes :=
  match p with
  | Handshake p => HandshakeV10_encode p capabilities
  | Ok p => OkPacket_encode p capabilities
  | Eof p => EofPacket_encode p capabilities
  | Err p => ErrPacket_encode p capabilities
  end.

(** ** Results of statements *)

Record PhysicalOperator := mkOper {
  po_open : RC; po_rows : list (list (RC * Value)); po_end : RC; po_close : RC }.
Record TupleCellSpec := mkSpec { ts_table_name_ : bytes; ts_alias_ : bytes }.
Record SqlResult := mkResult {
  sr_operator_ : option PhysicalOperator; sr_tuple_schema_ : list TupleCellSpec; sr_return_code_ : RC; sr_state_string_ : bytes }.
(** Of the session: [is_trx_multi_operation_mode()] and what [commit] answers. *)
Record Session := mkSession { ss_multi_operation_mode : bool; ss_commit : RC }.

Definition SqlResult_set_return_code (rc : RC) (r : SqlResult) : SqlResult :=
  mkResult (sr_operator_ r) (sr_tuple_schema_ r) rc (sr_state_string_ r).
Definition SqlResult_open (r : SqlResult) : RC :=
  match sr_operator_ r with None => INVALID_ARGUMENT | Some o => po_open o end.
Definition SqlResult_close (s : Session) (r : SqlResult) : RC * SqlResult :=
  match sr_operator_ r with
  | None => (INVALID_ARGUMENT, r)
  | Some o =>
      (if ss_multi_operation_mode s then po_close o else if OB_SUCC (po_close o) then ss_commit s else po_close o,
       mkResult None (sr_tuple_schema_ r) (sr_return_code_ r) (sr_state_string_ r))
  end.

(** ** The communicator *)

Record MysqlCommunicator := mkMysql {
  mc_authed_ : bool; mc_client_capabilities_flag_ : Z; mc_sequence_id_ : Z; mc_writer_ : BufferedWriter; mc_out : socket }.
Definition set_out (w : BufferedWriter) (k : socket) (m : MysqlCommunicator) : MysqlCommunicator :=
  mkMysql (mc_authed_ m) (mc_client_capabilities_flag_ m) (mc_sequence_id_ m) w k.
Definition set_sequence (n : Z) (m : MysqlCommunicator) : MysqlCommunicator :=
  mkMysql (mc_authed_ m) (mc_client_capabilities_flag_ m) n (mc_writer_ m) (mc_out m).
(** [sequence_id_++]: the old value is used, an [int8_t] wraps. *)
Definition next_sequence (m : MysqlCommunicator) : MysqlCommunicator := set_sequence (sint 8 (mc_sequence_id_ m + 1)) m.

Section Communicator.
Context (fuel : nat).

Definition comm_writen (data : bytes) (m : MysqlCommunicator) : outcome (RC * MysqlCommunicator) :=
  y ← BufferedWriter_writen fuel data (blen data) (mc_writer_ m) (mc_out m);
  let '(rc, w, k) := y : RC * BufferedWriter * socket in Done (rc, set_out w k m).
(** Nobody looks at the result of [flush]. *)
Definition comm_flush (m : MysqlCommunicator) : outcome MysqlCommunicator :=
  y ← BufferedWriter_flush fuel (mc_writer_ m) (mc_out m);
  let '(_, w, k) := y : RC * BufferedWriter * socket in Done (set_out w k m).

Definition MysqlCommunicator_send_packet (p : BasePacket) (m : MysqlCommunicator) : outcome (RC * MysqlCommunicator) :=
  net_packet ← encode p (mc_client_capabilities_flag_ m); comm_writen net_packet m.

(** Results: the code, [need_disconnect], the communicator. *)
Definition state_text (r : SqlResult) : outcome bytes :=
  s ← c_str (sr_state_string_ r ++ [0]);
  Done (take 2047 (match sr_state_string_ r with
                   | [] => strrc (sr_return_code_ r)
                   | _ => strrc (sr_return_code_ r) ++ chars " > " ++ s
                   end)).
Definition MysqlCommunicator_write_state (r : SqlResult) (m : MysqlCommunicator) : outcome (RC * bool * MysqlCommunicator) :=
  buf ← state_text r;
  let p := if OB_SUCC (sr_return_code_ r)
           then Ok (mkOk (mc_sequence_id_ m) 0 0 0 34 0 buf)
           else Err (mkErr (mc_sequence_id_ m) (-1) (RC_code (sr_return_code_ r)) (chars "#") (chars "HY000") buf) in
  y ← MysqlCommunicator_send_packet p (next_sequence m);
  let '(rc, m) := y : RC * MysqlCommunicator in
  m ← comm_flush m; Done (rc, OB_FAIL rc, m).

Definition column_count_packet (cell_num : Z) (m : MysqlCommunicator) : outcome bytes :=
  c ← store_int1 (mc_sequence_id_ m) (packet_start 1024);
  c ← (if has (mc_client_capabilities_flag_ m) CLIENT_OPTIONAL_RESULTSET_METADATA then store_int1 1 c else Done c);
  c ← store_lenenc_int cell_num c;
  packet_end c.
(** The packet of one column; the vector still holds what [resize] left. *)
Definition column_packet (spec : TupleCellSpec) (net_packet : bytes) (m : MysqlCommunicator) : outcome bytes :=
  let buf := take 1024 net_packet ++ replicate (1024 - length net_packet) 0 in
  c ← store_int1 (mc_sequence_id_ m) (buf, 3);
  c ← store_lenenc_string (chars "def") c;
  c ← store_lenenc_string (chars "sys") c;
  c ← store_lenenc_string (ts_table_name_ spec) c;
  c ← store_lenenc_string (ts_table_name_ spec) c;
  c ← store_lenenc_string (ts_alias_ spec) c;
  c ← store_lenenc_string (ts_alias_ spec) c;
  c ← store_lenenc_int 12 c;
  c ← store_int2 33 c;
  c ← store_int4 16384 c;
  c ← store_int1 253 c;
  c ← store_int2 0 c;
  c ← store_int1 31 c;
  c ← store_int2 0 c;
  packet_end c.
Fixpoint send_columns (specs : list TupleCellSpec) (net_packet : bytes) (m : MysqlCommunicator) : outcome (RC * MysqlCommunicator) :=
  match specs with
  | [] => Done (SUCCESS, m)
  | spec :: specs =>
      net_packet ← column_packet spec net_packet m;
      y ← comm_writen net_packet (next_sequence m);
      let '(rc, m) := y : RC * MysqlCommunicator in
      if OB_FAIL rc then Done (rc, m) else send_columns specs net_packet m
  end.
Definition MysqlCommunicator_send_column_definition (r : SqlResult) (need_disconnect : bool) (m : MysqlCommunicator)
    : outcome (RC * bool * MysqlCommunicator) :=
  let specs := sr_tuple_schema_ r in
  match specs with
  | [] => Done (SUCCESS, need_disconnect, m)
  | _ =>
      net_packet ← column_count_packet (blen specs) m;
      y ← comm_writen net_packet (next_sequence m);
      let '(rc, m) := y : RC * MysqlCommunicator in
      if OB_FAIL rc then Done (rc, true, m)
      else
        y ← send_columns specs net_packet m;
        let '(rc, m) := y : RC * MysqlCommunicator in
        if OB_FAIL rc then Done (rc, true, m)
        else if has (mc_client_capabilities_flag_ m) CLIENT_DEPRECATE_EOF then Done (SUCCESS, false, m)
        else
          y ← MysqlCommunicator_send_packet (Eof (mkEof (mc_sequence_id_ m) (-2) 0 2)) (next_sequence m);
          let '(_, m) := y : RC * MysqlCommunicator in
          Done (SUCCESS, false, m)
  end.

(** The cells of a row through one [Value]; a cell that fails ends the row and
    sets the code of the result. *)
Fixpoint write_cells (cells : list (RC * Value)) (value : Value) (r : SqlResult) (c : cursor)
    : outcome (Value * SqlResult * cursor) :=
  match cells with
  | [] => Done (value, r, c)
  | (rc, cell) :: cells =>
      if OB_FAIL rc then Done (value, SqlResult_set_return_code rc r, c)
      else
        value ← Value_assign cell value;
        s ← Value_to_string value;
        c ← store_lenenc_string s c;
        write_cells cells value r c
  end.
(** The rows of the operator; [packet] is one buffer for all of them. *)
Fixpoint write_rows (rows : list (list (RC * Value))) (end_code : RC) (r : SqlResult) (packet : bytes) (affected_rows : Z)
    (m : MysqlCommunicator) : outcome (RC * SqlResult * Z * MysqlCommunicator) :=
  match rows with
  | [] => if OB_SUCC end_code then UB else Done (end_code, r, affected_rows, m)
  | [] :: rows => write_rows rows end_code r packet (affected_rows + 1) m
  | cells :: rows =>
      c ← store_int1 (mc_sequence_id_ m) (packet, 3);
      y ← write_cells cells Value_new r c;
      let '(value, r, (buf, pos)) := y : Value * SqlResult * cursor in
      packet ← mem_write 0 (le_enc 3 (pos - 4)) buf;
      y ← comm_writen (take (Z.to_nat pos) packet) (next_sequence m);
      let '(rc, m) := y : RC * MysqlCommunicator in
      _ ← Value_reset value;
      if OB_FAIL rc then Done (rc, r, affected_rows + 1, m)
      else write_rows rows end_code r packet (affected_rows + 1) m
  end.
Definition MysqlCommunicator_write_tuple_result (r : SqlResult) (packet : bytes) (m : MysqlCommunicator) : outcome (RC * SqlResult * Z * MysqlCommunicator) :=
  o ← deref (sr_operator_ r); write_rows (po_rows o) (po_end o) r packet 0 m.

Definition PACKET_SIZE : Z := 4 * 1024 * 1024.
(** The code of [write_tuple_result] is overwritten. *)
Definition MysqlCommunicator_send_result_rows (r : SqlResult) (no_column_def : bool) (m : MysqlCommunicator)
    : outcome (RC * bool * SqlResult * MysqlCommunicator) :=
  y ← MysqlCommunicator_write_tuple_result r (replicate (Z.to_nat PACKET_SIZE) 0) m;
  let '(_, r, affected_rows, m) := y : RC * SqlResult * Z * MysqlCommunicator in
  let p := if has (mc_client_capabilities_flag_ m) CLIENT_DEPRECATE_EOF || no_column_def
           then Ok (mkOk (mc_sequence_id_ m) 0 affected_rows 0 34 0 [])
           else Eof (EofPacket_new (mc_sequence_id_ m)) in
  y ← MysqlCommunicator_send_packet p (next_sequence m);
  let '(rc, m) := y : RC * MysqlCommunicator in Done (rc, false, r, m).

(** [write_result].  The result of [send_result_rows] is put into a variable
    of the inner block, which hides the one that is returned. *)
Definition MysqlCommunicator_write_result (s : Session) (result : option SqlResult) (m : MysqlCommunicator) : outcome (RC * bool * MysqlCommunicator) :=
  match result with
  | None =>
      y ← MysqlCommunicator_send_packet (Ok (mkOk 0 0 0 0 34 0 (chars "Unexpected error: no result"))) m;
      let '(rc, m) := y : RC * MysqlCommunicator in
      if OB_FAIL rc then Done (rc, true, m) else UB
  | Some r =>
      if OB_FAIL (sr_return_code_ r) || bool_decide (sr_operator_ r = None) then MysqlCommunicator_write_state r m
      else if OB_FAIL (SqlResult_open r) then MysqlCommunicator_write_state (SqlResult_set_return_code (SqlResult_open r) r) m
      else
        y ← MysqlCommunicator_send_column_definition r true m;
        let '(rc, need_disconnect, m) := y : RC * bool * MysqlCommunicator in
        if OB_FAIL rc then Done (rc, need_disconnect, m)
        else
          y ← MysqlCommunicator_send_result_rows r (bool_decide (sr_tuple_schema_ r = [])) m;
          let '(_, need_disconnect, r, m) := y : RC * bool * SqlResult * MysqlCommunicator in
          let '(close_rc, _) := SqlResult_close s r in
          m ← comm_flush m; Done (close_rc, need_disconnect, m)
  end.

(** ** Requests *)

Definition MysqlCommunicator_new (fd : Z) (k : socket) : outcome MysqlCommunicator :=
  w ← BufferedWriter_new fd DEFAULT_BUFFER_SIZE; Done (mkMysql false 0 0 w k).
Definition MysqlCommunicator_init (fd : Z) (k : socket) : outcome (RC * MysqlCommunicator) :=
  m ← MysqlCommunicator_new fd k;
  y ← MysqlCommunicator_send_packet (Handshake (HandshakeV10_new 0)) m;
  let '(rc, m) := y : RC * MysqlCommunicator in
  if OB_FAIL rc then Done (rc, m) else m ← comm_flush m; Done (rc, m).

(** [readn]: all the bytes or an error; what arrived of too few is lost. *)
Definition readn (size : Z) (input : bytes) : option bytes * bytes :=
  if size <=? blen input then (Some (sub 0 size input), drop (Z.to_nat size) input) else (None, []).

(** [payload_length] is a signed field of 24 bits. *)
Definition payload_length (header : bytes) : Z := sint 24 (le_dec (take 3 header)).
Definition sequence_of (header : bytes) : Z := sint 8 (le_dec (drop 3 header)).

Fixpoint string_find (pattern s : bytes) : bool :=
  bool_decide (pattern `prefix_of` s) || match s with [] => false | _ :: s => string_find pattern s end.

Definition decode_query_packet (net_packet : bytes) : outcome bytes :=
  q ← mem_read 1 (blen net_packet - 1) net_packet; Done (q ++ chars ";").

Definition version_comment_result : outcome SqlResult :=
  v ← Value_of_string (chars "MiniOB" ++ [0]) 0;
  Done (mkResult (Some (mkOper SUCCESS [[(SUCCESS, v)]] RECORD_EOF SUCCESS)) [mkSpec [] (chars "@@version_comment")] SUCCESS []).

(** The query of the event, if there is one, and the rest of the input.  A
    [vector] cannot have a negative size: the exception is not caught. *)
Definition MysqlCommunicator_read_event (s : Session) (input : bytes) (m : MysqlCommunicator)
    : outcome (RC * option bytes * bytes * MysqlCommunicator) :=
  let '(h, input) := readn 4 input in
  match h with
  | None => Done (IOERR_READ, None, input, m)
  | Some header =>
      let m := set_sequence (sint 8 (sequence_of header + 1)) m in
      let len := payload_length header in
      if len <? 0 then UB
      else
        let '(b, input) := readn len input in
        match b with
        | None => Done (IOERR_READ, None, input, m)
        | Some buf =>
            if negb (mc_authed_ m) then
              flag ← mem_read 0 4 buf;
              let m := mkMysql (mc_authed_ m) (Z.land (le_dec flag) (Z.lnot CLIENT_DEPRECATE_EOF mod 2 ^ 32)) (mc_sequence_id_ m)
                               (mc_writer_ m) (mc_out m) in
              y ← MysqlCommunicator_send_packet (Ok (OkPacket_new (mc_sequence_id_ m))) m;
              let '(rc, m) := y : RC * MysqlCommunicator in
              m ← comm_flush m;
              Done (rc, None, input, mkMysql true (mc_client_capabilities_flag_ m) (mc_sequence_id_ m) (mc_writer_ m) (mc_out m))
            else
              command_type ← mem_read 0 1 buf;
              if bool_decide (command_type = [3]) then
                query ← decode_query_packet buf;
                if string_find (chars "select @@version_comment") query then
                  r ← version_comment_result;
                  y ← MysqlCommunicator_write_result s (Some r) m;
                  let '(rc, _, m) := y : RC * bool * MysqlCommunicator in Done (rc, None, input, m)
                else Done (SUCCESS, Some query, input, m)
              else
                y ← MysqlCommunicator_send_packet (Ok (OkPacket_new (mc_sequence_id_ m))) m;
                let '(rc, m) := y : RC * MysqlCommunicator in
                if OB_FAIL rc then Done (rc, None, input, m) else m ← comm_flush m; Done (rc, None, input, m)
        end
  end.
End Communicator.

(** ** What is stored

    Consecutive stores are one. *)

Lemma put_put a b c : (put a c ≫= put b) = put (a ++ b) c.
Proof.
  destruct c as [buf pos]. pose proof (blen_nonneg a). pose proof (blen_nonneg b). unfold put; cbn [fst snd].
  assert (pos < 0 ∨ blen buf < pos + blen a ∨ 0 ≤ pos ∧ pos + blen a ≤ blen buf) as [Hn|[Hn|[Hp Ha]]] by lia.
  - unfold mem_write. by rewrite (proj2 (Z.leb_gt 0 pos)) by lia.
  - rewrite !mem_write_oob; [done|rewrite ?blen_app; lia..].
  - rewrite (mem_write_ok _ a) by lia. cbn [mbind outcome_bind fst snd].
    destruct (decide (pos + blen a + blen b ≤ blen buf)).
    + rewrite !mem_write_ok by (rewrite ?blen_splice, ?blen_app by lia; lia). cbn [mbind outcome_bind].
      by rewrite splice_next, blen_app, Z.add_assoc by lia.
    + rewrite !mem_write_oob; [done|rewrite ?blen_splice, ?blen_app by lia; lia..].
Qed.

Lemma put_bind {B} a b c (K : cursor → outcome B) : (put a c ≫= λ c, put b c ≫= K) = (put (a ++ b) c ≫= K).
Proof. by rewrite <-outcome_bind_assoc, put_put. Qed.

Lemma put_bind2 {B} a b d c (K : cursor → outcome B) :
  (put a c ≫= λ c, (put b c ≫= λ c, put d c) ≫= K) = (put (a ++ b ++ d) c ≫= K).
Proof.
  transitivity (put a c ≫= λ c, put (b ++ d) c ≫= K); [|apply put_bind]. destruct (put a c) as [c'| | |]; [|done..].
  cbn [mbind outcome_bind]. by rewrite <-(put_put b d).
Qed.

(** A string with its length in front. *)
Definition lstr (s : bytes) : bytes := lenenc (blen s) ++ s.

Lemma c_str_terminated s : 0 ∉ s → c_str (s ++ [0]) = Done s.
Proof. intros H. unfold c_str. by rewrite cstr_opt_app. Qed.

Lemma store_fix_put {B} a s len r c (K : cursor → outcome B) : len = blen s →
  (put a c ≫= λ c, store_fix_length_string (s ++ r) len c ≫= K) = (put (a ++ s) c ≫= K).
Proof.
  intros ->. unfold store_fix_length_string. destruct (blen s =? 0) eqn:E; zb.
  - assert (s = []) as -> by (destruct s; [done|rewrite blen_cons in E; pose proof (blen_nonneg s); lia]).
    by rewrite app_nil_r.
  - rewrite mem_read_ok by (rewrite ?blen_app; pose proof (blen_nonneg s); pose proof (blen_nonneg r); lia).
    cbn [mbind outcome_bind]. rewrite sub_app_l. apply put_bind.
Qed.

Lemma store_lenenc_put {B} a s c (K : cursor → outcome B) : 0 ∉ s → blen s < 2 ^ 64 →
  (put a c ≫= λ c, store_lenenc_string s c ≫= K) = (put (a ++ lstr s) c ≫= K).
Proof.
  intros Hs Hl. unfold store_lenenc_string, store_lenenc_int. rewrite c_str_terminated by done. cbn [mbind outcome_bind].
  rewrite u64_small by (pose proof (blen_nonneg s); lia).
  transitivity (put (a ++ lenenc (blen s)) c ≫= λ c, store_fix_length_string (s ++ [0]) (blen s) c ≫= K).
  - rewrite <-put_bind. destruct (put a c) as [c'| | |]; [|done..]. cbn [mbind outcome_bind].
    by destruct (put (lenenc (blen s)) c').
  - rewrite store_fix_put by done. unfold lstr. by rewrite app_assoc.
Qed.

(** A packet: its length in 3 bytes, its number, its payload. *)
Definition net_frame (seq : Z) (payload : bytes) : bytes := le_enc 3 (blen payload) ++ le_enc 1 seq ++ payload.

Lemma packet_done buf seq payload : 4 + blen payload ≤ blen buf →
  ∃ b, (put (le_enc 1 seq ++ payload) (buf, 3) ≫= λ c, b ← mem_write 0 (le_enc 3 (c.2 - 4)) c.1; Done (b, c.2))
       = Done (b, 4 + blen payload) ∧ blen b = blen buf ∧ take (Z.to_nat (4 + blen payload)) b = net_frame seq payload.
Proof.
  intros Hl. pose proof (blen_nonneg payload). unfold put; cbn [fst snd].
  rewrite mem_write_ok; [|lia|autorewrite with blen; lia]. cbn [mbind outcome_bind fst snd].
  autorewrite with blen.
  rewrite mem_write_ok; [|lia|rewrite blen_splice; autorewrite with blen; lia]. cbn [mbind outcome_bind].
  replace (3 + (Z.of_nat 1 + blen payload)) with (4 + blen payload) by lia. replace (4 + blen payload - 4) with (blen payload) by lia.
  destruct (split3 buf 3 (1 + blen payload)) as (h & o & c & -> & Hh & Ho); [lia..|].
  rewrite (splice_eq h o c) by (autorewrite with blen; lia).
  eexists. split; [done|].
  assert (splice 0 (le_enc 3 (blen payload)) (h ++ (le_enc 1 seq ++ payload) ++ c) = le_enc 3 (blen payload) ++ (le_enc 1 seq ++ payload) ++ c) as ->.
  { apply (splice_eq [] h ((le_enc 1 seq ++ payload) ++ c)); [done|]. autorewrite with blen. lia. }
  split; [autorewrite with blen; lia|]. rewrite app_assoc. apply take_app_length'.
  unfold net_frame. rewrite !length_app, !length_le_enc. unfold blen. lia.
Qed.

Lemma packet_encoded buf seq payload : 4 + blen payload ≤ blen buf →
  (put (le_enc 1 seq ++ payload) (buf, 3) ≫= packet_end) = Done (net_frame seq payload).
Proof.
  intros Hl. destruct (packet_done buf seq payload Hl) as (b & Hb & _ & Ht). unfold packet_end.
  destruct (put _ _) as [c| | |]; try done. cbn [mbind outcome_bind] in *.
  destruct (mem_write _ _ _) as [b'| | |]; try done. cbn [mbind outcome_bind] in *. injection Hb as -> ->. by rewrite Ht.
Qed.

(** A packet that does not fit is written outside its buffer. *)
Lemma packet_overrun buf seq payload (K : cursor → outcome bytes) : blen buf < 4 + blen payload →
  (put (le_enc 1 seq ++ payload) (buf, 3) ≫= K) = UB.
Proof. intros Hl. unfold put; cbn [fst snd]. rewrite mem_write_oob; [done|]. autorewrite with blen. lia. Qed.

(** *** The payloads *)

Definition eof_payload (capabilities warnings status_flags : Z) : bytes :=
  254 :: if has capabilities CLIENT_PROTOCOL_41 then le_enc 2 warnings ++ le_enc 2 status_flags else [].
Definition count_payload (capabilities n : Z) : bytes :=
  (if has capabilities CLIENT_OPTIONAL_RESULTSET_METADATA then [1] else []) ++ lenenc n.
Definition column_payload (spec : TupleCellSpec) : bytes :=
  lstr (chars "def") ++ lstr (chars "sys") ++ lstr (ts_table_name_ spec) ++ lstr (ts_table_name_ spec)
  ++ lstr (ts_alias_ spec) ++ lstr (ts_alias_ spec)
  ++ lenenc 12 ++ le_enc 2 33 ++ le_enc 4 16384 ++ le_enc 1 253 ++ le_enc 2 0 ++ le_enc 1 31 ++ le_enc 2 0.
Definition err_payload (capabilities code : Z) (message : bytes) : bytes :=
  255 :: le_enc 2 code ++ (if has capabilities CLIENT_PROTOCOL_41 then chars "#HY000" else []) ++ message.
Definition ok_payload (capabilities : Z) (affected_rows : Z) (info : bytes) : bytes :=
  0 :: lenenc (u64 affected_rows) ++ [0]
  ++ (if has capabilities CLIENT_PROTOCOL_41 then le_enc 2 34 ++ le_enc 2 0
      else if has capabilities CLIENT_TRANSACTIONS then le_enc 2 34 else [])
  ++ (if has capabilities CLIENT_SESSION_TRACK then lstr info else []).

Lemma eof_encoded seq w f caps : EofPacket_encode (mkEof seq (-2) w f) caps = Done (net_frame seq (eof_payload caps w f)).
Proof.
  unfold EofPacket_encode, store_int1, store_int2, eof_payload. cbn [eof_sequence_id eof_header eof_warnings eof_status_flags].
  destruct (has caps CLIENT_PROTOCOL_41).
  - rewrite put_bind, put_bind2, <-app_assoc. apply packet_encoded. vm_compute. discriminate.
  - rewrite put_bind. apply packet_encoded. vm_compute. discriminate.
Qed.

Lemma lenenc_length n : 1 ≤ blen (lenenc n) ≤ 9.
Proof. unfold lenenc. destruct (n <? 251), (n <? 2 ^ 17), (n <? 2 ^ 25); autorewrite with blen; lia. Qed.

Lemma count_encoded n m : 0 ≤ n < 2 ^ 64 →
  column_count_packet n m = Done (net_frame (mc_sequence_id_ m) (count_payload (mc_client_capabilities_flag_ m) n)).
Proof.
  intros Hn. unfold column_count_packet, store_int1, store_lenenc_int, count_payload. rewrite u64_small by done.
  pose proof (lenenc_length n). destruct (has _ _).
  - rewrite !put_bind, <-app_assoc. apply packet_encoded. autorewrite with blen. lia.
  - cbn [mbind outcome_bind]. rewrite put_bind. apply packet_encoded. autorewrite with blen. lia.
Qed.

Lemma column_encoded spec np m : 0 ∉ ts_table_name_ spec → 0 ∉ ts_alias_ spec → 4 + blen (column_payload spec) ≤ 1024 →
  column_packet spec np m = Done (net_frame (mc_sequence_id_ m) (column_payload spec)).
Proof.
  intros Ht Ha Hl. unfold column_packet.
  assert (blen (ts_table_name_ spec) < 2 ^ 64 ∧ blen (ts_alias_ spec) < 2 ^ 64) as [Ht2 Ha2].
  { unfold column_payload, lstr in Hl. rewrite !blen_app, !blen_le_enc in Hl.
    pose proof (lenenc_length (blen (ts_table_name_ spec))). pose proof (lenenc_length (blen (ts_alias_ spec))).
    pose proof (lenenc_length (blen (chars "def"))). pose proof (lenenc_length (blen (chars "sys"))). pose proof (lenenc_length 12).
    pose proof (blen_nonneg (ts_table_name_ spec)). pose proof (blen_nonneg (ts_alias_ spec)).
    pose proof (blen_nonneg (chars "def")). pose proof (blen_nonneg (chars "sys")). lia. }
  assert (0 ∉ chars "def" ∧ 0 ∉ chars "sys") as [Hd Hs] by (vm_compute; set_solver).
  assert (blen (chars "def") < 2 ^ 64 ∧ blen (chars "sys") < 2 ^ 64) as [Hd2 Hs2] by (split; vm_compute; reflexivity).
  unfold store_int1, store_int2, store_int4, store_lenenc_int at 1. change (u64 12) with 12.
  rewrite !store_lenenc_put, !put_bind by done. rewrite <-!app_assoc. apply packet_encoded.
  assert (blen (take 1024 np ++ replicate (1024 - length np) 0) = 1024) as ->; [|done].
  unfold blen. rewrite length_app, length_take, length_replicate. lia.
Qed.

(** ** A client

    The protocol as its documentation describes it: integers and strings with
    their length, packets, a text result set. *)

Definition split_at (n : Z) (bs : bytes) : option (bytes * bytes) :=
  if (0 <=? n) && (n <=? blen bs) then Some (sub 0 n bs, drop (Z.to_nat n) bs) else None.

Definition read_lenenc (bs : bytes) : option (Z * bytes) :=
  match bs with
  | [] => None
  | b :: bs =>
      if b <? 251 then Some (b, bs)
      else
        n ← (if b =? 252 then Some 2 else if b =? 253 then Some 3 else if b =? 254 then Some 8 else None);
        x ← split_at n bs; Some (le_dec x.1, x.2)
  end.
Definition read_lstr (bs : bytes) : option (bytes * bytes) := x ← read_lenenc bs; split_at x.1 x.2.

Fixpoint read_lstrs (fuel : nat) (bs : bytes) : option (list bytes) :=
  match fuel, bs with
  | _, [] => Some []
  | O, _ => None
  | S fuel, _ => x ← read_lstr bs; y ← read_lstrs fuel x.2; Some (x.1 :: y)
  end.

Definition read_frame (bs : bytes) : option (Z * bytes * bytes) :=
  x ← split_at 3 bs; y ← split_at 1 x.2; z ← split_at (le_dec x.1) y.2; Some (le_dec y.1, z.1, z.2).
(** The payloads of packets numbered from [s] on. *)
Fixpoint read_frames (fuel : nat) (s : Z) (bs : bytes) : option (list bytes) :=
  match fuel, bs with
  | _, [] => Some []
  | O, _ => None
  | S fuel, _ =>
      x ← read_frame bs;
      if x.1.1 =? s mod 256 then y ← read_frames fuel (s + 1) x.2; Some (x.1.2 :: y) else None
  end.

Definition is_eof (payload : bytes) : bool :=
  match payload with b :: _ => (b =? 254) && (blen payload <? 9) | [] => false end.
(** The name of a column: after catalog, schema and the two table names. *)
Definition read_column (payload : bytes) : option bytes :=
  a ← read_lstr payload; b ← read_lstr a.2; c ← read_lstr b.2; d ← read_lstr c.2; e ← read_lstr d.2; Some e.1.
Fixpoint read_rows (payloads : list bytes) : option (list (list bytes)) :=
  match payloads with
  | [] => None
  | p :: payloads =>
      if is_eof p then (match payloads with [] => Some [] | _ => None end)
      else r ← read_lstrs (length p) p; rs ← read_rows payloads; Some (r :: rs)
  end.
(** Names and cells of the result set that starts with packet number [s]. *)
Definition read_result_set (capabilities s : Z) (bs : bytes) : option (list bytes * list (list bytes)) :=
  payloads ← read_frames (length bs) s bs;
  match payloads with
  | [] => None
  | count :: payloads =>
      n ← read_lenenc (if has capabilities CLIENT_OPTIONAL_RESULTSET_METADATA then drop 1 count else count);
      names ← mapM read_column (take (Z.to_nat n.1) payloads);
      match drop (Z.to_nat n.1) payloads with
      | eof :: rows => if is_eof eof then rs ← read_rows rows; Some (names, rs) else None
      | [] => None
      end
  end.

(** *** What was stored is read *)

Lemma split_at_app a b n : n = blen a → split_at n (a ++ b) = Some (a, b).
Proof.
  intros ->. unfold split_at. rewrite blen_app. pose proof (blen_nonneg a). pose proof (blen_nonneg b).
  rewrite !(proj2 (Z.leb_le _ _)) by lia. cbn. rewrite sub_app_l. unfold blen. by rewrite Nat2Z.id, drop_app_length.
Qed.

(** Lengths the stored form can express: all but those between the bounds of
    the protocol and twice as much. *)
Definition lenenc_ok (n : Z) : Prop := 0 ≤ n < 2 ^ 64 ∧ ¬ (2 ^ 16 ≤ n < 2 ^ 17) ∧ ¬ (2 ^ 24 ≤ n < 2 ^ 25).

Lemma le_enc_1 n : le_enc 1 n = [n mod 256].
Proof. done. Qed.

Lemma read_lenenc_stored n rest : lenenc_ok n → read_lenenc (lenenc n ++ rest) = Some (n, rest).
Proof.
  intros (Hn & H1 & H2). unfold lenenc. destruct (n <? 251) eqn:E1; zb.
  { rewrite le_enc_1. cbn. rewrite Z.mod_small, (proj2 (Z.ltb_lt _ _)) by lia. done. }
  destruct (n <? 2 ^ 17) eqn:E2; zb; [|destruct (n <? 2 ^ 25) eqn:E3; zb]; cbn [app read_lenenc];
    cbn -[split_at le_enc]; rewrite split_at_app by (autorewrite with blen; done); cbn -[le_enc le_dec];
    rewrite le_dec_enc_small; try done.
  - change (2 ^ (8 * Z.of_nat 2)) with (2 ^ 16). lia.
  - change (2 ^ (8 * Z.of_nat 3)) with (2 ^ 24). lia.
Qed.

Lemma read_lstr_stored s rest : lenenc_ok (blen s) → read_lstr (lstr s ++ rest) = Some (s, rest).
Proof. intros H. unfold read_lstr, lstr. rewrite <-app_assoc, read_lenenc_stored by done. cbn. by apply split_at_app. Qed.

Lemma lstr_nonempty s : (1 ≤ length (lstr s))%nat.
Proof. unfold lstr. rewrite length_app. pose proof (lenenc_length (blen s)). unfold blen in *. lia. Qed.

Lemma read_lstrs_stored fuel ss : Forall (λ s, lenenc_ok (blen s)) ss → (length (concat (map lstr ss)) ≤ fuel)%nat →
  read_lstrs fuel (concat (map lstr ss)) = Some ss.
Proof.
  intros H. revert fuel. induction H as [|s ss Hs _ IH]; intros fuel Hf; [by destruct fuel|].
  cbn [map concat] in *. rewrite length_app in Hf. pose proof (lstr_nonempty s).
  destruct fuel as [|fuel]; [lia|]. cbn [read_lstrs].
  destruct (lstr s ++ concat (map lstr ss)) as [|b bs] eqn:E; [apply (f_equal length) in E; rewrite length_app in E; cbn in E; lia|].
  rewrite <-E, read_lstr_stored by done. cbn. rewrite IH by lia. done.
Qed.

Lemma read_frame_stored seq p rest : blen p < 2 ^ 24 → read_frame (net_frame seq p ++ rest) = Some (seq mod 256, p, rest).
Proof.
  intros Hp. pose proof (blen_nonneg p). unfold read_frame, net_frame. rewrite <-!app_assoc, split_at_app by (autorewrite with blen; done).
  cbn -[split_at le_enc]. rewrite split_at_app by (autorewrite with blen; done). cbn -[split_at le_enc].
  rewrite (le_dec_enc_small 3 (blen p)) by (change (2 ^ (8 * Z.of_nat 3)) with (2 ^ 24); lia). rewrite split_at_app by done. cbn. do 3 f_equal. lia.
Qed.

(** Packets with consecutive numbers. *)
Fixpoint framed (s : Z) (payloads : list bytes) : bytes :=
  match payloads with [] => [] | p :: payloads => net_frame s p ++ framed (s + 1) payloads end.

Lemma framed_app s a b : framed s (a ++ b) = framed s a ++ framed (s + blen a) b.
Proof.
  revert s. induction a as [|p a IH]; intros s; cbn [framed app]; [by rewrite blen_nil, Z.add_0_r|].
  rewrite IH, blen_cons, <-app_assoc. do 3 f_equal. lia.
Qed.

Lemma read_frames_stored fuel s ps : Forall (λ p, blen p < 2 ^ 24) ps → (length (framed s ps) ≤ fuel)%nat →
  read_frames fuel s (framed s ps) = Some ps.
Proof.
  intros H. revert fuel s. induction H as [|p ps Hp _ IH]; intros fuel s Hf; [by destruct fuel|].
  cbn [framed] in *. rewrite length_app in Hf.
  assert (4 ≤ length (net_frame s p))%nat by (unfold net_frame; rewrite !length_app, !length_le_enc; lia).
  destruct fuel as [|fuel]; [lia|]. cbn [read_frames].
  destruct (net_frame s p ++ framed (s + 1) ps) as [|b bs] eqn:E; [apply (f_equal length) in E; rewrite length_app in E; cbn in E; lia|].
  rewrite <-E, read_frame_stored by done. cbn. rewrite Z.eqb_refl, IH by lia. done.
Qed.

(** ** Packets reach the client in order *)

Section Serving.
Context (fuel : nat) (cap : Z) (Hcap : 0 < cap ≤ 2 ^ 30) (Hfuel : (Z.to_nat cap < fuel)%nat).

(** The bytes [t] have been handed to the writer, none of the coming [write]
    calls fails, and the next packet has number [s]. *)
Definition serving (caps s : Z) (t : bytes) (m : MysqlCommunicator) : Prop :=
  (∃ q, stream cap t q (mc_writer_ m) (mc_out m))
  ∧ Fail ∉ sk_schedule (mc_out m) ∧ (length (sk_schedule (mc_out m)) < fuel)%nat
  ∧ mc_client_capabilities_flag_ m = caps ∧ mc_sequence_id_ m mod 256 = s mod 256.

Lemma serving_caps caps s t m : serving caps s t m → mc_client_capabilities_flag_ m = caps.
Proof. by intros (_ & _ & _ & ? & _). Qed.

Lemma frame_number a b p : a mod 256 = b mod 256 → net_frame a p = net_frame b p.
Proof. intros H. unfold net_frame. by rewrite !le_enc_1, H. Qed.

Lemma writen_serving caps s t m data : serving caps s t m → (length data < fuel)%nat →
  ∃ m', comm_writen fuel data m = Done (SUCCESS, m') ∧ serving caps s (t ++ data) m'.
Proof using Hcap Hfuel.
  intros ((q & Hq) & Hf & Hl & Hc & Hs) Hd. unfold comm_writen.
  destruct (writen_spec cap Hcap fuel data t q _ _ Hq) as (rc & n & w & k & q' & -> & Hst & [Hsuf Hrc] & Hn & Hall); [done..|].
  destruct Hrc as [->|[_ ?]]; [|done]. rewrite (Hall eq_refl), sub_all in Hst. cbn. eexists; split; [done|].
  split; [by exists q'|]. cbn. split_and!; [|apply suffix_length in Hsuf; lia|done|done].
  intros Hin. apply Hf. destruct Hsuf as [x ->]. set_solver.
Qed.

Lemma next_serving caps s t m : serving caps s t m → serving caps (s + 1) t (next_sequence m).
Proof.
  intros (Hq & Hf & Hl & Hc & Hs). unfold serving; cbn. split_and!; try done.
  assert (∀ x, sint 8 x mod 256 = x mod 256) as Hsint.
  { intros x. unfold sint. change (2 ^ 8) with 256. destruct (x mod 256 <? 2 ^ (8 - 1)); [by rewrite Z.mod_mod|].
    rewrite <-(Z.mod_add _ 1) by lia. replace (x mod 256 - 256 + 1 * 256) with (x mod 256) by lia. by rewrite Z.mod_mod. }
  by rewrite Hsint, Z.add_mod, Hs, <-Z.add_mod.
Qed.

Lemma send_frame caps s t m p : serving caps s t m → (4 + length p < fuel)%nat →
  ∃ m', comm_writen fuel (net_frame (mc_sequence_id_ m) p) (next_sequence m) = Done (SUCCESS, m') ∧ serving caps (s + 1) (t ++ net_frame s p) m'.
Proof using Hcap Hfuel.
  intros Hm Hp. rewrite (frame_number _ s p) by apply Hm. apply writen_serving; [by apply next_serving|].
  unfold net_frame. rewrite !length_app, !length_le_enc. lia.
Qed.

Definition fits (p : bytes) : Prop := (4 + length p < fuel)%nat.
Definition column_ok (spec : TupleCellSpec) : Prop :=
  0 ∉ ts_table_name_ spec ∧ 0 ∉ ts_alias_ spec ∧ 4 + blen (column_payload spec) ≤ 1024.

Lemma send_columns_ok caps s t m np specs : serving caps s t m → Forall column_ok specs → Forall fits (map column_payload specs) →
  ∃ m', send_columns fuel specs np m = Done (SUCCESS, m')
    ∧ serving caps (s + blen specs) (t ++ framed s (map column_payload specs)) m'.
Proof using Hcap Hfuel.
  intros Hm Hs. revert s t m np Hm. induction Hs as [|spec specs (H1 & H2 & H3) _ IH]; intros s t m np Hm Hf.
  { exists m. split; [done|]. cbn [framed map]. by rewrite blen_nil, Z.add_0_r, app_nil_r. }
  cbn [map] in Hf. inversion Hf as [|? ? Hp Hf']; subst. cbn [send_columns]. rewrite column_encoded by done.
  cbn [mbind outcome_bind]. destruct (send_frame caps s t m (column_payload spec) Hm Hp) as (m1 & -> & Hm1).
  cbn [mbind outcome_bind]. change (OB_FAIL SUCCESS) with false. cbv iota.
  destruct (IH _ _ _ (net_frame (mc_sequence_id_ m) (column_payload spec)) Hm1 Hf') as (m' & -> & Hm'). exists m'. split; [done|].
  cbn [map framed]. rewrite blen_cons. by rewrite app_assoc, Z.add_assoc.
Qed.

Lemma send_eof caps s t m w f : serving caps s t m → fits (eof_payload caps w f) →
  ∃ m', MysqlCommunicator_send_packet fuel (Eof (mkEof (mc_sequence_id_ m) (-2) w f)) (next_sequence m) = Done (SUCCESS, m')
    ∧ serving caps (s + 1) (t ++ net_frame s (eof_payload caps w f)) m'.
Proof using Hcap Hfuel.
  intros Hm Hf. unfold MysqlCommunicator_send_packet. cbn [encode]. rewrite eof_encoded. cbn [mbind outcome_bind next_sequence set_sequence mc_client_capabilities_flag_].
  rewrite (serving_caps _ _ _ _ Hm). by apply send_frame.
Qed.

(** *** Rows *)

(** Cells that are shown as [texts], one after the other in one [Value]. *)
Inductive row_ok : Value → list (RC * Value) → list bytes → Prop :=
  | row_nil v : row_ok v [] []
  | row_cons v cell cells text texts : value_ok cell → ¬ clash v cell → Value_to_string cell = Done text → 0 ∉ text → blen text < 2 ^ 64 →
      row_ok cell cells texts → row_ok v ((SUCCESS, cell) :: cells) (text :: texts).

Definition row_payload (texts : list bytes) : bytes := concat (map lstr texts).

Lemma write_cells_ok v cells texts r : row_ok v cells texts → ∀ v0, value_ok v0 → (∀ x, clash v0 x → clash v x) →
  ∃ w, value_ok w ∧ ∀ B a c (K : Value * SqlResult * cursor → outcome B),
    (put a c ≫= λ c, write_cells cells v0 r c ≫= K) = (put (a ++ row_payload texts) c ≫= λ c, K (w, r, c)).
Proof.
  induction 1 as [v|v cell cells text texts Hok Hcl Ht H0 Hlen _ IH]; intros v0 Hv0 Hx.
  { exists v0. split; [done|]. intros. unfold row_payload; cbn. by rewrite app_nil_r. }
  destruct (assign_ok v0 cell Hv0 Hok) as [Hc|(w & Hw & Hwok & (Hty & _ & Hs & _) & Heq)]; [by apply Hx in Hc|].
  destruct (IH w Hwok) as (w' & Hok' & Hrest).
  { intros x Hwx. destruct (decide (v_attr_type_ cell = CHARS)) as [Hch|Hch]; [|by rewrite <-(Heq Hch)].
    destruct Hwx as (_ & _ & Hne & _). congruence. }
  exists w'. split; [done|]. intros B a c K. cbn [write_cells]. change (OB_FAIL SUCCESS) with false. cbv iota.
  rewrite Hw. cbn [mbind outcome_bind]. rewrite Hs, Ht. cbn [mbind outcome_bind].
  transitivity (put a c ≫= λ c, store_lenenc_string text c ≫= λ c, write_cells cells w r c ≫= K).
  { destruct (put a c); [|done..]. cbn [mbind outcome_bind]. by destruct (store_lenenc_string text _). }
  rewrite store_lenenc_put by done. rewrite Hrest. unfold row_payload. cbn [map concat]. by rewrite app_assoc.
Qed.
Lemma write_rows_ok N end_code r rows textss : end_code ≠ SUCCESS →
  Forall2 (λ cells texts, texts ≠ [] ∧ row_ok Value_new cells texts ∧ 4 + blen (row_payload texts) ≤ N) rows textss →
  Forall fits (map row_payload textss) →
  ∀ caps s t m packet n, serving caps s t m → blen packet = N →
  ∃ m' k, write_rows fuel rows end_code r packet n m = Done (end_code, r, k, m')
    ∧ serving caps (s + blen textss) (t ++ framed s (map row_payload textss)) m'.
Proof using Hcap Hfuel.
  intros He Hrows. induction Hrows as [|cells texts rows textss (Hne & Hrow & HN) _ IH]; intros Hf caps s t m packet n Hm Hp.
  { exists m, n. cbn [write_rows]. unfold OB_SUCC. rewrite bool_decide_false by done. split; [done|].
    cbn [framed map]. by rewrite blen_nil, Z.add_0_r, app_nil_r. }
  cbn [map] in Hf. inversion Hf as [|? ? Hfp Hf']; subst.
  destruct cells as [|cell cells]; [by inversion Hrow; subst|].
  assert (value_ok Value_new) as Hnew by by split.
  destruct (write_cells_ok _ _ _ r Hrow Value_new Hnew ltac:(done)) as (w & Hw & Hcells).
  destruct (packet_done packet (mc_sequence_id_ m) (row_payload texts) ltac:(lia)) as (b & Hb & Hlb & Htb).
  destruct (send_frame caps s t m (row_payload texts) Hm Hfp) as (m1 & Hm1 & Hs1).
  destruct (IH Hf' caps (s + 1) _ m1 b (n + 1) Hs1 ltac:(lia)) as (m' & k & Hrest & Hm').
  exists m', k. split; [|cbn [map framed]; by rewrite blen_cons, app_assoc, Z.add_assoc].
  cbn [write_rows]. unfold store_int1. rewrite Hcells. clear Hcells.
  destruct (put _ _) as [[buf pos]| | |]; try done. cbn [mbind outcome_bind fst snd] in Hb |- *.
  destruct (mem_write _ _ buf) as [b'| | |]; try done. cbn [mbind outcome_bind] in Hb |- *. injection Hb as -> ->.
  rewrite Htb, Hm1. cbn [mbind outcome_bind]. destruct (reset_ok w Hw) as (x & -> & _). cbn [mbind outcome_bind].
  change (OB_FAIL SUCCESS) with false. cbv iota. exact Hrest.
Qed.

(** The payloads of a result set. *)
Definition result_set (caps : Z) (specs : list TupleCellSpec) (textss : list (list bytes)) : list bytes :=
  (count_payload caps (blen specs) :: map column_payload specs ++ [eof_payload caps 0 2])
  ++ map row_payload textss ++ [eof_payload caps 0 34].

Lemma flush_serving caps s t m : serving caps s t m →
  ∃ m', comm_flush fuel m = Done m' ∧ serving caps s t m' ∧ sk_received (mc_out m') = t.
Proof using Hcap Hfuel.
  intros ((q & Hq) & Hf & Hl & Hc & Hs). unfold comm_flush. pose proof (stream_room cap Hcap _ _ _ _ Hq).
  destruct (writer_flush_spec cap Hcap fuel t q _ _ Hq) as (rc & w & k & q' & -> & Hst & [Hsuf Hrc] & Hall); [lia|done|].
  destruct Hrc as [->|[_ ?]]; [|done]. cbn. eexists; split; [done|]. rewrite (Hall eq_refl) in Hst.
  split; [|destruct Hst as (_ & _ & <-); by rewrite app_nil_r].
  split; [by exists []|]. cbn. split_and!; [|apply suffix_length in Hsuf; lia|done|done].
  intros Hin. apply Hf. destruct Hsuf as [x ->]. set_solver.
Qed.

Lemma send_column_definition_ok caps s t m r nd : serving caps s t m → has caps CLIENT_DEPRECATE_EOF = false →
  sr_tuple_schema_ r ≠ [] → blen (sr_tuple_schema_ r) < 2 ^ 64 → Forall column_ok (sr_tuple_schema_ r) →
  Forall fits (count_payload caps (blen (sr_tuple_schema_ r)) :: map column_payload (sr_tuple_schema_ r) ++ [eof_payload caps 0 2]) →
  ∃ m', MysqlCommunicator_send_column_definition fuel r nd m = Done (SUCCESS, false, m')
    ∧ serving caps (s + (2 + blen (sr_tuple_schema_ r)))
        (t ++ framed s (count_payload caps (blen (sr_tuple_schema_ r)) :: map column_payload (sr_tuple_schema_ r) ++ [eof_payload caps 0 2])) m'.
Proof using Hcap Hfuel.
  intros Hm Hd Hne Hl Hcols Hf. inversion Hf as [|? ? Hf0 Hf1]; subst. apply Forall_app in Hf1 as [Hf1 Hf2].
  inversion Hf2 as [|? ? Hf3 _]; subst. unfold MysqlCommunicator_send_column_definition. pose proof (blen_nonneg (sr_tuple_schema_ r)).
  destruct (sr_tuple_schema_ r) as [|c0 cols] eqn:Esp; [done|]. rewrite <-Esp in *. clear Esp.
  rewrite count_encoded by lia. cbn [mbind outcome_bind]. rewrite (serving_caps _ _ _ _ Hm).
  destruct (send_frame caps s t m _ Hm Hf0) as (m1 & -> & Hm1). cbn [mbind outcome_bind]. change (OB_FAIL SUCCESS) with false. cbv iota.
  destruct (send_columns_ok caps (s + 1) _ m1 (net_frame (mc_sequence_id_ m) (count_payload caps (blen (sr_tuple_schema_ r)))) _ Hm1 Hcols Hf1)
    as (m2 & -> & Hm2). cbn [mbind outcome_bind].
  change (OB_FAIL SUCCESS) with false. cbv iota. rewrite (serving_caps _ _ _ _ Hm2), Hd.
  destruct (send_eof caps _ _ m2 0 2 Hm2 Hf3) as (m3 & -> & Hm3). cbn. exists m3. split; [done|].
  cbn [framed]. rewrite framed_app. cbn [framed]. rewrite app_nil_r.
  replace (blen (map column_payload (sr_tuple_schema_ r))) with (blen (sr_tuple_schema_ r)) by (unfold blen; by rewrite length_map).
  rewrite <-!app_assoc in Hm3.
  replace (s + (2 + blen (sr_tuple_schema_ r))) with (s + 1 + blen (sr_tuple_schema_ r) + 1) by lia. done.
Qed.

Lemma write_result_ok ss caps s t m r o textss :
  serving caps s t m → has caps CLIENT_DEPRECATE_EOF = false →
  sr_return_code_ r = SUCCESS → sr_operator_ r = Some o → po_open o = SUCCESS → po_end o ≠ SUCCESS →
  sr_tuple_schema_ r ≠ [] → blen (sr_tuple_schema_ r) < 2 ^ 64 → Forall column_ok (sr_tuple_schema_ r) →
  Forall2 (λ cells texts, texts ≠ [] ∧ row_ok Value_new cells texts ∧ 4 + blen (row_payload texts) ≤ PACKET_SIZE) (po_rows o) textss →
  Forall fits (result_set caps (sr_tuple_schema_ r) textss) →
  ∃ m', MysqlCommunicator_write_result fuel ss (Some r) m = Done ((SqlResult_close ss r).1, false, m')
    ∧ sk_received (mc_out m') = t ++ framed s (result_set caps (sr_tuple_schema_ r) textss).
Proof using Hcap Hfuel.
  intros Hm Hd Hrc Ho Hop He Hne Hl Hcols Hrows Hf. unfold result_set in Hf. apply Forall_app in Hf as [Hf1 Hf2].
  apply Forall_app in Hf2 as [Hf2 Hf3]. inversion Hf3 as [|? ? Hf4 _]; subst. unfold MysqlCommunicator_write_result.
  rewrite Hrc, Ho. unfold SqlResult_open. rewrite Ho, Hop. change (OB_FAIL SUCCESS) with false. rewrite bool_decide_false by done. cbn [orb]. cbv iota.
  destruct (send_column_definition_ok caps s t m r true Hm Hd Hne Hl Hcols Hf1) as (m1 & -> & Hm1). cbn [mbind outcome_bind].
  change (OB_FAIL SUCCESS) with false. cbv iota. rewrite bool_decide_false by done.
  unfold MysqlCommunicator_send_result_rows, MysqlCommunicator_write_tuple_result. rewrite Ho. cbn [deref mbind outcome_bind].
  destruct (write_rows_ok PACKET_SIZE (po_end o) r (po_rows o) textss He Hrows Hf2 caps _ _ m1 (replicate (Z.to_nat PACKET_SIZE) 0) 0 Hm1)
    as (m2 & k & -> & Hm2); [rewrite blen_replicate; apply Z2Nat.id; unfold PACKET_SIZE; lia|].
  cbn [mbind outcome_bind]. rewrite (serving_caps _ _ _ _ Hm2), Hd. cbn [orb]. cbv iota. unfold EofPacket_new.
  destruct (send_eof caps _ _ m2 0 34 Hm2 Hf4) as (m3 & -> & Hm3). cbn [mbind outcome_bind].
  destruct (SqlResult_close ss r) as [rc r'] eqn:Ecl. cbn [fst].
  destruct (flush_serving _ _ _ _ Hm3) as (m4 & -> & _ & Hr4). cbn [mbind outcome_bind]. exists m4. split; [done|].
  rewrite Hr4. unfold result_set. rewrite !framed_app. cbn [framed]. rewrite app_nil_r.
  rewrite <-!app_assoc. do 2 f_equal.
  replace (blen (count_payload caps (blen (sr_tuple_schema_ r)) :: map column_payload (sr_tuple_schema_ r) ++ [eof_payload caps 0 2]))
    with (2 + blen (sr_tuple_schema_ r)) by (rewrite blen_cons, blen_app; unfold blen; rewrite length_map; cbn; lia).
  f_equal. f_equal. unfold blen. by rewrite length_map.
Qed.
End Serving.

(** ** A result set is read back *)

Record sendable (r : SqlResult) (o : PhysicalOperator) (textss : list (list bytes)) : Prop := mkSendable {
  sd_code : sr_return_code_ r = SUCCESS;
  sd_operator : sr_operator_ r = Some o;
  sd_open : po_open o = SUCCESS;
  sd_end : po_end o ≠ SUCCESS;
  sd_some : sr_tuple_schema_ r ≠ [];
  sd_count : lenenc_ok (blen (sr_tuple_schema_ r));
  sd_columns : Forall column_ok (sr_tuple_schema_ r);
  sd_rows : Forall2 (λ cells texts, texts ≠ [] ∧ row_ok Value_new cells texts ∧ 4 + blen (row_payload texts) ≤ PACKET_SIZE) (po_rows o) textss;
  sd_texts : Forall (Forall (λ t, lenenc_ok (blen t))) textss }.

Lemma eof_is_eof caps w f : is_eof (eof_payload caps w f) = true.
Proof. unfold eof_payload. by destruct (has caps CLIENT_PROTOCOL_41). Qed.

Lemma column_text_short spec : 4 + blen (column_payload spec) ≤ 1024 → blen (ts_table_name_ spec) < 1024 ∧ blen (ts_alias_ spec) < 1024.
Proof.
  unfold column_payload, lstr. rewrite !blen_app, !blen_le_enc. intros Hl.
  pose proof (lenenc_length (blen (ts_table_name_ spec))). pose proof (lenenc_length (blen (ts_alias_ spec))).
  pose proof (lenenc_length (blen (chars "def"))). pose proof (lenenc_length (blen (chars "sys"))). pose proof (lenenc_length 12).
  pose proof (blen_nonneg (ts_table_name_ spec)). pose proof (blen_nonneg (ts_alias_ spec)).
  pose proof (blen_nonneg (chars "def")). pose proof (blen_nonneg (chars "sys")). lia.
Qed.

Lemma read_column_stored spec : column_ok spec → read_column (column_payload spec) = Some (ts_alias_ spec).
Proof.
  intros (_ & _ & Hl). destruct (column_text_short spec Hl) as [Ht Ha]. pose proof (blen_nonneg (ts_table_name_ spec)).
  pose proof (blen_nonneg (ts_alias_ spec)). unfold read_column, column_payload.
  rewrite read_lstr_stored by (vm_compute; naive_solver discriminate). cbn [mbind option_bind fst snd].
  rewrite read_lstr_stored by (vm_compute; naive_solver discriminate). cbn [mbind option_bind fst snd].
  do 3 (rewrite read_lstr_stored by (unfold lenenc_ok; lia); cbn [mbind option_bind fst snd]). done.
Qed.

Lemma row_not_eof texts : texts ≠ [] → 4 + blen (row_payload texts) ≤ PACKET_SIZE → is_eof (row_payload texts) = false.
Proof.
  destruct texts as [|t ts]; [done|]. intros _. unfold row_payload, PACKET_SIZE. cbn [map concat].
  generalize (concat (map lstr ts)) as rest. intros rest. unfold lstr, lenenc. pose proof (blen_nonneg t). pose proof (blen_nonneg rest). rewrite !blen_app.
  destruct (blen t <? 251) eqn:E1; zb; [intros _; rewrite le_enc_1; cbn [app is_eof]; rewrite Z.mod_small by lia; rewrite (proj2 (Z.eqb_neq _ _)) by lia; done|].
  destruct (blen t <? 2 ^ 17); [done|]. destruct (blen t <? 2 ^ 25) eqn:E3; [done|]. zb. intros Hl. exfalso.
  pose proof (blen_nonneg (254 :: le_enc 8 (blen t))). lia.
Qed.

Lemma read_rows_stored rows textss caps f :
  Forall2 (λ (cells : list (RC * Value)) texts, texts ≠ [] ∧ row_ok Value_new cells texts ∧ 4 + blen (row_payload texts) ≤ PACKET_SIZE) rows textss →
  Forall (Forall (λ t, lenenc_ok (blen t))) textss →
  read_rows (map row_payload textss ++ [eof_payload caps 0 f]) = Some textss.
Proof.
  induction 1 as [|cells texts rows textss (Hne & _ & Hl) _ IH]; intros Hok; cbn [map app read_rows]; [by rewrite eof_is_eof|].
  inversion Hok as [|? ? Ht Hok']; subst. rewrite row_not_eof by done.
  change (read_lstrs ?n (row_payload ?x)) with (read_lstrs n (concat (map lstr x))). rewrite read_lstrs_stored by done. cbn. by rewrite IH.
Qed.

Lemma mapM_columns specs : Forall column_ok specs → mapM read_column (map column_payload specs) = Some (map ts_alias_ specs).
Proof. induction 1 as [|spec specs Hs _ IH]; cbn; [done|]. rewrite read_column_stored by done. cbn. by rewrite IH. Qed.

Lemma count_short caps n : blen (count_payload caps n) ≤ 10.
Proof. unfold count_payload. pose proof (lenenc_length n). rewrite blen_app. destruct (has _ _); autorewrite with blen; lia. Qed.

Lemma eof_short caps w f : blen (eof_payload caps w f) ≤ 5.
Proof. unfold eof_payload. rewrite blen_cons. destruct (has _ _); autorewrite with blen; lia. Qed.

Lemma read_result_set_stored r o textss caps s : sendable r o textss →
  read_result_set caps s (framed s (result_set caps (sr_tuple_schema_ r) textss)) = Some (map ts_alias_ (sr_tuple_schema_ r), textss).
Proof.
  intros [? ? ? ? Hne Hcount Hcols Hrows Htexts]. unfold read_result_set.
  rewrite read_frames_stored; [| |done].
  2: { unfold result_set. apply Forall_app. split; [apply Forall_cons; split; [pose proof (count_short caps (blen (sr_tuple_schema_ r))); lia|]|];
       apply Forall_app; (split; [apply Forall_map|apply Forall_cons; split; [|done]]).
       - eapply Forall_impl; [exact Hcols|]. intros spec (_ & _ & Hl). cbn. lia.
       - pose proof (eof_short caps 0 2). lia.
       - rewrite Forall_forall. intros texts Hin. apply list_elem_of_lookup in Hin as [i Hi].
         destruct (Forall2_lookup_r _ _ _ _ _ Hrows Hi) as (cells & _ & _ & _ & Hl). unfold PACKET_SIZE in Hl. lia.
       - pose proof (eof_short caps 0 34). lia. }
  cbn [mbind option_bind]. unfold result_set. cbn [app].
  assert ((if has caps CLIENT_OPTIONAL_RESULTSET_METADATA then drop 1 (count_payload caps (blen (sr_tuple_schema_ r)))
           else count_payload caps (blen (sr_tuple_schema_ r))) = lenenc (blen (sr_tuple_schema_ r)) ++ []) as ->.
  { unfold count_payload. rewrite app_nil_r. by destruct (has _ _). }
  rewrite read_lenenc_stored by done. cbn [mbind option_bind fst snd].
  assert (Z.to_nat (blen (sr_tuple_schema_ r)) = length (map column_payload (sr_tuple_schema_ r))) as ->
    by (unfold blen; rewrite Nat2Z.id; by rewrite length_map).
  rewrite <-!app_assoc, take_app_length, drop_app_length, mapM_columns by done. cbn [mbind option_bind app].
  rewrite eof_is_eof. erewrite read_rows_stored by done. done.
Qed.

Lemma framed_fits fuel s ps : (length (framed s ps) < fuel)%nat → Forall (fits fuel) ps.
Proof.
  revert s. induction ps as [|p ps IH]; intros s H; [done|]. cbn [framed] in H. rewrite length_app in H.
  unfold net_frame in H. rewrite !length_app, !length_le_enc in H. constructor; [unfold fits; lia|]. apply (IH (s + 1)). lia.
Qed.

Lemma new_serving fuel fd sched w caps seq : 0 ≤ fd → BufferedWriter_new fd DEFAULT_BUFFER_SIZE = Done w → Fail ∉ sched →
  (length sched < fuel)%nat → serving fuel DEFAULT_BUFFER_SIZE caps seq [] (mkMysql true caps seq w (mkSocket [] sched)).
Proof.
  intros Hfd Hw Hs Hl. unfold BufferedWriter_new in Hw.
  destruct (ring_new DEFAULT_BUFFER_SIZE) as (r & Hr & Hok); [unfold DEFAULT_BUFFER_SIZE; lia..|]. rewrite Hr in Hw. cbn in Hw. simplify_eq.
  split; [exists []; by split|]. cbn. by split_and!.
Qed.

(** C27: a result set sent to a client with the old EOF packets is read back by
    a client of the protocol: whatever the socket does short of failing, after
    [write_result] the bytes the client has received are packets numbered in
    sequence that hold the column names and the cells of every row, in order;
    the code returned is that of closing the result.  Columns fit the packet of
    1024 bytes, rows the one of 4 MB, no cell is an empty string after a
    number and no cell has a length the encoding garbles. *)
Theorem result_set_roundtrip fuel fd sched w caps seq ss r o textss :
  0 ≤ fd → BufferedWriter_new fd DEFAULT_BUFFER_SIZE = Done w → Fail ∉ sched → has caps CLIENT_DEPRECATE_EOF = false →
  sendable r o textss →
  (Z.to_nat DEFAULT_BUFFER_SIZE + length sched + length (framed seq (result_set caps (sr_tuple_schema_ r) textss)) < fuel)%nat →
  ∃ m', MysqlCommunicator_write_result fuel ss (Some r) (mkMysql true caps seq w (mkSocket [] sched)) = Done ((SqlResult_close ss r).1, false, m')
    ∧ read_result_set caps seq (sk_received (mc_out m')) = Some (map ts_alias_ (sr_tuple_schema_ r), textss).
Proof.
  intros Hfd Hw Hs Hd Hr Hf. pose proof Hr as [H1 H2 H3 H4 H5 [H6 _] H7 H8 H9].
  pose proof (new_serving fuel fd sched w caps seq Hfd Hw Hs ltac:(lia)) as Hm.
  destruct (write_result_ok fuel DEFAULT_BUFFER_SIZE ltac:(unfold DEFAULT_BUFFER_SIZE; lia) ltac:(lia) ss caps seq [] _ r o textss Hm)
    as (m' & -> & Hrcv); [done|done|done|done|done|done|lia|done|done|apply (framed_fits fuel seq); lia|].
  exists m'. split; [done|]. rewrite Hrcv. by eapply read_result_set_stored.
Qed.

Definition sample_spec : list TupleCellSpec := [mkSpec (chars "t") (chars "id"); mkSpec (chars "t") (chars "name")].
Definition sample_row (z : Z) (s : bytes) : list (RC * Value) :=
  [(SUCCESS, mkValue INTS 4 (int_value_ z) false); (SUCCESS, mkValue CHARS (blen s) (pointer_value_ (Owned (s ++ [0]))) true)].
Definition sample_oper : PhysicalOperator := mkOper SUCCESS [sample_row 7 (chars "x"); sample_row (-12) (chars "yz")] RECORD_EOF SUCCESS.
Definition sample_result : SqlResult := mkResult (Some sample_oper) sample_spec SUCCESS [].
Definition sample_texts : list (list bytes) := [[chars "7"; chars "x"]; [chars "-12"; chars "yz"]].

Lemma sample_row_ok z s t : int32_range z → Value_to_string (mkValue INTS 4 (int_value_ z) false) = Done t → 0 ∉ t → blen t < 2 ^ 64 →
  0 ∉ s → s ≠ [] → blen s < 2 ^ 64 → row_ok Value_new (sample_row z s) [t; s].
Proof.
  intros Hz Ht H0 Hl Hs Hne Hls. apply row_cons; [by split; [done|exists z]|by intros [? _]|done..|].
  apply row_cons; [left; by exists s|intros (_ & Hx & _)| |done..|apply row_nil].
  - cbn in Hx. destruct s; [done|]. rewrite blen_cons in Hx. pose proof (blen_nonneg s). lia.
  - unfold Value_to_string, CharType_to_string; cbn. by rewrite c_str_terminated.
Qed.

Lemma sample_sendable : sendable sample_result sample_oper sample_texts.
Proof.
  split; try done.
  - vm_compute. naive_solver discriminate.
  - repeat constructor; vm_compute; try discriminate; set_solver.
  - repeat (constructor; [split_and!; [done| |vm_compute; discriminate]|]); [| |constructor];
      (apply sample_row_ok; [unfold int32_range; vm_compute; split; discriminate|vm_compute; reflexivity|vm_compute; set_solver|
        vm_compute; reflexivity|vm_compute; set_solver|discriminate|vm_compute; reflexivity]).
  - repeat constructor; vm_compute; naive_solver discriminate.
Qed.

Lemma result_set_roundtrip_witness :
  ∃ w m', BufferedWriter_new 5 DEFAULT_BUFFER_SIZE = Done w
    ∧ MysqlCommunicator_write_result 17000 (mkSession false SUCCESS) (Some sample_result)
        (mkMysql true 512 1 w (mkSocket [] [Accept 3; Again; Accept 1])) = Done (SUCCESS, false, m')
    ∧ read_result_set 512 1 (sk_received (mc_out m')) = Some ([chars "id"; chars "name"], sample_texts).
Proof.
  destruct (result_set_roundtrip 17000 5 [Accept 3; Again; Accept 1] (mkWriter 5 (mkRing (replicate (Z.to_nat DEFAULT_BUFFER_SIZE) 0) 0 0))
              512 1 (mkSession false SUCCESS) sample_result sample_oper sample_texts) as (m' & H1 & H2).
  - discriminate.
  - reflexivity.
  - set_solver.
  - reflexivity.
  - apply sample_sendable.
  - vm_compute. lia.
  - eexists _, m'. split; [reflexivity|]. split; [exact H1|exact H2].
Defined.

(** ** What goes wrong *)

(** The same result, its operator ending with code [e]. *)
Definition ends_with (e : RC) (r : SqlResult) : SqlResult :=
  mkResult ((λ o, mkOper (po_open o) (po_rows o) e (po_close o)) <$> sr_operator_ r) (sr_tuple_schema_ r) (sr_return_code_ r) (sr_state_string_ r).

Lemma write_cells_ends e cells : ∀ v r c,
  write_cells cells v (ends_with e r) c = (y ← write_cells cells v r c; let '(v, r, c) := y : Value * SqlResult * cursor in Done (v, ends_with e r, c)).
Proof.
  induction cells as [|[rc cell] cells IH]; intros v r c; cbn [write_cells]; [done|]. destruct (OB_FAIL rc); [done|].
  destruct (Value_assign cell v) as [v'| | |]; [|done..]. cbn [mbind outcome_bind].
  destruct (Value_to_string v') as [s| | |]; [|done..]. cbn [mbind outcome_bind]. destruct (store_lenenc_string s c) as [c'| | |]; [|done..].
  cbn [mbind outcome_bind]. apply IH.
Qed.

Lemma write_rows_ends fuel e1 e2 rows : e1 ≠ SUCCESS → e2 ≠ SUCCESS → ∀ r p n m,
  (y ← write_rows fuel rows e2 (ends_with e2 r) p n m; let '(_, r, k, m) := y : RC * SqlResult * Z * MysqlCommunicator in Done (r, k, m))
  = (y ← write_rows fuel rows e1 r p n m; let '(_, r, k, m) := y : RC * SqlResult * Z * MysqlCommunicator in Done (ends_with e2 r, k, m)).
Proof.
  intros H1 H2. induction rows as [|[|cell cells] rows IH]; intros r p n m; cbn [write_rows].
  - unfold OB_SUCC. rewrite !bool_decide_false by done. done.
  - apply IH.
  - destruct (store_int1 _ _) as [c| | |]; [|done..]. cbn [mbind outcome_bind]. rewrite write_cells_ends.
    destruct (write_cells _ Value_new r c) as [[[v r'] [buf pos]]| | |]; [|done..]. cbn [mbind outcome_bind].
    destruct (mem_write _ _ _) as [p'| | |]; [|done..]. cbn [mbind outcome_bind].
    destruct (comm_writen _ _ _) as [[rc m']| | |]; [|done..]. cbn [mbind outcome_bind].
    destruct (Value_reset v) as [v'| | |]; [|done..]. cbn [mbind outcome_bind]. destruct (OB_FAIL rc); [done|]. apply IH.
Qed.

(** C36: a query that fails while its rows are read looks complete to the
    client: whatever code other than success the operator ends with, the same
    packets are sent and the same code is returned as for [RECORD_EOF], the
    normal end. *)
Theorem failed_query_looks_complete fuel ss m r e o : sr_operator_ r = Some o → po_end o ≠ SUCCESS → e ≠ SUCCESS →
  MysqlCommunicator_write_result fuel ss (Some (ends_with e r)) m = MysqlCommunicator_write_result fuel ss (Some r) m.
Proof.
  intros Ho H1 H2. unfold MysqlCommunicator_write_result. cbn [sr_return_code_ ends_with].
  destruct (OB_FAIL (sr_return_code_ r)); [by destruct r|]. cbn [sr_operator_ ends_with orb]. rewrite Ho. cbn [fmap option_fmap option_map].
  rewrite !bool_decide_false by done. unfold SqlResult_open. cbn [sr_operator_ ends_with]. rewrite Ho. cbn [fmap option_fmap option_map po_open].
  destruct (OB_FAIL (po_open o)); [by unfold MysqlCommunicator_write_state, state_text|].
  change (MysqlCommunicator_send_column_definition fuel (ends_with e r) true m) with (MysqlCommunicator_send_column_definition fuel r true m).
  destruct (MysqlCommunicator_send_column_definition fuel r true m) as [[[rc nd] m1]| | |]; [|done..]. cbn [mbind outcome_bind].
  destruct (OB_FAIL rc); [done|]. unfold MysqlCommunicator_send_result_rows, MysqlCommunicator_write_tuple_result. cbn [sr_operator_ ends_with sr_tuple_schema_]. rewrite Ho.
  cbn [fmap option_fmap option_map deref mbind outcome_bind po_rows po_end].
  pose proof (write_rows_ends fuel (po_end o) e (po_rows o) H1 H2 r (replicate (Z.to_nat PACKET_SIZE) 0) 0 m1) as Hw.
  destruct (write_rows fuel (po_rows o) e _ _ _ _) as [[[[c1 r1] k1] m1']| | |], (write_rows fuel (po_rows o) (po_end o) _ _ _ _) as [[[[c2 r2] k2] m2']| | |];
    cbn [mbind outcome_bind] in Hw |- *; try done.
  injection Hw as -> -> ->. destruct (MysqlCommunicator_send_packet _ _ _) as [[rc2 m3]| | |]; [|done..]. cbn [mbind outcome_bind].
  unfold SqlResult_close. cbn [sr_operator_ ends_with]. by destruct (sr_operator_ r2).
Qed.
Definition idle : MysqlCommunicator := mkMysql true 512 1 (mkWriter 5 (mkRing (replicate 16 0) 0 0)) (mkSocket [] []).
Lemma failed_query_looks_complete_witness :
  MysqlCommunicator_write_result 100 (mkSession false SUCCESS) (Some (ends_with IOERR_READ sample_result)) idle
  = MysqlCommunicator_write_result 100 (mkSession false SUCCESS) (Some sample_result) idle.
Proof. apply (failed_query_looks_complete 100 (mkSession false SUCCESS) idle sample_result IOERR_READ sample_oper); [reflexivity|discriminate..]. Defined.

(** Encoding of the packets that carry a text: in bounds, or undefined. *)
Lemma err_encoded seq code msg caps : ErrPacket_encode (mkErr seq (-1) code (chars "#") (chars "HY000") msg) caps
  = if 4 + blen (err_payload caps code msg) <=? 1000 then Done (net_frame seq (err_payload caps code msg)) else UB.
Proof.
  unfold ErrPacket_encode, store_int1, store_int2. cbn [err_sequence_id err_header err_error_code err_sql_state_marker err_sql_state err_error_message].
  assert (∀ K : cursor → outcome bytes, (put (le_enc 1 seq) (packet_start 1000) ≫= λ c, put (le_enc 1 (-1)) c ≫= λ c, put (le_enc 2 code) c ≫= λ c,
            (if has caps CLIENT_PROTOCOL_41
             then store_fix_length_string (chars "#") 1 c ≫= λ c, store_fix_length_string (chars "HY000" ++ [0]) 5 c else Done c) ≫= K)
          = (put (le_enc 1 seq ++ 255 :: le_enc 2 code ++ (if has caps CLIENT_PROTOCOL_41 then chars "#HY000" else [])) (packet_start 1000) ≫= K)) as H.
  { intros K. rewrite !put_bind. destruct (has caps CLIENT_PROTOCOL_41).
    - change (store_fix_length_string (chars "#") 1) with (put [35]).
      change (store_fix_length_string (chars "HY000" ++ [0]) 5) with (put (chars "HY000")).
      rewrite put_bind2, <-!app_assoc. done.
    - cbn [mbind outcome_bind]. by rewrite <-!app_assoc, app_nil_r. }
  rewrite H, store_fix_put by done. unfold err_payload. rewrite <-!app_assoc. cbn [app]. rewrite <-!app_assoc.
  destruct (_ <=? 1000) eqn:E; zb; [by apply packet_encoded|]. apply packet_overrun. exact E.
Qed.

Lemma ok_encoded seq info caps : 0 ∉ info → blen info < 2 ^ 64 → OkPacket_encode (mkOk seq 0 0 0 34 0 info) caps
  = if 4 + blen (ok_payload caps 0 info) <=? 100 then Done (net_frame seq (ok_payload caps 0 info)) else UB.
Proof.
  intros Hi Hl. unfold OkPacket_encode, store_int1, store_int2, store_lenenc_int.
  cbn [ok_sequence_id ok_header ok_affected_rows ok_last_insert_id ok_status_flags ok_warnings ok_info]. rewrite !put_bind.
  set (flags := if has caps CLIENT_PROTOCOL_41 then le_enc 2 34 ++ le_enc 2 0 else if has caps CLIENT_TRANSACTIONS then le_enc 2 34 else []).
  assert (∀ a (K : cursor → outcome bytes), (put a (packet_start 100) ≫= λ c,
            (if has caps CLIENT_PROTOCOL_41 then put (le_enc 2 34) c ≫= λ c, put (le_enc 2 0) c
             else if has caps CLIENT_TRANSACTIONS then put (le_enc 2 34) c else Done c) ≫= K)
          = (put (a ++ flags) (packet_start 100) ≫= K)) as H.
  { intros a K. unfold flags. destruct (has caps CLIENT_PROTOCOL_41); [apply put_bind2|].
    destruct (has caps CLIENT_TRANSACTIONS); [apply put_bind|]. by rewrite app_nil_r. }
  rewrite H. clear H.
  assert (∀ a (K : cursor → outcome bytes), (put a (packet_start 100) ≫= λ c, (if has caps CLIENT_SESSION_TRACK then store_lenenc_string info c else Done c) ≫= K)
          = (put (a ++ if has caps CLIENT_SESSION_TRACK then lstr info else []) (packet_start 100) ≫= K)) as H.
  { intros a K. destruct (has caps CLIENT_SESSION_TRACK); [by apply store_lenenc_put|]. by rewrite app_nil_r. }
  rewrite H. clear H. rewrite <-!app_assoc. change (lenenc (u64 0)) with [0]. change (le_enc 1 0) with [0].
  change ([0] ++ [0] ++ [0] ++ flags ++ ?x) with (ok_payload caps 0 info).
  destruct (_ <=? 100) eqn:E; zb; [by apply packet_encoded|]. apply packet_overrun. exact E.
Qed.

Lemma cstr_opt_no_nul b s : cstr_opt b = Some s → 0 ∉ s.
Proof.
  revert s. induction b as [|c b IH]; intros s H; cbn in H; [done|]. destruct (c =? 0) eqn:E; zb; [simplify_eq; apply not_elem_of_nil|].
  destruct (cstr_opt b) as [s'|]; simplify_eq/=. apply not_elem_of_cons. split; [done|by apply IH].
Qed.

Lemma strrc_no_nul rc : 0 ∉ strrc rc.
Proof. destruct rc; vm_compute; set_solver. Qed.

Lemma state_text_no_nul r msg : state_text r = Done msg → 0 ∉ msg ∧ blen msg < 2 ^ 64.
Proof.
  unfold state_text. intros H. destruct (c_str (sr_state_string_ r ++ [0])) as [s| | |] eqn:Es; try done. cbn [mbind outcome_bind] in H. injection H as <-.
  unfold c_str in Es. apply deref_inv in Es. apply cstr_opt_no_nul in Es. pose proof (strrc_no_nul (sr_return_code_ r)).
  assert (0 ∉ chars " > ") by (vm_compute; set_solver). split.
  - assert (∀ (l : bytes) n, 0 ∉ l → 0 ∉ take n l) as Htake
      by (intros l n Hn Hin; apply Hn; rewrite <-(take_drop n l); apply elem_of_app; by left).
    apply Htake. assert (0 ∉ strrc (sr_return_code_ r) ++ chars " > " ++ s) as Hall by (rewrite !not_elem_of_app; by split_and!).
    destruct (sr_state_string_ r); [done|exact Hall].
  - unfold blen. rewrite length_take. lia.
Qed.

(** C34: the answer to a statement without rows is written to a buffer of fixed
    size, 1000 bytes for an error and 100 for success, with a message of up to
    2047 bytes: a longer one is written outside the buffer, a shorter one is
    sent as one packet. *)
Theorem state_message_bounds fuel r m msg : state_text r = Done msg →
  let caps := mc_client_capabilities_flag_ m in
  let '(size, payload) := if OB_SUCC (sr_return_code_ r) then (100, ok_payload caps 0 msg)
                          else (1000, err_payload caps (RC_code (sr_return_code_ r)) msg) in
  (size < 4 + blen payload → MysqlCommunicator_write_state fuel r m = UB)
  ∧ (4 + blen payload ≤ size → MysqlCommunicator_write_state fuel r m =
       (y ← comm_writen fuel (net_frame (mc_sequence_id_ m) payload) (next_sequence m);
        let '(rc, m) := y : RC * MysqlCommunicator in m ← comm_flush fuel m; Done (rc, OB_FAIL rc, m))).
Proof.
  intros Hmsg caps. unfold MysqlCommunicator_write_state. rewrite Hmsg. destruct (state_text_no_nul r msg Hmsg) as [H0 Hl]. cbn [mbind outcome_bind].
  destruct (OB_SUCC (sr_return_code_ r)); unfold MysqlCommunicator_send_packet; cbn [encode next_sequence set_sequence mc_client_capabilities_flag_];
    [rewrite ok_encoded by done|rewrite err_encoded]; fold caps;
    (split; intros H; [rewrite (proj2 (Z.leb_gt _ _)) by lia|rewrite (proj2 (Z.leb_le _ _)) by lia]); done.
Qed.

(** A parse error whose message has a thousand characters. *)
Definition long_error : SqlResult := mkResult None [] SQL_SYNTAX (replicate 1000 120).
Lemma state_message_bounds_witness : ∃ msg, state_text long_error = Done msg ∧ MysqlCommunicator_write_state 10 long_error idle = UB.
Proof.
  eexists. split; [vm_compute; reflexivity|]. refine (proj1 (state_message_bounds 10 long_error idle _ _) _).
  - vm_compute. reflexivity.
  - vm_compute. reflexivity.
Defined.

(** *** Requests *)

Lemma readn_app a b n : n = blen a → readn n (a ++ b) = (Some a, b).
Proof.
  intros ->. unfold readn. rewrite blen_app. pose proof (blen_nonneg b). rewrite (proj2 (Z.leb_le _ _)) by lia.
  rewrite sub_app_l. unfold blen. by rewrite Nat2Z.id, drop_app_length.
Qed.

Lemma frame_header seq p : readn 4 (net_frame seq p) = (Some (le_enc 3 (blen p) ++ le_enc 1 seq), p).
Proof. unfold net_frame. rewrite app_assoc. by apply readn_app. Qed.

Lemma payload_length_frame n seq : 0 ≤ n < 2 ^ 24 →
  payload_length (le_enc 3 n ++ le_enc 1 seq) = if n <? 2 ^ 23 then n else n - 2 ^ 24.
Proof.
  intros Hn. unfold payload_length. change 3%nat with (length (le_enc 3 n)) at 1. rewrite take_app_length.
  rewrite le_dec_enc_small by (change (2 ^ (8 * Z.of_nat 3)) with (2 ^ 24); lia). unfold sint. by rewrite Z.mod_small by lia.
Qed.



(** A length between the bound of the protocol and the bound of the code is
    read as another one, so that the client loses its place in the row. *)
Theorem lenenc_garbled n rest :
  (2 ^ 16 ≤ n < 2 ^ 17 → read_lenenc (lenenc n ++ rest) = Some (n - 2 ^ 16, rest))
  ∧ (2 ^ 24 ≤ n < 2 ^ 25 → read_lenenc (lenenc n ++ rest) = Some (n - 2 ^ 24, rest)).
Proof.
  split; intros Hn; unfold lenenc; rewrite (proj2 (Z.ltb_ge n 251)) by lia.
  - rewrite (proj2 (Z.ltb_lt n (2 ^ 17))) by lia. cbn -[split_at le_enc]. rewrite split_at_app by done. cbn -[le_enc le_dec].
    rewrite le_dec_enc. change (2 ^ (8 * Z.of_nat 2)) with (2 ^ 16). rewrite <-(Z.mod_unique n (2 ^ 16) 1 (n - 2 ^ 16)) by lia. done.
  - rewrite (proj2 (Z.ltb_ge n (2 ^ 17))), (proj2 (Z.ltb_lt n (2 ^ 25))) by lia. cbn -[split_at le_enc]. rewrite split_at_app by done.
    cbn -[le_enc le_dec]. rewrite le_dec_enc. change (2 ^ (8 * Z.of_nat 3)) with (2 ^ 24).
    rewrite <-(Z.mod_unique n (2 ^ 24) 1 (n - 2 ^ 24)) by lia. done.
Qed.
