(* ===== verification/TableStore.v ===== *)
(** * Memtable manager, freezer, table store, tablet and store

    Models [src/src/storage/ls/ob_memtable_mgr], [ls/ob_freezer],
    [tablet/ob_tablet_table_store], [tablet/ob_tablet] and [ls/ob_ls] (each
    [.h/.cpp]): the objects above the memtable.  Memtables, SSTables and
    tablets are reached through pointers, so they live in heaps; a mutex is a
    bit that says whether it is held, and locking a held one is a [Deadlock]. *)

From S2P Require Import Prelude Pod StoreTypes OrdMap MvccRow QueryEngine MvccEngine Posix BlockFormat MacroBlock SSTable LogEntry LogStorage Palf LogService Memtable.

(** ** ObMemTableMgr *)

Record ObMemTableMgr := mkMgr {
  mg_tablet_id_ : Z;
  mg_active_memtable_ : option positive;
  mg_frozen_memtables_ : list positive;
  mg_mutex_ : bool;
  mg_is_inited_ : bool;
  mg_heap : gmap positive ObMemtable;
  mg_next : positive }.

Definition ObMemTableMgr_new : ObMemTableMgr := mkMgr 0 None [] false false ∅ 1%positive.
Definition ObMemTableMgr_init (tablet_id : Z) (g : ObMemTableMgr) : Z * ObMemTableMgr :=
  (0, mkMgr tablet_id (mg_active_memtable_ g) (mg_frozen_memtables_ g) (mg_mutex_ g) true (mg_heap g) (mg_next g)).
Definition set_mg_mutex (b : bool) (g : ObMemTableMgr) : ObMemTableMgr :=
  mkMgr (mg_tablet_id_ g) (mg_active_memtable_ g) (mg_frozen_memtables_ g) b (mg_is_inited_ g) (mg_heap g) (mg_next g).
Definition set_mg_heap (heap : gmap positive ObMemtable) (g : ObMemTableMgr) : ObMemTableMgr :=
  mkMgr (mg_tablet_id_ g) (mg_active_memtable_ g) (mg_frozen_memtables_ g) (mg_mutex_ g) (mg_is_inited_ g) heap (mg_next g).

(** A [lock_guard] around a body. *)
Definition mg_guard {A} (body : ObMemTableMgr → outcome (A * ObMemTableMgr)) (g : ObMemTableMgr)
    : outcome (A * ObMemTableMgr) :=
  if mg_mutex_ g then Deadlock
  else
    x ← body (set_mg_mutex true g);
    let '(a, g) := x : A * ObMemTableMgr in Done (a, set_mg_mutex false g).

(** [new ObMemtable] and [init]. *)
Definition mg_new_active (g : ObMemTableMgr) : positive * ObMemTableMgr :=
  let l := mg_next g in
  (l, mkMgr (mg_tablet_id_ g) (Some l) (mg_frozen_memtables_ g) (mg_mutex_ g) (mg_is_inited_ g)
        (<[l := (ObMemtable_init (mg_tablet_id_ g) ObMemtable_new).2]> (mg_heap g)) (Pos.succ l)).

Definition ObMemTableMgr_get_active_memtable : ObMemTableMgr → outcome (positive * ObMemTableMgr) :=
  mg_guard (λ g, match mg_active_memtable_ g with
                 | Some l => Done (l, g)
                 | None => Done (mg_new_active g)
                 end).

(** [set_is_tablet_freeze] calls [get_active_memtable] with the mutex held. *)
Definition ObMemTableMgr_set_is_tablet_freeze : ObMemTableMgr → outcome (Z * ObMemTableMgr) :=
  mg_guard (λ g, match mg_active_memtable_ g with
                 | None => Done (0, g)
                 | Some l =>
                     mt ← deref (mg_heap g !! l);
                     let g := mkMgr (mg_tablet_id_ g) None (mg_frozen_memtables_ g ++ [l]) (mg_mutex_ g)
                                (mg_is_inited_ g) (<[l := ObMemtable_set_frozen mt]> (mg_heap g)) (mg_next g) in
                     x ← ObMemTableMgr_get_active_memtable g;
                     Done (0, x.2)
                 end).

Definition ObMemTableMgr_get_frozen_memtables (g : ObMemTableMgr) : list positive := mg_frozen_memtables_ g.

Definition ObMemTableMgr_get_all_memtables (out : list positive) : ObMemTableMgr → outcome (list positive * ObMemTableMgr) :=
  mg_guard (λ g, Done (out ++ option_list (mg_active_memtable_ g) ++ mg_frozen_memtables_ g, g)).

(** The sum of the sizes of memtables. *)
Fixpoint occupied (heap : gmap positive ObMemtable) (ls : list positive) : outcome Z :=
  match ls with
  | [] => Done 0
  | l :: ls' => mt ← deref (heap !! l); n ← occupied heap ls'; Done (ObMemtable_get_occupy_size mt + n)
  end.
Definition ObMemTableMgr_get_total_occupied_size : ObMemTableMgr → outcome (Z * ObMemTableMgr) :=
  mg_guard (λ g, n ← occupied (mg_heap g) (option_list (mg_active_memtable_ g) ++ mg_frozen_memtables_ g); Done (n, g)).

(** The list without the first [l]. *)
Fixpoint erase_first (l : positive) (ls : list positive) : option (list positive) :=
  match ls with
  | [] => None
  | x :: ls' => if bool_decide (x = l) then Some ls' else cons x <$> erase_first l ls'
  end.
Definition ObMemTableMgr_remove_frozen_memtable (mt : positive) : ObMemTableMgr → outcome (Z * ObMemTableMgr) :=
  mg_guard (λ g, match erase_first mt (mg_frozen_memtables_ g) with
                 | None => Done (-1, g)
                 | Some ls => Done (0, mkMgr (mg_tablet_id_ g) (mg_active_memtable_ g) ls (mg_mutex_ g) (mg_is_inited_ g)
                                        (delete mt (mg_heap g)) (mg_next g))
                 end).

(** ** ObFreezer

    [fz_mgr_]: the manager pointer is set; it is the manager of the tablet. *)
Record ObFreezer := mkFreezer { fz_mgr_ : bool; fz_threshold_ : Z; fz_is_inited_ : bool }.
Definition ObFreezer_new : ObFreezer := mkFreezer false 0 false.
Definition ObFreezer_init (mgr : bool) (memtable_size_threshold : Z) (_ : ObFreezer) : Z * ObFreezer :=
  (0, mkFreezer mgr memtable_size_threshold true).
Definition ObFreezer_try_freeze (z : ObFreezer) (g : ObMemTableMgr) : outcome (bool * ObMemTableMgr) :=
  if negb (fz_is_inited_ z) || negb (fz_mgr_ z) then Done (false, g)
  else
    x ← ObMemTableMgr_get_total_occupied_size g;
    let '(total, g) := x : Z * ObMemTableMgr in
    if fz_threshold_ z <=? total then
      y ← ObMemTableMgr_set_is_tablet_freeze g;
      let '(_, g) := y : Z * ObMemTableMgr in Done (true, g)
    else Done (false, g).

(** ** ObTableStore

    SSTable pointers may be null; the objects are in [os_sst_heap]. *)
Record ObTableStore := mkTableStore {
  to_tablet_id_ : Z;
  to_memtable_mgr_ : ObMemTableMgr;
  to_sstables_ : list (option positive);
  to_sst_heap : gmap positive ObSSTable;
  to_log_handler_ : option positive;
  to_is_inited_ : bool }.
Definition ObTableStore_new : ObTableStore := mkTableStore 0 ObMemTableMgr_new [] ∅ None false.
Definition set_to_mgr (g : ObMemTableMgr) (t : ObTableStore) : ObTableStore :=
  mkTableStore (to_tablet_id_ t) g (to_sstables_ t) (to_sst_heap t) (to_log_handler_ t) (to_is_inited_ t).
Definition ObTableStore_init (tablet_id : Z) (t : ObTableStore) : Z * ObTableStore :=
  (0, mkTableStore tablet_id (ObMemTableMgr_init tablet_id (to_memtable_mgr_ t)).2 (to_sstables_ t) (to_sst_heap t)
        (to_log_handler_ t) true).
Definition ObTableStore_get_active_memtable (t : ObTableStore) : outcome (positive * ObTableStore) :=
  x ← ObMemTableMgr_get_active_memtable (to_memtable_mgr_ t);
  let '(l, g) := x : positive * ObMemTableMgr in Done (l, set_to_mgr g t).
Definition ObTableStore_add_sstable (sst : option positive) (t : ObTableStore) : Z * ObTableStore :=
  (0, mkTableStore (to_tablet_id_ t) (to_memtable_mgr_ t) (to_sstables_ t ++ [sst]) (to_sst_heap t) (to_log_handler_ t)
        (to_is_inited_ t)).
Fixpoint erase_sst (l : option positive) (ls : list (option positive)) : option (list (option positive)) :=
  match ls with
  | [] => None
  | x :: ls' => if bool_decide (x = l) then Some ls' else cons x <$> erase_sst l ls'
  end.

(** [remove_sstable]; deleting an object twice is undefined, deleting null is not. *)
Definition ObTableStore_remove_sstable (sst : option positive) (t : ObTableStore) : outcome (Z * ObTableStore) :=
  match erase_sst sst (to_sstables_ t) with
  | None => Done (-1, t)
  | Some ls =>
      heap ← (match sst with
              | None => Done (to_sst_heap t)
              | Some l => _ ← deref (to_sst_heap t !! l); Done (delete l (to_sst_heap t))
              end);
      Done (0, mkTableStore (to_tablet_id_ t) (to_memtable_mgr_ t) ls heap (to_log_handler_ t) (to_is_inited_ t))
  end.
Definition ObTableStore_set_log_handler (h : option positive) (t : ObTableStore) : ObTableStore :=
  mkTableStore (to_tablet_id_ t) (to_memtable_mgr_ t) (to_sstables_ t) (to_sst_heap t) h (to_is_inited_ t).

(** One memtable of [get]: [None] to go on to the next. *)
Definition get_from (ctx : ObStoreCtx) (rowkey : ObStoreRowkey) (heap : gmap positive ObMemtable) (l : positive)
    (results : list ObStoreRow) : outcome (option (list ObStoreRow) * list ObStoreRow) :=
  mt ← deref (heap !! l);
  if ObMemtable_is_empty mt then Done (None, results)
  else
    x ← ObMemtable_get ctx rowkey results mt;
    let '(ret, results) := x : Z * list ObStoreRow in
    Done (if (ret =? 0) && negb (bool_decide (results = [])) then Some results else None, results).
Fixpoint get_frozen (ctx : ObStoreCtx) (rowkey : ObStoreRowkey) (heap : gmap positive ObMemtable) (ls : list positive)
    (results : list ObStoreRow) : outcome (option (list ObStoreRow) * list ObStoreRow) :=
  match ls with
  | [] => Done (None, results)
  | l :: ls' =>
      x ← get_from ctx rowkey heap l results;
      let '(found, results) := x : option (list ObStoreRow) * list ObStoreRow in
      match found with Some r => Done (Some r, results) | None => get_frozen ctx rowkey heap ls' results end
  end.

(** The loop over the SSTables: it asks each whether it is empty. *)
Fixpoint check_sstables (heap : gmap positive ObSSTable) (ls : list (option positive)) : outcome unit :=
  match ls with
  | [] => Done tt
  | None :: ls' => check_sstables heap ls'
  | Some l :: ls' => _ ← deref (heap !! l); check_sstables heap ls'
  end.
Definition ObTableStore_get (ctx : ObStoreCtx) (rowkey : ObStoreRowkey) (t : ObTableStore)
    : outcome (Z * list ObStoreRow * ObTableStore) :=
  x ← ObTableStore_get_active_memtable t;
  let '(active, t) := x : positive * ObTableStore in
  let heap := mg_heap (to_memtable_mgr_ t) in
  a ← get_from ctx rowkey heap active [];
  let '(found, results) := a : option (list ObStoreRow) * list ObStoreRow in
  match found with
  | Some r => Done (0, r, t)
  | None =>
      f ← get_frozen ctx rowkey heap (ObMemTableMgr_get_frozen_memtables (to_memtable_mgr_ t)) results;
      let '(found, results) := f : option (list ObStoreRow) * list ObStoreRow in
      match found with
      | Some r => Done (0, r, t)
      | None => _ ← check_sstables (to_sst_heap t) (to_sstables_ t); Done (-1, results, t)
      end
  end.

Fixpoint scan_frozen (ctx : ObStoreCtx) (start_key : ObStoreRowkey) (start_exclude : bool) (end_key : ObStoreRowkey)
    (end_exclude : bool) (heap : gmap positive ObMemtable) (ls : list positive) (results : list ObStoreRow)
    : outcome (list ObStoreRow) :=
  match ls with
  | [] => Done results
  | l :: ls' =>
      mt ← deref (heap !! l);
      x ← ObMemtable_scan ctx start_key start_exclude end_key end_exclude [] mt;
      let '(_, tmp) := x : Z * list ObStoreRow in
      scan_frozen ctx start_key start_exclude end_key end_exclude heap ls' (results ++ tmp)
  end.
Definition ObTableStore_scan (ctx : ObStoreCtx) (start_key : ObStoreRowkey) (start_exclude : bool) (end_key : ObStoreRowkey)
    (end_exclude : bool) (t : ObTableStore) : outcome (Z * list ObStoreRow * ObTableStore) :=
  x ← ObTableStore_get_active_memtable t;
  let '(active, t) := x : positive * ObTableStore in
  let heap := mg_heap (to_memtable_mgr_ t) in
  mt ← deref (heap !! active);
  a ← ObMemtable_scan ctx start_key start_exclude end_key end_exclude [] mt;
  let '(_, results) := a : Z * list ObStoreRow in
  results ← scan_frozen ctx start_key start_exclude end_key end_exclude heap
              (ObMemTableMgr_get_frozen_memtables (to_memtable_mgr_ t)) results;
  Done (0, results, t).

(** ** ObTablet

    The log service is an argument and a result; [tb_log_service_] says
    whether the tablet has the pointer. *)
Record ObTablet := mkTablet {
  tb_tablet_id_ : Z;
  tb_table_store_ : ObTableStore;
  tb_freezer_ : ObFreezer;
  tb_log_handler_ : option positive;
  tb_log_service_ : bool;
  tb_is_inited_ : bool }.
Definition ObTablet_new : ObTablet := mkTablet 0 ObTableStore_new ObFreezer_new None false false.
Definition ObTablet_init (fuel : nat) (tablet_id : Z) (log_service : option ObLogService) (b : ObTablet) (s : os)
    : outcome (Z * ObTablet * option ObLogService * os) :=
  let store := (ObTableStore_init tablet_id (tb_table_store_ b)).2 in
  let freezer := (ObFreezer_init true DEFAULT_MEMTABLE_SIZE (tb_freezer_ b)).2 in
  match log_service with
  | None => Done (0, mkTablet tablet_id store freezer (tb_log_handler_ b) (tb_log_service_ b) true, None, s)
  | Some v =>
      x ← ObLogService_open_ls fuel tablet_id (tb_log_handler_ b) v s;
      let '(ret, handler, v, s) := x : Z * option positive * ObLogService * os in
      if negb (ret =? 0) then Done (ret, mkTablet tablet_id store freezer handler true (tb_is_inited_ b), Some v, s)
      else Done (0, mkTablet tablet_id (ObTableStore_set_log_handler handler store) freezer handler true true, Some v, s)
  end.
Definition ObTablet_recover {St} `{!ReplaySubHandlers St} (fuel : nat) (log_service : ObLogService) (b : ObTablet)
    (s : os) (st : St) : outcome (Z * os * St) :=
  if negb (tb_log_service_ b) then Done (0, s, st)
  else ObLogService_replay_ls fuel (tb_tablet_id_ b) log_service s st.

(** The destructor closes the log stream. *)
Definition ObTablet_delete (log_service : ObLogService) (b : ObTablet) : ObLogService :=
  if bool_decide (tb_log_handler_ b ≠ None) && tb_log_service_ b
  then (ObLogService_remove_ls (tb_tablet_id_ b) log_service).2 else log_service.

(** ** ObStore *)

Record ObStore := mkStore {
  so_base_dir_ : string;
  so_tablets_by_name_ : gmap string positive;
  so_tablets_by_id_ : gmap Z positive;
  so_is_inited_ : bool;
  so_heap : gmap positive ObTablet;
  so_next : positive }.
Definition ObStore_new : ObStore := mkStore EmptyString ∅ ∅ false ∅ 1%positive.
Definition ObStore_init (base_dir : string) (v : ObStore) : Z * ObStore :=
  (0, mkStore base_dir (so_tablets_by_name_ v) (so_tablets_by_id_ v) true (so_heap v) (so_next v)).

(** [create_tablet]: the tablet is initialised without a log service. *)
Definition ObStore_create_tablet (table_name : string) (tablet_id : Z) (v : ObStore) (s : os)
    : outcome (Z * ObStore * os) :=
  match so_tablets_by_name_ v !! table_name with
  | Some _ => Done (-1, v, s)
  | None =>
      x ← ObTablet_init 0 tablet_id None ObTablet_new s;
      let '(_, b, _, s) := x : Z * ObTablet * option ObLogService * os in
      let l := so_next v in
      Done (0, mkStore (so_base_dir_ v) (<[table_name := l]> (so_tablets_by_name_ v))
                 (<[tablet_id := l]> (so_tablets_by_id_ v)) (so_is_inited_ v) (<[l := b]> (so_heap v)) (Pos.succ l), s)
  end.
Definition ObStore_get_tablet (table_name : string) (v : ObStore) : option positive := so_tablets_by_name_ v !! table_name.
Definition ObStore_get_tablet_by_id (tablet_id : Z) (v : ObStore) : option positive := so_tablets_by_id_ v !! tablet_id.
Definition ObStore_drop_tablet (table_name : string) (v : ObStore) : outcome (Z * ObStore) :=
  match so_tablets_by_name_ v !! table_name with
  | None => Done (-1, v)
  | Some t =>
      b ← deref (so_heap v !! t);
      Done (0, mkStore (so_base_dir_ v) (delete table_name (so_tablets_by_name_ v))
                 (delete (tb_tablet_id_ b) (so_tablets_by_id_ v)) (so_is_inited_ v) (delete t (so_heap v)) (so_next v))
  end.

(** [try_freeze_all]; the order of an [unordered_map] is unspecified. *)
Fixpoint freeze_tablets (ls : list positive) (heap : gmap positive ObTablet) : outcome (gmap positive ObTablet) :=
  match ls with
  | [] => Done heap
  | l :: ls' =>
      b ← deref (heap !! l);
      x ← ObFreezer_try_freeze (tb_freezer_ b) (to_memtable_mgr_ (tb_table_store_ b));
      let '(_, g) := x : bool * ObMemTableMgr in
      freeze_tablets ls' (<[l := mkTablet (tb_tablet_id_ b) (set_to_mgr g (tb_table_store_ b)) (tb_freezer_ b)
                                   (tb_log_handler_ b) (tb_log_service_ b) (tb_is_inited_ b)]> heap)
  end.
Definition ObStore_try_freeze_all (v : ObStore) : outcome ObStore :=
  heap ← freeze_tablets ((map_to_list (so_tablets_by_name_ v)).*2) (so_heap v);
  Done (mkStore (so_base_dir_ v) (so_tablets_by_name_ v) (so_tablets_by_id_ v) (so_is_inited_ v) heap (so_next v)).

(** ** Histories of a tablet

    Writes to the active memtable, reads and scans of the store, checks of the
    freezer, SSTables added to the store. *)
Inductive tablet_op :=
  | TSet (ctx : ObStoreCtx) (row : ObStoreRow)
  | TGet (ctx : ObStoreCtx) (rk : ObStoreRowkey)
  | TScan (ctx : ObStoreCtx) (sk : ObStoreRowkey) (se : bool) (ek : ObStoreRowkey) (ee : bool)
  | TFreeze
  | TAddSSTable (sst : ObSSTable).
Definition tablet_op_wf (op : tablet_op) : Prop := match op with TSet _ row => row_wf row | _ => True end.

(** Putting an SSTable object into the heap of the store. *)
Definition alloc_sst (sst : ObSSTable) (t : ObTableStore) : positive * ObTableStore :=
  let l := fresh (dom (to_sst_heap t)) in
  (l, mkTableStore (to_tablet_id_ t) (to_memtable_mgr_ t) (to_sstables_ t) (<[l := sst]> (to_sst_heap t))
        (to_log_handler_ t) (to_is_inited_ t)).

Section History.
Context {L : Type} `{!AppendLog L} (lg : L) (z : ObFreezer).

Definition tablet_step (op : tablet_op) (t : ObTableStore) : outcome (engine_answer * ObTableStore) :=
  match op with
  | TSet ctx row =>
      x ← ObTableStore_get_active_memtable t;
      let '(l, t) := x : positive * ObTableStore in
      mt ← deref (mg_heap (to_memtable_mgr_ t) !! l);
      y ← ObMemtable_set ctx row mt lg;
      let '(ret, mt, _) := y : Z * ObMemtable * L in
      Done (ACode ret, set_to_mgr (set_mg_heap (<[l := mt]> (mg_heap (to_memtable_mgr_ t))) (to_memtable_mgr_ t)) t)
  | TGet ctx rk =>
      x ← ObTableStore_get ctx rk t;
      let '(ret, rows, t) := x : Z * list ObStoreRow * ObTableStore in Done (ARows ret rows, t)
  | TScan ctx sk se ek ee =>
      x ← ObTableStore_scan ctx sk se ek ee t;
      let '(ret, rows, t) := x : Z * list ObStoreRow * ObTableStore in Done (ARows ret rows, t)
  | TFreeze =>
      x ← ObFreezer_try_freeze z (to_memtable_mgr_ t);
      let '(b, g) := x : bool * ObMemTableMgr in Done (ACode (if b then 1 else 0), set_to_mgr g t)
  | TAddSSTable sst =>
      let '(l, t) := alloc_sst sst t in
      let '(ret, t) := ObTableStore_add_sstable (Some l) t in Done (ACode ret, t)
  end.
Fixpoint tablet_run (ops : list tablet_op) (t : ObTableStore) : outcome (list engine_answer * ObTableStore) :=
  match ops with
  | [] => Done ([], t)
  | op :: ops =>
      x ← tablet_step op t;
      let '(a, t) := x : engine_answer * ObTableStore in
      y ← tablet_run ops t;
      let '(out, t) := y : list engine_answer * ObTableStore in Done (a :: out, t)
  end.

(** The specification: one memtable, its size, and whether it exists yet. *)
Record abs_tablet := mkAbsTablet { at_memtable : abs_memtable; at_active : bool; at_size : Z }.
Definition row_data_size (row : ObStoreRow) : Z :=
  ObMemtableData_size (ObMemtableData_set ObMemtableData_default (dml_flag_ row) (blen (row_value_ row)) (Some (row_value_ row))).
Definition abs_tablet_step (op : tablet_op) (a : abs_tablet) : outcome (engine_answer * abs_tablet) :=
  let m := at_memtable a in
  match op with
  | TSet ctx row =>
      let '(ret, m) := abs_set ctx row m in
      Done (ACode ret, mkAbsTablet m true (at_size a + if ret =? 0 then row_data_size row else 0))
  | TGet ctx rk => Done ((abs_step (MGet ctx rk) m).1, mkAbsTablet m true (at_size a))
  | TScan ctx sk se ek ee => Done ((abs_step (MScan ctx sk se ek ee) m).1, mkAbsTablet m true (at_size a))
  | TFreeze =>
      if at_size a <? fz_threshold_ z then Done (ACode 0, a)
      else if at_active a then Deadlock else Done (ACode 1, a)
  | TAddSSTable _ => Done (ACode 0, a)
  end.
Fixpoint abs_tablet_run (ops : list tablet_op) (a : abs_tablet) : outcome (list engine_answer * abs_tablet) :=
  match ops with
  | [] => Done ([], a)
  | op :: ops =>
      x ← abs_tablet_step op a;
      let '(ans, a) := x : engine_answer * abs_tablet in
      y ← abs_tablet_run ops a;
      let '(out, a) := y : list engine_answer * abs_tablet in Done (ans :: out, a)
  end.

(** The active memtable is the only one; the SSTables exist. *)
Definition tablet_repr (t : ObTableStore) (a : abs_tablet) : Prop :=
  let g := to_memtable_mgr_ t in
  mg_mutex_ g = false ∧ mg_frozen_memtables_ g = []
  ∧ Forall (λ p, match p with Some l => is_Some (to_sst_heap t !! l) | None => True end) (to_sstables_ t)
  ∧ abs_frozen (at_memtable a) = false
  ∧ (0 ≤ abs_count (at_memtable a) ∧ (abs_count (at_memtable a) = 0 → ∀ h, versions_at h (abs_contents (at_memtable a)) = []))
  ∧ match mg_active_memtable_ g with
    | None => at_active a = false ∧ at_memtable a = mkAbs ∅ 0 false ∧ at_size a = 0
    | Some l => at_active a = true ∧ ∃ mt, mg_heap g !! l = Some mt ∧ abs_repr mt (at_memtable a) ∧ mt_occupy_size_ mt = at_size a
    end.

(** [mvcc_write_] keeps the counters. *)
Lemma mvcc_write_occupy ctx key arg ce res mt ret res' mt' :
  ObMemtable_mvcc_write_ ctx key arg ce res mt = Done (ret, res', mt') → mt_occupy_size_ mt' = mt_occupy_size_ mt.
Proof.
  unfold ObMemtable_mvcc_write_. intros (e & _ & H)%outcome_bind_inv.
  apply outcome_bind_inv in H as ([[r v] q] & _ & H). destruct v as [l|]; [|by inv_done].
  destruct (negb (r =? 0)); [by inv_done|]. apply outcome_bind_inv in H as ([[r2 res2] q2] & _ & H).
  destruct (negb (r2 =? 0)); [by inv_done|]. apply outcome_bind_inv in H as ([r3 q3] & _ & H). by inv_done.
Qed.

Lemma set_occupy ctx row mt ret mt' lg' : ObMemtable_set ctx row mt lg = Done (ret, mt', lg') →
  mt_occupy_size_ mt' = mt_occupy_size_ mt + (if ret =? 0 then row_data_size row else 0).
Proof.
  unfold ObMemtable_set. destruct (_ || _); [intros [= <- <- _]; cbn; lia|]. intros ([r o] & _ & H)%outcome_bind_inv.
  destruct o as [buf|]; [|injection H as <- <- _; cbn; lia]. apply outcome_bind_inv in H as ([r1 lg1] & _ & H).
  destruct (Z.eqb_spec r1 0) as [->|]; cbn [negb] in H; [|injection H as <- <- _; rewrite (proj2 (Z.eqb_neq _ _)) by done; lia].
  apply outcome_bind_inv in H as ([[r2 res] mt1] & Hw & H). apply mvcc_write_occupy in Hw.
  destruct (Z.eqb_spec r2 0) as [->|]; cbn [negb] in H; injection H as <- <- _; [|rewrite (proj2 (Z.eqb_neq _ _)) by done; lia].
  cbn [mt_occupy_size_ Z.eqb]. unfold row_data_size. lia.
Qed.

(** The active memtable is the specification's. *)
Lemma get_active_repr t a : tablet_repr t a →
  ∃ l t' mt, ObTableStore_get_active_memtable t = Done (l, t') ∧ mg_heap (to_memtable_mgr_ t') !! l = Some mt
    ∧ abs_repr mt (at_memtable a) ∧ mt_occupy_size_ mt = at_size a ∧ mg_active_memtable_ (to_memtable_mgr_ t') = Some l
    ∧ tablet_repr t' (mkAbsTablet (at_memtable a) true (at_size a)).
Proof.
  intros (Hm & Hf & Hs & Hfr & Hc & Ha). unfold ObTableStore_get_active_memtable, ObMemTableMgr_get_active_memtable, mg_guard.
  rewrite Hm. cbn [set_mg_mutex mg_active_memtable_]. destruct (mg_active_memtable_ (to_memtable_mgr_ t)) as [l|] eqn:E.
  - destruct Ha as (Hact & mt & Hmt & Hrep & Hsz). exists l. do 2 eexists. split; [done|]. cbn. split; [done|].
    split; [done|]. split; [done|]. split; [done|]. do 5 (split; [done|]). cbn. rewrite E. eauto.
  - destruct Ha as (Hact & Hmt & Hsz). unfold mg_new_active. cbn [mg_tablet_id_].
    assert (abs_repr (ObMemtable_init (mg_tablet_id_ (to_memtable_mgr_ t)) ObMemtable_new).2 (mkAbs ∅ 0 false)
            ∧ mt_occupy_size_ (ObMemtable_init (mg_tablet_id_ (to_memtable_mgr_ t)) ObMemtable_new).2 = 0) as [Hrep H0].
    { split; [|done]. destruct (memtable_init_repr (mg_tablet_id_ (to_memtable_mgr_ t))) as (mt & -> & H1 & H2 & H3 & H4).
      done. }
    set (mt0 := (ObMemtable_init _ _).2) in *. clearbody mt0.
    exists (mg_next (to_memtable_mgr_ t)). do 2 eexists. split; [done|]. rewrite Hmt, Hsz.
    split; [cbn; apply lookup_insert_eq|]. split; [done|]. split; [done|]. split; [done|].
    do 3 (split; [done|]). split; [done|]. split; [done|]. cbn. split; [done|]. exists mt0. by rewrite lookup_insert_eq.
Qed.

Lemma get_from_repr ctx rk heap l mt a : heap !! l = Some mt → abs_repr mt (at_memtable a) →
  (abs_count (at_memtable a) = 0 → ∀ h, versions_at h (abs_contents (at_memtable a)) = []) →
  get_from ctx rk heap l []
  = Done (match spec_get ctx rk (abs_contents (at_memtable a)) with Some row => (Some [row], [row]) | None => (None, []) end).
Proof.
  intros Hl Hrep Hc. unfold get_from. rewrite Hl. cbn [deref mbind outcome_bind]. unfold ObMemtable_is_empty.
  rewrite (proj1 (proj2 Hrep)). destruct (Z.eqb_spec (abs_count (at_memtable a)) 0) as [E|].
  - unfold spec_get. rewrite (Hc E). by destruct (_ || _).
  - rewrite (memtable_get_spec ctx rk [] mt (abs_contents (at_memtable a))) by apply Hrep.
    by destruct (spec_get ctx rk (abs_contents (at_memtable a))).
Qed.

Lemma check_sstables_ok t a : tablet_repr t a → check_sstables (to_sst_heap t) (to_sstables_ t) = Done tt.
Proof.
  intros (_ & _ & Hs & _). induction Hs as [|[l|] ls Hl Hs IH]; cbn [check_sstables]; [done| |done].
  destruct Hl as [s ->]. done.
Qed.

(** Writing keeps the invariant of the counter. *)
Lemma abs_set_count ctx row m : abs_frozen m = false →
  (0 ≤ abs_count m ∧ (abs_count m = 0 → ∀ h, versions_at h (abs_contents m) = [])) →
  let '(ret, m') := abs_set ctx row m in
  abs_frozen m' = false ∧ (0 ≤ abs_count m' ∧ (abs_count m' = 0 → ∀ h, versions_at h (abs_contents m') = [])).
Proof.
  intros Hf [H0 Hc]. unfold abs_set. rewrite Hf. unfold spec_set.
  destruct (default (0, []) _) as [mx vs] eqn:E. destruct (_ && _); cbn; (split; [done|]); (split; [lia|]); intros Hz h; [|lia].
  assert (abs_count m = 0) as Hm by lia. unfold kv_created.
  destruct (abs_contents m !! row_hash (rowkey_ row)) as [x|] eqn:Ex; [by apply Hc|].
  rewrite versions_at_insert. case_bool_decide; [done|by apply Hc].
Qed.

Lemma tablet_step_spec op t a : fz_is_inited_ z = true → fz_mgr_ z = true → tablet_repr t a → tablet_op_wf op →
  match abs_tablet_step op a with
  | Done (x, a') => ∃ t', tablet_step op t = Done (x, t') ∧ tablet_repr t' a'
  | Deadlock => tablet_step op t = Deadlock
  | _ => False
  end.
Proof.
  intros Hz1 Hz2 Hrep Hop. pose proof Hrep as (Hm & Hf & Hs & Hfr & Hc & Ha).
  destruct op as [ctx row|ctx rk|ctx sk se ek ee| |sst]; cbn [abs_tablet_step tablet_step].
  - destruct (get_active_repr t a Hrep) as (l & t1 & mt & -> & Hmt & Habs & Hsz & Hact & (Hm1 & Hf1 & Hs1 & _ & _ & Ha1)).
    cbn [mbind outcome_bind]. rewrite Hmt. cbn [deref mbind outcome_bind].
    pose proof (abs_set_spec lg ctx row mt (at_memtable a) Habs Hop) as Hset.
    pose proof (abs_set_count ctx row (at_memtable a) Hfr Hc) as Hcnt.
    destruct (abs_set ctx row (at_memtable a)) as [ret m']. destruct Hset as (mt' & Hset & Habs').
    rewrite Hset. cbn [mbind outcome_bind]. eexists. split; [done|]. cbn. do 3 (split; [done|]).
    split; [apply Hcnt|]. split; [apply Hcnt|]. cbn. rewrite Hact. split; [done|]. exists mt'. rewrite lookup_insert_eq.
    split; [done|]. split; [done|]. apply set_occupy in Hset. lia.
  - unfold ObTableStore_get.
    destruct (get_active_repr t a Hrep) as (l & t1 & mt & -> & Hmt & Habs & Hsz & Hact & Hrep1).
    cbn [mbind outcome_bind]. rewrite (get_from_repr ctx rk _ l mt a Hmt Habs (proj2 Hc)). cbn [mbind outcome_bind abs_step fst].
    destruct (spec_get ctx rk (abs_contents (at_memtable a))) as [row|]; [by exists t1|].
    unfold ObMemTableMgr_get_frozen_memtables. rewrite (proj1 (proj2 Hrep1)). cbn [get_frozen mbind outcome_bind].
    rewrite (check_sstables_ok t1 _ Hrep1). by exists t1.
  - unfold ObTableStore_scan.
    destruct (get_active_repr t a Hrep) as (l & t1 & mt & -> & Hmt & Habs & Hsz & Hact & Hrep1).
    cbn [mbind outcome_bind]. rewrite Hmt. cbn [deref mbind outcome_bind abs_step fst].
    rewrite (memtable_scan_spec ctx sk se ek ee [] mt (abs_contents (at_memtable a))) by apply Habs.
    rewrite (btree_hashes _ (abs_contents (at_memtable a))) by apply Habs.
    cbn [mbind outcome_bind]. unfold ObMemTableMgr_get_frozen_memtables. rewrite (proj1 (proj2 Hrep1)). by exists t1.
  - unfold ObFreezer_try_freeze. rewrite Hz1, Hz2. cbn [negb orb].
    unfold ObMemTableMgr_get_total_occupied_size, ObMemTableMgr_set_is_tablet_freeze, mg_guard. rewrite Hm.
    cbn [set_mg_mutex mg_active_memtable_ mg_heap mg_frozen_memtables_ mg_mutex_]. rewrite Hf, app_nil_r.
    destruct (mg_active_memtable_ (to_memtable_mgr_ t)) as [l|] eqn:E.
    + destruct Ha as (Hact & mt & Hmt & Habs & Hsz). change (option_list (Some l)) with [l]. cbn [occupied]. rewrite Hmt. cbn [deref mbind outcome_bind]. unfold ObMemtable_get_occupy_size.
      rewrite Hsz, Z.add_0_r, Z.leb_antisym, Hact. destruct (at_size a <? fz_threshold_ z) eqn:Ez; cbn [negb].
      * eexists. split; [done|]. do 5 (split; [done|]). cbn. rewrite E. eauto.
      * cbn [mg_mutex_ set_mg_mutex mg_active_memtable_ mg_heap]. rewrite E. cbn. rewrite Hmt. done.
    + destruct Ha as (Hact & Hmt & Hsz). change (option_list None) with (@nil positive). cbn [occupied mbind outcome_bind].
      rewrite Hact, Hsz, Z.leb_antisym. destruct (0 <? fz_threshold_ z) eqn:Ez; cbn [negb].
      * eexists. split; [done|]. do 5 (split; [done|]). cbn. by rewrite E.
      * cbn [mg_mutex_ set_mg_mutex mg_active_memtable_ mg_heap]. rewrite E. eexists. split; [done|]. do 5 (split; [done|]). cbn. by rewrite E.
  - eexists. split; [done|]. do 2 (split; [done|]). split; [|done]. cbn. apply Forall_app_2.
    + eapply Forall_impl; [exact Hs|]. intros [l|]; [|done]. intros Hl. apply lookup_insert_is_Some'. by right.
    + apply Forall_singleton. rewrite lookup_insert_eq. eauto.
Qed.
End History.

Lemma tablet_run_spec {L} `{!AppendLog L} (lg : L) z ops : fz_is_inited_ z = true → fz_mgr_ z = true →
  Forall tablet_op_wf ops → ∀ t a, tablet_repr t a →
  match abs_tablet_run z ops a with
  | Done (out, a') => ∃ t', tablet_run lg z ops t = Done (out, t') ∧ tablet_repr t' a'
  | Deadlock => tablet_run lg z ops t = Deadlock
  | _ => False
  end.
Proof.
  intros Hz1 Hz2. induction 1 as [|op ops Hop _ IH]; intros t a Ht; cbn [abs_tablet_run tablet_run].
  - by exists t.
  - pose proof (tablet_step_spec lg z op t a Hz1 Hz2 Ht Hop) as Hs.
    destruct (abs_tablet_step z op a) as [[x a1]| | |]; [|done|by rewrite Hs|done].
    destruct Hs as (t1 & -> & Ht1). cbn [mbind outcome_bind]. specialize (IH t1 a1 Ht1).
    destruct (abs_tablet_run z ops a1) as [[out a2]| | |]; [|done|by rewrite IH|done].
    destruct IH as (t2 & -> & Hf). by exists t2.
Qed.

Lemma tablet_repr_new tablet_id :
  tablet_repr (ObTableStore_init tablet_id ObTableStore_new).2 (mkAbsTablet (mkAbs ∅ 0 false) false 0).
Proof.
  do 2 (split; [done|]). split; [constructor|]. split; [done|].
  split; [|done]. split; [done|]. intros _ h. unfold versions_at. cbn. by rewrite lookup_empty.
Qed.

(** C8: a tablet is its active memtable.  Run any sequence of writes, reads,
    scans, freeze checks and SSTable additions on a new table store and freezer:
    the answers are those of a single memtable, whatever SSTables were added, and
    no memtable is ever frozen.  A freeze check below the threshold changes
    nothing; at or above it, it deadlocks when there is a memtable to freeze
    ([set_is_tablet_freeze] locks its mutex again through [get_active_memtable])
    and answers "frozen" without doing anything when there is none. *)
Theorem tablet_is_active_memtable {L} `{!AppendLog L} (lg : L) tablet_id threshold ops :
  Forall tablet_op_wf ops →
  let z := (ObFreezer_init true threshold ObFreezer_new).2 in
  let t := (ObTableStore_init tablet_id ObTableStore_new).2 in
  match abs_tablet_run z ops (mkAbsTablet (mkAbs ∅ 0 false) false 0) with
  | Done (out, _) => ∃ t', tablet_run lg z ops t = Done (out, t') ∧ mg_frozen_memtables_ (to_memtable_mgr_ t') = []
  | Deadlock => tablet_run lg z ops t = Deadlock
  | _ => False
  end.
Proof.
  intros Hops z t. pose proof (tablet_run_spec lg z ops eq_refl eq_refl Hops t _ (tablet_repr_new tablet_id)) as H.
  destruct (abs_tablet_run z ops _) as [[out a]| | |]; try done. destruct H as (t' & H & Hr). exists t'. split; [done|apply Hr].
Qed.

Lemma tablet_is_active_memtable_witness :
  let row := mkRow DF_INSERT 0 OB_INVALID_TRANS_ID (rowkey_of [1]) [7] false in
  let t := (ObTableStore_init 1 ObTableStore_new).2 in
  (∃ rows t', @tablet_run unit no_log tt (ObFreezer_init true 1000 ObFreezer_new).2
       [TSet ObStoreCtx_default row; TFreeze; TAddSSTable ObSSTable_new; TGet ObStoreCtx_default (rowkey_of [1])] t
     = Done ([ACode 0; ACode 0; ACode 0; ARows 0 rows], t') ∧ (row_value_ <$> rows) = [[7]])
  ∧ @tablet_run unit no_log tt (ObFreezer_init true 1 ObFreezer_new).2 [TSet ObStoreCtx_default row; TFreeze] t = Deadlock.
Proof.
  assert (row_wf (mkRow DF_INSERT 0 OB_INVALID_TRANS_ID (rowkey_of [1]) [7] false)) as Hwf by (repeat constructor; unfold is_byte; lia).
  split.
  - pose proof (@tablet_is_active_memtable unit no_log tt 1 1000
       [TSet ObStoreCtx_default (mkRow DF_INSERT 0 OB_INVALID_TRANS_ID (rowkey_of [1]) [7] false); TFreeze;
        TAddSSTable ObSSTable_new; TGet ObStoreCtx_default (rowkey_of [1])]
       ltac:(constructor; [exact Hwf|repeat constructor])) as H.
    destruct H as (t' & H & _). rewrite H. do 2 eexists. split; [vm_compute; reflexivity|reflexivity].
  - exact (@tablet_is_active_memtable unit no_log tt 1 1
       [TSet ObStoreCtx_default (mkRow DF_INSERT 0 OB_INVALID_TRANS_ID (rowkey_of [1]) [7] false); TFreeze]
       ltac:(constructor; [exact Hwf|repeat constructor])).
Defined.

(** ** The directory of tablets *)

Inductive store_op :=
  | SCreate (table_name : string) (tablet_id : Z)
  | SDrop (table_name : string)
  | SGet (table_name : string)
  | SGetId (tablet_id : Z)
  | SSame (table_name : string) (tablet_id : Z).

(** Answers of lookups: the id of the tablet the pointer points to; [SSame]
    asks whether the two lookups give the same pointer. *)
Inductive store_answer :=
  | SCode (ret : Z)
  | SFound (id : option Z)
  | SBool (b : bool).

Definition tablet_at (p : option positive) (v : ObStore) : outcome store_answer :=
  match p with
  | None => Done (SFound None)
  | Some l => b ← deref (so_heap v !! l); Done (SFound (Some (tb_tablet_id_ b)))
  end.
Definition store_step (op : store_op) (v : ObStore) (s : os) : outcome (store_answer * ObStore * os) :=
  match op with
  | SCreate n i => x ← ObStore_create_tablet n i v s; let '(ret, v, s) := x : Z * ObStore * os in Done (SCode ret, v, s)
  | SDrop n => x ← ObStore_drop_tablet n v; let '(ret, v) := x : Z * ObStore in Done (SCode ret, v, s)
  | SGet n => a ← tablet_at (ObStore_get_tablet n v) v; Done (a, v, s)
  | SGetId i => a ← tablet_at (ObStore_get_tablet_by_id i v) v; Done (a, v, s)
  | SSame n i =>
      Done (SBool (bool_decide (ObStore_get_tablet n v ≠ None ∧ ObStore_get_tablet n v = ObStore_get_tablet_by_id i v)), v, s)
  end.
Fixpoint store_run (ops : list store_op) (v : ObStore) (s : os) : outcome (list store_answer * ObStore * os) :=
  match ops with
  | [] => Done ([], v, s)
  | op :: ops =>
      x ← store_step op v s;
      let '(a, v, s) := x : store_answer * ObStore * os in
      y ← store_run ops v s;
      let '(out, v, s) := y : list store_answer * ObStore * os in Done (a :: out, v, s)
  end.

(** The specification: ids by name, and for each id the name it leads to. *)
Record directory := mkDirectory { dir_ids : gmap string Z; dir_names : gmap Z string }.
Definition directory_step (op : store_op) (d : directory) : store_answer * directory :=
  match op with
  | SCreate n i =>
      match dir_ids d !! n with
      | Some _ => (SCode (-1), d)
      | None => (SCode 0, mkDirectory (<[n := i]> (dir_ids d)) (<[i := n]> (dir_names d)))
      end
  | SDrop n =>
      match dir_ids d !! n with
      | None => (SCode (-1), d)
      | Some i => (SCode 0, mkDirectory (delete n (dir_ids d)) (delete i (dir_names d)))
      end
  | SGet n => (SFound (dir_ids d !! n), d)
  | SGetId i => (SFound (if bool_decide (is_Some (dir_names d !! i)) then Some i else None), d)
  | SSame n i => (SBool (bool_decide (dir_names d !! i = Some n)), d)
  end.
Fixpoint directory_run (ops : list store_op) (d : directory) : list store_answer * directory :=
  match ops with
  | [] => ([], d)
  | op :: ops =>
      let '(a, d) := directory_step op d in
      let '(out, d) := directory_run ops d in (a :: out, d)
  end.

(** Every pointer of the two maps is to a tablet of the heap. *)
Definition store_repr (v : ObStore) (d : directory) : Prop :=
  (∀ l, is_Some (so_heap v !! l) → (l < so_next v)%positive)
  ∧ (∀ n, match so_tablets_by_name_ v !! n, dir_ids d !! n with
          | None, None => True
          | Some l, Some i => ∃ b, so_heap v !! l = Some b ∧ tb_tablet_id_ b = i
          | _, _ => False
          end)
  ∧ (∀ n1 n2 l, so_tablets_by_name_ v !! n1 = Some l → so_tablets_by_name_ v !! n2 = Some l → n1 = n2)
  ∧ (∀ i, match so_tablets_by_id_ v !! i, dir_names d !! i with
          | None, None => True
          | Some l, Some n => so_tablets_by_name_ v !! n = Some l ∧ dir_ids d !! n = Some i
          | _, _ => False
          end).

Lemma store_name v d n l : store_repr v d → so_tablets_by_name_ v !! n = Some l →
  ∃ b, so_heap v !! l = Some b ∧ dir_ids d !! n = Some (tb_tablet_id_ b).
Proof.
  intros (_ & Hn & _) H. specialize (Hn n). rewrite H in Hn. destruct (dir_ids d !! n); [|done].
  destruct Hn as (b & Hb & <-). eauto.
Qed.

Lemma store_no_name v d n : store_repr v d → so_tablets_by_name_ v !! n = None ↔ dir_ids d !! n = None.
Proof. intros (_ & Hn & _). specialize (Hn n). by destruct (_ !! n), (_ !! n). Qed.

Lemma create_repr v d n i s : store_repr v d → dir_ids d !! n = None →
  ∃ v', ObStore_create_tablet n i v s = Done (0, v', s)
    ∧ store_repr v' (mkDirectory (<[n := i]> (dir_ids d)) (<[i := n]> (dir_names d))).
Proof.
  intros Hr Hd. pose proof (proj2 (store_no_name v d n Hr) Hd) as Hv. unfold ObStore_create_tablet. rewrite Hv.
  cbn [ObTablet_init mbind outcome_bind]. set (b := mkTablet _ _ _ _ _ _). assert (tb_tablet_id_ b = i) as Hb by done. clearbody b.
  eexists. split; [done|]. pose proof Hr as (Hlt & Hn & Hinj & Hi).
  assert (∀ m l, so_tablets_by_name_ v !! m = Some l → l ≠ so_next v) as Hfresh.
  { intros m l Hm ->. destruct (store_name v d m _ Hr Hm) as (b' & Hb' & _). specialize (Hlt (so_next v) ltac:(eauto)). lia. }
  split; [|split; [|split]]; cbn [so_heap so_next so_tablets_by_name_ so_tablets_by_id_ dir_ids dir_names].
  - intros l [x Hx]. apply lookup_insert_Some in Hx as [[<- _]|[_ Hx]]; [lia|]. specialize (Hlt l ltac:(eauto)). lia.
  - intros m. destruct (decide (m = n)) as [->|Hne]; [rewrite !lookup_insert_eq; by exists b|].
    rewrite !lookup_insert_ne by done. specialize (Hn m). destruct (so_tablets_by_name_ v !! m) as [l|] eqn:E; [|done].
    rewrite lookup_insert_ne; [done|]. intros <-. by apply (Hfresh m _ E).
  - intros n1 n2 l. rewrite !lookup_insert_Some. intros [[<- <-]|[Hne1 H1]] [[<- H2]|[Hne2 H2]]; [done| | |by eapply Hinj].
    + by destruct (Hfresh n2 _ H2).
    + subst l. by destruct (Hfresh n1 _ H1).
  - intros j. destruct (decide (j = i)) as [->|Hne]; [by rewrite !lookup_insert_eq|].
    rewrite !lookup_insert_ne by done. specialize (Hi j). destruct (so_tablets_by_id_ v !! j), (dir_names d !! j) as [m|]; try done.
    destruct Hi as [H1 H2]. assert (m ≠ n) by (intros ->; congruence). by rewrite !lookup_insert_ne by done.
Qed.

Lemma drop_repr v d n i : store_repr v d → dir_ids d !! n = Some i →
  ∃ v', ObStore_drop_tablet n v = Done (0, v')
    ∧ store_repr v' (mkDirectory (delete n (dir_ids d)) (delete i (dir_names d))).
Proof.
  intros Hr Hd. unfold ObStore_drop_tablet.
  destruct (so_tablets_by_name_ v !! n) as [l|] eqn:E; [|apply (store_no_name v d n Hr) in E; congruence].
  destruct (store_name v d n l Hr E) as (b & Hb & Hib). rewrite Hb. cbn [deref mbind outcome_bind].
  rewrite Hd in Hib. injection Hib as ->. eexists. split; [done|]. pose proof Hr as (Hlt & Hn & Hinj & Hi).
  split; [|split; [|split]]; cbn [so_heap so_next so_tablets_by_name_ so_tablets_by_id_ dir_ids dir_names].
  - intros l' [x [_ Hx]%lookup_delete_Some]. eauto.
  - intros m. destruct (decide (m = n)) as [->|Hne]; [by rewrite !lookup_delete_eq|]. rewrite !lookup_delete_ne by done.
    specialize (Hn m). destruct (so_tablets_by_name_ v !! m) as [l'|] eqn:E'; [|done].
    rewrite lookup_delete_ne; [done|]. intros <-. by apply Hne, (Hinj m n l).
  - intros n1 n2 l' [_ H1]%lookup_delete_Some [_ H2]%lookup_delete_Some. by eapply Hinj.
  - intros j. destruct (decide (j = tb_tablet_id_ b)) as [->|Hne]; [by rewrite !lookup_delete_eq|].
    rewrite !lookup_delete_ne by done. specialize (Hi j).
    destruct (so_tablets_by_id_ v !! j), (dir_names d !! j) as [m|] eqn:Em; try done.
    destruct Hi as [H1 H2]. assert (m ≠ n) by (intros ->; congruence). by rewrite !lookup_delete_ne by done.
Qed.

Lemma store_step_spec op v d s : store_repr v d →
  let '(a, d') := directory_step op d in ∃ v', store_step op v s = Done (a, v', s) ∧ store_repr v' d'.
Proof.
  intros Hr. pose proof Hr as (Hlt & Hn & Hinj & Hi). destruct op as [n i|n|n|i|n i]; cbn [directory_step store_step].
  - destruct (dir_ids d !! n) eqn:E.
    + unfold ObStore_create_tablet. destruct (so_tablets_by_name_ v !! n) eqn:E'; [by exists v|].
      apply (store_no_name v d n Hr) in E'. congruence.
    + destruct (create_repr v d n i s Hr E) as (v' & -> & Hr'). by exists v'.
  - destruct (dir_ids d !! n) as [i|] eqn:E.
    + destruct (drop_repr v d n i Hr E) as (v' & -> & Hr'). by exists v'.
    + unfold ObStore_drop_tablet. rewrite (proj2 (store_no_name v d n Hr) E). by exists v.
  - exists v. split; [|done]. unfold ObStore_get_tablet, tablet_at. specialize (Hn n).
    destruct (so_tablets_by_name_ v !! n) as [l|], (dir_ids d !! n); try done. destruct Hn as (b & -> & <-). done.
  - exists v. split; [|done]. unfold ObStore_get_tablet_by_id, tablet_at. specialize (Hi i).
    destruct (so_tablets_by_id_ v !! i) as [l|], (dir_names d !! i) as [m|]; try done. destruct Hi as [H1 H2].
    destruct (store_name v d m l Hr H1) as (b & -> & Hb). cbn. rewrite Hb in H2. injection H2 as ->. done.
  - exists v. split; [|done]. unfold ObStore_get_tablet, ObStore_get_tablet_by_id. do 3 f_equal. f_equal.
    apply bool_decide_ext. specialize (Hi i). destruct (so_tablets_by_id_ v !! i) as [l|], (dir_names d !! i) as [m|]; try done.
    + destruct Hi as [H1 H2]. split; [intros [_ H]; f_equal; by apply (Hinj _ _ l)|]. intros [= ->]. by rewrite H1.
    + split; [|done]. by intros [? ?].
Qed.

(** C15: a store is a directory of tablets.  Any sequence of creations, drops and
    lookups on a new store behaves as a directory: a creation is refused exactly
    when the name is taken, a lookup by name gives the tablet created under it,
    every pointer handed out is to a live tablet (never to one that was dropped), and a
    lookup by id gives the tablet last created with that id, until any tablet with
    that id is dropped: a tablet that shares its id is then found by name only. *)
Theorem store_refines_directory ops s :
  ∃ v, store_run ops ObStore_new s = Done ((directory_run ops (mkDirectory ∅ ∅)).1, v, s).
Proof.
  assert (∀ v d, store_repr v d → ∃ v', store_run ops v s = Done ((directory_run ops d).1, v', s)) as H.
  { induction ops as [|op ops IH]; intros v d Hr; cbn [store_run directory_run]; [by exists v|].
    pose proof (store_step_spec op v d s Hr) as Hs. destruct (directory_step op d) as [a d1].
    destruct Hs as (v1 & -> & Hr1). cbn [mbind outcome_bind]. destruct (IH v1 d1 Hr1) as (v2 & ->).
    destruct (directory_run ops d1). by exists v2. }
  apply H. split; [by intros l [x Hx]|]. split; [done|]. split; [done|done].
Qed.
