(* ===== verification/RecordScanner.v ===== *)
(** * Scanning the records of a table

    Models [src/src/storage/ob_record_scanner.h/.cpp]: the scanner that SQL
    operators use reads a whole table store when it is opened and hands out the
    values of the rows that are not deleted and not empty. *)

From S2P Require Import Prelude Rc Pod StoreTypes OrdMap MvccRow QueryEngine MvccEngine Posix BlockFormat MacroBlock SSTable LogEntry LogStorage Palf LogService Memtable TableStore.

(** [rs_table_store_]: the pointer is not null; the store is an argument. *)
Record ObRecordScanner := mkScanner {
  rs_table_store_ : bool;
  rs_row_data_cache_ : list bytes;
  rs_current_idx_ : Z;
  rs_is_open_ : bool }.
Definition ObRecordScanner_new (table_store : bool) : ObRecordScanner := mkScanner table_store [] (-1) false.

Definition scanner_end_key : ObStoreRowkey := ObStoreRowkey_new (Some (replicate 8 255)) 8.
Definition scanner_ctx : ObStoreCtx := mkCtx 0 OB_INVALID_VERSION (timeout_ ObStoreCtx_default).

(** The loop over the rows: the values that are kept. *)
Definition kept_values (rows : list ObStoreRow) : list bytes :=
  row_value_ <$> filter (λ r, is_deleted_ r = false ∧ row_value_ r ≠ []) rows.

(** [open_scan] appends to the cache and does not clear it. *)
Definition ObRecordScanner_open_scan (c : ObRecordScanner) (t : ObTableStore)
    : outcome (RC * ObRecordScanner * ObTableStore) :=
  if negb (rs_table_store_ c) then Done (INTERNAL, c, t)
  else
    x ← ObTableStore_scan scanner_ctx (ObStoreRowkey_new (Some []) 0) false scanner_end_key false t;
    let '(ret, rows, t) := x : Z * list ObStoreRow * ObTableStore in
    if negb (ret =? 0) then Done (INTERNAL, c, t)
    else Done (SUCCESS, mkScanner (rs_table_store_ c) (rs_row_data_cache_ c ++ kept_values rows) 0 true, t).
Definition ObRecordScanner_close_scan (c : ObRecordScanner) : RC * ObRecordScanner :=
  (SUCCESS, mkScanner (rs_table_store_ c) [] (-1) false).

(** [next_record]: code, [row_data]. *)
Definition ObRecordScanner_next_record (row_data : bytes) (c : ObRecordScanner) : outcome (RC * bytes * ObRecordScanner) :=
  if negb (rs_is_open_ c) then Done (INTERNAL, row_data, c)
  else if blen (rs_row_data_cache_ c) <=? rs_current_idx_ c then Done (RECORD_EOF, row_data, c)
  else
    d ← (if rs_current_idx_ c <? 0 then UB else deref (rs_row_data_cache_ c !! Z.to_nat (rs_current_idx_ c)));
    Done (SUCCESS, d, mkScanner (rs_table_store_ c) (rs_row_data_cache_ c) (rs_current_idx_ c + 1) (rs_is_open_ c)).

(** ** Reading a table *)

(** Calling [next_record] until it does not succeed. *)
Fixpoint drain (fuel : nat) (c : ObRecordScanner) : outcome (list bytes * RC) :=
  match fuel with
  | O => OutOfFuel
  | S fuel' =>
      x ← ObRecordScanner_next_record [] c;
      let '(rc, d, c) := x : RC * bytes * ObRecordScanner in
      match rc with
      | SUCCESS => y ← drain fuel' c; let '(ds, rc) := y : list bytes * RC in Done (d :: ds, rc)
      | _ => Done ([], rc)
      end
  end.

Lemma drain_spec vs : ∀ pre b fuel, (length vs < fuel)%nat →
  drain fuel (mkScanner b (pre ++ vs) (Z.of_nat (length pre)) true) = Done (vs, RECORD_EOF).
Proof.
  induction vs as [|v vs IH]; intros pre b [|fuel] Hf; cbn [length] in Hf; try lia;
    cbn [drain]; unfold ObRecordScanner_next_record; cbn [rs_is_open_ rs_row_data_cache_ rs_current_idx_ negb].
  - rewrite app_nil_r. unfold blen. by rewrite Z.leb_refl.
  - rewrite (proj2 (Z.leb_gt _ _)) by (unfold blen; rewrite length_app; cbn [length]; lia).
    rewrite (proj2 (Z.ltb_ge _ _)) by lia. rewrite Nat2Z.id, list_lookup_middle by done. cbn [deref mbind outcome_bind].
    specialize (IH (pre ++ [v]) b fuel ltac:(lia)). rewrite <-app_assoc, length_app in IH. cbn [app length] in IH.
    replace (Z.of_nat (length pre) + 1) with (Z.of_nat (length pre + 1)) by lia. cbn [rs_table_store_]. by rewrite IH.
Qed.

(** The values of the newest versions that are neither deleted nor empty, in
    hash order. *)
Definition live_values (m : contents) : list bytes :=
  omap (λ h, op ← latest m h; if (op.1 =? DF_DELETE) || bool_decide (op.2 = []) then None else Some op.2) (sorted_hashes m).

Lemma kept_values_scan m (hs : list Z) :
  kept_values (omap (λ h, row_of_node <$> head (versions_at h m)) hs)
  = omap (λ h, op ← latest m h; if (op.1 =? DF_DELETE) || bool_decide (op.2 = []) then None else Some op.2) hs.
Proof.
  unfold kept_values, latest. induction hs as [|h hs IH]; [done|]. cbn [omap list_omap].
  destruct (head (versions_at h m)) as [n|]; [|exact IH].
  cbn [fmap option_fmap option_map mbind option_bind fst snd].
  set (f := hdr_dml_flag_ (n_buf_ n)). set (v := hdr_buf_ (n_buf_ n)).
  destruct (f =? DF_DELETE) eqn:E1; cbn [orb]; [rewrite filter_cons_False; [exact IH|]|].
  { intros [H _]. change (is_deleted_ (row_of_node n)) with (f =? DF_DELETE) in H. congruence. }
  case_bool_decide as E2; [rewrite filter_cons_False; [exact IH|]|].
  { intros [_ H]. by apply H. }
  rewrite filter_cons_True by (split; [exact E1|exact E2]). cbn [fmap list_fmap]. by f_equal.
Qed.


