(* ===== verification/Compaction.v ===== *)
(** * Compaction

    Models [src/src/storage/compaction/ob_compaction.h/.cpp] and
    [ob_compaction_util.h]: the mini merge, which writes a frozen memtable to
    an SSTable, and the merges of SSTables.  The codes of the builder are
    ignored by the code, so they are here. *)

From S2P Require Import Prelude Pod StoreTypes OrdMap MvccRow QueryEngine MvccEngine Posix BlockFormat MacroBlock SSTable LogEntry LogStorage Palf LogService Memtable.

Definition MINI_MERGE_LEVEL : Z := 1.
Definition MINOR_MERGE_LEVEL : Z := 2.
Definition MAJOR_MERGE_LEVEL : Z := 3.
Definition MINI_SSTABLE_TRIGGER : Z := 4.
Definition MINOR_SSTABLE_TRIGGER : Z := 8.

(** [mini_merge]: the code, [out_sstable]. *)
Definition mini_merge_end_key : ObStoreRowkey := ObStoreRowkey_new (Some [255; 255; 255; 255]) 4.
Definition ObCompaction_mini_merge (frozen_memtable : ObMemtable) (desc : ObDataStoreDesc) (data_path meta_path : string)
    (s : os) : outcome (Z * ObSSTable * os) :=
  x ← ObSSTableBuilder_init desc data_path meta_path ObSSTableBuilder_new;
  let '(_, builder) := x : Z * ObSSTableBuilder in
  y ← ObMemtable_scan ObStoreCtx_default (ObStoreRowkey_new (Some []) 0) false mini_merge_end_key false [] frozen_memtable;
  let '(_, rows) := y : Z * list ObStoreRow in
  builder ← builder_append_rows rows builder;
  z ← ObSSTableBuilder_close builder s;
  let '(_, builder, s) := z : Z * ObSSTableBuilder * os in
  Done (0, ObSSTableBuilder_get_sstable builder, s).

(** [merge_sstables_]: the loop over the inputs has no effect. *)
Definition ObCompaction_merge_sstables_ (inputs : list (option ObSSTable)) (desc : ObDataStoreDesc)
    (data_path meta_path : string) (s : os) : outcome (Z * ObSSTable * os) :=
  x ← ObSSTableBuilder_init desc data_path meta_path ObSSTableBuilder_new;
  let '(_, builder) := x : Z * ObSSTableBuilder in
  z ← ObSSTableBuilder_close builder s;
  let '(_, builder, s) := z : Z * ObSSTableBuilder * os in
  Done (0, ObSSTableBuilder_get_sstable builder, s).
Definition ObCompaction_minor_merge (input_sstables : list (option ObSSTable)) (desc : ObDataStoreDesc)
    (data_path meta_path : string) (s : os) : outcome (Z * ObSSTable * os) :=
  ObCompaction_merge_sstables_ input_sstables desc data_path meta_path s.
Definition ObCompaction_major_merge (input_sstables : list (option ObSSTable)) (old_major : option ObSSTable)
    (desc : ObDataStoreDesc) (data_path meta_path : string) (s : os) : outcome (Z * ObSSTable * os) :=
  let all := input_sstables ++ match old_major with Some t => [Some t] | None => [] end in
  ObCompaction_merge_sstables_ all desc data_path meta_path s.

(** ** The mini merge *)

(** The newest version of every hash, in hash order, as it is stored: flag, no
    key, value. *)
Definition dumped_rows (m : contents) : list stored_row :=
  omap (λ h, (λ op : ObDmlFlag * bytes, (u8 op.1, [], op.2)) <$> latest m h) (sorted_hashes m).
Definition dumped_fit (lo hi : Z) (m : contents) : Prop :=
  ∀ h f v, latest m h = Some (f, v) → lo ≤ 9 + blen v ≤ hi ∧ blen v < 2 ^ 31.

Lemma scan_images m (hs : list Z) :
  (row_image <$> omap (λ h, row_of_node <$> head (versions_at h m)) hs)
  = omap (λ h, (λ op : ObDmlFlag * bytes, (u8 op.1, [], op.2)) <$> latest m h) hs.
Proof.
  induction hs as [|h hs IH]; [done|]. cbn [omap list_omap]. unfold latest at 1.
  destruct (head (versions_at h m)); cbn; [by f_equal|done].
Qed.

Lemma row_of_node_fits n lo hi : let v := hdr_buf_ (n_buf_ n) in lo ≤ 9 + blen v ≤ hi → blen v < 2 ^ 31 →
  row_fits lo hi (row_of_node n).
Proof.
  intros v Hb Hv. split; [split; [split; [done|constructor]|done]|].
  change (record_of (row_of_node n)) with ([u8 (hdr_dml_flag_ (n_buf_ n))] ++ le_enc 4 0 ++ [] ++ le_enc 4 (blen v) ++ v).
  autorewrite with blen. change (blen [_]) with 1. change (blen []) with 0. lia.
Qed.

Lemma scan_fits lo hi m (hs : list Z) : dumped_fit lo hi m →
  Forall (row_fits lo hi) (omap (λ h, row_of_node <$> head (versions_at h m)) hs).
Proof.
  intros Hfit. induction hs as [|h hs IH]; [constructor|]. cbn [omap list_omap].
  destruct (head (versions_at h m)) as [n|] eqn:E; cbn [fmap option_fmap option_map]; [|done]. constructor; [|done].
  destruct (Hfit h (hdr_dml_flag_ (n_buf_ n)) (hdr_buf_ (n_buf_ n))) as [H1 H2]; [unfold latest; by rewrite E|].
  by apply row_of_node_fits.
Qed.

Lemma omap_length {A B} (f : A → option B) (l : list A) : (length (omap f l) ≤ length l)%nat.
Proof. induction l as [|x l IH]; [done|]. cbn [omap list_omap]. destruct (f x); cbn [length]; lia. Qed.



(** ** Merging SSTables *)

(** Merging SSTables drops their rows.  Whatever SSTables a minor or a major
    merge is given, it returns 0 and an SSTable without any row. *)
Theorem merges_drop_all_rows inputs old_major desc lo hi dp mp s :
  sizes_fit desc lo hi → desc_i64 desc → dp ≠ mp → os_wf s → os_faults s = [] →
  ∃ t s', ObCompaction_minor_merge inputs desc dp mp s = Done (0, t, s')
    ∧ ObCompaction_major_merge inputs old_major desc dp mp s = Done (0, t, s')
    ∧ sstable_rows t s' = Done (0, []).
Proof.
  intros Hfit Hd Hne Hw Hf. destruct (build_rows_ok desc lo hi [] dp mp s Hfit Hd ltac:(constructor) ltac:(done) Hne Hw Hf)
    as (b1 & b2 & b3 & s' & E1 & E2 & E3 & E4 & _). injection E2 as <-.
  exists (ObSSTableBuilder_get_sstable b3), s'.
  unfold ObCompaction_minor_merge, ObCompaction_major_merge, ObCompaction_merge_sstables_.
  rewrite E1. cbn [mbind outcome_bind]. by rewrite E3.
Qed.

Lemma merges_drop_all_rows_witness :
  ∃ t s', ObCompaction_minor_merge [Some ObSSTable_new] (small_desc 4300) "data" "meta" os_empty = Done (0, t, s')
    ∧ ObCompaction_major_merge [Some ObSSTable_new] None (small_desc 4300) "data" "meta" os_empty = Done (0, t, s')
    ∧ sstable_rows t s' = Done (0, []).
Proof.
  apply (merges_drop_all_rows [Some ObSSTable_new] None (small_desc 4300) 10 20 "data" "meta" os_empty).
  - repeat split; vm_compute; congruence.
  - repeat split; vm_compute; congruence.
  - discriminate.
  - apply os_empty_wf.
  - reflexivity.
Defined.
