(* ===== verification/Recovery.v ===== *)
(** * Crash recovery of a memtable from its log

    Composes the memtable's write path, the log stream and the replay of the
    log service: what was written through the log before a restart is what a
    new memtable holds after [open_ls], [register_replay_handler] and
    [replay_ls]. *)

From S2P Require Import Prelude Pod StoreTypes OrdMap MvccRow QueryEngine MvccEngine Posix LogEntry LogStorage Palf LogService Memtable.

(** ** Writing through a durable log *)

(** Bytes of log that a row takes. *)
Definition row_log_size (row : ObStoreRow) : Z := 64 + blen (record_of row).
Definition rows_log_size (rows : list ObStoreRow) : Z := foldr (λ row n, row_log_size row + n) 0 rows.
Definition row_op_record (row : ObStoreRow) : Z * bytes := (TABLET_OP_LOG_BASE_TYPE, record_of row).

Lemma record_of_pos row : 0 < blen (record_of row).
Proof.
  unfold record_of. autorewrite with blen.
  pose proof (blen_nonneg (rk_buf_ (rowkey_ row))). pose proof (blen_nonneg (row_value_ row)). lia.
Qed.

Lemma rows_log_size_cons row rows :
  rows_log_size (row :: rows) = 64 + blen (record_of row) + rows_log_size rows.
Proof. done. Qed.

Lemma rows_log_size_nonneg rows : 0 ≤ rows_log_size rows.
Proof.
  induction rows as [|row rows IH]; [done|]. rewrite rows_log_size_cons.
  pose proof (record_of_pos row). lia.
Qed.

Section Write.
Context {L : Type} `{!AppendLog L, !DurableLog L}.

(** A successful [multi_set] leaves every record in the log, in order, and the
    rows applied in that order. *)
Lemma multi_set_durable ctx rows mt m lg ops room mt' lg' : mt_repr mt m →
  mt_is_frozen_ mt = false → mt_log_handler_ mt = true → Forall row_wf rows →
  log_holds lg ops room → rows_log_size rows ≤ room →
  ObMemtable_multi_set ctx rows mt lg = Done (0, mt', lg') →
  log_holds lg' (ops ++ (row_op_record <$> rows)) (room - rows_log_size rows)
  ∧ ∃ m', mt_repr mt' m' ∧ ∀ h, latest m' h = foldl apply_row (latest m) rows h.
Proof.
  revert mt m lg ops room. induction rows as [|row rows IH];
    intros mt m lg ops room Hmt Hfz Hlh Hwf Hlg Hroom Hset.
  - cbn in *. inv_done. rewrite app_nil_r, Z.sub_0_r. eauto.
  - apply Forall_cons in Hwf as [Hrow Hwf]. rewrite rows_log_size_cons in *.
    pose proof (rows_log_size_nonneg rows).
    destruct (log_append_law lg ops room TABLET_OP_LOG_BASE_TYPE (record_of row) Hlg
                (record_of_pos row)) as (lg1 & Ha & Hlg1); [lia|].
    destruct (set_after_log ctx row mt m lg lg1 Hmt Hfz Hrow) as (mt1 & Hs & Hmt1 & Hfz1 & Hlh1 & _);
      [by rewrite Hlh|].
    cbn [ObMemtable_multi_set] in Hset. rewrite Hs in Hset. cbn [mbind outcome_bind] in Hset.
    destruct (Z.eqb_spec (spec_set ctx row m).1 0) as [Hz|]; [|inv_done; congruence].
    cbn [negb] in Hset.
    destruct (IH mt1 _ lg1 _ _ Hmt1 Hfz1 ltac:(congruence) Hwf Hlg1 ltac:(lia) Hset)
      as (Hlg' & m' & Hmt' & Hlat).
    split.
    + rewrite fmap_cons. change (ops ++ row_op_record row :: ?k) with (ops ++ [row_op_record row] ++ k).
      rewrite app_assoc.
      by replace (room - (64 + blen (record_of row) + rows_log_size rows))
        with (room - 64 - blen (record_of row) - rows_log_size rows) by lia.
    + exists m'. split; [done|]. intros h. rewrite Hlat. cbn [foldl]. apply apply_rows_ext.
      intros h'. by apply latest_set.
Qed.
End Write.

(** ** Replaying into a new memtable *)

(** The replayed memtable has no log handler while it replays. *)
#[local] Existing Instance no_log.

(** The memtable registered for tablet operations; [hi_key], [hi_val] as in
    [ObMemtable_replay]. *)
Definition memtable_replays (hi_key hi_val : Z) : ReplaySubHandlers ObMemtable :=
  λ _ buf nbytes _ _ mt,
    x ← ObMemtable_replay hi_key hi_val (Some buf) nbytes mt tt;
    let '(ret, mt, _) := x : Z * ObMemtable * unit in Done (ret, mt).

Definition registered (self : positive) (h : ObLogHandler) : ObLogHandler :=
  (ObLogHandler_register_replay_handler TABLET_OP_LOG_BASE_TYPE self h).2.

(** Live memtables. *)
Definition mt_live (mt : ObMemtable) : Prop := (∃ m, mt_repr mt m) ∧ mt_is_frozen_ mt = false.

(** What a payload does to a memtable. *)
Definition replay_step (payload : bytes) (mt : ObMemtable) : ObMemtable :=
  match ObMemtable_replay 0 0 (Some (drop 16 payload)) (blen payload - 16) mt tt with
  | Done (_, mt', _) => mt'
  | _ => mt
  end.

Lemma replay_step_record row mt m : row_loggable row → mt_repr mt m → mt_is_frozen_ mt = false →
  mt_repr (replay_step (log_payload TABLET_OP_LOG_BASE_TYPE (record_of row)) mt)
    (spec_set ObStoreCtx_default row m).2
  ∧ mt_is_frozen_ (replay_step (log_payload TABLET_OP_LOG_BASE_TYPE (record_of row)) mt) = false.
Proof.
  intros Hrow Hmt Hfz. unfold replay_step. rewrite blen_log_payload.
  change (drop 16 (log_payload TABLET_OP_LOG_BASE_TYPE (record_of row))) with (record_of row).
  pose proof (record_of_pos row). rewrite <-(app_nil_r (record_of row)).
  destruct (replay_record_repr row [] (16 + blen (record_of row ++ []) - 16) mt m tt Hrow)
    as (mt' & -> & Hmt' & Hfz'); [rewrite app_nil_r; lia|done..].
Qed.

(** The handler dispatches tablet records to the memtable. *)
Lemma handler_replays self h row : row_loggable row →
  @replays ObMemtable (memtable_replays 0 0) mt_live replay_step (registered self h)
    (log_payload TABLET_OP_LOG_BASE_TYPE (record_of row)).
Proof.
  intros Hrow lsn junk mt [[m Hmt] Hfz]. pose proof (record_of_pos row).
  destruct (replay_step_record row mt m Hrow Hmt Hfz) as [Hs1 Hs2].
  rewrite blen_log_payload, handler_replay_payload by done.
  cbn [registered ObLogHandler_register_replay_handler snd lh_replay_handlers_]. rewrite lookup_insert_eq.
  unfold replay_sub, memtable_replays.
  destruct (replay_record_repr row junk (blen (record_of row)) mt m tt Hrow ltac:(lia) Hmt Hfz)
    as (mt' & Hr & Hmt' & Hfz').
  rewrite Hr. cbn [mbind outcome_bind].
  assert (replay_step (log_payload TABLET_OP_LOG_BASE_TYPE (record_of row)) mt = mt') as Heq.
  { unfold replay_step. rewrite blen_log_payload.
    change (drop 16 (log_payload TABLET_OP_LOG_BASE_TYPE (record_of row))) with (record_of row).
    replace (16 + blen (record_of row) - 16) with (blen (record_of row)) by lia.
    rewrite <-(app_nil_r (record_of row)) at 1. rewrite replay_record in Hr |- * by (done || lia).
    by rewrite Hr. }
  exists 0. unfold log_payload in *. rewrite Heq in *. split; [done|]. split; [eauto|done].
Qed.

Lemma replay_all_rows es rows mt m : Forall row_loggable rows → mt_repr mt m →
  mt_is_frozen_ mt = false → records es (row_op_record <$> rows) →
  ∃ m', mt_repr (replay_all replay_step es mt) m'
        ∧ ∀ h, latest m' h = foldl apply_row (latest m) rows h.
Proof.
  unfold records. intros Hall. revert es mt m.
  induction Hall as [|row rows Hrow Hall IH]; intros es mt m Hmt Hfz Hrec;
    destruct es as [|e es]; try done; [by exists m|].
  rewrite !fmap_cons in Hrec. injection Hrec as He Hrec.
  unfold replay_all. cbn [foldl]. fold (replay_all replay_step es (replay_step (en_payload e) mt)).
  rewrite He. cbn [row_op_record fst snd].
  destruct (replay_step_record row mt m Hrow Hmt Hfz) as [Hmt1 Hfz1].
  destruct (IH es _ _ Hmt1 Hfz1 Hrec) as (m' & Hm' & Hlat). exists m'. split; [done|].
  intros h. rewrite Hlat. apply apply_rows_ext. intros h'. apply latest_set, spec_set_default_ok.
Qed.

(** ** Restart *)

(** The service with the memtable registered on the handler at [l]. *)
Definition svc_registered (l self : positive) (v : ObLogService) : ObLogService :=
  set_svc_heap (alter (registered self) l (svc_heap v)) v.

(** The records of a row fit one read of the replay loop. *)
Definition row_replayable (row : ObStoreRow) : Prop := row_loggable row ∧ row_log_size row ≤ SCAN_BUF.

(** Opening the log after a restart and replaying it into a new memtable gives
    a memtable that holds [rows], applied in order. *)
Lemma open_and_replay fuel ls_id v s rows es endl self mt :
  svc_handlers_ v !! ls_id = None →
  disk_repr (ls_log_dir (svc_palf_env_ v) ls_id) s es endl →
  records es (row_op_record <$> rows) → Forall row_replayable rows →
  (length rows < fuel)%nat → mt_repr mt ∅ → mt_is_frozen_ mt = false →
  ∃ l v1 s1 s2 mt' m', ObLogService_open_ls fuel ls_id None v s = Done (0, Some l, v1, s1)
    ∧ @ObLogService_replay_ls _ (memtable_replays 0 0) fuel ls_id (svc_registered l self v1) s1 mt
      = Done (0, s2, mt')
    ∧ mt_repr mt' m' ∧ ∀ h, latest m' h = foldl apply_row (λ _, None) rows h.
Proof.
  intros Hv Hd Hrec Hrows Hfu Hmt Hfz.
  assert (length es < fuel)%nat as Hfu' by (rewrite (records_length _ _ Hrec), length_fmap; done).
  destruct (open_ls_spec fuel ls_id v s es endl None Hv Hd Hfu') as (l & v1 & s1 & h & Ho & Hv1 & Hh & Hrep & _).
  exists l, v1, s1. rewrite Ho.
  destruct (replay_all_rows es rows mt ∅) as (m' & Hm' & Hlat); [|done..|].
  { eapply Forall_impl; [done|]. by intros row []. }
  assert (Forall (λ e, @replays ObMemtable (memtable_replays 0 0) mt_live replay_step
             (registered self h) (en_payload e) ∧ entry_size e ≤ SCAN_BUF ∧ 0 < blen (en_payload e)) es)
    as Hall.
  { clear -Hrec Hrows. unfold records in Hrec. revert es Hrec.
    induction Hrows as [|row rows [Hrow Hsz] Hrows IH]; intros [|e es] Hrec; try done.
    rewrite !fmap_cons in Hrec. injection Hrec as He Hrec. constructor; [|by apply IH].
    rewrite He. cbn [row_op_record fst snd]. split; [by apply handler_replays|].
    unfold entry_size. rewrite He. cbn [row_op_record fst snd]. rewrite blen_log_payload.
    unfold row_log_size in Hsz. pose proof (record_of_pos row). lia. }
  destruct (@replay_ls_spec ObMemtable (memtable_replays 0 0) mt_live replay_step fuel ls_id (svc_registered l self v1) l
              (registered self h) s1 mt (ls_log_dir (svc_palf_env_ v) ls_id) es endl
              (if 0 <? endl then 2 else FIRST_VALID_LOG_ID)) as (s2 & Hs2 & _); try done.
  { cbn. rewrite lookup_alter_eq, Hh. done. }
  { split; [by exists ∅|done]. }
  exists s2, (replay_all replay_step es mt), m'. split_and!; [done..|].
  intros h'. rewrite Hlat. by apply apply_rows_ext.
Qed.

(** What a read of [rk] returns: the code and the operations found. *)
Definition read_op (rk : ObStoreRowkey) (mt : ObMemtable) : outcome (Z * list (ObDmlFlag * bytes)) :=
  x ← ObMemtable_get ObStoreCtx_default rk [] mt;
  let '(ret, rows) := x : Z * list ObStoreRow in Done (ret, row_op <$> rows).

Lemma read_op_latest rk mt m : mt_repr mt m →
  read_op rk mt = Done (match latest m (row_hash rk) with Some op => (0, [op]) | None => (-1, []) end).
Proof.
  intros Hmt. unfold read_op. rewrite (memtable_get_spec _ _ _ _ m Hmt).
  unfold spec_get, latest. rewrite Z.eqb_refl. cbn [orb].
  by destruct (head (versions_at (row_hash rk) m)) as [n|].
Qed.

(** ** No write is refused when all use one snapshot *)

Definition max_le (s : Z) (m : contents) : Prop := ∀ h mx vs, m !! h = Some (mx, vs) → mx ≤ s.

Lemma spec_set_same_snapshot ctx row m : 0 ≤ snapshot_version_ ctx → max_le (snapshot_version_ ctx) m →
  (spec_set ctx row m).1 = 0 ∧ max_le (snapshot_version_ ctx) (spec_set ctx row m).2.
Proof.
  intros Hs Hm. unfold spec_set. destruct (default (0, []) _) as [mx vs] eqn:E.
  assert (mx ≤ snapshot_version_ ctx) as Hmx.
  { destruct (m !! row_hash (rowkey_ row)) as [[mx' vs']|] eqn:Hl; cbn in E; simplify_eq; [by eapply Hm|done]. }
  destruct (Z.ltb_spec (snapshot_version_ ctx) mx); [lia|]. rewrite andb_false_r. split; [done|].
  intros h mx' vs'. cbn [snd]. rewrite lookup_insert. case_decide; [|by eauto].
  intros [= <- _]. destruct (_ =? _); lia.
Qed.

Section WriteAll.
Context {L : Type} `{!AppendLog L, !DurableLog L}.

Lemma multi_set_succeeds ctx rows mt m lg ops room : mt_repr mt m →
  mt_is_frozen_ mt = false → mt_log_handler_ mt = true → Forall row_wf rows →
  0 ≤ snapshot_version_ ctx → max_le (snapshot_version_ ctx) m →
  log_holds lg ops room → rows_log_size rows ≤ room →
  ∃ mt' lg', ObMemtable_multi_set ctx rows mt lg = Done (0, mt', lg').
Proof.
  revert mt m lg ops room. induction rows as [|row rows IH];
    intros mt m lg ops room Hmt Hfz Hlh Hwf Hs Hm Hlg Hroom; [by do 2 eexists|].
  apply Forall_cons in Hwf as [Hrow Hwf]. rewrite rows_log_size_cons in *.
  pose proof (rows_log_size_nonneg rows).
  destruct (log_append_law lg ops room TABLET_OP_LOG_BASE_TYPE (record_of row) Hlg
              (record_of_pos row)) as (lg1 & Ha & Hlg1); [lia|].
  destruct (set_after_log ctx row mt m lg lg1 Hmt Hfz Hrow) as (mt1 & Hset & Hmt1 & Hfz1 & Hlh1 & _);
    [by rewrite Hlh|].
  destruct (spec_set_same_snapshot ctx row m Hs Hm) as [Hz Hm1].
  cbn [ObMemtable_multi_set]. rewrite Hset, Hz. cbn [mbind outcome_bind Z.eqb negb].
  eapply (IH mt1); [done|done|congruence|done..|lia].
Qed.
End WriteAll.

Definition memtable_at (tablet_id : Z) : ObMemtable := (ObMemtable_init tablet_id ObMemtable_new).2.

(** Attaching a new memtable to a new log stream. *)
Lemma wal_attach fuel base ls_id tid self s0 :
  os_faults s0 = [] → sys_exists (block_path (ls_dir base ls_id) 0) s0 = false →
  sys_exists (block_path (ls_dir base ls_id) 1) s0 = false → (0 < fuel)%nat →
  ∃ l v1 s1 h, ObLogService_open_ls fuel ls_id None (service_at base) s0 = Done (0, Some l, v1, s1)
    ∧ svc_heap v1 !! l = Some h
    ∧ log_ctx_holds (ls_dir base ls_id) (mkLogCtx h (svc_palf_env_ v1) s1) [] (PALF_BLOCK_SIZE - SCAN_BUF)
    ∧ let mt := (ObMemtable_set_log_handler self (Some h) (memtable_at tid)).1 in
      mt_repr mt ∅ ∧ mt_is_frozen_ mt = false ∧ mt_log_handler_ mt = true.
Proof.
  intros Hf H0 H1 Hfu. pose proof (memtable_init_repr tid) as (mt & Hi & Hmt & Hfz & _).
  assert (memtable_at tid = mt) as -> by (unfold memtable_at; by rewrite Hi).
  destruct (open_ls_fresh fuel ls_id (service_at base) s0 None) as (l & v1 & s1 & h & id & Ho & _ & Hh & Hrep & Hid & _);
    [done..|].
  exists l, v1, s1, h. split; [done|]. split; [done|]. split; [|split; [exact Hmt|by split]].
  exists [], 0, id. split_and!; [done|done|lia|]. change (PALF_BLOCK_SIZE - SCAN_BUF) with 67100672. lia.
Qed.

(** Restarting from the log of [rows]. *)
Lemma wal_restart fuel base ls_id tid self lg rows room s2 :
  log_ctx_holds (ls_dir base ls_id) lg (row_op_record <$> rows) room → reboot (lc_os lg) s2 →
  Forall row_replayable rows → (length rows < fuel)%nat →
  ∃ l v s3 s4 mt m, ObLogService_open_ls fuel ls_id None (service_at base) s2 = Done (0, Some l, v, s3)
    ∧ @ObLogService_replay_ls _ (memtable_replays 0 0) fuel ls_id (svc_registered l self v) s3
        (memtable_at tid) = Done (0, s4, mt)
    ∧ mt_repr mt m ∧ ∀ h, latest m h = foldl apply_row (λ _, None) rows h.
Proof.
  intros (es & endl & id & Hrep & Hrec & _ & _) Hreb Hrows Hfu.
  pose proof (memtable_init_repr tid) as (mt & Hi & Hmt & Hfz & _).
  assert (memtable_at tid = mt) as -> by (unfold memtable_at; by rewrite Hi).
  pose proof (disk_repr_reboot _ _ _ _ _ Hreb (handler_repr_disk _ _ _ _ _ _ _ Hrep)) as Hdisk.
  by apply (open_and_replay fuel ls_id (service_at base) s2 rows es endl self mt).
Qed.


(** A row for the examples. *)
Definition demo_row (k v : Z) : ObStoreRow :=
  mkRow DF_INSERT 0 OB_INVALID_TRANS_ID (rowkey_of [k]) [v] false.

Lemma demo_row_replayable k v : is_byte k → is_byte v → row_replayable (demo_row k v).
Proof.
  intros Hk Hv. split; [|done]. split_and!; try done. split; [done|]. by constructor.
Qed.


(** ** A refused write comes back *)

Section Refused.
Context {L : Type} `{!AppendLog L, !DurableLog L}.

(** [set] logs the record before it checks the snapshot: a write with an older
    snapshot than an earlier write of the same hash is refused and logged. *)
Lemma set_stale_logged ctx ctx2 row row2 mt m lg ops room : mt_repr mt m → mt_is_frozen_ mt = false →
  mt_log_handler_ mt = true → row_wf row → row_wf row2 →
  row_hash (rowkey_ row2) = row_hash (rowkey_ row) → max_le (snapshot_version_ ctx) m →
  0 ≤ snapshot_version_ ctx2 < snapshot_version_ ctx → snapshot_version_ ctx < OB_INVALID_VERSION →
  log_holds lg ops room → rows_log_size [row; row2] ≤ room →
  ∃ mt1 lg1 mt2 lg2 m2, ObMemtable_set ctx row mt lg = Done (0, mt1, lg1)
    ∧ ObMemtable_set ctx2 row2 mt1 lg1 = Done (-1, mt2, lg2)
    ∧ mt_repr mt2 m2 ∧ latest m2 (row_hash (rowkey_ row2)) = Some (row_op row)
    ∧ ∃ room', log_holds lg2 (ops ++ [row_op_record row; row_op_record row2]) room'.
Proof.
  intros Hmt Hfz Hlh Hrow Hrow2 Hh Hmax Hs Hsi Hlg Hroom. rewrite !rows_log_size_cons in Hroom. change (rows_log_size []) with 0 in Hroom.
  pose proof (record_of_pos row). pose proof (record_of_pos row2).
  destruct (log_append_law lg ops room TABLET_OP_LOG_BASE_TYPE (record_of row) Hlg ltac:(done) ltac:(lia))
    as (lg1 & Ha & Hlg1).
  destruct (set_after_log ctx row mt m lg lg1 Hmt Hfz Hrow ltac:(by rewrite Hlh))
    as (mt1 & Hset & Hmt1 & Hfz1 & Hlh1 & _).
  destruct (spec_set_same_snapshot ctx row m ltac:(lia) Hmax) as [Hz _]. pose proof (latest_set ctx row m) as Hlat.
  destruct (log_append_law lg1 _ _ TABLET_OP_LOG_BASE_TYPE (record_of row2) Hlg1 ltac:(done) ltac:(lia))
    as (lg2 & Ha2 & Hlg2).
  destruct (set_after_log ctx2 row2 mt1 _ lg1 lg2 Hmt1 Hfz1 Hrow2 ltac:(rewrite Hlh1, Hlh; done))
    as (mt2 & Hset2 & Hmt2 & _).
  assert (∃ mx vs, (spec_set ctx row m).2 !! row_hash (rowkey_ row) = Some (mx, vs) ∧ snapshot_version_ ctx ≤ mx)
    as (mx & vs & Hlk & Hmx).
  { unfold spec_set in Hz |- *. destruct (default (0, []) (m !! row_hash (rowkey_ row))) as [mx vs].
    destruct (negb _ && _); [done|]. cbn [snd]. lk. eexists _, _. split; [done|].
    rewrite (proj2 (Z.eqb_neq _ _)) by lia. lia. }
  assert (spec_set ctx2 row2 (spec_set ctx row m).2 = (-1, (spec_set ctx row m).2)) as Hst.
  { unfold spec_set at 1, kv_created. rewrite Hh, Hlk. cbn [default id]. rewrite (proj2 (Z.eqb_neq _ _)) by lia.
    rewrite (proj2 (Z.ltb_lt _ _)) by lia. done. }
  rewrite Hst in Hset2, Hmt2. rewrite Hz in Hset. cbn [fst snd] in *.
  exists mt1, lg1, mt2, lg2, (spec_set ctx row m).2. split_and!; [done..| |].
  - rewrite (Hlat _ Hz). unfold apply_row. by rewrite bool_decide_eq_true_2.
  - eexists. rewrite <-app_assoc in Hlg2. exact Hlg2.
Qed.
End Refused.

(** C38: a write that was refused is applied by recovery.  [ObMemtable::set]
    appends the record to the log before it checks the snapshot.  Write a row,
    then write another value for the same key hash with an older snapshot: the
    second call fails and readers keep seeing the first value; after a restart
    the replayed memtable returns the refused one. *)
Theorem refused_write_is_replayed fuel base ls_id tid self self' s0 row row2 ctx ctx2 :
  os_faults s0 = [] → sys_exists (block_path (ls_dir base ls_id) 0) s0 = false →
  sys_exists (block_path (ls_dir base ls_id) 1) s0 = false → (2 < fuel)%nat →
  row_replayable row → row_replayable row2 → row_hash (rowkey_ row2) = row_hash (rowkey_ row) →
  0 ≤ snapshot_version_ ctx2 < snapshot_version_ ctx → snapshot_version_ ctx < OB_INVALID_VERSION →
  ∃ l v1 s1 h, ObLogService_open_ls fuel ls_id None (service_at base) s0 = Done (0, Some l, v1, s1)
    ∧ svc_heap v1 !! l = Some h
    ∧ ∃ mt1 lg1 mt2 lg2,
        ObMemtable_set ctx row (ObMemtable_set_log_handler self (Some h) (memtable_at tid)).1
          (mkLogCtx h (svc_palf_env_ v1) s1) = Done (0, mt1, lg1)
      ∧ ObMemtable_set ctx2 row2 mt1 lg1 = Done (-1, mt2, lg2)
      ∧ read_op (rowkey_ row2) mt2 = Done (0, [row_op row])
      ∧ ∀ s2, reboot (lc_os lg2) s2 →
        ∃ l' v' s3 s4 mt3,
          ObLogService_open_ls fuel ls_id None (service_at base) s2 = Done (0, Some l', v', s3)
          ∧ @ObLogService_replay_ls _ (memtable_replays 0 0) fuel ls_id (svc_registered l' self' v') s3
              (memtable_at tid) = Done (0, s4, mt3)
          ∧ read_op (rowkey_ row2) mt3 = Done (0, [row_op row2]).
Proof.
  intros Hf H0 H1 Hfu Hrow Hrow2 Hh Hs Hsi.
  destruct (wal_attach fuel base ls_id tid self s0) as (l & v1 & s1 & h & Ho & Hhd & Hlg & Hmt & Hfz & Hlh);
    [done..|lia|].
  exists l, v1, s1, h. split_and!; [done..|]. pose (dl := log_ctx_durable (ls_dir base ls_id)).
  assert (rows_log_size [row; row2] ≤ PALF_BLOCK_SIZE - SCAN_BUF) as Hroom.
  { destruct Hrow as [_ H2], Hrow2 as [_ H3]. rewrite !rows_log_size_cons. unfold row_log_size, SCAN_BUF in *.
    change (rows_log_size []) with 0. change PALF_BLOCK_SIZE with 67104768. lia. }
  destruct (set_stale_logged (DurableLog0 := dl) ctx ctx2 row row2 _ ∅ _ [] _ Hmt Hfz Hlh
              (proj1 (proj1 Hrow)) (proj1 (proj1 Hrow2)) Hh ltac:(intros ??? Hl; by rewrite lookup_empty in Hl)
              Hs Hsi Hlg Hroom)
    as (mt1 & lg1 & mt2 & lg2 & m2 & Hset & Hset2 & Hm2 & Hlat & room' & Hlg2).
  exists mt1, lg1, mt2, lg2. split_and!; [done..| |].
  { by rewrite (read_op_latest _ mt2 m2 Hm2), Hlat. }
  intros s2 Hreb.
  destruct (wal_restart fuel base ls_id tid self' lg2 [row; row2] room' s2 Hlg2 Hreb)
    as (l' & v' & s3 & s4 & mt3 & m3 & Ho2 & Hrp & Hm3 & Hlat3); [by repeat apply Forall_cons_2|cbn; lia|].
  exists l', v', s3, s4, mt3. split_and!; [done..|]. rewrite (read_op_latest _ mt3 m3 Hm3), Hlat3.
  cbn [foldl]. unfold apply_row. by rewrite bool_decide_eq_true_2.
Qed.

Lemma refused_write_is_replayed_witness :
  ∃ l v1 s1 h, ObLogService_open_ls 3 1 None (service_at "d") os_empty = Done (0, Some l, v1, s1)
    ∧ svc_heap v1 !! l = Some h
    ∧ ∃ mt1 lg1 mt2 lg2,
        ObMemtable_set (mkCtx 1 9 0) (demo_row 1 7)
          (ObMemtable_set_log_handler 1%positive (Some h) (memtable_at 5)).1
          (mkLogCtx h (svc_palf_env_ v1) s1) = Done (0, mt1, lg1)
      ∧ ObMemtable_set (mkCtx 2 4 0) (demo_row 1 8) mt1 lg1 = Done (-1, mt2, lg2)
      ∧ read_op (rowkey_of [1]) mt2 = Done (0, [(DF_INSERT, [7])]).
Proof.
  destruct (refused_write_is_replayed 3 "d" 1 5 1%positive 1%positive os_empty (demo_row 1 7) (demo_row 1 8)
              (mkCtx 1 9 0) (mkCtx 2 4 0)) as (l & v1 & s1 & h & H1 & H2 & mt1 & lg1 & mt2 & lg2 & H3 & H4 & H5 & _);
    [reflexivity|reflexivity|reflexivity|lia| | |reflexivity|cbn; lia|reflexivity|].
  1-2: apply demo_row_replayable; unfold is_byte; lia.
  exists l, v1, s1, h. split_and!; [assumption..|]. exists mt1, lg1, mt2, lg2. split_and!; assumption.
Defined.
